(* ===== verification/_CoqProject ===== *)
-Q . S2P
Prelude.v
Harness.v
Errors.v
F64.v
Crc32c.v
Primitives.v
Instances.v
Chunker.v
ChunkerTests.v
Frame.v
Digest.v
Session.v
SessionState.v
Fec.v
Qr.v
Bitmap.v
Utf8.v
Manifest.v
Resume.v
Pipeline.v
Transfer.v
CryptErrors.v
Display.v
UnitTests.v
Text.v
Vectors.v
CapacityTable.v
Kdf.v
Fs.v
Key.v
Aead.v
SignedManifest.v
Fuzz.v
Abi.v
AbiKeys.v
AbiCodec.v
AbiManifest.v
AbiLogic.v
AbiSystem.v
AbiSound.v
AbiOutput.v
AbiTransfer.v
AbiResume.v
AbiIntegrity.v
AbiSession.v
Reference.v
