(* ===== verification/Prelude.v ===== *)
(** * Dhow: verification library

    Dhow moves files across an air gap: a sender seals a payload, cuts it into
    blocks, protects each block with a fountain code, and shows the symbols as
    a stream of QR codes; a receiver films the stream in any order, rebuilds
    the blocks, checks and opens the payload. The Rust core under src/core is
    three crates, and this library models all three:

    - dhow-codec: wire formats, chunking, erasure coding, the sending and
      receiving pipeline, resume files;
    - dhow-crypt: key derivation, key files, payload encryption, signed
      manifests;
    - dhow-ffi: the C ABI through which the command line and the receiver
      tools, written in Go, use the other two.

    ** Conventions

    A definition has the name of the function, method or type it models; where
    Rust needs the type to tell two apart, the name is [Type_method]. A
    [Result] is an [outcome]: [Ok], [Err], or [Panic] for an assertion, an
    index out of range or an arithmetic overflow the build checks. A method
    that mutates its receiver is an [action], which takes and returns the
    state. A parameter [checks] says whether the build checks overflow; without
    the checks a machine integer wraps, and it is a [Z] in the range [urange w]
    of its width. Bytes are [list byte]. A [usize] has 64 bits.

    Code of other crates is a class of operations in [Primitives] (BLAKE3,
    RaptorQ, XChaCha20-Poly1305, Ed25519, qrcodegen, getrandom); the laws their
    documentation states are separate classes, taken only by the theorems that
    need them, and [Instances] gives executable operations that satisfy every
    law, on which the examples are computed. The RaptorQ crate panics on blocks
    with too many symbols and nothing in its documentation excludes a panic
    elsewhere: its constructors give an [option], [None] being a panic, which
    [or_panic] turns into the [Panic] of the caller; its laws ask for a
    transmission unit of 64 bytes, as the code does, and speak of the blocks that
    do encode, which within the limit of RFC 6330 are all ([RQ_MAX_SYMBOLS]).

    ** Files

    Foundations:
    - [Prelude]: outcomes, actions, machine integers, little-endian fields,
      slices, messages, the hint database [dhow] and the shared tactics;
    - [Harness]: programs made of assertions, for tests and fuzz targets;
    - [F64]: binary64 arithmetic; [Utf8]: strings; [Bitmap]: bit arrays;
      [Fs]: the Unix file system with failing calls, for the key store;
    - [Text]: the string functions of the standard library on bytes, for the
      programs that read and print lines;
    - [Primitives], [Instances]: the other crates, and concrete stand-ins;
    - [Errors], [CryptErrors], [Display]: the error enums and their texts.

    dhow-codec (src/core/dhow-codec/src):
    - [Crc32c] (crc32c.rs): the slicing-by-eight checksum;
    - [Digest] (blake3.rs): the one-shot and streaming digest;
    - [Chunker] (chunker.rs): [ChunkParams] and the block layout [ChunkMap];
    - [Frame] (frame.rs): the 46-byte header, its MAC, and frames;
    - [Session] (session.rs): parameters and the session header;
    - [SessionState] (session_state.rs): the transfer's state machine, its
      counters, and sequences of its calls;
    - [Fec] (fec.rs): the RaptorQ wrappers;
    - [Qr] (qr.rs): capacities, version choice, encoding, rendering;
    - [Manifest] (manifest.rs): names, entries, header, signing bytes;
    - [Resume] (resume.rs): the resume file;
    - [Pipeline] (pipeline.rs): the sender [Pipeline] and the receiver
      [PipelineDecoder];
    - [Transfer]: sender against receiver against resume file.

    dhow-crypt (src/core/dhow-crypt/src):
    - [Kdf] (kdf.rs): HKDF over keyed BLAKE3, and RFC 5869 as reference;
    - [Key] (key.rs): keys, the key file format, saving and loading;
    - [Aead] (aead.rs): transfer keys, sealing and opening;
    - [SignedManifest] (manifest.rs): signing, verification, policy.

    dhow-ffi (src/core/dhow-ffi/src):
    - [Abi] (error.rs, guard.rs, lib.rs, handle.rs): status codes, the state
      [Lib] (last error, live handles, caller memory, files, random source),
      the monad [abi] in which a body returns, unwinds or breaks its contract,
      the panic guards and the buffer conventions;
    - [AbiKeys], [AbiCodec], [AbiManifest] (handle.rs): the entry points;
    - [AbiLogic]: a weakest-precondition logic for [abi];
    - [AbiSystem]: the entry points as one type [Call] with its [contract],
      the invariant [lib_ok], what a call may do to the handles ([heap_step]),
      and traces of calls with anything the caller does in between;
    - [AbiSound]: every entry point against that specification;
    - [AbiOutput]: the two-call convention and the error text;
    - [AbiTransfer]: transfers and manifests between two processes;
    - [AbiResume]: saving a receiver in one process, replaying it in another;
    - [AbiIntegrity]: what a receiver hands out when an adversary feeds it;
    - [AbiSession]: a session from sealing and signing to the delivered payload.

    Programs around the crates:
    - [Fuzz] (fuzz/fuzz_targets): the five fuzz targets;
    - [Reference] (core/dhow-ffi/examples/reference.rs): the transcoder the Go
      tools are compared with, from its input lines to its output;
    - [CapacityTable] (core/dhow-codec/examples/gen_capacity.rs): the table of
      QR capacities;
    - [ChunkerTests], [UnitTests]: the tests beside chunker.rs, crc32c.rs,
      blake3.rs and the two lib.rs; [Vectors]: the vectors of
      proto/vectors.json for the wire formats.

    ** How the parts interact

    The encoder behind a handle is made by [dhow_encoder_new]: the operator key
    and the salt give the transfer keys ([Kdf], [Aead]), the payload is sealed,
    and a [Pipeline] of the session key turns the ciphertext into frames:
    blocks by [Chunker], symbols by the fountain code, one [Frame] each, the
    blocks interleaved. The decoder is a [PipelineDecoder] of the same session
    key: [accept] authenticates a frame, books its symbol in the bitmaps and
    the journal digest, and gives the packet to the block's decoder; [finish]
    reassembles and checks the digest, and [dhow_decoder_finish] opens the
    result. A resume file is the bitmaps and the journal digest, and is
    verified against a decoder that has replayed the journal. A manifest lists
    the files and carries the parameters and the sender's signature; the
    receiver accepts it under a pinned identity and its policy.

    ** What the theorems show

    - Delivery: any selection of the sender's frames, in any order and number,
      is accepted out of any noise; once the source symbols are there the
      receiver finishes with exactly the payload, and it never finishes with
      anything else ([Transfer], [Pipeline]); and the same through the C ABI,
      from the plaintext in one process to the plaintext in another
      ([AbiTransfer]), with everything but the keys taken from the signed
      manifest ([AbiSession]). The sender turns down no payload of its size, and
      encodes it whenever the blocks stay within the limit of RFC 6330.
    - Integrity: whatever a receiver is fed through the C ABI, what it hands
      out is exactly the sender's payload, or it fails and leaves the caller's
      memory alone; the only way out is a BLAKE3 collision of two ciphertexts
      under the operator key, and the theorem exhibits it ([AbiIntegrity]).
    - The ABI: no entry point whose contract is kept breaks memory safety or
      lets a panic through; the objects behind the handles keep their
      invariants along every trace; an integer answer is the count, flag,
      capacity or length asked for, or a failure's status; a decoder handle refines the pipeline's
      receiver ([AbiSound], [AbiTransfer]); buffers and error texts follow
      their conventions exactly ([AbiOutput]).
    - Programs: no input makes a fuzz target fail ([Fuzz]); the reference
      transcoder reads exactly the jobs written to it, and agrees byte for byte
      with the ABI on every one whose key loads ([Reference]); the capacity
      table says what encodes ([CapacityTable]); the tests pass, the property
      tests on all inputs and not only on generated ones ([ChunkerTests],
      [UnitTests]).
    - The session header: a header whose checksum covers the magic, as
      proto/session.md says and the vector of proto/vectors.json has it, is
      never accepted ([Session]); the other vectors are computed ([Vectors]).
    - Sessions: what any sequence of calls makes of the state machine, when its
      counters panic or wrap, and which states can still come ([SessionState]).
    - Wire formats: each parser never panics (up to stated bounds) and accepts
      exactly the serializations of well-formed values, so parsing and printing
      are inverse; what is covered by each checksum and MAC, and what is not
      ([Frame], [Session], [Manifest], [Resume], [Key]).
    - Books: the receiver's bitmaps, counts and journal digest are those of the
      frames it accepted; resume files round-trip, and verification succeeds
      exactly on the state they describe ([Pipeline], [Transfer]), also across
      two processes and the C ABI ([AbiResume]).
    - Cryptographic composition: derivation is HKDF; the manifests accepted are exactly the signed,
      session-bound and admissible ones; key files are owner-only when they are
      created, and what happens when they are not ([Kdf],
      [SignedManifest], [Key]).
    - Arithmetic: chunk layout and its bounds, checksum tables against the
      bitwise definition, capacities, progress in binary64, and the overflows
      the code has ([Chunker], [Crc32c], [Qr], [SessionState], [Resume]).

    ** Fuel and bounds

    The capacity search of [Qr] runs on [capacity_fuel] halvings, proved enough
    for its interval; the digits of a number ([Display]) take one step per bit.
    The crate's limit of 56403 symbols a block is met when the largest block,
    in symbols of the transmission unit rounded down to 8 bytes, has no more.
    Every other recursion is structural: on a list, on a count read from a
    header, or on a fixed number of blocks.

    ** Not modelled

    The Go command line and receiver tools, the benches, the integration tests
    (the files *_test.rs and tests/) and the scripts; the known answers of
    BLAKE3, which test the crate; [Debug] output and the zeroing of secrets on drop, which have
    no effect on results; constant-time comparison, modelled as comparison; the
    version string of the build; concurrent callers, each of which has its own
    error text and, by the contracts, its own handles; the non-Unix key store;
    and the insides of the crates in [Primitives], whose security is not stated
    here: the laws are functional (decryption inverts encryption), and no
    theorem claims that a forgery is infeasible. *)

From coqutil Require Export Byte Word.LittleEndianList.
From stdpp Require Export base tactics numbers strings option list.

#[global] Open Scope Z_scope.

(** ** Definitions *)

(** *** Outcomes

    A Rust computation of type [Result<A, E>] either returns [Ok], returns
    [Err], or panics (an [assert!], an index out of range, an [unwrap] of a
    failure, a checked arithmetic overflow). *)
Inductive outcome (E A : Type) : Type :=
| Ok (a : A)
| Err (e : E)
| Panic.

Arguments Ok {E A} a.
Arguments Err {E A} e.
Arguments Panic {E A}.

#[export] Instance outcome_ret {E} : MRet (outcome E) := fun A a => Ok a.

#[export] Instance outcome_bind {E} : MBind (outcome E) := fun A B k m =>
  match m with
  | Ok a => k a
  | Err e => Err e
  | Panic => Panic
  end.

#[export] Instance outcome_fmap {E} : FMap (outcome E) := fun A B f m =>
  match m with
  | Ok a => Ok (f a)
  | Err e => Err e
  | Panic => Panic
  end.

(** [Result::map_err], and the conversion the [?] operator performs. *)
Definition map_err {E F A} (f : E -> F) (m : outcome E A) : outcome F A :=
  match m with
  | Ok a => Ok a
  | Err e => Err (f e)
  | Panic => Panic
  end.

(** The computation does not panic. *)
Definition safe {E A} (m : outcome E A) : Prop := m <> Panic.

(** [Iterator::map(..).collect::<Result<Vec<_>, _>>()] and loops that push one
    element per iteration and leave on the first error. *)
Fixpoint traverse {E A B} (f : A -> outcome E B) (l : list A) : outcome E (list B) :=
  match l with
  | [] => Ok []
  | a :: l' => b ← f a; bs ← traverse f l'; Ok (b :: bs)
  end.

(** *** State

    A method that takes [&mut self]: it reads and changes the state, and the
    state it leaves behind is visible whatever the outcome. *)
Definition action (S E A : Type) : Type := S -> S * outcome E A.

#[export] Instance action_ret {S E} : MRet (action S E) := fun A a s => (s, Ok a).

#[export] Instance action_bind {S E} : MBind (action S E) := fun A B k m s =>
  match m s with
  | (s', Ok a) => k a s'
  | (s', Err e) => (s', Err e)
  | (s', Panic) => (s', Panic)
  end.

Definition get_state {S E} : action S E S := fun s => (s, Ok s).
Definition modify {S E} (f : S -> S) : action S E unit := fun s => (f s, Ok tt).
Definition lift {S E A} (m : outcome E A) : action S E A := fun s => (s, m).

(** An action keeps a property of the state, whatever its outcome. *)
Definition preserves {S E A} (P : S -> Prop) (m : action S E A) : Prop :=
  forall s, P s -> P (m s).1.

(** *** Machine integers

    An unsigned [w]-bit integer is a [Z] in [urange w]. *)
Definition urange (w z : Z) : Prop := 0 <= z < 2 ^ w.

#[export] Instance urange_dec w z : Decision (urange w z).
Proof. unfold urange. apply _. Defined.

(** [a + b] on [w] bits. A build with overflow checks panics where one without
    them wraps; [checks] says which build it is. *)
Definition add_w {E} (checks : bool) (w a b : Z) : outcome E Z :=
  if decide (a + b < 2 ^ w) then Ok (a + b)
  else if checks then Panic else Ok ((a + b) mod 2 ^ w).

(** [Iterator::sum] over [w]-bit integers. *)
Definition sum_w {E} (checks : bool) (w : Z) (l : list Z) : outcome E Z :=
  foldl (fun acc x => a ← acc; add_w checks w a x) (Ok 0) l.

(** [a.div_ceil(b)] for a non-zero divisor. *)
Definition div_ceil (a b : Z) : Z := (a + b - 1) / b.

(** [a as u32] and friends: truncation to [w] bits. *)
Definition as_u (w z : Z) : Z := z mod 2 ^ w.

(** The mathematical sum of a list. *)
Definition zsum : list Z -> Z := foldr Z.add 0.

(** *** Bytes and slices *)

(** [slice.len()] as a [usize]. *)
Definition len {A} (l : list A) : Z := Z.of_nat (length l).

(** [n] elements of [l] starting at offset [lo]. *)
Definition sub {A} (lo n : nat) (l : list A) : list A := take n (drop lo l).

(** [&l[lo..hi]], which panics when the range is not inside the slice. *)
Definition slice {E A} (lo hi : nat) (l : list A) : outcome E (list A) :=
  if decide (lo <= hi /\ hi <= length l)%nat then Ok (sub lo (hi - lo) l) else Panic.

(** [l[i]], which panics when the index is out of range. *)
Definition index {E A} (i : nat) (l : list A) : outcome E A :=
  match l !! i with
  | Some a => Ok a
  | None => Panic
  end.

(** A call of another crate that panics when it gives nothing. *)
Definition or_panic {E A} (o : option A) : outcome E A :=
  match o with Some a => Ok a | None => Panic end.

(** [uN::from_le_bytes] and [uN::to_le_bytes]. *)
Definition from_le (bs : list byte) : Z := le_combine bs.
Definition to_le (n : nat) (z : Z) : list byte := le_split n z.

Definition zeros (n : nat) : list byte := replicate n Byte.x00.

#[export] Instance byte_eq_decision : EqDecision byte := Byte.byte_eq_dec.
#[export] Instance byte_inhabited : Inhabited byte := populate Byte.x00.

(** *** Messages

    A [String] the code builds with [format!] is kept as its pieces: the
    literal text and the arguments, in order, before they are rendered. *)
Inductive fragment :=
| Txt (s : string)
| Dec (z : Z)
| HexNum (digits : nat) (z : Z)
| Octal (z : Z)
| DebugBytes (bs : list byte)
| Bytes (bs : list byte).

Definition message := list fragment.

#[export] Instance fragment_eq_dec : EqDecision fragment.
Proof. solve_decision. Defined.

(** ** Lemmas *)

Create HintDb dhow.

(** *** Outcomes *)

Lemma bind_Ok {E A B} (m : outcome E A) (k : A -> outcome E B) b :
  m ≫= k = Ok b <-> exists a, m = Ok a /\ k a = Ok b.
Proof.
  destruct m; cbn; (split; [intros H; try discriminate; eauto|]);
    intros (? & [= ] & ?); by subst.
Qed.

Lemma or_panic_Ok {E A} (o : option A) a : or_panic (E:=E) o = Ok a <-> o = Some a.
Proof. destruct o; cbn; split; congruence. Qed.

Lemma bind_Panic {E A B} (m : outcome E A) (k : A -> outcome E B) :
  m ≫= k = Panic <-> m = Panic \/ exists a, m = Ok a /\ k a = Panic.
Proof.
  destruct m; cbn; (split; [intros H; try discriminate; eauto|]);
    intros [?|(? & [= ] & ?)]; by subst.
Qed.

Lemma map_err_Ok {E F A} (f : E -> F) (m : outcome E A) a :
  map_err f m = Ok a <-> m = Ok a.
Proof. destruct m; cbn; split; intros [= ]; by subst. Qed.

(** *** Actions, one step at a time *)

Section action_steps.
Context {S E A B : Type}.

Lemma bind_get (k : S -> action S E B) s : (get_state ≫= k) s = k s s.
Proof. done. Qed.

Lemma bind_modify f (k : unit -> action S E B) s : (modify f ≫= k) s = k tt (f s).
Proof. done. Qed.

Lemma bind_lift (m : outcome E A) (k : A -> action S E B) s :
  (lift m ≫= k) s
  = match m with Ok a => k a s | Err e => (s, Err e) | Panic => (s, Panic) end.
Proof. by destruct m. Qed.

Lemma bind_action (m : action S E A) (k : A -> action S E B) s s' a :
  m s = (s', Ok a) -> (m ≫= k) s = k a s'.
Proof. intros Hm. unfold mbind, action_bind. by rewrite Hm. Qed.

Lemma bind_action_Ok (m : action S E A) (k : A -> action S E B) s s'' b :
  (m ≫= k) s = (s'', Ok b) <-> exists s' a, m s = (s', Ok a) /\ k a s' = (s'', Ok b).
Proof.
  unfold mbind, action_bind. destruct (m s) as [s' [a|e|]].
  - split; [eauto|]. by intros (? & ? & [= <- <-] & ?).
  - split; [done|]. by intros (? & ? & ? & ?).
  - split; [done|]. by intros (? & ? & ? & ?).
Qed.

Lemma lift_Ok (m : outcome E A) (s s' : S) a :
  lift m s = (s', Ok a) <-> s' = s /\ m = Ok a.
Proof. unfold lift. split; [by intros [= <- ->]|by intros [-> ->]]. Qed.

Lemma mret_action_Ok (a b : A) s s' :
  (mret a : action S E A) s = (s', Ok b) <-> s' = s /\ a = b.
Proof. split; [by intros [= <- ->]|by intros [-> ->]]. Qed.

Lemma preserves_bind P (m : action S E A) (k : A -> action S E B) :
  preserves P m -> (forall a, preserves P (k a)) -> preserves P (m ≫= k).
Proof.
  intros Hm Hk s Hs. unfold mbind, action_bind. specialize (Hm s Hs).
  destruct (m s) as [s' [a|e|]]; [by apply Hk|done..].
Qed.

End action_steps.

(** Runs the steps whose outcome is known. *)
Ltac run_action := repeat (rewrite ?bind_get, ?bind_modify, ?bind_lift; cbn beta iota).

Lemma Ok_inj {E A} (a b : A) : @Ok E A a = Ok b -> a = b.
Proof. by intros [= ->]. Qed.

Lemma safe_Ok {E A} (a : A) : safe (@Ok E A a).
Proof. done. Qed.

Lemma safe_Err {E A} (e : E) : safe (@Err E A e).
Proof. done. Qed.

Lemma safe_bind {E A B} (m : outcome E A) (k : A -> outcome E B) :
  safe m -> (forall a, m = Ok a -> safe (k a)) -> safe (m ≫= k).
Proof. unfold safe. rewrite bind_Panic. intros ? Hk [?|(a & Ha & ?)]; [done|]. by apply (Hk a). Qed.

Lemma safe_map_err {E F A} (f : E -> F) (m : outcome E A) :
  safe m -> safe (map_err f m).
Proof. unfold safe. by destruct m. Qed.

#[export] Hint Resolve safe_Ok safe_Err safe_map_err : dhow.

Lemma traverse_Ok {E A B} (f : A -> outcome E B) l bs :
  traverse f l = Ok bs <-> Forall2 (fun a b => f a = Ok b) l bs.
Proof.
  revert bs. induction l as [|a l IH]; intros bs; cbn.
  { split; [intros [= <-]; constructor | by inversion 1]. }
  rewrite bind_Ok. setoid_rewrite bind_Ok. setoid_rewrite IH. split.
  - intros (b & ? & bs' & ? & [= <-]). by constructor.
  - inversion 1; subst. eauto 6.
Qed.

(** A traversal in which every step succeeds is a map. *)
Lemma traverse_Err {E A B} (f : A -> outcome E B) l e :
  traverse f l = Err e -> exists i a, l !! i = Some a /\ f a = Err e.
Proof.
  induction l as [|a l IH]; cbn; [done|]. destruct (f a) as [b|e'|] eqn:Hf; cbn; [|intros [= ->]|done].
  - destruct (traverse f l) as [bs|e'|]; cbn; [done|intros [= ->]|done].
    destruct (IH eq_refl) as (i & a' & Hi & Ha). by exists (S i), a'.
  - by exists 0%nat, a.
Qed.

Lemma traverse_fmap {E A B} (f : A -> outcome E B) (g : A -> B) l :
  Forall (fun a => f a = Ok (g a)) l -> traverse f l = Ok (g <$> l).
Proof. intros H. apply traverse_Ok, Forall2_fmap_r. by apply Forall_Forall2_diag. Qed.

Lemma traverse_total {E A B} (f : A -> outcome E B) l :
  Forall (fun a => exists b, f a = Ok b) l -> exists bs, traverse f l = Ok bs.
Proof.
  induction 1 as [|a l [b Hb] _ [bs IH]]; cbn; [by eexists|]. rewrite Hb, IH. by eexists.
Qed.

Lemma traverse_safe {E A B} (f : A -> outcome E B) l :
  Forall (fun a => safe (f a)) l -> safe (traverse f l).
Proof.
  induction 1 as [|a l Ha _ IH]; cbn; [done|].
  apply safe_bind; [done|]. intros. by apply safe_bind.
Qed.

(** *** Integers *)

Lemma urange_as_u w z : 0 <= w -> urange w (as_u w z).
Proof. intros. unfold urange, as_u. apply Z.mod_pos_bound. by apply Z.pow_pos_nonneg. Qed.

Lemma as_u_id w z : urange w z -> as_u w z = z.
Proof. apply Z.mod_small. Qed.

(** A number is [w] bits wide exactly when no higher bit is set. *)
Lemma urange_bits w z :
  0 <= w -> (urange w z <-> forall i, w <= i -> Z.testbit z i = false).
Proof.
  intros Hw. assert (0 < 2 ^ w) by (by apply Z.pow_pos_nonneg). split.
  - intros Hz i Hi. rewrite <- (Z.mod_small z (2 ^ w)) by done.
    by apply Z.mod_pow2_bits_high.
  - intros Hbits. unfold urange. replace z with (z mod 2 ^ w); [by apply Z.mod_pos_bound|].
    apply Z.bits_inj'. intros i Hi. destruct (decide (i < w)).
    + by apply Z.mod_pow2_bits_low.
    + rewrite Z.mod_pow2_bits_high by lia. symmetry. apply Hbits. lia.
Qed.

Lemma urange_lxor w a b : 0 <= w -> urange w a -> urange w b -> urange w (Z.lxor a b).
Proof.
  intros Hw Ha Hb. rewrite urange_bits in * by done. intros i Hi.
  by rewrite Z.lxor_spec, Ha, Hb.
Qed.

Lemma urange_shiftr w a n : 0 <= n -> urange w a -> urange w (Z.shiftr a n).
Proof.
  unfold urange. intros Hn Ha. rewrite Z.shiftr_div_pow2 by done.
  pose proof (Z.pow_pos_nonneg 2 n). split; [apply Z.div_pos; lia|].
  apply Z.le_lt_trans with a; [|lia]. apply Z.div_le_upper_bound; nia.
Qed.

Lemma urange_mono v w a : 0 <= v <= w -> urange v a -> urange w a.
Proof. unfold urange. intros ? ?. pose proof (Z.pow_le_mono_r 2 v w). lia. Qed.

Lemma urange_byte b : urange 8 (byte.unsigned b).
Proof. apply byte.unsigned_range. Qed.

#[export] Hint Resolve urange_byte : dhow.

Lemma add_w_Ok {E} checks w a b :
  a + b < 2 ^ w -> @add_w E checks w a b = Ok (a + b).
Proof. intros. unfold add_w. by case_decide. Qed.

Lemma div_ceil_mul a b : 0 < b -> 0 <= a -> a <= div_ceil a b * b < a + b.
Proof.
  unfold div_ceil. intros.
  pose proof (Z.div_mod (a + b - 1) b). pose proof (Z.mod_pos_bound (a + b - 1) b). lia.
Qed.

Lemma div_ceil_nonneg a b : 0 < b -> 0 <= a -> 0 <= div_ceil a b.
Proof. unfold div_ceil. intros. apply Z.div_pos; lia. Qed.

Lemma div_ceil_le a b : 0 < b -> 0 <= a -> div_ceil a b <= a.
Proof. unfold div_ceil. intros. apply Z.lt_succ_r, Z.div_lt_upper_bound; nia. Qed.

Lemma zsum_app l k : zsum (l ++ k) = zsum l + zsum k.
Proof. induction l as [|z l IH]; cbn; [done|]. unfold zsum in *. lia. Qed.

Lemma zsum_nonneg l : Forall (fun z => 0 <= z) l -> 0 <= zsum l.
Proof. induction 1; cbn; [done|]. unfold zsum in *. lia. Qed.

Lemma sum_w_foldl_Ok {E} checks w l a :
  Forall (fun z => 0 <= z) l -> 0 <= a -> a + zsum l < 2 ^ w ->
  foldl (fun acc x => a ← acc; @add_w E checks w a x) (Ok a) l = Ok (a + zsum l).
Proof.
  intros Hl. revert a. induction Hl as [|z l Hz Hl IH]; intros a Ha Hb; cbn.
  { f_equal. lia. }
  cbn in Hb. fold (zsum l) in Hb. pose proof (zsum_nonneg l Hl).
  rewrite add_w_Ok by lia. rewrite IH by lia. f_equal. fold (zsum l). lia.
Qed.

Lemma sum_w_Ok {E} checks w l :
  Forall (fun z => 0 <= z) l -> zsum l < 2 ^ w -> @sum_w E checks w l = Ok (zsum l).
Proof. intros. unfold sum_w. by rewrite sum_w_foldl_Ok. Qed.

Lemma sum_w_foldl_wrap {E} w l a :
  0 <= w -> Forall (urange w) l -> urange w a ->
  foldl (fun acc x => a ← acc; @add_w E false w a x) (Ok a) l
  = Ok ((a + zsum l) mod 2 ^ w).
Proof.
  intros Hw Hl. revert a. induction Hl as [|z l Hz Hl IH]; intros a Ha; cbn.
  { rewrite Z.add_0_r. by rewrite Z.mod_small. }
  assert (0 < 2 ^ w) by (by apply Z.pow_pos_nonneg).
  unfold urange in *. fold (zsum l).
  unfold add_w at 2. case_decide; cbn; rewrite IH by (unfold urange in *;
    first [apply Z.mod_pos_bound; lia | lia]).
  - f_equal. f_equal. lia.
  - f_equal. rewrite Zplus_mod_idemp_l. f_equal. lia.
Qed.

(** Without overflow checks a sum of [w]-bit integers is the sum modulo
    [2^w]. *)
Lemma sum_w_wrap {E} w l :
  0 <= w -> Forall (urange w) l -> @sum_w E false w l = Ok (zsum l mod 2 ^ w).
Proof.
  intros. unfold sum_w. rewrite sum_w_foldl_wrap; auto.
  unfold urange. split; [lia|]. by apply Z.pow_pos_nonneg.
Qed.

(** *** Lists, offsets and slices *)

Lemma len_nonneg {A} (l : list A) : 0 <= len l.
Proof. unfold len. lia. Qed.

Lemma len_app {A} (l k : list A) : len (l ++ k) = len l + len k.
Proof. unfold len. rewrite length_app. lia. Qed.

Lemma len_cons {A} (a : A) l : len (a :: l) = 1 + len l.
Proof. unfold len. cbn [length]. lia. Qed.

Lemma length_sub {A} lo n (l : list A) :
  (lo + n <= length l)%nat -> length (sub lo n l) = n.
Proof. intros. unfold sub. rewrite length_take, length_drop. lia. Qed.

Lemma slice_Ok {E A} lo hi (l : list A) :
  (lo <= hi)%nat -> (hi <= length l)%nat -> @slice E A lo hi l = Ok (sub lo (hi - lo) l).
Proof. intros. unfold slice. by rewrite decide_True by lia. Qed.

Lemma slice_safe {E A} lo hi (l : list A) :
  (lo <= hi)%nat -> (hi <= length l)%nat -> safe (@slice E A lo hi l).
Proof. intros. by rewrite slice_Ok. Qed.

Lemma index_safe {E A} i (l : list A) : (i < length l)%nat -> safe (@index E A i l).
Proof.
  intros H. unfold index. apply lookup_lt_is_Some in H as [x Hx]. by rewrite Hx.
Qed.

Lemma index_Ok {E A} i (l : list A) a : @index E A i l = Ok a <-> l !! i = Some a.
Proof. unfold index. destruct (l !! i); split; intros [= ]; by subst. Qed.

(** A read that starts past the first field does not see it. *)
Lemma sub_skip {A} k lo n (a l : list A) :
  length a = k -> (k <= lo)%nat -> sub lo n (a ++ l) = sub (lo - k) n l.
Proof.
  intros <- ?. unfold sub. by rewrite drop_app_ge.
Qed.

(** A read of exactly the first field returns it. *)
Lemma sub_here {A} n (a l : list A) : length a = n -> sub 0 n (a ++ l) = a.
Proof. intros <-. unfold sub. rewrite drop_0. apply take_app_length. Qed.

Lemma sub_all {A} n (l : list A) : length l = n -> sub 0 n l = l.
Proof. intros <-. unfold sub. rewrite drop_0. by apply firstn_all. Qed.

(** Two adjacent reads are one read. *)
Lemma sub_join {A} lo n m (l : list A) :
  sub lo n l ++ sub (lo + n) m l = sub lo (n + m) l.
Proof. unfold sub. by rewrite <- drop_drop, take_take_drop. Qed.

Lemma sub_split {A} lo n m (l : list A) :
  sub lo (n + m) l = sub lo n l ++ sub (lo + n) m l.
Proof. by rewrite sub_join. Qed.

Lemma sub_0 {A} n (l : list A) : sub 0 n l = take n l.
Proof. unfold sub. by rewrite drop_0. Qed.

Lemma lookup_skip {A} k i (a l : list A) :
  length a = k -> (k <= i)%nat -> (a ++ l) !! i = l !! (i - k)%nat.
Proof. intros <- ?. by rewrite lookup_app_r. Qed.

Lemma lookup_sub {A} i (l : list A) x : l !! i = Some x -> sub i 1 l = [x].
Proof. intros H. unfold sub. by rewrite (drop_S l x i H). Qed.

Lemma sub_S {A} i n (l : list A) x : l !! i = Some x -> sub i (S n) l = x :: sub (S i) n l.
Proof. intros H. unfold sub. by rewrite (drop_S l x i H), firstn_cons. Qed.

(** Consecutive pieces of [t] elements, the last padded with [z]. *)
Lemma concat_pieces {A} (z : A) (data : list A) t k :
  concat ((fun i => resize t z (drop (i * t) data)) <$> seq 0 k) = resize (k * t) z data.
Proof.
  enough (forall s, concat ((fun i => resize t z (drop (i * t) data)) <$> seq s k)
                    = resize (k * t) z (drop (s * t) data)) as H by apply H.
  induction k as [|k IH]; intros s.
  { cbn. by rewrite resize_0. }
  cbn [seq fmap list_fmap concat]. rewrite IH. cbn [Nat.mul].
  rewrite resize_add, drop_drop. by rewrite (Nat.add_comm t).
Qed.

(** *** Little-endian integers *)

Lemma length_to_le n z : length (to_le n z) = n.
Proof. apply length_le_split. Qed.

Lemma from_to_le n z : urange (Z.of_nat n * 8) z -> from_le (to_le n z) = z.
Proof. intros. unfold from_le, to_le. rewrite le_combine_split. by apply Z.mod_small. Qed.

Lemma to_from_le n bs : length bs = n -> to_le n (from_le bs) = bs.
Proof. intros <-. apply split_le_combine. Qed.

Lemma from_le_range n bs : length bs = n -> urange (Z.of_nat n * 8) (from_le bs).
Proof.
  intros <-. unfold urange, from_le. rewrite Z.mul_comm. apply le_combine_bound.
Qed.

Lemma length_zeros n : length (zeros n) = n.
Proof. apply length_replicate. Qed.

Lemma zeros_len {A : Type} n : len (zeros n) = Z.of_nat n.
Proof. unfold len. by rewrite length_zeros. Qed.

Lemma elem_of_concat {A} (x : A) ls : x ∈ concat ls <-> exists l, x ∈ l /\ l ∈ ls.
Proof.
  rewrite list_elem_of_In, in_concat. setoid_rewrite list_elem_of_In.
  split; intros (c & ? & ?); by exists c.
Qed.

(** A longer history: its last element, or an earlier one. *)
Lemma exists_snoc {A} (P : A -> Prop) l a :
  (exists x, x ∈ l ++ [a] /\ P x) <-> (exists x, x ∈ l /\ P x) \/ P a.
Proof.
  split.
  - intros (x & Hx & HP). apply elem_of_app in Hx as [Hx|Hx]; [eauto|right].
    apply list_elem_of_singleton in Hx. by subst.
  - intros [(x & Hx & HP)|HP].
    + exists x. rewrite elem_of_app. eauto.
    + exists a. rewrite elem_of_app, list_elem_of_singleton. eauto.
Qed.

(** ** Reading fields

    [slice] and [index] over a concatenation of fields of known length: a read
    skips the fields before it and returns the one it names. *)

Lemma slice_here {E A} (a l : list A) hi :
  length a = hi -> @slice E A 0 hi (a ++ l) = Ok a.
Proof.
  intros Ha. rewrite slice_Ok by (rewrite ?length_app; lia). by rewrite Nat.sub_0_r, sub_here.
Qed.

Lemma slice_all {E A} (a : list A) hi : length a = hi -> @slice E A 0 hi a = Ok a.
Proof. intros. rewrite <- (app_nil_r a) at 1. by apply slice_here. Qed.

Lemma slice_skip {E A} k (a l : list A) lo hi :
  length a = k -> (k <= lo)%nat -> (lo <= hi)%nat ->
  @slice E A lo hi (a ++ l) = slice (lo - k) (hi - k) l.
Proof.
  intros <- Hlo Hhi. unfold slice. rewrite length_app.
  case_decide; case_decide; try done; try lia.
  f_equal. rewrite (sub_skip (length a)) by (lia || done). f_equal. lia.
Qed.

Lemma index_skip {E A} k (a l : list A) i :
  length a = k -> (k <= i)%nat -> @index E A i (a ++ l) = index (i - k) l.
Proof. intros. unfold index. by rewrite (lookup_skip k). Qed.

Lemma index_here {E A} (x : A) (l : list A) : @index E A 0 (x :: l) = Ok x.
Proof. done. Qed.

Lemma index_here_app {E A} (x : A) (l : list A) : @index E A 0 ([x] ++ l) = Ok x.
Proof. done. Qed.

Lemma slice_inv {E A} lo hi (l x : list A) :
  @slice E A lo hi l = Ok x -> (lo <= hi <= length l)%nat /\ x = sub lo (hi - lo) l.
Proof. unfold slice. case_decide; intros [= <-]. split; [lia|done]. Qed.

Lemma sub_join_at {A} lo n lo' m (l : list A) :
  lo' = (lo + n)%nat -> sub lo n l ++ sub lo' m l = sub lo (n + m) l.
Proof. intros ->. apply sub_join. Qed.

Lemma app_sub_drop {A} n (l : list A) : sub 0 n l ++ drop n l = l.
Proof. rewrite sub_0. apply take_drop. Qed.

(** Reads at computed offsets. *)
Lemma slice_at {E A} (a b c : list A) lo hi :
  length a = lo -> (lo + length b)%nat = hi -> @slice E A lo hi (a ++ b ++ c) = Ok b.
Proof.
  intros <- <-. rewrite (slice_skip (length a)) by lia. rewrite Nat.sub_diag. apply slice_here. lia.
Qed.

Lemma index_at {E A} (a : list A) x l i :
  length a = i -> @index E A i (a ++ [x] ++ l) = Ok x.
Proof. intros. rewrite (index_skip i) by lia. rewrite Nat.sub_diag. apply index_here_app. Qed.

(** ** Tactics *)

(** The length of a field, from a hypothesis or from its shape. *)
Ltac field_length :=
  first [ eassumption | apply length_to_le | apply length_zeros | cbn [length]; reflexivity ].

(** Performs every read of a concrete offset in the goal. *)
Ltac read_fields :=
  repeat first
    [ rewrite slice_here by field_length
    | rewrite slice_all by field_length
    | rewrite index_here
    | rewrite index_here_app
    | erewrite slice_skip; [| field_length | lia | lia]; cbn [Nat.sub]
    | erewrite index_skip; [| field_length | lia]; cbn [Nat.sub]
    | progress cbn [mbind outcome_bind] ].

(** Decomposes a computation known to succeed into the steps it took. *)
Ltac inv_ok H :=
  lazymatch type of H with
  | mbind ?k ?m = Ok ?b =>
      let x := fresh "x" in let Hx := fresh "Hx" in
      apply bind_Ok in H; destruct H as (x & Hx & H); inv_ok H
  | (if decide ?P then _ else _) = Ok _ =>
      let HP := fresh "HP" in
      destruct (decide P) as [HP|HP]; [try discriminate H|try discriminate H]; inv_ok H
  | _ => idtac
  end.

(** Turns the reads among the hypotheses into equations on the input. *)
Ltac inv_reads :=
  repeat match goal with
  | H : slice _ _ _ = Ok _ |- _ => apply slice_inv in H as [_ H]; cbn [Nat.sub] in H
  | H : index _ _ = Ok _ |- _ => apply index_Ok, lookup_sub in H
  end.

(** Glues adjacent reads together, from the first to the last. *)
Ltac glue_reads := rewrite ?app_assoc; repeat rewrite sub_join_at by reflexivity.

(** Panic freedom of a chain of reads and checks. *)
Ltac solve_safe :=
  repeat first
    [ apply safe_Ok
    | apply safe_Err
    | apply slice_safe; lia
    | apply index_safe; lia
    | apply safe_map_err
    | apply safe_bind; [| intros ? ?]
    | case_decide ].
