(* ===== verification/Harness.v ===== *)
(** * Harnesses: programs made of assertions

    A fuzz target or a test returns nothing: it runs to its end, or panics at
    the assertion that failed. *)

From S2P Require Import Prelude.

(** ** Definitions *)

(** The body of a [fuzz_target!] or of a [#[test]]: nothing to return, nothing
    to report. *)
Abbreviation target := (outcome Empty_set unit).

(** [assert!], [assert_eq!] *)
Definition assert (P : Prop) `{Decision P} : target := if decide P then Ok tt else Panic.

(** [.expect(..)] and [.unwrap()] *)
Definition expect {E A} (m : outcome E A) : outcome Empty_set A :=
  match m with Ok a => Ok a | _ => Panic end.

(** [if let Ok(a) = m { k(a) }], and [let Ok(a) = m else { return; }; k(a)] *)
Definition if_ok {E A} (m : outcome E A) (k : A -> target) : target :=
  match m with Ok a => k a | Err _ => Ok tt | Panic => Panic end.

(** [is_ok()] of a computation that does not panic. *)
Definition is_ok {E A} (m : outcome E A) : bool :=
  match m with Ok _ => true | _ => false end.

Definition is_err {E A} (m : outcome E A) : bool :=
  match m with Err _ => true | _ => false end.

(** [for a in l { body(a) }] *)
Fixpoint for_each {A} (l : list A) (body : A -> target) : target :=
  match l with
  | [] => Ok tt
  | a :: l' => _ ← body a; for_each l' body
  end.

(** [0..n] *)
Definition upto (n : Z) : list Z := Z.of_nat <$> seq 0 (Z.to_nat n).

(** [data.chunks(n)]; a zero [n] panics, and is left to the caller. *)
Fixpoint chunks_from {A} (fuel n : nat) (data : list A) : list (list A) :=
  match fuel, data with
  | O, _ | _, [] => []
  | S fuel', _ => take n data :: chunks_from fuel' n (drop n data)
  end.

Definition chunks {A} (n : nat) (data : list A) : list (list A) := chunks_from (length data) n data.

(** The bytes [i % 256] for [i] in [0..n]. *)
Definition ramp (n : nat) : list byte := (fun i => byte.of_Z (Z.of_nat i mod 256)) <$> seq 0 n.

(** ** Lemmas *)

Lemma assert_pass (P : Prop) `{Decision P} : P -> assert P = Ok tt.
Proof. intros. unfold assert. by case_decide. Qed.

Lemma assert_then {A} (P : Prop) `{Decision P} (k : unit -> outcome Empty_set A) :
  P -> (assert P ≫= k) = k tt.
Proof. intros. by rewrite assert_pass. Qed.

Lemma seq_pass (m : target) (k : unit -> target) : m = Ok tt -> k tt = Ok tt -> m ≫= k = Ok tt.
Proof. by intros ->. Qed.

Lemma for_each_pass {A} (l : list A) (body : A -> target) :
  Forall (fun a => body a = Ok tt) l -> for_each l body = Ok tt.
Proof. induction 1 as [|a l Ha _ IH]; [done|]. cbn [for_each]. by rewrite Ha. Qed.

Lemma for_upto_pass n (body : Z -> target) :
  (forall i, 0 <= i < n -> body i = Ok tt) -> for_each (upto n) body = Ok tt.
Proof.
  intros Hb. apply for_each_pass, Forall_fmap, Forall_seq. intros i Hi. apply Hb. lia.
Qed.

(** The chunks of a sequence are the sequence. *)
Lemma concat_chunks {A} n (data : list A) : (0 < n)%nat -> concat (chunks n data) = data.
Proof.
  intros Hn. unfold chunks. enough (forall fuel data, (length data <= fuel)%nat ->
    concat (chunks_from (A:=A) fuel n data) = data) as H by by apply H.
  induction fuel as [|fuel IH]; intros [|a l] Hl; try done; [cbn in Hl; lia|].
  cbn [chunks_from concat]. rewrite IH; [apply take_drop|]. rewrite length_drop. cbn in *. lia.
Qed.

(** Passes an assertion, leaving its condition to prove. *)
Ltac pass := rewrite assert_then; [cbn beta|].
