(* ===== verification/Errors.v ===== *)
(** * Error types of the codec crate (dhow-codec/src/lib.rs)

    One module per Rust enum, so that the enums can share constructor names
    as they do in the source, and the [From] conversions of [CodecError] that
    the [?] operator applies. *)

From S2P Require Import Prelude.

Module Chunk.

Inductive ChunkError :=
| PayloadTooLarge (size max : Z)
| InvalidBlockCount (count : Z)
| InvalidSymbolSize (size : Z)
| EmptyPayload
| BlockIndexOutOfRange (index count : Z)
| SymbolIndexOutOfRange (index count : Z)
| Truncated (expected actual : Z).

End Chunk.

Module Framing.

Inductive FrameError :=
| InvalidMagic (got : list byte)
| UnsupportedVersion (version : byte)
| CrcMismatch (expected actual : Z)
| PayloadTooLarge (length : Z)
| Truncated (expected actual : Z)
| UnknownFrameType (frame_type : byte)
| SessionMismatch (expected actual : list byte)
| MacVerificationFailed
| HeaderTooShort (length : Z)
| ReservedFieldNonZero (value : Z).

End Framing.

Module Sess.

Inductive SessionError :=
| NotInitialized
| InvalidSessionId
| InvalidParameters (details : message)
| DigestMismatch.

End Sess.

Module Res.

Inductive ResumeError :=
| InvalidMagic (got : list byte)
| UnsupportedVersion (version : byte)
| IntegrityCheckFailed
| Truncated (expected actual : Z)
| SessionMismatch
| BlockIndexOutOfRange (index : Z)
| InvalidSymbolCount (count : Z)
| ReservedNotZero (offset : Z)
| HeldCountMismatch (declared bitmap : Z)
| TrailingBytes (extra : Z)
| JournalMismatch (details : message).

End Res.

Module Mani.

Inductive ManifestError :=
| InvalidMagic (got : list byte)
| UnsupportedVersion (version : byte)
| SignatureVerificationFailed
| CrcMismatch
| Truncated (expected actual : Z)
| PathTraversal (name : list byte)
| FileNameTooLong (length : Z)
| FileSizeTooLarge (size max : Z)
| InvalidFileCount (count : Z)
| SessionMismatch
| Malformed (details : message).

End Mani.

Module FecErr.

Inductive FecError :=
| PayloadTooLarge
| InvalidSourceBlock (details : message)
| InsufficientPackets
| MtuTooSmall (mtu min : Z).

End FecErr.

Abbreviation ChunkError := Chunk.ChunkError.
Abbreviation FrameError := Framing.FrameError.
Abbreviation SessionError := Sess.SessionError.
Abbreviation ResumeError := Res.ResumeError.
Abbreviation ManifestError := Mani.ManifestError.
Abbreviation FecError := FecErr.FecError.

Module Codec.

Inductive CodecError :=
| Chunk (e : ChunkError)
| Frame (e : FrameError)
| FramePayloadTooLarge (length max : Z)
| Session (e : SessionError)
| Manifest (e : ManifestError)
| Resume (e : ResumeError)
| RaptorQ (details : message)
| Fec (e : FecError)
| Internal (details : message).

End Codec.

Abbreviation CodecError := Codec.CodecError.
