(* ===== verification/F64.v ===== *)
(** * Floating point

    The binary64 operations the code uses, on the Standard Library's executable
    specification of IEEE 754 arithmetic. *)

From S2P Require Import Prelude.
From Stdlib Require Import Floats.SpecFloat.

#[local] Open Scope Z_scope.

(** ** Definitions *)

(** IEEE 754 binary64: [x as f64] rounds to nearest even, and [f64::min]
    returns the other operand when one is not a number. *)
Definition f64_of_u64 (x : Z) : spec_float := binary_normalize 53 1024 x 0 false.

Definition f64_one : spec_float := f64_of_u64 1.

Definition f64_min (a b : spec_float) : spec_float :=
  match SFcompare a b with
  | Some Lt | Some Eq => a
  | Some Gt => b
  | None => match a with S754_nan => b | _ => a end
  end.

(** [f64::ceil] followed by [as u32], which saturates and sends NaN to zero. *)
Definition ceil_as_u32 (f : spec_float) : Z :=
  match f with
  | S754_finite false m e =>
    Z.min (2 ^ 32 - 1) (if decide (0 <= e) then Zpos m * 2 ^ e else div_ceil (Zpos m) (2 ^ (- e)))
  | S754_infinity false => 2 ^ 32 - 1
  | _ => 0
  end.

(** The sign bit; a NaN counts as positive. *)
Definition sign (f : spec_float) : bool :=
  match f with
  | S754_zero s | S754_infinity s | S754_finite s _ _ => s
  | S754_nan => false
  end.

(** ** Lemmas *)

Lemma sign_round_aux s m e l : sign (binary_round_aux 53 1024 s m e l) = false \/ s = true.
Proof.
  unfold binary_round_aux. destruct (shr_fexp 53 1024 m e l) as [r1 e1].
  destruct (shr_fexp 53 1024 (round_nearest_even (shr_m r1) (loc_of_shr_record r1)) e1 loc_Exact)
    as [r2 e2].
  destruct s; [by right|left]. by repeat case_match.
Qed.

Lemma sign_f64 x : 0 <= x -> sign (f64_of_u64 x) = false.
Proof.
  intros Hx. unfold f64_of_u64, binary_normalize. destruct x as [|p|p]; [done| |lia].
  unfold binary_round. destruct (shl_align p 0 _) as [mz ez].
  by destruct (sign_round_aux false (Zpos mz) ez loc_Exact).
Qed.

Lemma sign_div a b :
  sign a = false -> sign b = false -> sign (SFdiv 53 1024 a b) = false.
Proof.
  destruct a as [[]|[]| |[] ma ea], b as [[]|[]| |[] mb eb]; cbn; try done. intros _ _.
  destruct (SFdiv_core_binary 53 1024 (Zpos ma) ea (Zpos mb) eb) as [[q e] l].
  by destruct (sign_round_aux false q e l).
Qed.

Lemma SFcompare_None a mb eb :
  SFcompare a (S754_finite false mb eb) = None -> a = S754_nan.
Proof.
  destruct a as [[]|[]| |[] ma ea]; cbn; try done.
Qed.

(** The smaller of a float and one is a number, and at most one. *)
Lemma min_one a :
  SFcompare (f64_min a f64_one) f64_one = Some Lt
  \/ SFcompare (f64_min a f64_one) f64_one = Some Eq.
Proof.
  unfold f64_min. destruct (SFcompare a f64_one) as [[]|] eqn:Ha.
  { by right. } { by left. } { by right. } enough (a = S754_nan) as -> by by right.
  assert (H1 : f64_one = S754_finite false 4503599627370496 (-52))
    by (vm_compute; reflexivity).
  rewrite H1 in Ha. by apply SFcompare_None in Ha.
Qed.

Lemma sign_min a b : sign a = false -> sign b = false -> sign (f64_min a b) = false.
Proof. unfold f64_min. intros. by repeat case_match. Qed.
