(* ===== verification/Crc32c.v ===== *)
(** * CRC32C (dhow-codec/src/crc32c.rs)

    The slicing-by-eight tables and the fold over them, the one-shot and
    streaming interfaces; the bit-by-bit definition of the Castagnoli CRC is
    the reference they are proved equal to. *)

From S2P Require Import Prelude.

(** ** Definitions *)

Definition CRC32C_POLY : Z := 0x82F63B78.

(** One iteration of the inner loop of [make_table]. *)
Definition table_step (crc : Z) : Z :=
  if decide (Z.land crc 1 <> 0)
  then Z.lxor (Z.shiftr crc 1) CRC32C_POLY
  else Z.shiftr crc 1.

Definition make_table : list Z :=
  (fun n => Nat.iter 8 table_step (Z.of_nat n)) <$> seq 0 256.

(** [tables[k]] from [tables[k - 1]]. *)
Definition next_table (table0 previous : list Z) : list Z :=
  (fun n => let previous := nth n previous 0 in
            Z.lxor (Z.shiftr previous 8)
                   (nth (Z.to_nat (Z.land previous 0xFF)) table0 0)) <$> seq 0 256.

Definition make_slicing_tables : list (list Z) :=
  (fun k => Nat.iter k (next_table make_table) make_table) <$> seq 0 8.

Definition CRC_TABLES : list (list Z) := Eval vm_compute in make_slicing_tables.
Definition CRC_TABLE : list Z := Eval vm_compute in nth 0 CRC_TABLES [].

(** [CRC_TABLES[k][i]]; the indices the code uses are always in range. *)
Definition tbl (k : nat) (i : Z) : Z := nth (Z.to_nat i) (nth k CRC_TABLES []) 0.

(** One byte of the tail loop of [fold]. *)
Definition fold_byte (crc : Z) (b : byte) : Z :=
  Z.lxor (nth (Z.to_nat (Z.land (Z.lxor crc (byte.unsigned b)) 0xFF)) CRC_TABLE 0)
         (Z.shiftr crc 8).

(** One iteration of the eight-byte loop of [fold]. *)
Definition fold_chunk (crc : Z) (c0 c1 c2 c3 c4 c5 c6 c7 : byte) : Z :=
  let crc := Z.lxor crc (from_le [c0; c1; c2; c3]) in
  Z.lxor (Z.lxor (Z.lxor (Z.lxor (Z.lxor (Z.lxor (Z.lxor
    (tbl 7 (Z.land crc 0xFF))
    (tbl 6 (Z.land (Z.shiftr crc 8) 0xFF)))
    (tbl 5 (Z.land (Z.shiftr crc 16) 0xFF)))
    (tbl 4 (Z.land (Z.shiftr crc 24) 0xFF)))
    (tbl 3 (byte.unsigned c4)))
    (tbl 2 (byte.unsigned c5)))
    (tbl 1 (byte.unsigned c6)))
    (tbl 0 (byte.unsigned c7)).

(** Folds [data] into the raw register: eight bytes at a time while there are
    eight to take, then the tail byte by byte. *)
Fixpoint fold (crc : Z) (data : list byte) : Z :=
  match data with
  | c0 :: c1 :: c2 :: c3 :: c4 :: c5 :: c6 :: c7 :: rest =>
      fold (fold_chunk crc c0 c1 c2 c3 c4 c5 c6 c7) rest
  | rest => foldl fold_byte crc rest
  end.

Definition crc32c_digest (data : list byte) : Z :=
  Z.lxor (fold 0xFFFFFFFF data) 0xFFFFFFFF.

Definition crc32c_append (state : Z) (data : list byte) : Z :=
  Z.lxor (fold (Z.lxor state 0xFFFFFFFF) data) 0xFFFFFFFF.

Record Crc32cHasher := { hasher_state : Z }.

Definition crc_new : Crc32cHasher := {| hasher_state := 0 |}.

Definition crc_update (h : Crc32cHasher) (data : list byte) : Crc32cHasher :=
  {| hasher_state := crc32c_append (hasher_state h) data |}.

Definition crc_finalize (h : Crc32cHasher) : Z := hasher_state h.

(** *** Reference

    The CRC register advanced by one bit, by [k] bits, and by one byte of
    input: the textbook reflected CRC with no table. *)
Definition ref_byte (crc : Z) (b : byte) : Z :=
  Nat.iter 8 table_step (Z.lxor crc (byte.unsigned b)).

Definition crc32c_reference (data : list byte) : Z :=
  Z.lxor (foldl ref_byte 0xFFFFFFFF data) 0xFFFFFFFF.

(** [k] zero bits through the register. *)
Definition adv (k : nat) (crc : Z) : Z := Nat.iter k table_step crc.

(** ** The register is linear *)

Lemma table_step_alt a :
  table_step a = Z.lxor (Z.shiftr a 1) (if Z.testbit a 0 then CRC32C_POLY else 0).
Proof.
  unfold table_step. replace (Z.land a 1) with (Z.b2z (Z.testbit a 0)).
  - destruct (Z.testbit a 0); cbn -[Z.shiftr Z.lxor]; [done|]. by rewrite Z.lxor_0_r.
  - rewrite Z.bit0_odd, Zodd_mod. change 1 with (Z.ones 1) at 2.
    rewrite Z.land_ones by lia. change (2 ^ 1) with 2.
    pose proof (Z.mod_pos_bound a 2). destruct (Z.eqb_spec (a mod 2) 1); cbn; lia.
Qed.

Lemma table_step_lxor a b : table_step (Z.lxor a b) = Z.lxor (table_step a) (table_step b).
Proof.
  rewrite !table_step_alt, Z.shiftr_lxor, Z.lxor_spec.
  apply Z.bits_inj'. intros i Hi. rewrite !Z.lxor_spec.
  destruct (Z.testbit a 0), (Z.testbit b 0); cbn [xorb];
    rewrite ?Z.testbit_0_l; btauto.Btauto.btauto.
Qed.

#[local] Opaque table_step.

Lemma adv_lxor k a b : adv k (Z.lxor a b) = Z.lxor (adv k a) (adv k b).
Proof.
  induction k as [|k IH]; [done|].
  change (table_step (adv k (Z.lxor a b)) = Z.lxor (table_step (adv k a)) (table_step (adv k b))).
  by rewrite IH, table_step_lxor.
Qed.

Lemma adv_S k a : adv (S k) a = adv k (table_step a).
Proof. unfold adv. by rewrite Nat.iter_succ_r. Qed.

Lemma adv_add j k a : adv (j + k) a = adv k (adv j a).
Proof. unfold adv. rewrite (Nat.add_comm j k). apply Nat.iter_add. Qed.

(** A register whose low [k] bits are clear is only shifted. *)
Lemma adv_shiftl k x : adv k (Z.shiftl x (Z.of_nat k)) = x.
Proof.
  revert x. induction k as [|k IH]; intros x; [apply Z.shiftl_0_r|].
  rewrite adv_S, table_step_alt, Z.shiftl_spec_low, Z.lxor_0_r by lia.
  rewrite Z.shiftr_shiftl_l by lia. etrans; [|apply IH]. do 2 f_equal. lia.
Qed.

Lemma adv_shiftl_add k j x : adv (k + j) (Z.shiftl x (Z.of_nat k)) = adv j x.
Proof. by rewrite adv_add, adv_shiftl. Qed.

Lemma table_step_range a : urange 32 a -> urange 32 (table_step a).
Proof.
  intros Ha. rewrite table_step_alt. apply urange_lxor; [done|by apply urange_shiftr|].
  by destruct (Z.testbit a 0).
Qed.

Lemma adv_range k a : urange 32 a -> urange 32 (adv k a).
Proof. intros Ha. induction k as [|k IH]; [done|]. by apply table_step_range. Qed.

(** The polynomial's top bit records the bit that was shifted out, so the
    register can be run backwards. *)
Lemma table_step_inj a b :
  urange 32 a -> urange 32 b -> table_step a = table_step b -> a = b.
Proof.
  intros Ha Hb. rewrite !table_step_alt. intros Heq.
  assert (Hbit0 : forall x, urange 32 x ->
    Z.testbit (Z.lxor (Z.shiftr x 1) (if Z.testbit x 0 then CRC32C_POLY else 0)) 31
    = Z.testbit x 0).
  { intros x Hx. rewrite urange_bits in Hx by done.
    rewrite Z.lxor_spec, Z.shiftr_spec, Hx by lia. by destruct (Z.testbit x 0). }
  assert (H0 : Z.testbit a 0 = Z.testbit b 0)
    by (rewrite <- (Hbit0 a), <- (Hbit0 b) by done; by rewrite Heq).
  rewrite H0 in Heq. apply (f_equal (fun z => Z.lxor z (if Z.testbit b 0 then CRC32C_POLY else 0))) in Heq.
  rewrite !Z.lxor_assoc, !Z.lxor_nilpotent, !Z.lxor_0_r in Heq.
  apply Z.bits_inj'. intros i Hi. destruct (decide (i = 0)) as [->|]; [done|].
  apply (f_equal (fun z => Z.testbit z (i - 1))) in Heq. rewrite !Z.shiftr_spec in Heq by lia.
  by replace (i - 1 + 1) with i in Heq by lia.
Qed.

Lemma adv_inj k a b : urange 32 a -> urange 32 b -> adv k a = adv k b -> a = b.
Proof.
  revert a b. induction k as [|k IH]; intros a b Ha Hb; [done|].
  rewrite !adv_S. intros Heq. apply table_step_inj; try done.
  apply IH; auto using table_step_range.
Qed.

(** ** The reference in closed form *)

Lemma from_le_cons b bs :
  from_le (b :: bs) = Z.lxor (byte.unsigned b) (Z.shiftl (from_le bs) 8).
Proof.
  unfold from_le. change (Z.lor (byte.unsigned b) (Z.shiftl (le_combine bs) 8)
                          = Z.lxor (byte.unsigned b) (Z.shiftl (le_combine bs) 8)).
  symmetry. apply Z.lxor_lor. apply Z.bits_inj'. intros i Hi. rewrite Z.land_spec, Z.bits_0.
  destruct (decide (i < 8)); [by rewrite Z.shiftl_spec_low, andb_false_r|].
  pose proof (urange_byte b) as Hb. rewrite urange_bits in Hb by done. rewrite Hb by lia. done.
Qed.

Lemma ref_byte_absorb crc b x :
  adv 8 (Z.lxor crc (Z.lxor (byte.unsigned b) (Z.shiftl x 8))) = Z.lxor (ref_byte crc b) x.
Proof.
  rewrite <- Z.lxor_assoc, adv_lxor. f_equal. exact (adv_shiftl 8 x).
Qed.

(** The whole message goes through the register as one number. *)
Lemma fold_ref_closed bs crc :
  foldl ref_byte crc bs = adv (8 * length bs) (Z.lxor crc (from_le bs)).
Proof.
  revert crc. induction bs as [|b bs IH]; intros crc.
  { cbn. unfold from_le. cbn. by rewrite Z.lxor_0_r. }
  cbn [foldl]. rewrite IH, from_le_cons, <- ref_byte_absorb, <- adv_add.
  f_equal. cbn [length]. lia.
Qed.

(** ** The tables *)

Lemma tables_spec_check :
  forallb (fun k => forallb (fun i => tbl k (Z.of_nat i) =? adv (8 * S k) (Z.of_nat i))
                            (seq 0 256)) (seq 0 8) = true.
Proof. vm_compute. reflexivity. Qed.

(** Table [k] answers what a byte contributes after [k] more bytes. *)
Lemma tbl_spec k i : (k < 8)%nat -> urange 8 i -> tbl k i = adv (8 * S k) i.
Proof.
  intros Hk Hi. unfold urange in Hi. pose proof tables_spec_check as H.
  rewrite forallb_forall in H. specialize (H k). rewrite forallb_forall in H.
  specialize (H ltac:(apply in_seq; lia) (Z.to_nat i) ltac:(apply in_seq; lia)).
  rewrite Z2Nat.id in H by lia. by apply Z.eqb_eq.
Qed.

Lemma CRC_TABLE_is_0 : CRC_TABLE = nth 0 CRC_TABLES [].
Proof. vm_compute. reflexivity. Qed.

Lemma low_byte_range a : urange 8 (Z.land a 0xFF).
Proof.
  change 0xFF with (Z.ones 8). rewrite Z.land_ones by done. by apply Z.mod_pos_bound.
Qed.

(** A register is its low byte and the rest. *)
Lemma split_low_byte a : a = Z.lxor (Z.land a 0xFF) (Z.shiftl (Z.shiftr a 8) 8).
Proof.
  apply Z.bits_inj'. intros i Hi. rewrite Z.lxor_spec, Z.land_spec.
  change 0xFF with (Z.ones 8). rewrite Z.testbit_ones_nonneg by done.
  destruct (Z.ltb_spec i 8).
  - rewrite Z.shiftl_spec_low by done. by rewrite andb_true_r, xorb_false_r.
  - rewrite Z.shiftl_spec, Z.shiftr_spec by lia. rewrite andb_false_r, xorb_false_l.
    f_equal. lia.
Qed.

Lemma adv_split_low k a :
  adv (8 + k) a = Z.lxor (adv (8 + k) (Z.land a 0xFF)) (adv k (Z.shiftr a 8)).
Proof.
  rewrite (split_low_byte a) at 1. rewrite adv_lxor. f_equal.
  apply (adv_shiftl_add 8 k).
Qed.

Lemma fold_byte_ref crc b : urange 32 crc -> fold_byte crc b = ref_byte crc b.
Proof.
  intros Hcrc. unfold fold_byte, ref_byte. rewrite CRC_TABLE_is_0.
  change (Z.lxor (tbl 0 (Z.land (Z.lxor crc (byte.unsigned b)) 0xFF)) (Z.shiftr crc 8)
          = adv 8 (Z.lxor crc (byte.unsigned b))).
  rewrite tbl_spec by (lia || apply low_byte_range).
  rewrite (adv_split_low 0 (Z.lxor _ _)). f_equal. cbn [adv Nat.iter nat_rect].
  rewrite Z.shiftr_lxor. replace (Z.shiftr (byte.unsigned b) 8) with 0;
    [by rewrite Z.lxor_0_r|].
  pose proof (urange_byte b) as Hb. unfold urange in Hb.
  rewrite Z.shiftr_div_pow2, Z.div_small by done. done.
Qed.

Lemma ref_byte_range crc b : urange 32 crc -> urange 32 (ref_byte crc b).
Proof.
  intros. apply (adv_range 8). apply urange_lxor; [done..|].
  apply urange_mono with 8; auto with dhow. lia.
Qed.

Lemma from_le_app bs cs :
  from_le (bs ++ cs) = Z.lxor (from_le bs) (Z.shiftl (from_le cs) (Z.of_nat (8 * length bs))).
Proof.
  induction bs as [|b bs IH].
  { cbn. by rewrite Z.shiftl_0_r. }
  cbn [app]. rewrite !from_le_cons, IH, Z.shiftl_lxor, Z.lxor_assoc, Z.shiftl_shiftl by lia.
  do 3 f_equal. cbn [length]. lia.
Qed.

Lemma from_le_4 c0 c1 c2 c3 :
  from_le [c0; c1; c2; c3]
  = Z.lxor (byte.unsigned c0) (Z.shiftl (Z.lxor (byte.unsigned c1) (Z.shiftl
      (Z.lxor (byte.unsigned c2) (Z.shiftl (byte.unsigned c3) 8)) 8)) 8).
Proof. by rewrite !from_le_cons, Z.shiftl_0_l, Z.lxor_0_r. Qed.

(** A 32-bit register, 64 bits on: each of its bytes contributes through its
    own table. *)
Lemma adv_64_register y :
  urange 32 y ->
  adv 64 y = Z.lxor (Z.lxor (Z.lxor
    (tbl 7 (Z.land y 0xFF)) (tbl 6 (Z.land (Z.shiftr y 8) 0xFF)))
    (tbl 5 (Z.land (Z.shiftr y 16) 0xFF))) (tbl 4 (Z.land (Z.shiftr y 24) 0xFF)).
Proof.
  intros Hy. rewrite !tbl_spec by (lia || apply low_byte_range).
  rewrite (adv_split_low 56 y : adv 64 y = _).
  rewrite (adv_split_low 48 (Z.shiftr y 8) : adv 56 _ = _).
  rewrite (adv_split_low 40 (Z.shiftr (Z.shiftr y 8) 8) : adv 48 _ = _).
  rewrite !Z.shiftr_shiftr by done. rewrite <- !Z.lxor_assoc. do 2 f_equal.
  change (Z.shiftr y 24 = Z.land (Z.shiftr y 24) (Z.ones 8)). symmetry.
  rewrite Z.land_ones by done. apply Z.mod_small.
  unfold urange in Hy. rewrite Z.shiftr_div_pow2 by done.
  split; [apply Z.div_pos; lia|]. apply Z.div_lt_upper_bound; lia.
Qed.

(** The last four bytes of a chunk index their own tables. *)
Lemma adv_64_tail c4 c5 c6 c7 :
  adv 64 (Z.shiftl (from_le [c4; c5; c6; c7]) 32)
  = Z.lxor (tbl 3 (byte.unsigned c4)) (Z.lxor (tbl 2 (byte.unsigned c5))
      (Z.lxor (tbl 1 (byte.unsigned c6)) (tbl 0 (byte.unsigned c7)))).
Proof.
  rewrite (adv_shiftl_add 32 32 : forall x, adv 64 (Z.shiftl x 32) = adv 32 x).
  rewrite !tbl_spec by (lia || apply urange_byte). rewrite from_le_4.
  rewrite adv_lxor, (adv_shiftl_add 8 24 : forall x, adv 32 (Z.shiftl x 8) = adv 24 x).
  rewrite adv_lxor, (adv_shiftl_add 8 16 : forall x, adv 24 (Z.shiftl x 8) = adv 16 x).
  by rewrite adv_lxor, (adv_shiftl_add 8 8 : forall x, adv 16 (Z.shiftl x 8) = adv 8 x).
Qed.

(** Eight bytes at once are eight bytes one after the other. *)
Lemma fold_chunk_ref crc c0 c1 c2 c3 c4 c5 c6 c7 :
  urange 32 crc ->
  fold_chunk crc c0 c1 c2 c3 c4 c5 c6 c7
  = foldl ref_byte crc [c0; c1; c2; c3; c4; c5; c6; c7].
Proof.
  intros Hcrc. rewrite fold_ref_closed. unfold fold_chunk.
  change [c0; c1; c2; c3; c4; c5; c6; c7] with ([c0; c1; c2; c3] ++ [c4; c5; c6; c7]).
  rewrite from_le_app, <- Z.lxor_assoc.
  change (8 * length ([c0; c1; c2; c3] ++ [c4; c5; c6; c7]))%nat with 64%nat.
  change (Z.of_nat (8 * length [c0; c1; c2; c3])) with 32.
  rewrite adv_lxor, adv_64_tail, adv_64_register.
  - by rewrite !Z.lxor_assoc.
  - apply urange_lxor; [done..|]. by apply (from_le_range 4).
Qed.

Lemma fold_ref_range data crc : urange 32 crc -> urange 32 (foldl ref_byte crc data).
Proof.
  revert crc. induction data as [|b data IH]; intros crc Hcrc; [done|].
  apply IH. by apply ref_byte_range.
Qed.

Lemma fold_tail_ref data crc :
  urange 32 crc -> foldl fold_byte crc data = foldl ref_byte crc data.
Proof.
  revert crc. induction data as [|b data IH]; intros crc Hcrc; [done|].
  cbn [foldl]. rewrite fold_byte_ref by done. apply IH. by apply ref_byte_range.
Qed.

Lemma fold_cons8 crc c0 c1 c2 c3 c4 c5 c6 c7 rest :
  fold crc (c0 :: c1 :: c2 :: c3 :: c4 :: c5 :: c6 :: c7 :: rest)
  = fold (fold_chunk crc c0 c1 c2 c3 c4 c5 c6 c7) rest.
Proof. reflexivity. Qed.

Lemma fold_short crc data : (length data < 8)%nat -> fold crc data = foldl fold_byte crc data.
Proof. do 8 (destruct data as [|? data]; [done|]). cbn [length]. lia. Qed.

(** The sliced fold is the byte-at-a-time fold. *)
Lemma fold_ref data crc : urange 32 crc -> fold crc data = foldl ref_byte crc data.
Proof.
  remember (length data) as n eqn:Hn. revert data crc Hn.
  induction n as [n IH] using lt_wf_ind; intros data crc -> Hcrc.
  destruct (decide (length data < 8)%nat).
  { rewrite fold_short by done. by apply fold_tail_ref. }
  do 8 (destruct data as [|? data]; [cbn [length] in *; lia|]).
  rewrite fold_cons8, fold_chunk_ref by done.
  rewrite (IH (length data)); [done|cbn [length]; lia|done|].
  by apply fold_ref_range.
Qed.

Lemma crc_init_range : urange 32 0xFFFFFFFF.
Proof. done. Qed.

#[export] Hint Resolve crc_init_range ref_byte_range fold_ref_range : dhow.

Lemma digest_reference data : crc32c_digest data = crc32c_reference data.
Proof. unfold crc32c_digest. by rewrite fold_ref by auto with dhow. Qed.

Lemma digest_range data : urange 32 (crc32c_digest data).
Proof. rewrite digest_reference. apply urange_lxor; auto with dhow. done. Qed.

#[export] Hint Resolve digest_range : dhow.

(** ** Streaming *)

Lemma lxor_involutive a b : Z.lxor (Z.lxor a b) b = a.
Proof. by rewrite Z.lxor_assoc, Z.lxor_nilpotent, Z.lxor_0_r. Qed.

Lemma append_digest a b : crc32c_append (crc32c_digest a) b = crc32c_digest (a ++ b).
Proof.
  unfold crc32c_append. rewrite !digest_reference. unfold crc32c_reference.
  rewrite lxor_involutive, fold_ref by auto with dhow. by rewrite foldl_app.
Qed.

Lemma streaming_digest chunks data :
  hasher_state (foldl crc_update {| hasher_state := crc32c_digest data |} chunks)
  = crc32c_digest (data ++ concat chunks).
Proof.
  revert data. induction chunks as [|c chunks IH]; intros data; cbn.
  { by rewrite app_nil_r. }
  unfold crc_update at 2. cbn [hasher_state]. by rewrite append_digest, IH, app_assoc.
Qed.

(** ** Error detection *)

Lemma ref_byte_inj crc1 crc2 b :
  urange 32 crc1 -> urange 32 crc2 -> ref_byte crc1 b = ref_byte crc2 b -> crc1 = crc2.
Proof.
  intros H1 H2 Heq. assert (Hb : urange 32 (byte.unsigned b))
    by (apply urange_mono with 8; auto with dhow; lia).
  apply (adv_inj 8) in Heq; [|by apply urange_lxor..].
  apply (f_equal (fun z => Z.lxor z (byte.unsigned b))) in Heq. by rewrite !lxor_involutive in Heq.
Qed.

Lemma fold_ref_inj data crc1 crc2 :
  urange 32 crc1 -> urange 32 crc2 ->
  foldl ref_byte crc1 data = foldl ref_byte crc2 data -> crc1 = crc2.
Proof.
  revert crc1 crc2. induction data as [|b data IH]; intros crc1 crc2 H1 H2 Heq; [done|].
  apply ref_byte_inj with b; [done..|]. apply IH; auto with dhow.
Qed.

Lemma le_range_32 m : (length m <= 4)%nat -> urange 32 (from_le m).
Proof.
  intros. apply urange_mono with (Z.of_nat (length m) * 8); [lia|]. by apply from_le_range.
Qed.

(** A change confined to four consecutive bytes always changes the digest. *)
Lemma digest_burst p m1 m2 s :
  length m1 = length m2 -> (length m1 <= 4)%nat -> m1 <> m2 ->
  crc32c_digest (p ++ m1 ++ s) <> crc32c_digest (p ++ m2 ++ s).
Proof.
  intros Hlen Hle Hne Heq. apply Hne. rewrite !digest_reference in Heq.
  unfold crc32c_reference in Heq. rewrite !foldl_app in Heq.
  apply (f_equal (fun z => Z.lxor z 0xFFFFFFFF)) in Heq. rewrite !lxor_involutive in Heq.
  apply fold_ref_inj in Heq; [|auto with dhow..].
  assert (Hc : urange 32 (foldl ref_byte 0xFFFFFFFF p)) by auto with dhow.
  generalize dependent (foldl ref_byte 0xFFFFFFFF p). intros c Heq Hc.
  rewrite !fold_ref_closed, Hlen in Heq.
  apply adv_inj in Heq; [|by apply urange_lxor; [| |apply le_range_32; lia]..].
  rewrite (Z.lxor_comm c (from_le m1)), (Z.lxor_comm c (from_le m2)) in Heq.
  apply (f_equal (fun z => Z.lxor z c)) in Heq. rewrite !lxor_involutive in Heq.
  by apply le_combine_inj.
Qed.

(** A prefix that leaves the digest alone has digest zero. *)
Lemma digest_prefix p body :
  crc32c_digest (p ++ body) = crc32c_digest body -> crc32c_digest p = 0.
Proof.
  rewrite !digest_reference. unfold crc32c_reference. rewrite foldl_app. intros Heq.
  apply (f_equal (fun z => Z.lxor z 0xFFFFFFFF)) in Heq. rewrite !lxor_involutive in Heq.
  apply fold_ref_inj in Heq; [|auto with dhow..]. rewrite Heq. apply Z.lxor_nilpotent.
Qed.

(** ** Properties *)

(** C34: the slicing-by-eight CRC the code computes is the bit-by-bit
    Castagnoli CRC32C (reflected, initial value and final xor all ones) of
    every input. *)
Theorem crc32c_is_castagnoli data : crc32c_digest data = crc32c_reference data.
Proof. apply digest_reference. Qed.

(** feeding the streaming hasher any sequence of chunks gives the one-shot
    checksum of their concatenation. *)
Theorem crc32c_streaming chunks :
  crc_finalize (foldl crc_update crc_new chunks) = crc32c_digest (concat chunks).
Proof. apply (streaming_digest chunks []). Qed.

(** C35: two inputs of the same length that differ only inside a window of at
    most four consecutive bytes never have the same checksum. *)
Theorem crc32c_detects_bursts p m1 m2 s :
  length m1 = length m2 -> (length m1 <= 4)%nat -> m1 <> m2 ->
  crc32c_digest (p ++ m1 ++ s) <> crc32c_digest (p ++ m2 ++ s).
Proof. apply digest_burst. Qed.

Lemma crc32c_detects_bursts_witness :
  crc32c_digest ([Byte.x01] ++ [Byte.x02; Byte.x03] ++ [Byte.x04])
  <> crc32c_digest ([Byte.x01] ++ [Byte.x02; Byte.xff] ++ [Byte.x04]).
Proof. apply crc32c_detects_bursts; [reflexivity | simpl; lia | discriminate]. Defined.
