(* ===== verification/Primitives.v ===== *)
(** * Code outside the repository

    The crates the program calls, as type classes of operations with the laws
    their documentation states. Every definition that calls one of them takes
    it as a parameter; a theorem that needs a law takes the law class. *)

From S2P Require Import Prelude.

(** ** Definitions *)

(** *** [blake3]

    [Hasher::new], [Hasher::new_keyed], [update] and [finalize], and the
    one-shot [hash] and [keyed_hash]. A digest is 32 bytes. *)
Class Blake3 := {
  b3_hasher : Type;
  b3_new : b3_hasher;
  b3_new_keyed : list byte -> b3_hasher;
  b3_update : b3_hasher -> list byte -> b3_hasher;
  b3_finalize : b3_hasher -> list byte;
  b3_hash : list byte -> list byte;
  b3_keyed_hash : list byte -> list byte -> list byte;
}.

(** A digest has 32 bytes, and hashing in pieces is hashing the
    concatenation. *)
Class Blake3Laws `{Blake3} : Prop := {
  b3_hash_length data : length (b3_hash data) = 32%nat;
  b3_keyed_hash_length key data : length (b3_keyed_hash key data) = 32%nat;
  b3_streaming chunks :
    b3_finalize (foldl b3_update b3_new chunks) = b3_hash (concat chunks);
  b3_streaming_keyed key chunks :
    b3_finalize (foldl b3_update (b3_new_keyed key) chunks)
    = b3_keyed_hash key (concat chunks);
}.

(** *** [raptorq]

    [None] stands for a panic: the constructors refuse sizes RFC 6330 has no
    parameters for that way, [EncodingPacket::deserialize] indexes its input
    unchecked and [Decoder::add_new_packet] may reject a packet so. *)
Class RaptorQ := {
  rq_packet : Type;
  rq_config : Type;
  rq_encoder : Type;
  rq_decoder : Type;
  rq_serialize : rq_packet -> list byte;
  rq_deserialize : list byte -> option rq_packet;
  rq_with_defaults : Z -> Z -> option rq_config;
  rq_encoder_new : list byte -> rq_config -> option rq_encoder;
  rq_encoder_with_defaults : list byte -> Z -> option rq_encoder;
  rq_get_config : rq_encoder -> rq_config;
  rq_get_encoded_packets : rq_encoder -> Z -> option (list rq_packet);
  rq_decoder_new : rq_config -> option rq_decoder;
  rq_add_new_packet : rq_decoder -> rq_packet -> option rq_decoder;
  rq_get_result : rq_decoder -> option (list byte);
}.

(** Packets added one after the other. *)
Definition rq_feed `{RaptorQ} (d : rq_decoder) (ps : list rq_packet) : option rq_decoder :=
  foldl (fun acc p => d ← acc; rq_add_new_packet d p) (Some d) ps.

(** What [Encoder::new(data, with_defaults(len, mtu))] yields, when nothing on
    the way panics, and the decoder of the same block. *)
Definition rq_stream `{RaptorQ} (data : list byte) (mtu repair : Z) : option (list rq_packet) :=
  config ← rq_with_defaults (len data) mtu;
  encoder ← rq_encoder_new data config;
  rq_get_encoded_packets encoder repair.

Definition rq_packets `{RaptorQ} (data : list byte) (mtu repair : Z) : list rq_packet :=
  default [] (rq_stream data mtu repair).

Definition rq_decoder_for `{RaptorQ} (size mtu : Z) : option rq_decoder :=
  config ← rq_with_defaults size mtu; rq_decoder_new config.

(** The most source symbols RFC 6330 lets a source block have. *)
Definition RQ_MAX_SYMBOLS : Z := 56403.

(** What RFC 6330 and the crate promise for a block of [data] and a
    transmission unit of [mtu] bytes, 64 at least (eight sub-symbols of eight
    bytes): the block encodes within the limit of the RFC on the symbols, each
    [mtu] bytes rounded down to the alignment of 8; when a block encoded,
    packets survive serialization and carry
    between one and [mtu] symbol bytes after their four-byte identifier; there
    is a source packet, and the source packets come with every call; the decoder
    of the block takes any packets of the
    encoder, never reports anything but the encoded data, and reports it once
    it holds the source packets. Beyond the limit nothing is assumed: every
    constructor of the crate may panic there. *)
Class RaptorQLaws `{RaptorQ} : Prop := {
  rq_encoder_defaults data mtu :
    rq_encoder_with_defaults data mtu
    = config ← rq_with_defaults (len data) mtu; rq_encoder_new data config;
  rq_config_of_new data config e :
    rq_encoder_new data config = Some e -> rq_get_config e = config;
  rq_within_limit data mtu repair :
    0 < len data -> 64 <= mtu <= 65535 -> 0 <= repair <= 65535 ->
    div_ceil (len data) (mtu - mtu mod 8) <= RQ_MAX_SYMBOLS ->
    is_Some (rq_stream data mtu repair);
  rq_roundtrip data mtu repair ps p :
    0 < len data -> 64 <= mtu <= 65535 -> 0 <= repair ->
    rq_stream data mtu repair = Some ps -> p ∈ ps ->
    rq_deserialize (rq_serialize p) = Some p
    /\ 4 < len (rq_serialize p) <= 4 + mtu;
  rq_source data mtu repair ps :
    0 < len data -> 64 <= mtu <= 65535 -> 0 <= repair ->
    rq_stream data mtu repair = Some ps ->
    exists src, rq_stream data mtu 0 = Some src /\ src <> [] /\ src ⊆ ps;
  rq_decode data mtu repair ps qs :
    0 < len data -> 64 <= mtu <= 65535 -> 0 <= repair ->
    rq_stream data mtu repair = Some ps -> qs ⊆ ps ->
    exists d0 d,
      rq_decoder_for (len data) mtu = Some d0 /\ rq_feed d0 qs = Some d
      /\ (rq_get_result d = None \/ rq_get_result d = Some data)
      /\ (rq_packets data mtu 0 ⊆ qs -> rq_get_result d = Some data);
}.

(** *** [chacha20poly1305] (XChaCha20-Poly1305)

    [aead_key_ok] is whether [new_from_slice] accepts a key; the tag is
    appended to the ciphertext. [aead_decrypt_in_place] gives the buffer
    [decrypt_in_place] leaves behind when it succeeds. *)
Class Aead := {
  aead_key_ok : list byte -> bool;
  aead_encrypt : list byte -> list byte -> list byte -> list byte -> option (list byte);
  aead_decrypt : list byte -> list byte -> list byte -> list byte -> option (list byte);
  aead_decrypt_in_place : list byte -> list byte -> list byte -> list byte -> option (list byte);
}.

(** Encryption appends a 16-byte tag and is deterministic; decryption inverts
    it and accepts nothing else under the same key, nonce and associated data;
    decrypting in place is decrypting. *)
Class AeadLaws `{Aead} : Prop := {
  aead_key_32 key : length key = 32%nat -> aead_key_ok key = true;
  aead_encrypt_total key nonce aad msg :
    length key = 32%nat -> length nonce = 24%nat -> len msg <= 2 ^ 36 ->
    exists c, aead_encrypt key nonce aad msg = Some c;
  aead_encrypt_length key nonce aad msg c :
    aead_encrypt key nonce aad msg = Some c -> len c = len msg + 16;
  aead_roundtrip key nonce aad msg c :
    length key = 32%nat -> length nonce = 24%nat ->
    aead_encrypt key nonce aad msg = Some c -> aead_decrypt key nonce aad c = Some msg;
  aead_authentic key nonce aad msg c :
    length key = 32%nat -> length nonce = 24%nat ->
    aead_decrypt key nonce aad c = Some msg -> aead_encrypt key nonce aad msg = Some c;
  aead_in_place key nonce aad c :
    aead_decrypt_in_place key nonce aad c = aead_decrypt key nonce aad c;
}.

(** *** [ed25519_dalek]

    [ed_vk_error] is the text of the error [VerifyingKey::from_bytes] returns
    for bytes that are no public key. *)
Class Ed25519 := {
  ed_signing_key : Type;
  ed_verifying_key : Type;
  ed_from_seed : list byte -> ed_signing_key;
  ed_to_seed : ed_signing_key -> list byte;
  ed_verifying : ed_signing_key -> ed_verifying_key;
  ed_sign : ed_signing_key -> list byte -> list byte;
  ed_verify : ed_verifying_key -> list byte -> list byte -> bool;
  ed_vk_from_bytes : list byte -> option ed_verifying_key;
  ed_vk_error : list byte -> message;
  ed_vk_to_bytes : ed_verifying_key -> list byte;
}.

Class Ed25519Laws `{Ed25519} : Prop := {
  ed_seed_roundtrip seed : length seed = 32%nat -> ed_to_seed (ed_from_seed seed) = seed;
  ed_seed_length sk : length (ed_to_seed sk) = 32%nat;
  ed_signing_roundtrip sk : ed_from_seed (ed_to_seed sk) = sk;
  ed_sign_length sk m : length (ed_sign sk m) = 64%nat;
  ed_sign_verify sk m : ed_verify (ed_verifying sk) m (ed_sign sk m) = true;
  ed_vk_length vk : length (ed_vk_to_bytes vk) = 32%nat;
  ed_vk_roundtrip vk : ed_vk_from_bytes (ed_vk_to_bytes vk) = Some vk;
}.

(** *** [qrcodegen] *)
Inductive QrCodeEcc := QLow | QMedium | QQuartile | QHigh.

(** [qr_encode_segments] is [encode_segments_advanced] on one byte segment
    with a fixed version, no mask and no error-correction boost. *)
Class Qrcodegen := {
  qr_code : Type;
  qr_encode_segments : list byte -> QrCodeEcc -> Z -> option qr_code;
  qr_encode_binary : list byte -> QrCodeEcc -> option qr_code;
  qr_code_version : qr_code -> Z;
  qr_code_size : qr_code -> Z;
  qr_code_module : qr_code -> Z -> Z -> bool;
}.

(** Whether a message encodes depends on its length, and a shorter one
    encodes where a longer one does. *)
Class QrcodegenLaws `{Qrcodegen} : Prop := {
  qr_length_only data data' ecc v :
    length data = length data' ->
    is_Some (qr_encode_segments data ecc v) <-> is_Some (qr_encode_segments data' ecc v);
  qr_monotone data data' ecc v :
    (length data <= length data')%nat -> 1 <= v <= 40 ->
    is_Some (qr_encode_segments data' ecc v) -> is_Some (qr_encode_segments data ecc v);
  qr_empty ecc v : 1 <= v <= 40 -> is_Some (qr_encode_segments [] ecc v);
  qr_largest data ecc v : 1 <= v <= 40 -> 4096 < len data -> qr_encode_segments data ecc v = None;
}.

(** *** [getrandom]

    [fill(buf)] on a buffer of [n] bytes draws from the system's generator:
    the bytes, or the text of its error. *)
Class Getrandom := {
  gr_state : Type;
  gr_fill : nat -> gr_state -> gr_state * (list byte + message);
}.

(** A buffer it fills keeps its length. *)
Class GetrandomLaws `{Getrandom} : Prop := {
  gr_length n s s' bs : gr_fill n s = (s', inl bs) -> length bs = n;
}.

(** ** Lemmas *)

Lemma rq_feed_app `{RaptorQ} d ps qs :
  rq_feed d (ps ++ qs) = d' ← rq_feed d ps; rq_feed d' qs.
Proof.
  unfold rq_feed. rewrite foldl_app. destruct (foldl _ (Some d) ps); [done|].
  induction qs as [|q qs IH]; [done|]. cbn. apply IH.
Qed.

Lemma rq_feed_snoc `{RaptorQ} d ps p :
  rq_feed d (ps ++ [p]) = d' ← rq_feed d ps; rq_add_new_packet d' p.
Proof. by rewrite rq_feed_app. Qed.

Lemma elem_of_rq_packets `{RaptorQ} data mtu repair p :
  p ∈ rq_packets data mtu repair -> exists ps, rq_stream data mtu repair = Some ps /\ p ∈ ps.
Proof.
  unfold rq_packets. destruct (rq_stream data mtu repair) as [ps|]; cbn; [by exists ps|].
  intros Hp. by apply not_elem_of_nil in Hp.
Qed.

Lemma rq_packets_of `{RaptorQ} data mtu repair ps :
  rq_stream data mtu repair = Some ps -> rq_packets data mtu repair = ps.
Proof. unfold rq_packets. by intros ->. Qed.

Lemma rq_packet_roundtrip `{RaptorQLaws} data mtu repair p :
  0 < len data -> 64 <= mtu <= 65535 -> 0 <= repair -> p ∈ rq_packets data mtu repair ->
  rq_deserialize (rq_serialize p) = Some p /\ 4 < len (rq_serialize p) <= 4 + mtu.
Proof.
  intros Hd Hm Hr (ps & Hs & Hp)%elem_of_rq_packets. exact (rq_roundtrip data mtu repair ps p Hd Hm Hr Hs Hp).
Qed.

(** A block that encoded has source packets, the same whatever the repair. *)
Lemma rq_packets_source `{RaptorQLaws} data mtu repair :
  0 < len data -> 64 <= mtu <= 65535 -> 0 <= repair -> is_Some (rq_stream data mtu repair) ->
  rq_packets data mtu 0 <> [] /\ rq_packets data mtu 0 ⊆ rq_packets data mtu repair.
Proof.
  intros Hd Hm Hr [ps Hs]. destruct (rq_source data mtu repair ps Hd Hm Hr Hs) as (src & Hs0 & Hne & Hsub).
  by rewrite (rq_packets_of _ _ _ _ Hs), (rq_packets_of _ _ _ _ Hs0).
Qed.

(** What [rq_decode] says of a decoder at hand. *)
Lemma rq_decode_from `{RaptorQLaws} data mtu repair d0 qs :
  0 < len data -> 64 <= mtu <= 65535 -> 0 <= repair -> is_Some (rq_stream data mtu repair) ->
  rq_decoder_for (len data) mtu = Some d0 -> qs ⊆ rq_packets data mtu repair ->
  exists d, rq_feed d0 qs = Some d
    /\ (rq_get_result d = None \/ rq_get_result d = Some data)
    /\ (rq_packets data mtu 0 ⊆ qs -> rq_get_result d = Some data).
Proof.
  intros Hd Hm Hr [ps Hs] Hd0 Hq. rewrite (rq_packets_of _ _ _ _ Hs) in Hq.
  destruct (rq_decode data mtu repair ps qs Hd Hm Hr Hs Hq) as (d0' & d & Hd0' & Hf).
  rewrite Hd0 in Hd0'. injection Hd0' as <-. by exists d.
Qed.
