(* ===== verification/Instances.v ===== *)
(** * Concrete instances of the external primitives

    Small executable functions that satisfy the laws of [Primitives], so that
    every theorem stated under those laws is exercised on a concrete input and
    the laws are known to be consistent. They are stand-ins: none of them is
    the algorithm of the crate it stands in for. *)

From S2P Require Import Prelude Crc32c Primitives.

(** ** Definitions *)

(** *** Hash: a checksum and a length, over the key and the data *)
Definition toy_digest (key data : list byte) : list byte :=
  to_le 4 (crc32c_digest (key ++ data)) ++ to_le 28 (len data).

#[export] Instance toy_blake3 : Blake3 := {|
  b3_hasher := list byte * list byte;
  b3_new := ([], []);
  b3_new_keyed key := (key, []);
  b3_update h data := (h.1, h.2 ++ data);
  b3_finalize h := toy_digest h.1 h.2;
  b3_hash := toy_digest [];
  b3_keyed_hash := toy_digest;
|}.

(** *** Fountain code: a repetition code *)

(** Symbol [i] of [data], zero-padded to [t] bytes. *)
Definition toy_symbol (data : list byte) (t i : nat) : list byte :=
  resize t Byte.x00 (drop (i * t) data).

Definition toy_count (size t : Z) : nat := Z.to_nat (div_ceil size t).

Record toy_packet := { tp_id : list byte; tp_data : list byte }.

Definition toy_mk_packet (data : list byte) (t i : nat) : toy_packet :=
  {| tp_id := to_le 4 (Z.of_nat i); tp_data := toy_symbol data t i |}.

(** The source packets, then repair packets that repeat them in turn. *)
Definition toy_get_packets (data : list byte) (t repair : Z) : list toy_packet :=
  let k := toy_count (len data) t in
  (toy_mk_packet data (Z.to_nat t) <$> seq 0 k)
  ++ ((fun j => toy_mk_packet data (Z.to_nat t) (j mod k)) <$> seq 0 (Z.to_nat repair)).

(** The configuration is the size and the symbol size, the transmission unit
    rounded down to a multiple of 8; units under 64 bytes and more symbols than
    the limit panic. *)
Definition toy_with_defaults (size mtu : Z) : option (Z * Z) :=
  let t := mtu - mtu mod 8 in
  if decide (64 <= mtu /\ div_ceil size t <= RQ_MAX_SYMBOLS) then Some (size, t) else None.

Record toy_decoder := {
  td_size : Z;
  td_symbols : list (option (list byte));
}.

Definition toy_add (d : toy_decoder) (p : toy_packet) : option toy_decoder :=
  let i := Z.to_nat (from_le (tp_id p)) in
  if decide (i < length (td_symbols d))%nat
  then Some {| td_size := td_size d; td_symbols := <[i := Some (tp_data p)]> (td_symbols d) |}
  else None.

Definition toy_result (d : toy_decoder) : option (list byte) :=
  symbols ← mapM id (td_symbols d); Some (take (Z.to_nat (td_size d)) (concat symbols)).

#[export] Instance toy_raptorq : RaptorQ := {|
  rq_packet := toy_packet;
  rq_config := Z * Z;
  rq_encoder := list byte * (Z * Z);
  rq_decoder := toy_decoder;
  rq_serialize p := tp_id p ++ tp_data p;
  rq_deserialize bs :=
    if decide (4 <= length bs)%nat
    then Some {| tp_id := take 4 bs; tp_data := drop 4 bs |} else None;
  rq_with_defaults := toy_with_defaults;
  rq_encoder_new data config := Some (data, config);
  rq_encoder_with_defaults data mtu :=
    config ← toy_with_defaults (len data) mtu; Some (data, config);
  rq_get_config e := e.2;
  rq_get_encoded_packets e repair := Some (toy_get_packets e.1 e.2.2 repair);
  rq_decoder_new config :=
    Some {| td_size := config.1; td_symbols := replicate (toy_count config.1 config.2) None |};
  rq_add_new_packet := toy_add;
  rq_get_result := toy_result;
|}.

(** *** AEAD: the plaintext and a keyed tag *)
Definition toy_tag (key nonce aad msg : list byte) : list byte :=
  take 16 (toy_digest key (nonce ++ aad ++ msg)).

Definition toy_decrypt (key nonce aad c : list byte) : option (list byte) :=
  let n := (length c - 16)%nat in
  if decide (drop n c = toy_tag key nonce aad (take n c)) then Some (take n c) else None.

#[export] Instance toy_aead : Aead := {|
  aead_key_ok key := bool_decide (length key = 32%nat);
  aead_encrypt key nonce aad msg := Some (msg ++ toy_tag key nonce aad msg);
  aead_decrypt := toy_decrypt;
  aead_decrypt_in_place := toy_decrypt;
|}.

(** *** Signatures: a digest under the seed, the public key being the seed *)
Record toy_key := { toy_seed : list byte; toy_seed_32 : length toy_seed = 32%nat }.

Lemma toy_resize_32 (seed : list byte) : length (resize 32 Byte.x00 seed) = 32%nat.
Proof. apply length_resize. Qed.

Definition toy_key_of (seed : list byte) : toy_key :=
  {| toy_seed := resize 32 Byte.x00 seed; toy_seed_32 := toy_resize_32 seed |}.

#[export] Instance toy_ed25519 : Ed25519 := {|
  ed_signing_key := toy_key;
  ed_verifying_key := toy_key;
  ed_from_seed := toy_key_of;
  ed_to_seed := toy_seed;
  ed_verifying := id;
  ed_sign sk m := toy_digest (toy_seed sk) m ++ zeros 32;
  ed_verify vk m s := bool_decide (s = toy_digest (toy_seed vk) m ++ zeros 32);
  ed_vk_from_bytes bs := if decide (length bs = 32%nat) then Some (toy_key_of bs) else None;
  ed_vk_error _ := [Txt "wrong length"];
  ed_vk_to_bytes := toy_seed;
|}.

(** *** QR codes: the data and the version, with capacity ten bytes per version *)
#[export] Instance toy_qrcodegen : Qrcodegen := {|
  qr_code := list byte * Z;
  qr_encode_segments data _ v := if decide (len data <= 10 * v) then Some (data, v) else None;
  qr_encode_binary data _ :=
    if decide (len data <= 400) then Some (data, Z.max 1 (div_ceil (len data) 10)) else None;
  qr_code_version c := c.2;
  qr_code_size c := 4 * c.2 + 17;
  qr_code_module c x y :=
    match c.1 !! Z.to_nat (y * (4 * c.2 + 17) + x) with
    | Some b => Z.testbit (byte.unsigned b) 0
    | None => false
    end;
|}.

(** ** The laws hold *)

Lemma toy_digest_length key data : length (toy_digest key data) = 32%nat.
Proof. unfold toy_digest. by rewrite length_app, !length_to_le. Qed.

#[export] Instance toy_blake3_laws : Blake3Laws.
Proof.
  assert (Hfold : forall chunks key d,
    foldl (fun h data => (h.1, h.2 ++ data)) (key, d) chunks
    = (key, d ++ concat chunks) :> list byte * list byte).
  { induction chunks as [|c chunks IH]; intros key d; cbn; [by rewrite app_nil_r|].
    by rewrite IH, app_assoc. }
  constructor; intros; cbn; rewrite ?Hfold; auto using toy_digest_length.
Qed.

Lemma concat_toy_symbols data t k :
  concat (toy_symbol data t <$> seq 0 k) = resize (k * t) Byte.x00 data.
Proof. apply concat_pieces. Qed.

Lemma toy_count_bounds size t :
  0 < size -> 1 <= t -> div_ceil size t <= RQ_MAX_SYMBOLS ->
  0 < Z.of_nat (toy_count size t) <= 2 ^ 32
  /\ size <= Z.of_nat (toy_count size t) * t.
Proof.
  intros. unfold toy_count, RQ_MAX_SYMBOLS in *.
  pose proof (div_ceil_mul size t ltac:(lia) ltac:(lia)).
  pose proof (div_ceil_nonneg size t ltac:(lia) ltac:(lia)). rewrite Z2Nat.id by lia.
  assert (div_ceil size t <> 0) by (intros E; rewrite E in *; lia). lia.
Qed.

(** The packets are exactly the source packets. *)
Lemma elem_of_toy_packets data t repair p :
  (0 < toy_count (len data) t)%nat ->
  p ∈ toy_get_packets data t repair <->
  exists i, (i < toy_count (len data) t)%nat /\ p = toy_mk_packet data (Z.to_nat t) i.
Proof.
  intros Hk.
  unfold toy_get_packets. rewrite elem_of_app, !list_elem_of_fmap. split.
  - intros [(i & -> & Hi)|(j & -> & Hj)]; rewrite ?elem_of_seq in *.
    + exists i. split; [lia|done].
    + eexists. split; [|done]. apply Nat.mod_upper_bound. lia.
  - intros (i & Hi & ->). left. exists i. rewrite elem_of_seq. split; [done|lia].
Qed.

Lemma toy_id i k : (i < k)%nat -> Z.of_nat k <= 2 ^ 32 ->
  Z.to_nat (from_le (to_le 4 (Z.of_nat i))) = i.
Proof. intros. rewrite from_to_le by (unfold urange; cbn; lia). apply Nat2Z.id. Qed.

#[export] Instance toy_packet_dec : EqDecision toy_packet.
Proof. solve_decision. Defined.

(** What a decoder holds after the packets [ps]. *)
Definition toy_holds (data : list byte) (t k : nat) (ps : list toy_packet) (d : toy_decoder) :=
  td_size d = len data /\ length (td_symbols d) = k
  /\ forall i, (i < k)%nat ->
     td_symbols d !! i =
       Some (if decide (toy_mk_packet data t i ∈ ps) then Some (toy_symbol data t i) else None).

Lemma toy_add_holds data t k ps d i :
  (i < k)%nat -> Z.of_nat k <= 2 ^ 32 -> toy_holds data t k ps d ->
  exists d', toy_add d (toy_mk_packet data t i) = Some d'
             /\ toy_holds data t k (ps ++ [toy_mk_packet data t i]) d'.
Proof.
  intros Hi Hk (Hsize & Hlen & Hsym). unfold toy_add. cbn [tp_id tp_data toy_mk_packet].
  rewrite (toy_id i k) by done. rewrite decide_True by lia. eexists. split; [done|].
  split; [done|]. cbn [td_symbols]. rewrite length_insert. split; [done|]. intros j Hj.
  destruct (decide (i = j)) as [->|Hne].
  - rewrite list_lookup_insert_eq by lia.
    rewrite decide_True by (rewrite elem_of_app, list_elem_of_singleton; by right). done.
  - rewrite list_lookup_insert_ne, Hsym by done. f_equal.
    apply decide_ext. rewrite elem_of_app, list_elem_of_singleton.
    split; [auto|]. intros [?|Heq]; [done|]. exfalso. apply Hne.
    apply (f_equal tp_id) in Heq. apply (f_equal (fun b => Z.to_nat (from_le b))) in Heq.
    cbn in Heq. by rewrite !(toy_id _ k) in Heq.
Qed.

Lemma toy_feed_holds data t k ps :
  Z.of_nat k <= 2 ^ 32 ->
  Forall (fun p => exists i, (i < k)%nat /\ p = toy_mk_packet data t i) ps ->
  exists d, rq_feed {| td_size := len data; td_symbols := replicate k None |} ps = Some d
            /\ toy_holds data t k ps d.
Proof.
  intros Hk. induction ps as [|p ps IH] using rev_ind; intros Hps.
  { eexists. split; [done|]. split; [done|]. cbn [td_symbols]. split; [apply length_replicate|].
    intros i Hi. rewrite decide_False by apply not_elem_of_nil.
    by apply lookup_replicate_2. }
  apply Forall_app in Hps as [Hps Hp]. apply Forall_singleton in Hp as (i & Hi & ->).
  destruct (IH Hps) as (d & Hd & Hh). rewrite (@rq_feed_snoc toy_raptorq), Hd. cbn.
  by apply toy_add_holds.
Qed.

Lemma toy_result_holds data t k ps d :
  length data = 0%nat \/ (length data <= k * t)%nat -> toy_holds data t k ps d ->
  (toy_result d = None \/ toy_result d = Some data)
  /\ ((forall i, (i < k)%nat -> toy_mk_packet data t i ∈ ps) -> toy_result d = Some data).
Proof.
  intros Hdata (Hsize & Hlen & Hsym).
  assert (Hfull : (forall i, (i < k)%nat -> toy_mk_packet data t i ∈ ps) ->
                  toy_result d = Some data).
  { intros Hall. unfold toy_result. replace (td_symbols d) with (Some <$> (toy_symbol data t <$> seq 0 k)).
    - rewrite (proj2 (mapM_Some _ _ (toy_symbol data t <$> seq 0 k)));
        [|apply Forall2_fmap_l, Forall_Forall2_diag, Forall_true; done].
      cbn. rewrite concat_toy_symbols, Hsize. unfold len. rewrite Nat2Z.id. f_equal.
      rewrite take_resize_le by lia. by apply resize_all_alt.
    - apply list_eq. intros i. rewrite !list_lookup_fmap. destruct (decide (i < k)%nat).
      + rewrite lookup_seq_lt by done. cbn. rewrite Hsym, decide_True by auto. done.
      + rewrite lookup_seq_ge by lia. cbn. symmetry. apply lookup_ge_None. lia. }
  split; [|done].
  destruct (decide (Forall (fun i => toy_mk_packet data t i ∈ ps) (seq 0 k))) as [Hall|Hmiss].
  - right. apply Hfull. intros i Hi. rewrite Forall_forall in Hall. apply Hall, elem_of_seq. lia.
  - left. apply not_Forall_Exists in Hmiss; [|apply _].
    apply Exists_exists in Hmiss as (i & Hi%elem_of_seq & Hno). unfold toy_result.
    replace (mapM id (td_symbols d)) with (@None (list (list byte))); [done|].
    symmetry. apply mapM_None. apply Exists_exists. exists None. split; [|done].
    apply list_elem_of_lookup. exists i. rewrite Hsym by lia. cbn in Hno.
    by rewrite decide_False.
Qed.

(** A block that encodes: its symbol size, the number of its symbols and its
    packets. *)
Lemma toy_stream data mtu repair ps :
  0 < len data -> 64 <= mtu -> rq_stream data mtu repair = Some ps ->
  let t := mtu - mtu mod 8 in
  1 <= t <= mtu /\ toy_with_defaults (len data) mtu = Some (len data, t)
  /\ 0 < Z.of_nat (toy_count (len data) t) <= 2 ^ 32
  /\ len data <= Z.of_nat (toy_count (len data) t) * t
  /\ ps = toy_get_packets data t repair
  /\ forall r, rq_stream data mtu r = Some (toy_get_packets data t r).
Proof.
  intros Hd Hm. unfold rq_stream, rq_with_defaults. cbn [toy_raptorq]. cbv zeta.
  pose proof (Z.mod_pos_bound mtu 8 ltac:(lia)).
  destruct (toy_with_defaults (len data) mtu) as [c|] eqn:Hc; [|done]. unfold toy_with_defaults in Hc.
  case_decide as Hl; [|done]. injection Hc as <-. destruct Hl as [_ Hl]. cbn. intros [= <-].
  destruct (toy_count_bounds (len data) (mtu - mtu mod 8) Hd ltac:(lia) Hl).
  split_and!; (done || lia).
Qed.

#[export] Instance toy_raptorq_laws : RaptorQLaws.
Proof.
  constructor.
  - done.
  - intros data config e [= <-]. done.
  - intros data mtu repair Hd Hm _ Hl. unfold rq_stream. cbn. unfold toy_with_defaults.
    rewrite decide_True by lia. by eexists.
  - intros data mtu repair ps p Hd Hm Hr Hs Hp.
    destruct (toy_stream data mtu repair ps Hd ltac:(lia) Hs) as (Ht & _ & Hk & _ & -> & _).
    apply elem_of_toy_packets in Hp as (i & Hi & ->); [|lia].
    cbn. unfold toy_symbol, len in *. rewrite length_app, length_to_le, length_resize.
    rewrite decide_True by lia. rewrite take_app_length', drop_app_length' by (symmetry; apply length_to_le).
    split; [done|lia].
  - intros data mtu repair ps Hd Hm Hr Hs.
    destruct (toy_stream data mtu repair ps Hd ltac:(lia) Hs) as (Ht & _ & Hk & _ & -> & Hall).
    eexists. split; [apply Hall|]. split.
    + intros Hnil.
      assert (Hin : toy_mk_packet data (Z.to_nat (mtu - mtu mod 8)) 0
                    ∈ toy_get_packets data (mtu - mtu mod 8) 0)
        by (apply elem_of_toy_packets; [lia|]; exists 0%nat; split; [lia|done]).
      rewrite Hnil in Hin. by apply not_elem_of_nil in Hin.
    + intros p. by rewrite !elem_of_toy_packets by lia.
  - intros data mtu repair ps qs Hd Hm Hr Hs Hqs. unfold rq_decoder_for.
    destruct (toy_stream data mtu repair ps Hd ltac:(lia) Hs) as (Ht & Hc & Hk & Hcover & -> & Hall).
    assert (Hsrc : rq_packets data mtu 0 = toy_get_packets data (mtu - mtu mod 8) 0)
      by (unfold rq_packets; by rewrite Hall).
    rewrite Hsrc. clear Hsrc. cbn. rewrite Hc. cbn. set (t := mtu - mtu mod 8) in *.
    destruct (toy_feed_holds data (Z.to_nat t) (toy_count (len data) t) qs) as (d & Hfeed & Hh).
    { lia. }
    { apply Forall_forall. intros p Hp%Hqs. apply elem_of_toy_packets in Hp; [done|lia]. }
    eexists _, d. split; [done|]. split; [exact Hfeed|].
    apply toy_result_holds in Hh as [H1 H2]; [|right; unfold len in *; nia].
    split; [done|]. intros Hsrc. apply H2. intros i Hi.
    apply Hsrc, elem_of_toy_packets; [lia|]. by exists i.
Qed.

Lemma length_toy_tag key nonce aad msg : length (toy_tag key nonce aad msg) = 16%nat.
Proof. unfold toy_tag. by rewrite length_take, toy_digest_length. Qed.

#[export] Instance toy_aead_laws : AeadLaws.
Proof.
  constructor; cbn; unfold toy_decrypt; intros.
  - by apply bool_decide_eq_true.
  - by eexists.
  - simplify_eq. rewrite len_app. unfold len at 2. by rewrite length_toy_tag.
  - simplify_eq.
    rewrite length_app, length_toy_tag, Nat.add_sub, take_app_length, drop_app_length.
    by rewrite decide_True.
  - case_decide as Ht; simplify_eq. f_equal. rewrite <- Ht. apply take_drop.
  - done.
Qed.

(** *** Randomness: a counter that runs out *)
#[export] Instance toy_getrandom : Getrandom := {|
  gr_state := Z;
  gr_fill n s :=
    if decide (s < 1000) then (s + 1, inl (to_le n s)) else (s, inr [Txt "exhausted"]);
|}.

#[export] Instance toy_getrandom_laws : GetrandomLaws.
Proof.
  constructor. intros n s s' bs. cbn. case_decide; intros [= <- <-]. apply length_to_le.
Qed.

Lemma toy_key_eq (k1 k2 : toy_key) : toy_seed k1 = toy_seed k2 -> k1 = k2.
Proof.
  destruct k1 as [s1 H1], k2 as [s2 H2]. cbn. intros ->. f_equal. apply eq_pi. apply _.
Qed.

#[export] Instance toy_ed25519_laws : Ed25519Laws.
Proof.
  constructor; cbn; intros.
  - by apply resize_all_alt.
  - apply toy_seed_32.
  - apply toy_key_eq. cbn. apply resize_all_alt. symmetry. apply toy_seed_32.
  - by rewrite length_app, toy_digest_length.
  - by apply bool_decide_eq_true.
  - apply toy_seed_32.
  - rewrite decide_True by apply toy_seed_32. f_equal. apply toy_key_eq. cbn.
    apply resize_all_alt. symmetry. apply toy_seed_32.
Qed.

#[export] Instance toy_qrcodegen_laws : QrcodegenLaws.
Proof.
  constructor; cbn; unfold len; intros.
  - match goal with Hl : length _ = length _ |- _ => rewrite Hl end.
    case_decide; split; intros [? ?]; simplify_eq; eauto.
  - match goal with Hs : is_Some _ |- _ => destruct Hs end.
    repeat case_decide; simplify_eq; [eauto|lia].
  - rewrite decide_True by (cbn; lia). eauto.
  - rewrite decide_False by lia. done.
Qed.
