(* ===== verification/Chunker.v ===== *)
(** * Payload chunking (dhow-codec/src/chunker.rs)

    [ChunkParams], the block layout [ChunkMap] derives from them, and the
    queries on it. [checks] says whether the build checks integer overflow. *)

From S2P Require Import Prelude Errors.

(** ** Definitions *)

Definition MAX_PAYLOAD_SIZE : Z := 4 * 1024 * 1024 * 1024.
Definition MIN_SYMBOL_SIZE : Z := 1.
Definition MAX_SYMBOL_SIZE : Z := 65535.
Definition MIN_BLOCK_COUNT : Z := 1.
Definition MAX_BLOCK_COUNT : Z := 1024.

(** [u32::MAX as u64] *)
Definition U32_MAX : Z := 2 ^ 32 - 1.

Record ChunkParams := {
  cp_payload_size : Z;
  cp_block_count : Z;
  cp_symbol_size : Z;
}.

(** [ChunkParams::new] *)
Definition ChunkParams_new (payload_size block_count symbol_size : Z)
    : outcome ChunkError ChunkParams :=
  if decide (MAX_PAYLOAD_SIZE < payload_size)
  then Err (Chunk.PayloadTooLarge payload_size MAX_PAYLOAD_SIZE)
  else if decide (~ (MIN_BLOCK_COUNT <= block_count <= MAX_BLOCK_COUNT))
  then Err (Chunk.InvalidBlockCount block_count)
  else if decide (~ (MIN_SYMBOL_SIZE <= symbol_size <= MAX_SYMBOL_SIZE))
  then Err (Chunk.InvalidSymbolSize symbol_size)
  else Ok {| cp_payload_size := payload_size;
             cp_block_count := block_count;
             cp_symbol_size := symbol_size |}.

Record BlockInfo := {
  bi_index : Z;
  bi_start : Z;
  bi_size : Z;
  bi_symbol_count : Z;
}.

Record SymbolInfo := {
  si_index : Z;
  si_start : Z;
  si_size : Z;
  si_padded : bool;
}.

Record ChunkMap := {
  cm_params : ChunkParams;
  cm_blocks : list BlockInfo;
}.

(** The symbol count of one block, as the loop of [compute_blocks] finds it;
    dividing by a zero symbol size panics. *)
Definition block_symbol_count (symbol_size size : Z) : outcome ChunkError Z :=
  if decide (size = 0) then Ok 0
  else if decide (symbol_size = 0) then Panic
  else
    let sc := div_ceil size symbol_size in
    if decide (U32_MAX < sc) then Err (Chunk.InvalidSymbolSize symbol_size)
    else Ok (as_u 32 sc).

(** The loop of [compute_blocks], over the remaining block indices. *)
Fixpoint compute_blocks_loop (checks : bool) (symbol_size remainder large_size small_size : Z)
    (idxs : list nat) (offset : Z) : outcome ChunkError (list BlockInfo) :=
  match idxs with
  | [] => Ok []
  | i :: idxs =>
      let size := if decide (Z.of_nat i < remainder) then large_size else small_size in
      symbol_count ← block_symbol_count symbol_size size;
      let block := {| bi_index := as_u 32 (Z.of_nat i); bi_start := offset;
                      bi_size := size; bi_symbol_count := symbol_count |} in
      offset ← add_w checks 64 offset size;
      rest ← compute_blocks_loop checks symbol_size remainder large_size small_size idxs offset;
      Ok (block :: rest)
  end.

Definition compute_blocks (checks : bool) (params : ChunkParams)
    : outcome ChunkError (list BlockInfo) :=
  let s := cp_payload_size params in
  let b := cp_block_count params in
  if decide (b = 0) then Panic
  else
    compute_blocks_loop checks (cp_symbol_size params) (s mod b) (div_ceil s b) (s / b)
      (seq 0 (Z.to_nat b)) 0.

(** [ChunkMap::new] *)
Definition ChunkMap_new (checks : bool) (params : ChunkParams) : outcome ChunkError ChunkMap :=
  blocks ← compute_blocks checks params;
  Ok {| cm_params := params; cm_blocks := blocks |}.

Definition block_count (self : ChunkMap) : Z := as_u 32 (len (cm_blocks self)).

Definition total_symbols (checks : bool) (self : ChunkMap) : outcome ChunkError Z :=
  sum_w checks 32 (bi_symbol_count <$> cm_blocks self).

Definition block_info (self : ChunkMap) (i : Z) : outcome ChunkError BlockInfo :=
  if decide (block_count self <= i)
  then Err (Chunk.BlockIndexOutOfRange i (block_count self))
  else index (Z.to_nat i) (cm_blocks self).

Definition symbol_info (self : ChunkMap) (block_index symbol_index : Z)
    : outcome ChunkError SymbolInfo :=
  block ← block_info self block_index;
  if decide (bi_symbol_count block <= symbol_index)
  then Err (Chunk.SymbolIndexOutOfRange symbol_index (bi_symbol_count block))
  else
    let n := cp_symbol_size (cm_params self) in
    let start := symbol_index * n in
    if decide (n = 0) then Panic
    else
      let size := if decide (bi_size block mod n <> 0
                             /\ symbol_index = bi_symbol_count block - 1)
                  then bi_size block mod n else n in
      Ok {| si_index := symbol_index; si_start := start; si_size := size;
            si_padded := bool_decide (size < n) |}.

Definition extract_block (checks : bool) (self : ChunkMap) (payload : list byte)
    (block_index : Z) : outcome ChunkError (list byte) :=
  block ← block_info self block_index;
  let start := bi_start block in
  end_ ← add_w checks 64 start (bi_size block);
  if decide (len payload < end_)
  then Err (Chunk.Truncated end_ (len payload))
  else slice (Z.to_nat start) (Z.to_nat end_) payload.

Definition extract_symbol (checks : bool) (self : ChunkMap) (block_payload : list byte)
    (block_index symbol_index : Z) : outcome ChunkError (list byte) :=
  info ← symbol_info self block_index symbol_index;
  let n := cp_symbol_size (cm_params self) in
  let start := si_start info in
  end_ ← add_w checks 64 start (si_size info);
  if decide (len block_payload < end_)
  then Err (Chunk.Truncated end_ (len block_payload))
  else
    data ← slice (Z.to_nat start) (Z.to_nat end_) block_payload;
    (* [symbol[..size].copy_from_slice(data)] on a buffer of [n] zeros *)
    _ ← (slice 0 (Z.to_nat (si_size info)) (zeros (Z.to_nat n)) : outcome ChunkError _);
    Ok (data ++ drop (Z.to_nat (si_size info)) (zeros (Z.to_nat n))).

(** The loop of [reassemble]. *)
Fixpoint reassemble_loop (self : ChunkMap) (i : nat) (blocks : list (list byte))
    (payload : list byte) : outcome ChunkError (list byte) :=
  match blocks with
  | [] => Ok payload
  | block :: blocks =>
      info ← index i (cm_blocks self);
      if decide (len block < bi_size info)
      then Err (Chunk.Truncated (bi_size info) (len block))
      else
        data ← slice 0 (Z.to_nat (bi_size info)) block;
        reassemble_loop self (S i) blocks (payload ++ data)
  end.

Definition reassemble (self : ChunkMap) (blocks : list (list byte))
    : outcome ChunkError (list byte) :=
  if decide (len blocks <> block_count self)
  then Err (Chunk.BlockIndexOutOfRange (as_u 32 (len blocks)) (block_count self))
  else reassemble_loop self 0 blocks [].

(** *** Specification

    The layout proto/block.md describes: the first [S mod B] blocks have one
    byte more than the others, and block [i] starts where block [i - 1]
    ends. *)
Definition valid_params (p : ChunkParams) : Prop :=
  0 <= cp_payload_size p <= MAX_PAYLOAD_SIZE
  /\ MIN_BLOCK_COUNT <= cp_block_count p <= MAX_BLOCK_COUNT
  /\ MIN_SYMBOL_SIZE <= cp_symbol_size p <= MAX_SYMBOL_SIZE.

Definition spec_size (s b i : Z) : Z := if decide (i < s mod b) then s / b + 1 else s / b.
Definition spec_start (s b i : Z) : Z := i * (s / b) + Z.min i (s mod b).

Definition spec_block (p : ChunkParams) (i : nat) : BlockInfo :=
  let size := spec_size (cp_payload_size p) (cp_block_count p) (Z.of_nat i) in
  {| bi_index := Z.of_nat i;
     bi_start := spec_start (cp_payload_size p) (cp_block_count p) (Z.of_nat i);
     bi_size := size;
     bi_symbol_count := div_ceil size (cp_symbol_size p) |}.

(** The one layout whose only block has more symbols than a [u32] counts. *)
Definition too_many_symbols (p : ChunkParams) : Prop :=
  cp_payload_size p = MAX_PAYLOAD_SIZE /\ cp_block_count p = 1 /\ cp_symbol_size p = 1.

(** ** The arithmetic of the layout *)

Section layout.
Context (p : ChunkParams) (Hp : valid_params p).
#[local] Abbreviation s := (cp_payload_size p).
#[local] Abbreviation b := (cp_block_count p).
#[local] Abbreviation n := (cp_symbol_size p).

Lemma params_bounds : 0 <= s <= 2 ^ 32 /\ 1 <= b <= 1024 /\ 1 <= n <= 65535.
Proof. exact Hp. Qed.

Lemma payload_split : s = b * (s / b) + s mod b /\ 0 <= s mod b < b /\ 0 <= s / b.
Proof.
  pose proof params_bounds. split_and!; try (apply Z.mod_pos_bound; lia).
  - apply Z.div_mod. lia.
  - apply Z.div_pos; lia.
Qed.

Lemma spec_size_bounds i : 0 <= i -> 0 <= spec_size s b i <= 2 ^ 32.
Proof.
  intros. pose proof params_bounds. pose proof payload_split. unfold spec_size.
  case_decide; split; try lia; nia.
Qed.

Lemma spec_size_large i : i < s mod b -> 0 <= i -> spec_size s b i = div_ceil s b.
Proof.
  intros Hi ?. pose proof params_bounds. pose proof payload_split.
  unfold spec_size, div_ceil. rewrite decide_True by done.
  apply Z.div_unique with (s mod b - 1); lia.
Qed.

Lemma spec_start_0 : spec_start s b 0 = 0.
Proof. pose proof payload_split. unfold spec_start. lia. Qed.

Lemma spec_start_S i : spec_start s b (i + 1) = spec_start s b i + spec_size s b i.
Proof. unfold spec_start, spec_size. case_decide; lia. Qed.

Lemma spec_start_end : spec_start s b b = s.
Proof. pose proof payload_split. unfold spec_start. rewrite Z.min_r by lia. lia. Qed.

Lemma spec_start_mono i j : 0 <= i <= j -> spec_start s b i <= spec_start s b j.
Proof. pose proof payload_split. unfold spec_start. nia. Qed.

Lemma spec_start_bounds i : 0 <= i <= b -> 0 <= spec_start s b i <= 2 ^ 32.
Proof.
  intros. pose proof params_bounds. pose proof spec_start_0. pose proof spec_start_end.
  pose proof (spec_start_mono 0 i). pose proof (spec_start_mono i b). lia.
Qed.

Lemma spec_count_bounds i :
  0 <= i -> ~ too_many_symbols p -> 0 <= div_ceil (spec_size s b i) n <= U32_MAX.
Proof.
  intros Hi Hm. pose proof params_bounds. pose proof payload_split.
  pose proof (spec_size_bounds i Hi). unfold U32_MAX.
  split; [apply div_ceil_nonneg; lia|].
  destruct (decide (n = 1)) as [Hn|Hn].
  - rewrite Hn. unfold div_ceil. rewrite Z.div_1_r.
    enough (spec_size s b i <> 2 ^ 32) by lia. intros E. apply Hm.
    assert (b = 1).
    { destruct (decide (b = 1)); [done|]. exfalso.
      unfold spec_size in E. case_decide; nia. }
    unfold too_many_symbols, MAX_PAYLOAD_SIZE. split_and!; try done.
    unfold spec_size in E. replace b with 1 in * by done.
    rewrite Z.mod_1_r, Z.div_1_r in *. case_decide; lia.
  - pose proof (div_ceil_mul (spec_size s b i) n ltac:(lia) ltac:(lia)). nia.
Qed.

Lemma block_symbol_count_spec size :
  0 <= size -> div_ceil size n <= U32_MAX ->
  block_symbol_count n size = Ok (div_ceil size n).
Proof.
  intros ? Hle. pose proof params_bounds. unfold block_symbol_count.
  destruct (decide (size = 0)) as [->|].
  { f_equal. unfold div_ceil. rewrite Z.div_small; lia. }
  rewrite !decide_False by lia. f_equal. apply as_u_id.
  pose proof (div_ceil_nonneg size (cp_symbol_size p)). unfold urange, U32_MAX in *. lia.
Qed.

Lemma compute_blocks_loop_spec checks i m :
  ~ too_many_symbols p -> Z.of_nat (i + m) <= b ->
  compute_blocks_loop checks n (s mod b) (div_ceil s b) (s / b) (seq i m)
    (spec_start s b (Z.of_nat i)) = Ok (spec_block p <$> seq i m).
Proof.
  intros Hm. pose proof params_bounds. revert i. induction m as [|m IH]; intros i Hi; [done|].
  cbn [seq compute_blocks_loop fmap list_fmap].
  replace (if decide _ then _ else _) with (spec_size s b (Z.of_nat i)).
  2: { case_decide; [by apply spec_size_large; lia|]. unfold spec_size. by rewrite decide_False. }
  pose proof (spec_size_bounds (Z.of_nat i) ltac:(lia)).
  pose proof (spec_count_bounds (Z.of_nat i) ltac:(lia) Hm).
  rewrite block_symbol_count_spec by lia. cbn [mbind outcome_bind].
  assert (0 <= spec_start s b (Z.of_nat i) <= 2 ^ 32) by (apply spec_start_bounds; lia).
  rewrite add_w_Ok by lia. cbn [mbind outcome_bind].
  replace (spec_start s b (Z.of_nat i) + _) with (spec_start s b (Z.of_nat (S i)))
    by (rewrite <- spec_start_S; f_equal; lia).
  rewrite IH by lia. cbn. do 2 f_equal.
  unfold spec_block. f_equal. apply as_u_id. unfold urange. lia.
Qed.

Lemma compute_blocks_spec checks :
  ~ too_many_symbols p ->
  compute_blocks checks p = Ok (spec_block p <$> seq 0 (Z.to_nat b)).
Proof.
  intros Hm. pose proof params_bounds. unfold compute_blocks. rewrite decide_False by lia.
  rewrite <- (compute_blocks_loop_spec checks 0) by (done || lia).
  change (Z.of_nat 0) with 0. by rewrite spec_start_0.
Qed.

Lemma compute_blocks_too_many checks :
  too_many_symbols p -> compute_blocks checks p = Err (Chunk.InvalidSymbolSize 1).
Proof. unfold compute_blocks. intros (-> & -> & ->). done. Qed.

End layout.

(** ** Valid maps

    What [ChunkMap::new] returns for validated parameters. *)
Record valid_map (m : ChunkMap) : Prop := {
  vm_params : valid_params (cm_params m);
  vm_small : ~ too_many_symbols (cm_params m);
  vm_blocks : cm_blocks m
              = spec_block (cm_params m) <$> seq 0 (Z.to_nat (cp_block_count (cm_params m)));
}.

Lemma ChunkMap_new_Ok checks p m :
  valid_params p -> ChunkMap_new checks p = Ok m -> valid_map m /\ cm_params m = p.
Proof.
  intros Hp. unfold ChunkMap_new. destruct (decide (too_many_symbols p)) as [Hm|Hm].
  { by rewrite compute_blocks_too_many. }
  rewrite compute_blocks_spec by done. cbn. intros [= <-]. done.
Qed.

Section valid.
Context (m : ChunkMap) (Hm : valid_map m).
#[local] Abbreviation p := (cm_params m).
#[local] Abbreviation bcount := (cp_block_count p).
#[local] Abbreviation nsym := (cp_symbol_size p).

Lemma vm_bounds :
  0 <= cp_payload_size p <= 2 ^ 32 /\ 1 <= bcount <= 1024 /\ 1 <= nsym <= 65535.
Proof. apply params_bounds, Hm. Qed.

Lemma vm_length : length (cm_blocks m) = Z.to_nat bcount.
Proof. rewrite (vm_blocks m Hm). by rewrite length_fmap, length_seq. Qed.

Lemma vm_block_count : block_count m = bcount.
Proof.
  pose proof vm_bounds. unfold block_count, len. rewrite vm_length, Z2Nat.id by lia.
  apply as_u_id. unfold urange. lia.
Qed.

Lemma vm_lookup i :
  (i < Z.to_nat bcount)%nat -> cm_blocks m !! i = Some (spec_block p i).
Proof.
  intros Hi. rewrite (vm_blocks m Hm), list_lookup_fmap, lookup_seq_lt by done. done.
Qed.

Lemma block_info_Ok i : 0 <= i < bcount -> block_info m i = Ok (spec_block p (Z.to_nat i)).
Proof.
  intros Hi. unfold block_info. rewrite vm_block_count, decide_False by lia.
  apply index_Ok, vm_lookup. lia.
Qed.

Lemma block_info_Err i :
  bcount <= i -> block_info m i = Err (Chunk.BlockIndexOutOfRange i bcount).
Proof. intros. unfold block_info. rewrite vm_block_count. by rewrite decide_True. Qed.

Lemma extract_block_Ok checks payload i :
  len payload = cp_payload_size p -> 0 <= i < bcount ->
  extract_block checks m payload i
  = Ok (sub (Z.to_nat (spec_start (cp_payload_size p) bcount i))
            (Z.to_nat (spec_size (cp_payload_size p) bcount i)) payload).
Proof.
  intros Hlen Hi. pose proof vm_bounds. pose proof (vm_params m Hm) as Hp.
  unfold extract_block. rewrite block_info_Ok by done. cbn. rewrite Z2Nat.id by lia.
  pose proof (spec_start_bounds p Hp i ltac:(lia)).
  pose proof (spec_size_bounds p Hp i ltac:(lia)).
  rewrite add_w_Ok by lia. cbn. rewrite <- spec_start_S.
  pose proof (spec_start_mono p Hp (i + 1) bcount ltac:(lia)) as Hend.
  rewrite spec_start_end in Hend by done.
  rewrite decide_False by lia. pose proof (spec_start_S p i).
  unfold len in Hlen. rewrite slice_Ok by lia. f_equal. f_equal. lia.
Qed.

(** The blocks laid end to end. *)
Lemma concat_blocks (payload : list byte) k :
  len payload = cp_payload_size p -> Z.of_nat k <= bcount ->
  concat ((fun i => sub (Z.to_nat (spec_start (cp_payload_size p) bcount (Z.of_nat i)))
                        (Z.to_nat (spec_size (cp_payload_size p) bcount (Z.of_nat i))) payload)
          <$> seq 0 k)
  = take (Z.to_nat (spec_start (cp_payload_size p) bcount (Z.of_nat k))) payload.
Proof.
  intros Hlen. pose proof (vm_params m Hm) as Hp. pose proof vm_bounds.
  induction k as [|k IH]; intros Hk.
  { change (Z.of_nat 0) with 0. by rewrite spec_start_0. }
  rewrite seq_S, fmap_app, concat_app, IH by lia. cbn. rewrite app_nil_r.
  pose proof (spec_start_bounds p Hp (Z.of_nat k) ltac:(lia)).
  pose proof (spec_size_bounds p Hp (Z.of_nat k) ltac:(lia)).
  rewrite <- (sub_0 (Z.to_nat (spec_start _ _ (Z.of_nat k)))), <- (sub_0 (Z.to_nat _)).
  rewrite <- (Nat.add_0_l (Z.to_nat (spec_start _ _ (Z.of_nat k)))) at 2.
  rewrite sub_join. f_equal. rewrite Nat2Z.inj_succ, <- Z.add_1_r, spec_start_S. lia.
Qed.

Lemma reassemble_loop_Ok i bs acc :
  (i + length bs <= Z.to_nat bcount)%nat ->
  (forall j b, bs !! j = Some b -> bi_size (spec_block p (i + j)) = len b) ->
  reassemble_loop m i bs acc = Ok (acc ++ concat bs).
Proof.
  revert i acc. induction bs as [|b bs IH]; intros i acc Hlen Hsize.
  { cbn. by rewrite app_nil_r. }
  cbn [length] in Hlen. cbn [reassemble_loop concat].
  rewrite (proj2 (index_Ok i _ _) (vm_lookup i ltac:(lia))). cbn -[spec_block].
  pose proof (Hsize 0%nat b eq_refl) as Hb. rewrite Nat.add_0_r in Hb.
  rewrite decide_False by lia. unfold len in Hb.
  rewrite slice_Ok by lia. cbn -[spec_block]. rewrite Nat.sub_0_r, sub_all by lia.
  rewrite IH; [by rewrite <- app_assoc|lia|].
  intros j b' Hj. rewrite <- (Hsize (S j) b' Hj). f_equal. f_equal. lia.
Qed.

Lemma reassemble_Ok bs :
  length bs = Z.to_nat bcount ->
  (forall j b, bs !! j = Some b -> bi_size (spec_block p j) = len b) ->
  reassemble m bs = Ok (concat bs).
Proof.
  intros Hlen Hsize. pose proof vm_bounds. unfold reassemble.
  rewrite vm_block_count, decide_False by (unfold len; lia).
  by rewrite reassemble_loop_Ok by (done || lia).
Qed.

(** *** Symbols *)

#[local] Abbreviation bsize i := (spec_size (cp_payload_size p) bcount i).

Lemma symbol_info_Ok i j :
  0 <= i < bcount -> 0 <= j < div_ceil (bsize i) nsym ->
  symbol_info m i j
  = Ok (let size := Z.min nsym (bsize i - j * nsym) in
        {| si_index := j; si_start := j * nsym; si_size := size;
           si_padded := bool_decide (size < nsym) |})
  /\ 0 < Z.min nsym (bsize i - j * nsym).
Proof.
  intros Hi Hj. pose proof vm_bounds. pose proof (vm_params m Hm) as Hp.
  pose proof (spec_size_bounds p Hp i ltac:(lia)) as Hb.
  pose proof (div_ceil_mul (bsize i) nsym ltac:(lia) ltac:(lia)) as Hc.
  set (c := div_ceil (bsize i) nsym) in *. split; [|nia].
  unfold symbol_info. rewrite block_info_Ok by done. cbn -[div_ceil].
  rewrite Z2Nat.id by lia. fold c. rewrite !decide_False by lia.
  replace (if decide (bsize i mod nsym <> 0 /\ j = c - 1) then bsize i mod nsym else nsym)
    with (Z.min nsym (bsize i - j * nsym)); [done|].
  pose proof (Z.div_mod (bsize i) nsym ltac:(lia)) as Hd.
  pose proof (Z.mod_pos_bound (bsize i) nsym ltac:(lia)) as Hr.
  destruct (decide (bsize i mod nsym = 0)) as [E|E].
  - rewrite decide_False by tauto. assert (c = bsize i / nsym) by nia. apply Z.min_l. nia.
  - assert (c = bsize i / nsym + 1) by nia. case_decide as Hcase.
    + destruct Hcase as [_ ->]. rewrite Z.min_r; nia.
    + apply Z.min_l. assert (j < c - 1) by (assert (j <> c - 1) by tauto; lia). nia.
Qed.

Lemma symbol_info_Err i j :
  0 <= i < bcount -> div_ceil (bsize i) nsym <= j ->
  symbol_info m i j = Err (Chunk.SymbolIndexOutOfRange j (div_ceil (bsize i) nsym)).
Proof.
  intros Hi Hj. unfold symbol_info. rewrite block_info_Ok by done. cbn -[div_ceil].
  rewrite Z2Nat.id by lia. by rewrite decide_True.
Qed.

Lemma extract_symbol_Ok checks block i j :
  0 <= i < bcount -> 0 <= j < div_ceil (bsize i) nsym -> len block = bsize i ->
  extract_symbol checks m block i j
  = Ok (resize (Z.to_nat nsym) Byte.x00 (drop (Z.to_nat j * Z.to_nat nsym) block)).
Proof.
  intros Hi Hj Hlen. pose proof vm_bounds. pose proof (vm_params m Hm) as Hp.
  pose proof (spec_size_bounds p Hp i ltac:(lia)) as Hb.
  destruct (symbol_info_Ok i j Hi Hj) as [Hinfo Hpos].
  unfold extract_symbol. rewrite Hinfo. cbn -[Z.min].
  assert (Hjn : 0 <= j * nsym) by nia. rewrite <- Z2Nat.inj_mul by lia.
  set (jn := j * nsym) in *. set (size := Z.min nsym (bsize i - jn)) in *.
  assert (Hsize : size <= nsym /\ size <= bsize i - jn /\ (size = nsym \/ size = bsize i - jn))
    by lia.
  clearbody size jn.
  rewrite add_w_Ok by lia. cbn. rewrite decide_False by lia. unfold len in *.
  rewrite (slice_Ok (Z.to_nat jn)) by lia. cbn.
  rewrite slice_Ok by (rewrite ?length_zeros; lia). cbn. f_equal.
  replace (Z.to_nat (jn + size) - Z.to_nat jn)%nat with (Z.to_nat size) by lia.
  unfold sub, zeros. rewrite drop_replicate.
  set (rest := drop (Z.to_nat jn) block).
  assert (Hrest : length rest = Z.to_nat (bsize i - jn))
    by (unfold rest; rewrite length_drop; lia).
  destruct (decide (nsym <= bsize i - jn)).
  - replace (Z.to_nat size) with (Z.to_nat nsym) by lia.
    rewrite Nat.sub_diag, resize_le by lia. by rewrite app_nil_r.
  - rewrite resize_ge, Hrest by lia. rewrite take_ge by lia. f_equal. f_equal. lia.
Qed.

(** The symbols of a block are the block, zero-padded to whole symbols. *)
Lemma symbols_concat checks block i :
  0 <= i < bcount -> len block = bsize i ->
  exists symbols,
    traverse (fun j => extract_symbol checks m block i (Z.of_nat j))
             (seq 0 (Z.to_nat (div_ceil (bsize i) nsym))) = Ok symbols
    /\ concat symbols = block ++ zeros (Z.to_nat (div_ceil (bsize i) nsym * nsym - bsize i))
    /\ Forall (fun sym => len sym = nsym) symbols.
Proof.
  intros Hi Hlen. pose proof vm_bounds. pose proof (vm_params m Hm) as Hp.
  pose proof (spec_size_bounds p Hp i ltac:(lia)) as Hb.
  pose proof (div_ceil_mul (bsize i) nsym ltac:(lia) ltac:(lia)) as Hc.
  pose proof (div_ceil_nonneg (bsize i) nsym ltac:(lia) ltac:(lia)) as Hc0.
  set (c := div_ceil (bsize i) nsym) in *.
  exists ((fun j => resize (Z.to_nat nsym) Byte.x00 (drop (j * Z.to_nat nsym) block))
          <$> seq 0 (Z.to_nat c)). split_and!.
  - apply traverse_fmap, Forall_seq. intros j Hj.
    rewrite extract_symbol_Ok by (fold c; lia). by rewrite Nat2Z.id.
  - rewrite concat_pieces. unfold len in *. rewrite resize_ge by nia. f_equal.
    unfold zeros. f_equal. nia.
  - apply Forall_fmap, Forall_true. intros j. cbn. unfold len. rewrite length_resize. lia.
Qed.

(** *** Totals *)

Lemma zsum_sizes k :
  Z.of_nat k <= bcount ->
  zsum ((fun i => bsize (Z.of_nat i)) <$> seq 0 k)
  = spec_start (cp_payload_size p) bcount (Z.of_nat k).
Proof.
  induction k as [|k IH]; intros Hk.
  { change (Z.of_nat 0) with 0. rewrite spec_start_0; [done|apply Hm]. }
  rewrite seq_S, fmap_app, zsum_app, IH by lia.
  rewrite Nat2Z.inj_succ, <- Z.add_1_r, spec_start_S. cbn. lia.
Qed.

Lemma vm_sizes : bi_size <$> cm_blocks m = (fun i => bsize (Z.of_nat i)) <$> seq 0 (Z.to_nat bcount).
Proof. rewrite (vm_blocks m Hm), <- list_fmap_compose. done. Qed.

Lemma vm_symbol_counts :
  Forall (urange 32) (bi_symbol_count <$> cm_blocks m).
Proof.
  rewrite (vm_blocks m Hm), <- list_fmap_compose. apply Forall_fmap, Forall_seq.
  intros i Hi. cbn -[div_ceil].
  pose proof (spec_count_bounds p (vm_params m Hm) (Z.of_nat i) ltac:(lia) (vm_small m Hm)).
  unfold urange, U32_MAX in *. lia.
Qed.

End valid.

(** Extracting every block and reassembling them. *)
Lemma extract_reassemble checks m payload :
  valid_map m -> len payload = cp_payload_size (cm_params m) ->
  exists blocks,
    traverse (fun i => extract_block checks m payload (Z.of_nat i))
             (seq 0 (length (cm_blocks m))) = Ok blocks
    /\ reassemble m blocks = Ok payload.
Proof.
  intros Hm Hlen'. pose proof (vm_bounds m Hm). pose proof (vm_params m Hm) as Hp.
  rewrite (vm_length m Hm).
  exists ((fun i => sub (Z.to_nat (spec_start (cp_payload_size (cm_params m))
                                    (cp_block_count (cm_params m)) (Z.of_nat i)))
                        (Z.to_nat (spec_size (cp_payload_size (cm_params m))
                                    (cp_block_count (cm_params m)) (Z.of_nat i))) payload)
          <$> seq 0 (Z.to_nat (cp_block_count (cm_params m)))). split.
  { apply traverse_fmap, Forall_seq. intros i Hi.
    apply extract_block_Ok; [done..|]. lia. }
  rewrite (reassemble_Ok m Hm).
  - rewrite (concat_blocks m Hm) by (done || lia). f_equal.
    rewrite Z2Nat.id, spec_start_end, <- Hlen' by (lia || done). unfold len.
    rewrite Nat2Z.id. by apply take_ge.
  - by rewrite length_fmap, length_seq.
  - intros j blk Hj. rewrite list_lookup_fmap_Some in Hj. destruct Hj as (i & -> & Hi).
    apply lookup_seq in Hi as [-> Hi]. cbn. unfold len. rewrite length_sub.
    + pose proof (spec_size_bounds _ Hp (Z.of_nat j)). lia.
    + pose proof (spec_start_S (cm_params m) (Z.of_nat j)).
      pose proof (spec_size_bounds _ Hp (Z.of_nat j)).
      pose proof (spec_start_bounds _ Hp (Z.of_nat j)).
      pose proof (spec_start_mono _ Hp (Z.of_nat j + 1) (cp_block_count (cm_params m))).
      rewrite spec_start_end in * by done. unfold len in *. lia.
Qed.

(** ** Properties *)

Lemma ChunkParams_new_Ok s b n p :
  0 <= s -> ChunkParams_new s b n = Ok p ->
  valid_params p /\ p = {| cp_payload_size := s; cp_block_count := b; cp_symbol_size := n |}.
Proof.
  unfold ChunkParams_new, valid_params. intros Hs.
  repeat case_decide; try done. intros [= <-]. cbn.
  repeat match goal with Hnn : ~ ~ _ |- _ => apply dec_stable in Hnn end. split; [lia|done].
Qed.

(** for validated parameters the layout covers the payload exactly: the
    block sizes add up to the payload, each block starts where the previous
    ones end, the first [S mod B] blocks are one byte larger, and every symbol
    count is the number of whole-or-partial symbols of the block, as a [u32]. *)
Theorem chunk_layout checks s b n p m :
  0 <= s -> ChunkParams_new s b n = Ok p -> ChunkMap_new checks p = Ok m ->
  block_count m = b
  /\ zsum (bi_size <$> cm_blocks m) = s
  /\ forall i blk, cm_blocks m !! i = Some blk ->
     bi_index blk = Z.of_nat i
     /\ bi_start blk = zsum (take i (bi_size <$> cm_blocks m))
     /\ bi_size blk = (if decide (Z.of_nat i < s mod b) then s / b + 1 else s / b)
     /\ bi_symbol_count blk = div_ceil (bi_size blk) n
     /\ urange 32 (bi_symbol_count blk).
Proof.
  intros Hs Hp Hnew. apply ChunkParams_new_Ok in Hp as [Hp Hpe]; [|done].
  apply ChunkMap_new_Ok in Hnew as [Hm Hmp]; [|done].
  pose proof (vm_bounds m Hm). rewrite (vm_block_count m Hm).
  assert (Hsb : cp_payload_size (cm_params m) = s /\ cp_block_count (cm_params m) = b
                /\ cp_symbol_size (cm_params m) = n) by (by rewrite Hmp, Hpe).
  destruct Hsb as (Es & Eb & En). split; [done|]. rewrite (vm_sizes m Hm). split.
  { rewrite (zsum_sizes m Hm), Z2Nat.id, spec_start_end by (done || lia || apply Hm). done. }
  intros i blk Hi. assert (i < length (cm_blocks m))%nat by (by eapply lookup_lt_Some).
  rewrite (vm_length m Hm) in *. rewrite (vm_lookup m Hm) in Hi by done.
  injection Hi as <-. cbn -[div_ceil]. rewrite <- fmap_take, take_seq, Nat.min_l by lia.
  rewrite (zsum_sizes m Hm) by lia. rewrite Es, Eb, En. split_and!; try done.
  pose proof (vm_symbol_counts m Hm) as Hc. rewrite Forall_fmap, Forall_lookup in Hc.
  specialize (Hc i _ (vm_lookup m Hm i ltac:(done))). cbn -[div_ceil] in Hc. by rewrite Es, Eb, En in Hc.
Qed.

Lemma chunk_layout_witness :
  exists m, ChunkMap_new true {| cp_payload_size := 1000; cp_block_count := 3; cp_symbol_size := 256 |} = Ok m
  /\ zsum (bi_size <$> cm_blocks m) = 1000.
Proof.
  eexists. split; [reflexivity|].
  eapply (chunk_layout true 1000 3 256); [lia|reflexivity|reflexivity].
Defined.

(** C32: with validated parameters [ChunkMap::new] never panics, in either
    build; it fails only for a 4 GiB payload in one block of one-byte symbols,
    whose symbol count does not fit a [u32]. *)
Theorem chunk_map_total checks s b n p :
  0 <= s -> ChunkParams_new s b n = Ok p ->
  ChunkMap_new checks p
  = if decide (s = MAX_PAYLOAD_SIZE /\ b = 1 /\ n = 1)
    then Err (Chunk.InvalidSymbolSize 1)
    else Ok {| cm_params := p; cm_blocks := spec_block p <$> seq 0 (Z.to_nat b) |}.
Proof.
  intros Hs Hp. apply ChunkParams_new_Ok in Hp as [Hp ->]; [|done]. unfold ChunkMap_new.
  case_decide as Hmany.
  - by rewrite compute_blocks_too_many.
  - by rewrite compute_blocks_spec.
Qed.

Lemma chunk_map_total_witness :
  ChunkMap_new false {| cp_payload_size := MAX_PAYLOAD_SIZE; cp_block_count := 1; cp_symbol_size := 1 |}
  = Err (Chunk.InvalidSymbolSize 1).
Proof. apply (chunk_map_total false MAX_PAYLOAD_SIZE 1 1); [done|reflexivity]. Defined.

(** C31: extracting every block of a payload and reassembling them gives the
    payload back. *)
Theorem chunk_round_trip checks s b n p m payload :
  ChunkParams_new s b n = Ok p -> ChunkMap_new checks p = Ok m -> len payload = s ->
  exists blocks,
    traverse (fun i => extract_block checks m payload (Z.of_nat i))
             (seq 0 (length (cm_blocks m))) = Ok blocks
    /\ reassemble m blocks = Ok payload.
Proof.
  intros Hp Hnew Hlen. pose proof (len_nonneg payload).
  apply ChunkParams_new_Ok in Hp as [Hp Hpe]; [|lia].
  apply ChunkMap_new_Ok in Hnew as [Hm Hmp]; [|done].
  apply extract_reassemble; [done|]. by rewrite Hmp, Hpe.
Qed.

Lemma chunk_round_trip_witness :
  exists m blocks,
    ChunkMap_new true {| cp_payload_size := 5; cp_block_count := 2; cp_symbol_size := 2 |} = Ok m
    /\ traverse (fun i => extract_block true m (zeros 5) (Z.of_nat i)) (seq 0 2) = Ok blocks
    /\ reassemble m blocks = Ok (zeros 5).
Proof.
  destruct (chunk_round_trip true 5 2 2
    {| cp_payload_size := 5; cp_block_count := 2; cp_symbol_size := 2 |} _ (zeros 5)
    eq_refl eq_refl eq_refl) as (blocks & H1 & H2).
  eexists _, blocks. split; [reflexivity|]. split; [exact H1|exact H2].
Defined.

(** the symbols of a block are all [symbol_size] bytes long and laid end to
    end they are the block followed by zero bytes. *)
Theorem chunk_symbols checks s b n p m i block :
  ChunkParams_new s b n = Ok p -> ChunkMap_new checks p = Ok m -> 0 <= s ->
  0 <= i < b -> len block = spec_size s b i ->
  exists symbols,
    traverse (fun j => extract_symbol checks m block i (Z.of_nat j))
             (seq 0 (Z.to_nat (div_ceil (len block) n))) = Ok symbols
    /\ concat symbols = block ++ zeros (Z.to_nat (div_ceil (len block) n * n - len block))
    /\ Forall (fun sym => len sym = n) symbols.
Proof.
  intros Hp Hnew Hs Hi Hlen. apply ChunkParams_new_Ok in Hp as [Hp Hpe]; [|done].
  apply ChunkMap_new_Ok in Hnew as [Hm Hmp]; [|done].
  assert (Hsb : cp_payload_size (cm_params m) = s /\ cp_block_count (cm_params m) = b
                /\ cp_symbol_size (cm_params m) = n) by (by rewrite Hmp, Hpe).
  destruct Hsb as (<- & <- & <-). rewrite Hlen. by apply symbols_concat.
Qed.

Lemma chunk_symbols_witness :
  exists m symbols,
    ChunkMap_new true {| cp_payload_size := 5; cp_block_count := 2; cp_symbol_size := 2 |} = Ok m
    /\ concat symbols = [Byte.x01; Byte.x02; Byte.x03] ++ zeros 1.
Proof.
  destruct (chunk_symbols true 5 2 2
    {| cp_payload_size := 5; cp_block_count := 2; cp_symbol_size := 2 |} _ 0
    [Byte.x01; Byte.x02; Byte.x03] eq_refl eq_refl ltac:(lia) ltac:(lia) eq_refl)
    as (symbols & _ & H & _).
  eexists _, symbols. split; [reflexivity|exact H].
Defined.

(** [total_symbols] is the number of symbols of the map when that number
    fits a [u32]; without overflow checks it is that number modulo [2^32], so a
    4 GiB payload in two blocks of one-byte symbols reports none, and a build
    with overflow checks panics on it. *)
Theorem chunk_total_symbols p m :
  valid_params p -> ChunkMap_new true p = Ok m ->
  (forall checks, zsum (bi_symbol_count <$> cm_blocks m) < 2 ^ 32 ->
   total_symbols checks m = Ok (zsum (bi_symbol_count <$> cm_blocks m)))
  /\ total_symbols false m = Ok (zsum (bi_symbol_count <$> cm_blocks m) mod 2 ^ 32)
  /\ (p = {| cp_payload_size := MAX_PAYLOAD_SIZE; cp_block_count := 2; cp_symbol_size := 1 |} ->
      total_symbols false m = Ok 0 /\ total_symbols true m = Panic).
Proof.
  intros Hp Hnew. pose proof Hnew as Hnew'. apply ChunkMap_new_Ok in Hnew as [Hm Hmp]; [|done].
  pose proof (vm_symbol_counts m Hm) as Hc. split_and!.
  - intros checks Hsum. apply sum_w_Ok; [|done]. eapply Forall_impl; [exact Hc|].
    intros z Hz. apply Hz.
  - by apply sum_w_wrap.
  - intros ->. vm_compute in Hnew'. injection Hnew' as <-. by vm_compute.
Qed.

Lemma chunk_total_symbols_witness :
  exists m,
    ChunkMap_new true
      {| cp_payload_size := MAX_PAYLOAD_SIZE; cp_block_count := 2; cp_symbol_size := 1 |} = Ok m
    /\ total_symbols false m = Ok 0 /\ total_symbols true m = Panic.
Proof.
  eexists. split; [reflexivity|].
  apply (chunk_total_symbols
    {| cp_payload_size := MAX_PAYLOAD_SIZE; cp_block_count := 2; cp_symbol_size := 1 |});
    [unfold valid_params; vm_compute; intuition discriminate|reflexivity|reflexivity].
Defined.
