(* ===== verification/ChunkerTests.v ===== *)
(** * The tests of the chunker (dhow-codec/src/chunker.rs, [mod tests])

    The unit tests and the property tests of the module, as the functions they
    are, and the golden vectors of proto/vectors.json for the chunker. *)

From S2P Require Import Prelude Harness Errors Chunker.

(** ** Definitions *)

Section tests.
Variable checks : bool.

(** [ChunkMap::new(ChunkParams::new(..).unwrap()).unwrap()] *)
Definition new_map (payload_size block_count symbol_size : Z) : outcome Empty_set ChunkMap :=
  params ← expect (ChunkParams_new payload_size block_count symbol_size);
  expect (ChunkMap_new checks params).

(** *** Unit tests *)

Definition test_chunk_params_validation : target :=
  _ ← assert (is_ok (ChunkParams_new 0 1 256) = true);
  _ ← assert (is_ok (ChunkParams_new 1000 1 256) = true);
  _ ← assert (is_ok (ChunkParams_new 1000 2 256) = true);
  _ ← assert (is_ok (ChunkParams_new 1000 1 1) = true);
  _ ← assert (is_ok (ChunkParams_new 1000 1 65535) = true);
  _ ← assert (is_err (ChunkParams_new (MAX_PAYLOAD_SIZE + 1) 1 256) = true);
  _ ← assert (is_err (ChunkParams_new 1000 0 256) = true);
  _ ← assert (is_err (ChunkParams_new 1000 (MAX_BLOCK_COUNT + 1) 256) = true);
  _ ← assert (is_err (ChunkParams_new 1000 1 0) = true);
  assert (is_err (ChunkParams_new 1000 1 (MAX_SYMBOL_SIZE + 1)) = true).

Definition test_chunk_map_simple : target :=
  map ← new_map 1000 2 256;
  _ ← assert (block_count map = 2);
  total ← expect (total_symbols checks map);
  _ ← assert (total = 4);
  block0 ← expect (block_info map 0);
  _ ← assert (bi_start block0 = 0);
  _ ← assert (bi_size block0 = 500);
  _ ← assert (bi_symbol_count block0 = 2);
  block1 ← expect (block_info map 1);
  _ ← assert (bi_start block1 = 500);
  _ ← assert (bi_size block1 = 500);
  assert (bi_symbol_count block1 = 2).

Definition test_block_boundaries : target :=
  map ← new_map 1001 2 256;
  block0 ← expect (block_info map 0);
  _ ← assert (bi_start block0 = 0);
  _ ← assert (bi_size block0 = 501);
  block1 ← expect (block_info map 1);
  _ ← assert (bi_start block1 = 501);
  assert (bi_size block1 = 500).

Definition test_symbol_boundaries : target :=
  map ← new_map 1000 2 256;
  sym0 ← expect (symbol_info map 0 0);
  _ ← assert (si_start sym0 = 0);
  _ ← assert (si_size sym0 = 256);
  _ ← assert (si_padded sym0 = false);
  sym1 ← expect (symbol_info map 0 1);
  _ ← assert (si_start sym1 = 256);
  _ ← assert (si_size sym1 = 244);
  assert (si_padded sym1 = true).

Definition test_block_extraction : target :=
  let payload := ramp 1000 in
  map ← new_map 1000 2 256;
  block0 ← expect (extract_block checks map payload 0);
  _ ← assert (len block0 = 500);
  head ← slice 0 4 block0;
  _ ← assert (head = byte.of_Z <$> [0; 1; 2; 3]);
  block1 ← expect (extract_block checks map payload 1);
  _ ← assert (len block1 = 500);
  head ← slice 0 4 block1;
  assert (head = byte.of_Z <$> [244; 245; 246; 247]).

Definition test_symbol_extraction : target :=
  let payload := ramp 1000 in
  map ← new_map 1000 2 256;
  block ← expect (extract_block checks map payload 0);
  sym0 ← expect (extract_symbol checks map block 0 0);
  _ ← assert (len sym0 = 256);
  head ← slice 0 4 sym0;
  _ ← assert (head = byte.of_Z <$> [0; 1; 2; 3]);
  sym1 ← expect (extract_symbol checks map block 0 1);
  _ ← assert (len sym1 = 256);
  head ← slice 0 4 sym1;
  _ ← assert (head = byte.of_Z <$> [0; 1; 2; 3]);
  padding ← slice 244 256 sym1;
  assert (padding = zeros 12).

Definition test_reassembly : target :=
  let payload := ramp 1000 in
  map ← new_map 1000 2 256;
  block0 ← expect (extract_block checks map payload 0);
  block1 ← expect (extract_block checks map payload 1);
  reassembled ← expect (reassemble map [block0; block1]);
  assert (reassembled = payload).

Definition test_block_index_out_of_range : target :=
  map ← new_map 1000 2 256;
  assert (is_err (block_info map 2) = true).

Definition test_symbol_index_out_of_range : target :=
  map ← new_map 1000 1 256;
  assert (is_err (symbol_info map 0 4) = true).

Definition test_payload_size_zero : target :=
  map ← new_map 0 1 256;
  _ ← assert (block_count map = 1);
  total ← expect (total_symbols checks map);
  _ ← assert (total = 0);
  block ← expect (block_info map 0);
  _ ← assert (bi_size block = 0);
  assert (bi_symbol_count block = 0).

Definition test_payload_size_one : target :=
  map ← new_map 1 1 256;
  _ ← assert (block_count map = 1);
  total ← expect (total_symbols checks map);
  _ ← assert (total = 1);
  block ← expect (block_info map 0);
  _ ← assert (bi_size block = 1);
  sym ← expect (symbol_info map 0 0);
  _ ← assert (si_size sym = 1);
  assert (si_padded sym = true).

Definition test_payload_size_exact_multiple : target :=
  map ← new_map 1024 2 256;
  _ ← assert (block_count map = 2);
  total ← expect (total_symbols checks map);
  _ ← assert (total = 4);
  for_each (upto 2) (fun i =>
    block ← expect (block_info map i);
    _ ← assert (bi_size block = 512);
    _ ← assert (bi_symbol_count block = 2);
    for_each (upto 2) (fun j =>
      sym ← expect (symbol_info map i j);
      _ ← assert (si_size sym = 256);
      assert (si_padded sym = false))).

Definition test_payload_size_max_simulated : target :=
  map ← new_map (1024 * 1024) 4 4096;
  _ ← assert (block_count map = 4);
  for_each (upto 4) (fun i =>
    block ← expect (block_info map i);
    _ ← assert (bi_size block = 256 * 1024);
    assert (bi_symbol_count block = 64)).

Definition test_symbol_size_one : target :=
  map ← new_map 10 2 1;
  _ ← assert (block_count map = 2);
  total ← expect (total_symbols checks map);
  _ ← assert (total = 10);
  for_each (upto 2) (fun i =>
    block ← expect (block_info map i);
    _ ← assert (bi_size block = 5);
    _ ← assert (bi_symbol_count block = 5);
    for_each (upto 5) (fun j =>
      sym ← expect (symbol_info map i j);
      _ ← assert (si_size sym = 1);
      assert (si_padded sym = false))).

Definition test_symbol_size_max : target :=
  map ← new_map 65535 1 65535;
  _ ← assert (block_count map = 1);
  total ← expect (total_symbols checks map);
  _ ← assert (total = 1);
  sym ← expect (symbol_info map 0 0);
  _ ← assert (si_size sym = 65535);
  assert (si_padded sym = false).

Definition test_reassemble_wrong_block_count : target :=
  map ← new_map 1000 2 256;
  block0 ← expect (extract_block checks map (zeros 1000) 0);
  assert (is_err (reassemble map [block0]) = true).

Definition test_extract_block_truncated : target :=
  map ← new_map 1000 2 256;
  assert (is_err (extract_block checks map (zeros 400) 1) = true).

Definition test_extract_symbol_truncated : target :=
  map ← new_map 1000 1 256;
  assert (is_err (extract_symbol checks map (zeros 100) 0 0) = true).

Definition test_block_count_one : target :=
  map ← new_map 1000 1 256;
  _ ← assert (block_count map = 1);
  block ← expect (block_info map 0);
  _ ← assert (bi_start block = 0);
  assert (bi_size block = 1000).

Definition test_block_count_max : target :=
  map ← new_map 1024 MAX_BLOCK_COUNT 1;
  _ ← assert (block_count map = MAX_BLOCK_COUNT);
  for_each (upto MAX_BLOCK_COUNT) (fun i =>
    block ← expect (block_info map i);
    assert (bi_size block = 1)).

Definition test_off_by_one_payload_size : target :=
  for_each [255; 256; 257; 511; 512; 513; 1023; 1024; 1025] (fun size =>
    map ← new_map size 1 256;
    block ← expect (block_info map 0);
    _ ← assert (bi_size block = size);
    let expected_symbols := div_ceil size 256 in
    assert (bi_symbol_count block = as_u 32 expected_symbols)).

Definition test_off_by_one_block_count : target :=
  for_each [1; 2; 3; 4; 5] (fun block_count =>
    let payload_size := 1000 in
    map ← new_map payload_size block_count 256;
    total ← sum_w checks 64 (bi_size <$> cm_blocks map);
    assert (total = payload_size)).

Definition test_off_by_one_symbol_size : target :=
  let payload_size := 1000 in
  for_each [255; 256; 257; 511; 512; 513] (fun symbol_size =>
    map ← new_map payload_size 2 symbol_size;
    for_each (cm_blocks map) (fun block =>
      let expected_symbols := div_ceil (bi_size block) symbol_size in
      assert (bi_symbol_count block = as_u 32 expected_symbols))).

(** *** Property tests, as functions of the generated inputs *)

Definition test_round_trip_identity (payload : list byte) (block_count_ symbol_size : Z) : target :=
  map ← new_map (len payload) block_count_ symbol_size;
  blocks ← traverse (fun i => expect (extract_block checks map payload i)) (upto (block_count map));
  reassembled ← expect (reassemble map blocks);
  assert (reassembled = payload).

Definition test_block_sizes_sum_to_payload (payload_size block_count symbol_size : Z) : target :=
  map ← new_map payload_size block_count symbol_size;
  total ← sum_w checks 64 (bi_size <$> cm_blocks map);
  assert (total = payload_size).

Definition test_block_offsets_continuous (payload_size block_count_ symbol_size : Z) : target :=
  map ← new_map payload_size block_count_ symbol_size;
  for_each (upto (block_count map)) (fun i =>
    block ← expect (block_info map i);
    if decide (0 < i)
    then
      prev ← expect (block_info map (i - 1));
      end_ ← add_w checks 64 (bi_start prev) (bi_size prev);
      assert (bi_start block = end_)
    else Ok tt).

Definition test_symbol_count_correct (payload_size block_count symbol_size : Z) : target :=
  map ← new_map payload_size block_count symbol_size;
  for_each (cm_blocks map) (fun block =>
    if decide (bi_size block = 0) then assert (bi_symbol_count block = 0)
    else
      let expected := div_ceil (bi_size block) symbol_size in
      assert (bi_symbol_count block = as_u 32 expected)).

Definition test_symbol_extraction_padded (payload_size block_count_ symbol_size : Z) : target :=
  map ← new_map payload_size block_count_ symbol_size;
  for_each (upto (block_count map)) (fun block_idx =>
    block ← expect (block_info map block_idx);
    if decide (0 < bi_symbol_count block)
    then
      last_sym ← expect (symbol_info map block_idx (bi_symbol_count block - 1));
      if decide (bi_size block mod symbol_size <> 0)
      then
        _ ← assert (si_padded last_sym = true);
        assert (si_size last_sym = bi_size block mod symbol_size)
      else
        _ ← assert (si_padded last_sym = false);
        assert (si_size last_sym = symbol_size)
    else Ok tt).

Definition unit_tests : list target := [
  test_chunk_params_validation; test_chunk_map_simple; test_block_boundaries;
  test_symbol_boundaries; test_block_extraction; test_symbol_extraction; test_reassembly;
  test_block_index_out_of_range; test_symbol_index_out_of_range; test_payload_size_zero;
  test_payload_size_one; test_payload_size_exact_multiple; test_payload_size_max_simulated;
  test_symbol_size_one; test_symbol_size_max; test_reassemble_wrong_block_count;
  test_extract_block_truncated; test_extract_symbol_truncated; test_block_count_one;
  test_block_count_max; test_off_by_one_payload_size; test_off_by_one_block_count;
  test_off_by_one_symbol_size].

End tests.

(** *** Golden vectors *)

(** A chunker entry of the vectors file: the inputs, and the blocks with their
    symbols. *)
Record ChunkVector := {
  cv_payload_size : Z;
  cv_block_count : Z;
  cv_symbol_size : Z;
  cv_total_symbols : Z;
  cv_blocks : list (BlockInfo * list SymbolInfo);
}.

(** The comparison of one symbol, and of one block, with its entry. *)
Definition check_symbol (map : ChunkMap) (i j : Z) (gvs : SymbolInfo) : target :=
  sym ← expect (symbol_info map i j);
  _ ← assert (si_index sym = si_index gvs);
  _ ← assert (si_start sym = si_start gvs);
  _ ← assert (si_size sym = si_size gvs);
  assert (si_padded sym = si_padded gvs).

Definition check_block (map : ChunkMap) (i : Z) (block : BlockInfo)
    (gv : BlockInfo * list SymbolInfo) : target :=
  _ ← assert (bi_index block = bi_index gv.1);
  _ ← assert (bi_start block = bi_start gv.1);
  _ ← assert (bi_size block = bi_size gv.1);
  _ ← assert (bi_symbol_count block = bi_symbol_count gv.1);
  for_each (upto (bi_symbol_count block)) (fun j =>
    gvs ← index (Z.to_nat j) gv.2;
    check_symbol map i j gvs).

(** The body of the loop of [test_golden_vectors]. *)
Definition check_vector (checks : bool) (vector : ChunkVector) : target :=
  map ← new_map checks (cv_payload_size vector) (cv_block_count vector) (cv_symbol_size vector);
  _ ← assert (block_count map = cv_block_count vector);
  total ← expect (total_symbols checks map);
  _ ← assert (total = cv_total_symbols vector);
  for_each (imap pair (cm_blocks map)) (fun '(i, block) =>
    gv ← index i (cv_blocks vector);
    check_block map (Z.of_nat i) block gv).

Definition test_golden_vectors (checks : bool) (vectors : list ChunkVector) : target :=
  for_each vectors (check_vector checks).

(** The [chunker_] entries of proto/vectors.json. *)
Definition blk (index start size count : Z) : BlockInfo :=
  {| bi_index := index; bi_start := start; bi_size := size; bi_symbol_count := count |}.

Definition sym (index start size : Z) (padded : bool) : SymbolInfo :=
  {| si_index := index; si_start := start; si_size := size; si_padded := padded |}.

Definition chunker_vectors : list ChunkVector := [
  {| cv_payload_size := 1000; cv_block_count := 2; cv_symbol_size := 256; cv_total_symbols := 4;
     cv_blocks := [(blk 0 0 500 2, [sym 0 0 256 false; sym 1 256 244 true]);
       (blk 1 500 500 2, [sym 0 0 256 false; sym 1 256 244 true])] |};
  {| cv_payload_size := 1001; cv_block_count := 2; cv_symbol_size := 256; cv_total_symbols := 4;
     cv_blocks := [(blk 0 0 501 2, [sym 0 0 256 false; sym 1 256 245 true]);
       (blk 1 501 500 2, [sym 0 0 256 false; sym 1 256 244 true])] |};
  {| cv_payload_size := 1000; cv_block_count := 1; cv_symbol_size := 256; cv_total_symbols := 4;
     cv_blocks := [(blk 0 0 1000 4, [sym 0 0 256 false; sym 1 256 256 false; sym 2 512 256 false;
         sym 3 768 232 true])] |};
  {| cv_payload_size := 1024; cv_block_count := 2; cv_symbol_size := 256; cv_total_symbols := 4;
     cv_blocks := [(blk 0 0 512 2, [sym 0 0 256 false; sym 1 256 256 false]);
       (blk 1 512 512 2, [sym 0 0 256 false; sym 1 256 256 false])] |};
  {| cv_payload_size := 1; cv_block_count := 1; cv_symbol_size := 256; cv_total_symbols := 1;
     cv_blocks := [(blk 0 0 1 1, [sym 0 0 1 true])] |};
  {| cv_payload_size := 0; cv_block_count := 1; cv_symbol_size := 256; cv_total_symbols := 0;
     cv_blocks := [(blk 0 0 0 0, [])] |};
  {| cv_payload_size := 10; cv_block_count := 2; cv_symbol_size := 1; cv_total_symbols := 10;
     cv_blocks := [(blk 0 0 5 5, [sym 0 0 1 false; sym 1 1 1 false; sym 2 2 1 false;
         sym 3 3 1 false; sym 4 4 1 false]);
       (blk 1 5 5 5, [sym 0 0 1 false; sym 1 1 1 false; sym 2 2 1 false; sym 3 3 1 false;
         sym 4 4 1 false])] |}].

(** ** Lemmas *)

Lemma unit_tests_pass checks : Forall (fun t => t = Ok tt) (unit_tests checks).
Proof.
  assert (Hall : forallb (fun t : target => is_ok t) (unit_tests checks) = true)
    by (destruct checks; vm_compute; reflexivity).
  rewrite forallb_forall in Hall. apply Forall_forall. intros t Ht.
  apply list_elem_of_In, Hall in Ht. destruct t as [[]|[]|]; done.
Qed.

Lemma golden_vectors_pass checks : test_golden_vectors checks chunker_vectors = Ok tt.
Proof. destruct checks; vm_compute; reflexivity. Qed.

(** *** The property tests, for every input *)

(** The inputs the tests are for, and all the others a map exists for. *)
Section properties.
Context (checks : bool) (s b n : Z).
Context (Hs : 0 <= s <= MAX_PAYLOAD_SIZE) (Hb : 1 <= b <= MAX_BLOCK_COUNT)
  (Hn : 1 <= n <= MAX_SYMBOL_SIZE) (Hmax : ~ (s = MAX_PAYLOAD_SIZE /\ b = 1 /\ n = 1)).

#[local] Abbreviation p := {| cp_payload_size := s; cp_block_count := b; cp_symbol_size := n |}.

Lemma new_map_Ok : exists m, new_map checks s b n = Ok m /\ valid_map m /\ cm_params m = p.
Proof.
  unfold MAX_BLOCK_COUNT, MAX_SYMBOL_SIZE in *.
  assert (Hp : valid_params p)
    by (unfold valid_params, MIN_BLOCK_COUNT, MAX_BLOCK_COUNT, MIN_SYMBOL_SIZE, MAX_SYMBOL_SIZE; cbn; lia).
  unfold new_map, ChunkParams_new, MIN_BLOCK_COUNT, MAX_BLOCK_COUNT, MIN_SYMBOL_SIZE, MAX_SYMBOL_SIZE.
  rewrite !decide_False by lia. cbn [expect mbind outcome_bind].
  assert (Hnew : ChunkMap_new checks p
    = Ok {| cm_params := p; cm_blocks := spec_block p <$> seq 0 (Z.to_nat b) |})
    by (unfold ChunkMap_new; rewrite compute_blocks_spec by done; done).
  rewrite Hnew. eexists. split; [done|]. by apply ChunkMap_new_Ok in Hnew.
Qed.

Lemma round_trip_identity payload :
  len payload = s -> test_round_trip_identity checks payload b n = Ok tt.
Proof.
  intros Hlen. destruct new_map_Ok as (m & Hm & Hv & Hp).
  unfold test_round_trip_identity. rewrite Hlen, Hm. cbn [mbind outcome_bind].
  destruct (extract_reassemble checks m payload Hv) as (blocks & He & Hr); [by rewrite Hp|].
  assert (Ht : traverse (fun i => expect (extract_block checks m payload i)) (upto (block_count m))
    = Ok (E := Empty_set) blocks).
  { unfold upto. rewrite (vm_block_count m Hv). rewrite (vm_length m Hv) in He.
    apply traverse_Ok. apply traverse_Ok in He. apply Forall2_fmap_l.
    eapply Forall2_impl; [exact He|]. cbn. by intros i x ->. }
  rewrite Ht. cbn [mbind outcome_bind]. rewrite Hr. by apply assert_pass.
Qed.

Lemma block_sizes_sum_to_payload : test_block_sizes_sum_to_payload checks s b n = Ok tt.
Proof.
  destruct new_map_Ok as (m & Hm & Hv & Hp). unfold test_block_sizes_sum_to_payload.
  rewrite Hm. cbn [mbind outcome_bind]. pose proof (vm_bounds m Hv) as Hbd. rewrite Hp in Hbd. cbn in Hbd.
  assert (Hz : zsum (bi_size <$> cm_blocks m) = s).
  { rewrite (vm_sizes m Hv), (zsum_sizes m Hv) by (rewrite Hp; cbn; lia).
    rewrite Hp. cbn. rewrite Z2Nat.id by lia. apply (spec_start_end p).
    pose proof (vm_params m Hv) as Hvp. by rewrite Hp in Hvp. }
  rewrite sum_w_Ok; [by rewrite Hz; apply assert_pass| |unfold MAX_PAYLOAD_SIZE in *; lia].
  rewrite (vm_sizes m Hv), Hp. apply Forall_fmap, Forall_seq. intros i Hi.
  pose proof (vm_params m Hv) as Hvp. rewrite Hp in Hvp.
  pose proof (spec_size_bounds p Hvp (Z.of_nat i)). cbn in *. lia.
Qed.

Lemma block_offsets_continuous : test_block_offsets_continuous checks s b n = Ok tt.
Proof.
  destruct new_map_Ok as (m & Hm & Hv & Hp). unfold test_block_offsets_continuous.
  rewrite Hm. cbn [mbind outcome_bind]. apply for_upto_pass. intros i Hi.
  rewrite (vm_block_count m Hv) in Hi. rewrite (block_info_Ok m Hv i) by done.
  cbn [expect mbind outcome_bind]. case_decide; [|done].
  rewrite (block_info_Ok m Hv) by lia. cbn [expect mbind outcome_bind].
  pose proof (vm_params m Hv) as Hvp. pose proof (vm_bounds m Hv).
  pose proof (spec_start_bounds _ Hvp i ltac:(lia)) as Hb1.
  pose proof (spec_start_S (cm_params m) (i - 1)) as HS. replace (i - 1 + 1) with i in HS by lia.
  unfold spec_block. cbn [bi_start bi_size]. rewrite !Z2Nat.id by lia.
  rewrite add_w_Ok by lia. cbn [mbind outcome_bind]. by apply assert_pass.
Qed.

Lemma symbol_count_correct : test_symbol_count_correct checks s b n = Ok tt.
Proof.
  destruct new_map_Ok as (m & Hm & Hv & Hp). unfold test_symbol_count_correct.
  rewrite Hm. cbn [mbind outcome_bind]. apply for_each_pass. rewrite (vm_blocks m Hv).
  apply Forall_fmap, Forall_seq. intros i Hi. pose proof (vm_params m Hv) as Hvp.
  pose proof (spec_count_bounds _ Hvp (Z.of_nat i) ltac:(lia) (vm_small m Hv)) as Hc.
  rewrite Hp in *. unfold compose, spec_block. cbn [bi_size bi_symbol_count cp_symbol_size
    cp_payload_size cp_block_count] in *. case_decide as Hz.
  - apply assert_pass. rewrite Hz. unfold div_ceil. apply Z.div_small. lia.
  - apply assert_pass. symmetry. apply as_u_id. unfold urange, U32_MAX in *. lia.
Qed.

Lemma symbol_extraction_padded : test_symbol_extraction_padded checks s b n = Ok tt.
Proof.
  destruct new_map_Ok as ([pm blocks] & Hm & Hv & Hp). cbn [cm_params] in Hp. subst pm.
  unfold test_symbol_extraction_padded.
  rewrite Hm. cbn [mbind outcome_bind]. apply for_upto_pass. intros i Hi.
  rewrite (vm_block_count _ Hv) in Hi. rewrite (block_info_Ok _ Hv i) by done.
  cbn [expect mbind outcome_bind]. case_decide as Hpos; [|done].
  unfold spec_block in *.
  pose proof (spec_size_bounds _ (vm_params _ Hv) i ltac:(lia)) as Hsz.
  pose proof (symbol_info_Ok _ Hv i) as Hsym.
  cbn [bi_size bi_symbol_count cm_params cp_symbol_size cp_payload_size cp_block_count] in *.
  rewrite Z2Nat.id in * by lia. unfold MAX_SYMBOL_SIZE in *. set (size := spec_size s b i) in *.
  destruct (Hsym (div_ceil size n - 1) ltac:(lia) ltac:(lia)) as [-> _]. clear Hsym.
  cbn [expect mbind outcome_bind si_padded si_size]. cbn zeta.
  pose proof (div_ceil_mul size n ltac:(lia) ltac:(lia)) as Hc.
  pose proof (Z.div_mod size n ltac:(lia)) as Hd. pose proof (Z.mod_pos_bound size n ltac:(lia)) as Hr.
  set (c := div_ceil size n) in *. case_decide as Hmod.
  - assert (Hl : Z.min n (size - (c - 1) * n) = size mod n).
    { assert (c = size / n + 1) by nia. rewrite Z.min_r; nia. }
    rewrite Hl. pass; [by apply assert_pass|]. apply bool_decide_eq_true. lia.
  - assert (Hl : Z.min n (size - (c - 1) * n) = n).
    { assert (c = size / n) by nia. apply Z.min_l. nia. }
    rewrite Hl. pass; [by apply assert_pass|]. apply bool_decide_eq_false. lia.
Qed.

End properties.

(** ** Properties *)

(** C33: the tests of the chunker hold for every input. The unit tests and the
    golden vectors pass, and each property test passes not only on the inputs
    it generates (payloads below 100,000 bytes, up to 16 blocks, symbols of up
    to 1024 bytes) but on every payload, block count and symbol size the module
    validates, with the one exception of the layout whose symbols a [u32] does
    not count: extracting and reassembling gives the payload back, the block
    sizes add up to the payload, each block starts where the one before ends,
    the symbol count is the size over the symbol size rounded up, and the last
    symbol is padded exactly when the symbol size does not divide the block. *)
Theorem chunker_tests_pass checks s b n :
  0 <= s <= MAX_PAYLOAD_SIZE -> 1 <= b <= MAX_BLOCK_COUNT -> 1 <= n <= MAX_SYMBOL_SIZE ->
  ~ (s = MAX_PAYLOAD_SIZE /\ b = 1 /\ n = 1) ->
  Forall (fun t => t = Ok tt) (unit_tests checks)
  /\ test_golden_vectors checks chunker_vectors = Ok tt
  /\ (forall payload, len payload = s -> test_round_trip_identity checks payload b n = Ok tt)
  /\ test_block_sizes_sum_to_payload checks s b n = Ok tt
  /\ test_block_offsets_continuous checks s b n = Ok tt
  /\ test_symbol_count_correct checks s b n = Ok tt
  /\ test_symbol_extraction_padded checks s b n = Ok tt.
Proof.
  intros Hs Hb Hn Hmax. split; [apply unit_tests_pass|]. split; [apply golden_vectors_pass|].
  split; [intros payload Hl; by apply (round_trip_identity checks s b n Hs Hb Hn Hmax)|].
  split; [by apply block_sizes_sum_to_payload|]. split; [by apply block_offsets_continuous|].
  split; [by apply symbol_count_correct|]. by apply symbol_extraction_padded.
Qed.

Lemma chunker_tests_pass_witness :
  test_symbol_extraction_padded true 1000 3 256 = Ok tt
  /\ test_round_trip_identity false (ramp 5) 2 3 = Ok tt.
Proof.
  split.
  - apply (chunker_tests_pass true 1000 3 256);
      (split; [discriminate|discriminate]) || (intros [E _]; discriminate E).
  - apply (chunker_tests_pass false 5 2 3);
      (split; [discriminate|discriminate]) || (intros [E _]; discriminate E) || reflexivity.
Defined.
