(* ===== verification/Frame.v ===== *)
(** * Frame wire format (dhow-codec/src/frame.rs)

    The 46-byte header, its MAC and CRC, and the complete frame. *)

From S2P Require Import Prelude Errors Crc32c Primitives Instances.
From Stdlib Require Strings.String.

(** ** Definitions *)

(** ASCII "DHOW" *)
Definition MAGIC : list byte := String.list_byte_of_string "DHOW".
Definition VERSION : byte := byte.of_Z 1.
Definition FRAME_HEADER_SIZE : nat := 46.
Definition MAX_PAYLOAD_LEN : Z := 65535.
Definition MAC_LEN : nat := 8.

Inductive FrameType := FSession | FRepair | FManifest.

#[export] Instance FrameType_dec : EqDecision FrameType.
Proof. solve_decision. Defined.

(** [frame_type as u8] *)
Definition frame_type_u8 (t : FrameType) : byte :=
  match t with
  | FSession => byte.of_Z 0
  | FRepair => byte.of_Z 1
  | FManifest => byte.of_Z 2
  end.

(** [TryFrom<u8> for FrameType] *)
Definition FrameType_try_from (value : byte) : outcome FrameError FrameType :=
  match byte.unsigned value with
  | 0 => Ok FSession
  | 1 => Ok FRepair
  | 2 => Ok FManifest
  | _ => Err (Framing.UnknownFrameType value)
  end.

Record FrameHeader := {
  fh_magic : list byte;
  fh_version : byte;
  fh_frame_type : FrameType;
  fh_reserved : Z;
  fh_session_id : list byte;
  fh_truncated_mac : list byte;
  fh_block_index : Z;
  fh_symbol_index : Z;
  fh_payload_length : Z;
  fh_crc32c : Z;
}.

(** [FrameHeader::new]; the payload must not exceed the length field. *)
Definition FrameHeader_new {E} (frame_type : FrameType) (session_id : list byte)
    (block_index symbol_index : Z) (payload : list byte) : outcome E FrameHeader :=
  if decide (len payload <= MAX_PAYLOAD_LEN)
  then
    Ok {| fh_magic := MAGIC; fh_version := VERSION; fh_frame_type := frame_type;
          fh_reserved := 0; fh_session_id := session_id; fh_truncated_mac := zeros 8;
          fh_block_index := block_index; fh_symbol_index := symbol_index;
          fh_payload_length := as_u 16 (len payload);
          fh_crc32c := crc32c_digest payload |}
  else Panic.

(** [FrameHeader::to_vec] *)
Definition FrameHeader_to_vec (h : FrameHeader) : list byte :=
  fh_magic h
  ++ [fh_version h]
  ++ [frame_type_u8 (fh_frame_type h)]
  ++ to_le 2 (fh_reserved h)
  ++ fh_session_id h
  ++ fh_truncated_mac h
  ++ to_le 4 (fh_block_index h)
  ++ to_le 4 (fh_symbol_index h)
  ++ to_le 2 (fh_payload_length h)
  ++ to_le 4 (fh_crc32c h).

(** [FrameHeader::from_bytes] *)
Definition FrameHeader_from_bytes (bytes : list byte) : outcome FrameError FrameHeader :=
  if decide (length bytes < FRAME_HEADER_SIZE)%nat
  then Err (Framing.HeaderTooShort (len bytes))
  else
    magic ← slice 0 4 bytes;
    if decide (magic <> MAGIC) then Err (Framing.InvalidMagic magic)
    else
      version ← index 4 bytes;
      if decide (version <> VERSION) then Err (Framing.UnsupportedVersion version)
      else
        type_byte ← index 5 bytes;
        frame_type ← FrameType_try_from type_byte;
        reserved ← slice 6 8 bytes;
        if decide (from_le reserved <> 0)
        then Err (Framing.ReservedFieldNonZero (from_le reserved))
        else
          session_id ← slice 8 24 bytes;
          truncated_mac ← slice 24 32 bytes;
          block_index ← slice 32 36 bytes;
          symbol_index ← slice 36 40 bytes;
          payload_length ← slice 40 42 bytes;
          crc32c ← slice 42 46 bytes;
          Ok {| fh_magic := magic; fh_version := version; fh_frame_type := frame_type;
                fh_reserved := from_le reserved; fh_session_id := session_id;
                fh_truncated_mac := truncated_mac; fh_block_index := from_le block_index;
                fh_symbol_index := from_le symbol_index;
                fh_payload_length := from_le payload_length; fh_crc32c := from_le crc32c |}.

(** [FrameHeader::set_mac] *)
Definition set_mac (h : FrameHeader) (mac : list byte) : FrameHeader :=
  {| fh_magic := fh_magic h; fh_version := fh_version h; fh_frame_type := fh_frame_type h;
     fh_reserved := fh_reserved h; fh_session_id := fh_session_id h; fh_truncated_mac := mac;
     fh_block_index := fh_block_index h; fh_symbol_index := fh_symbol_index h;
     fh_payload_length := fh_payload_length h; fh_crc32c := fh_crc32c h |}.

Record Frame := {
  fr_header : FrameHeader;
  fr_payload : list byte;
}.

Section mac.
Context `{Blake3}.

(** [FrameHeader::compute_mac] *)
Definition compute_mac (h : FrameHeader) (session_key : list byte) : list byte :=
  let hasher := b3_new_keyed session_key in
  let hasher := b3_update hasher (fh_magic h) in
  let hasher := b3_update hasher [fh_version h] in
  let hasher := b3_update hasher [frame_type_u8 (fh_frame_type h)] in
  let hasher := b3_update hasher (fh_session_id h) in
  let hasher := b3_update hasher (to_le 4 (fh_block_index h)) in
  let hasher := b3_update hasher (to_le 4 (fh_symbol_index h)) in
  let hasher := b3_update hasher (to_le 2 (fh_payload_length h)) in
  take MAC_LEN (b3_finalize hasher).

(** [Frame::build_owned] and [Frame::build] *)
Definition Frame_build_owned (header : FrameHeader) (payload session_key : list byte) : Frame :=
  let mac := compute_mac header session_key in
  {| fr_header := set_mac header mac; fr_payload := payload |}.

Definition Frame_build (header : FrameHeader) (payload session_key : list byte) : Frame :=
  Frame_build_owned header payload session_key.

(** [Frame::to_vec] and [Frame::into_vec] *)
Definition Frame_to_vec (f : Frame) : list byte :=
  FrameHeader_to_vec (fr_header f) ++ fr_payload f.

Definition Frame_into_vec (f : Frame) : list byte :=
  FrameHeader_to_vec (fr_header f) ++ fr_payload f.

(** [Frame::from_bytes] *)
Definition Frame_from_bytes (bytes session_key : list byte) : outcome FrameError Frame :=
  header ← FrameHeader_from_bytes bytes;
  let expected_mac := compute_mac header session_key in
  if decide (fh_truncated_mac header <> expected_mac) then Err Framing.MacVerificationFailed
  else
    let total := (FRAME_HEADER_SIZE + Z.to_nat (fh_payload_length header))%nat in
    if decide (length bytes < total)%nat
    then Err (Framing.Truncated (Z.of_nat total) (len bytes))
    else
      payload ← slice FRAME_HEADER_SIZE total bytes;
      let actual_crc := crc32c_digest payload in
      if decide (actual_crc <> fh_crc32c header)
      then Err (Framing.CrcMismatch (fh_crc32c header) actual_crc)
      else Ok {| fr_header := header; fr_payload := payload |}.

(** The bytes the MAC is computed over. *)
Definition mac_input (h : FrameHeader) : list byte :=
  fh_magic h ++ [fh_version h] ++ [frame_type_u8 (fh_frame_type h)] ++ fh_session_id h
  ++ to_le 4 (fh_block_index h) ++ to_le 4 (fh_symbol_index h) ++ to_le 2 (fh_payload_length h).

(** *** Specification *)

(** A header whose fields have the widths of the struct and the constants of
    this version. *)
Record wf_header (h : FrameHeader) : Prop := {
  wh_magic : fh_magic h = MAGIC;
  wh_version : fh_version h = VERSION;
  wh_reserved : fh_reserved h = 0;
  wh_session_id : length (fh_session_id h) = 16%nat;
  wh_truncated_mac : length (fh_truncated_mac h) = 8%nat;
  wh_block_index : urange 32 (fh_block_index h);
  wh_symbol_index : urange 32 (fh_symbol_index h);
  wh_payload_length : urange 16 (fh_payload_length h);
  wh_crc32c : urange 32 (fh_crc32c h);
}.

(** A frame whose header describes its payload. *)
Record wf_frame (f : Frame) : Prop := {
  wf_fr_header : wf_header (fr_header f);
  wf_fr_length : fh_payload_length (fr_header f) = len (fr_payload f);
  wf_fr_crc : fh_crc32c (fr_header f) = crc32c_digest (fr_payload f);
}.

(** The MAC field holds the header's MAC under [key]. *)
Definition authentic (f : Frame) (key : list byte) : Prop :=
  fh_truncated_mac (fr_header f) = compute_mac (fr_header f) key.

End mac.

(** An example frame, for concrete runs. *)
Definition demo_header : FrameHeader :=
  {| fh_magic := MAGIC; fh_version := VERSION; fh_frame_type := FRepair; fh_reserved := 0;
     fh_session_id := zeros 16; fh_truncated_mac := zeros 8; fh_block_index := 1;
     fh_symbol_index := 2; fh_payload_length := 3;
     fh_crc32c := crc32c_digest [Byte.x01; Byte.x02; Byte.x03] |}.

Definition demo_frame : Frame :=
  Frame_build demo_header [Byte.x01; Byte.x02; Byte.x03] (zeros 32).

(** ** Lemmas *)

Lemma frame_type_roundtrip t : FrameType_try_from (frame_type_u8 t) = Ok t.
Proof. by destruct t. Qed.

Lemma frame_type_canonical b t : FrameType_try_from b = Ok t -> b = frame_type_u8 t.
Proof.
  unfold FrameType_try_from. intros Ht. apply byte.unsigned_inj.
  destruct (byte.unsigned b) as [|[[q|q|]|[q|q|]|]|]; by simplify_eq/=.
Qed.

Lemma frame_type_safe b : safe (FrameType_try_from b).
Proof.
  unfold FrameType_try_from, safe. by destruct (byte.unsigned b) as [|[[]|[]|]|].
Qed.

#[export] Hint Resolve frame_type_safe : dhow.

Lemma length_header h : wf_header h -> length (FrameHeader_to_vec h) = FRAME_HEADER_SIZE.
Proof.
  intros [Hm Hv Hr Hs Ht _ _ _ _]. unfold FrameHeader_to_vec.
  rewrite !length_app, !length_to_le, Hm, Hs, Ht. done.
Qed.

Lemma header_parse_print h rest :
  wf_header h -> FrameHeader_from_bytes (FrameHeader_to_vec h ++ rest) = Ok h.
Proof.
  intros Hwf. unfold FrameHeader_from_bytes.
  rewrite decide_False by (rewrite length_app, length_header by done; lia).
  destruct h as [magic version ft reserved sid mac bi si pl crc].
  destruct Hwf as [Hm Hv Hr Hs Ht Hbi Hsi Hpl Hcrc];
    cbn in Hm, Hv, Hr, Hs, Ht, Hbi, Hsi, Hpl, Hcrc. subst magic version reserved.
  unfold FrameHeader_to_vec. cbn [fh_magic fh_version fh_frame_type fh_reserved fh_session_id
    fh_truncated_mac fh_block_index fh_symbol_index fh_payload_length fh_crc32c].
  rewrite <- !app_assoc. read_fields.
  rewrite decide_False by auto. read_fields.
  rewrite decide_False by auto. read_fields.
  rewrite frame_type_roundtrip. read_fields. rewrite !from_to_le by done.
  rewrite decide_False by auto. done.
Qed.

(** ** Parsing *)

(** What a successful parse says about the input. *)
Lemma header_inv bytes h :
  FrameHeader_from_bytes bytes = Ok h ->
  wf_header h /\ bytes = FrameHeader_to_vec h ++ drop FRAME_HEADER_SIZE bytes.
Proof.
  unfold FrameHeader_from_bytes. case_decide as Hlen; [done|]. intros H.
  unfold FRAME_HEADER_SIZE in Hlen.
  apply bind_Ok in H as (magic & Hmagic & H). case_decide as Hm; [done|].
  apply bind_Ok in H as (version & Hversion & H). case_decide as Hv; [done|].
  apply bind_Ok in H as (type_byte & Htype & H). apply bind_Ok in H as (ft & Hft & H).
  apply bind_Ok in H as (reserved & Hreserved & H). case_decide as Hr; [done|].
  inv_ok H. injection H as <-.
  apply frame_type_canonical in Hft. inv_reads. subst type_byte.
  assert (Hl : forall lo n, (lo + n <= 46)%nat -> length (sub lo n bytes) = n)
    by (intros; apply length_sub; lia).
  split.
  - split; cbn; try done; subst; try (apply Hl; lia);
      first [apply (from_le_range 4) | apply (from_le_range 2)]; apply Hl; lia.
  - unfold FrameHeader_to_vec; cbn -[drop app].
    rewrite !to_from_le by (subst; apply Hl; lia).
    rewrite <- Hversion, <- Htype. subst. glue_reads. by rewrite app_sub_drop.
Qed.

Lemma header_safe bytes : safe (FrameHeader_from_bytes bytes).
Proof.
  unfold FrameHeader_from_bytes, FRAME_HEADER_SIZE. case_decide; [done|].
  solve_safe. auto with dhow.
Qed.

#[export] Hint Resolve header_safe : dhow.

Section frame_laws.
Context `{Blake3Laws}.

Lemma mac_is_keyed_hash h key :
  compute_mac h key = take MAC_LEN (b3_keyed_hash key (mac_input h)).
Proof.
  unfold compute_mac. cbn zeta. f_equal.
  pose proof (b3_streaming_keyed key
    [fh_magic h; [fh_version h]; [frame_type_u8 (fh_frame_type h)]; fh_session_id h;
     to_le 4 (fh_block_index h); to_le 4 (fh_symbol_index h); to_le 2 (fh_payload_length h)])
    as Hs. cbn [foldl concat] in Hs. rewrite Hs. unfold mac_input. by rewrite app_nil_r.
Qed.

Lemma length_mac h key : length (compute_mac h key) = 8%nat.
Proof. rewrite mac_is_keyed_hash, length_take, b3_keyed_hash_length. done. Qed.

(** Setting the MAC does not change what the MAC covers. *)
Lemma compute_mac_set_mac h mac key : compute_mac (set_mac h mac) key = compute_mac h key.
Proof. done. Qed.

Lemma wf_set_mac h mac : wf_header h -> length mac = 8%nat -> wf_header (set_mac h mac).
Proof. intros [] ?. by split. Qed.

Lemma frame_payload_range f : wf_frame f -> len (fr_payload f) <= 65535.
Proof. intros [[] Hl _]. rewrite <- Hl. unfold urange in *. lia. Qed.

Lemma frame_parse_print f key rest :
  wf_frame f -> authentic f key -> Frame_from_bytes (Frame_to_vec f ++ rest) key = Ok f.
Proof.
  intros Hwf Hauth. pose proof (wf_fr_header f Hwf) as Hh. unfold Frame_from_bytes, Frame_to_vec.
  rewrite <- app_assoc, header_parse_print by done. cbn [mbind outcome_bind].
  rewrite decide_False by (intros Hn; apply Hn, Hauth). rewrite (wf_fr_length f Hwf).
  unfold len. rewrite Nat2Z.id.
  rewrite decide_False by (rewrite !length_app, length_header by done; lia).
  rewrite slice_skip with (k := FRAME_HEADER_SIZE) by (by apply length_header || lia).
  rewrite Nat.sub_diag, Nat.add_comm, Nat.add_sub, slice_here by done. cbn [mbind outcome_bind].
  rewrite decide_False by (intros Hn; apply Hn; symmetry; apply (wf_fr_crc f Hwf)). by destruct f.
Qed.

Lemma frame_inv bytes key f :
  Frame_from_bytes bytes key = Ok f ->
  wf_frame f /\ authentic f key /\ exists rest, bytes = Frame_to_vec f ++ rest.
Proof.
  unfold Frame_from_bytes. intros H1. apply bind_Ok in H1 as (h & Hh & H1).
  apply header_inv in Hh as [Hh Hb]. do 2 (case_decide; [done|]).
  apply bind_Ok in H1 as (payload & Hp & H1). case_decide; [done|]. injection H1 as <-.
  apply slice_inv in Hp as [Hle Hp]. rewrite Nat.add_comm, Nat.add_sub in Hp.
  assert (Hpl : length payload = Z.to_nat (fh_payload_length h))
    by (subst payload; apply length_sub; lia).
  destruct Hh as [Hm ? ? ? ? ? ? [? ?] ?]. split; [|split].
  - split; cbn; [by split| |done]. unfold len. lia.
  - done.
  - exists (drop (length payload) (drop FRAME_HEADER_SIZE bytes)). unfold Frame_to_vec.
    cbn [fr_header fr_payload]. rewrite Hb at 1. rewrite <- app_assoc. f_equal.
    rewrite Hp at 1. unfold sub. by rewrite Hpl, take_drop.
Qed.

Lemma frame_safe bytes key : safe (Frame_from_bytes bytes key).
Proof.
  unfold Frame_from_bytes. apply safe_bind; [auto with dhow|]. intros h _.
  do 2 (case_decide; [done|]). apply safe_bind; [apply slice_safe; lia|].
  intros. by case_decide.
Qed.

Lemma header_new_Ok {E} ft sid bi si (payload : list byte) h :
  @FrameHeader_new E ft sid bi si payload = Ok h ->
  length sid = 16%nat -> urange 32 bi -> urange 32 si ->
  wf_header h /\ fh_payload_length h = len payload /\ fh_crc32c h = crc32c_digest payload
  /\ fh_frame_type h = ft /\ fh_session_id h = sid /\ fh_block_index h = bi
  /\ fh_symbol_index h = si.
Proof.
  unfold FrameHeader_new, MAX_PAYLOAD_LEN. case_decide as Hlen; [|done].
  intros [= <-] Hsid Hbi Hsi. pose proof (len_nonneg payload). cbn [fh_payload_length].
  assert (urange 16 (len payload)) by (unfold urange; lia).
  rewrite as_u_id by done. split; [|done]. split; cbn; auto using digest_range.
Qed.

Lemma frame_build_wf h payload key :
  wf_header h -> fh_payload_length h = len payload -> fh_crc32c h = crc32c_digest payload ->
  wf_frame (Frame_build_owned h payload key)
  /\ authentic (Frame_build_owned h payload key) key.
Proof.
  intros Hwf Hl Hc. split; [|done]. split; cbn; [|done..].
  apply wf_set_mac; [done|]. apply length_mac.
Qed.

End frame_laws.

(** ** Properties *)

(** parsing a header never panics, and it accepts an input exactly when
    the input starts with the 46-byte serialization of the header it returns:
    the encoding is canonical, and every well-formed header round-trips. *)
Theorem frame_header_wire bytes h :
  safe (FrameHeader_from_bytes bytes)
  /\ (FrameHeader_from_bytes bytes = Ok h
      <-> wf_header h /\ exists rest, bytes = FrameHeader_to_vec h ++ rest).
Proof.
  split; [apply header_safe|]. split.
  - intros [? ?]%header_inv. eauto.
  - intros (? & rest & ->). by apply header_parse_print.
Qed.

(** C16: [Frame::from_bytes] never panics, and it accepts an input exactly when
    the input starts with the serialization of a frame whose header describes
    its payload (length and CRC32C) and whose MAC field is the header's MAC
    under the session key. *)
Theorem frame_accepted_iff `{Blake3Laws} bytes key f :
  safe (Frame_from_bytes bytes key)
  /\ (Frame_from_bytes bytes key = Ok f
      <-> wf_frame f /\ authentic f key /\ exists rest, bytes = Frame_to_vec f ++ rest).
Proof.
  split; [apply frame_safe|]. split; [apply frame_inv|].
  intros (? & ? & rest & ->). by apply frame_parse_print.
Qed.

Lemma frame_accepted_iff_witness :
  wf_frame demo_frame /\ authentic demo_frame (zeros 32)
  /\ exists rest, Frame_to_vec demo_frame ++ [Byte.xff] = Frame_to_vec demo_frame ++ rest.
Proof.
  apply (frame_accepted_iff (Frame_to_vec demo_frame ++ [Byte.xff]) (zeros 32) demo_frame).
  vm_compute. reflexivity.
Defined.

(** a frame the sender builds for a payload that fits the length field
    parses back, under the same key and with trailing bytes ignored, to the
    type, session, indices and payload it was built with. *)
Theorem frame_build_parse `{Blake3Laws} {E} ft sid bi si (payload : list byte) key rest :
  len payload <= 65535 -> length sid = 16%nat -> urange 32 bi -> urange 32 si ->
  exists h f, @FrameHeader_new E ft sid bi si payload = Ok h
    /\ Frame_from_bytes (Frame_to_vec (Frame_build h payload key) ++ rest) key = Ok f
    /\ fr_payload f = payload /\ fh_frame_type (fr_header f) = ft
    /\ fh_session_id (fr_header f) = sid /\ fh_block_index (fr_header f) = bi
    /\ fh_symbol_index (fr_header f) = si.
Proof.
  intros Hlen Hsid Hbi Hsi. unfold FrameHeader_new, MAX_PAYLOAD_LEN.
  rewrite decide_True by done. eexists _, (Frame_build _ payload key). split; [done|].
  edestruct (@header_new_Ok E ft sid bi si payload) as (Hwf & Hl & Hc & _); [|done..|].
  { unfold FrameHeader_new, MAX_PAYLOAD_LEN. by rewrite decide_True. }
  destruct (frame_build_wf _ payload key Hwf Hl Hc) as [? ?].
  by rewrite frame_parse_print.
Qed.

Lemma frame_build_parse_witness :
  exists h f, @FrameHeader_new FrameError FRepair (zeros 16) 1 2 [Byte.x07] = Ok h
    /\ Frame_from_bytes (Frame_to_vec (Frame_build h [Byte.x07] (zeros 32)) ++ []) (zeros 32)
       = Ok f
    /\ fr_payload f = [Byte.x07] /\ fh_frame_type (fr_header f) = FRepair
    /\ fh_session_id (fr_header f) = zeros 16 /\ fh_block_index (fr_header f) = 1
    /\ fh_symbol_index (fr_header f) = 2.
Proof. apply frame_build_parse; [vm_compute; congruence| done | by vm_compute..]. Defined.

(** C30: corrupting at most four consecutive payload bytes of an accepted frame
    makes the parser answer [CrcMismatch], never a wrong payload. *)
Theorem frame_payload_corruption `{Blake3Laws} f key p m1 m2 s rest :
  wf_frame f -> authentic f key -> fr_payload f = p ++ m1 ++ s ->
  length m1 = length m2 -> (length m1 <= 4)%nat -> m1 <> m2 ->
  Frame_from_bytes (FrameHeader_to_vec (fr_header f) ++ (p ++ m2 ++ s) ++ rest) key
  = Err (Framing.CrcMismatch (fh_crc32c (fr_header f)) (crc32c_digest (p ++ m2 ++ s))).
Proof.
  intros Hwf Hauth Hp Hl H4 Hne. pose proof (wf_fr_header f Hwf) as Hh.
  unfold Frame_from_bytes. rewrite header_parse_print by done. cbn [mbind outcome_bind].
  rewrite decide_False by (intros Hn; apply Hn, Hauth).
  assert (Hpl : Z.to_nat (fh_payload_length (fr_header f)) = length (p ++ m2 ++ s)).
  { rewrite (wf_fr_length f Hwf), Hp. unfold len. rewrite Nat2Z.id, !length_app. lia. }
  rewrite Hpl. rewrite decide_False by (rewrite !length_app, length_header by done; lia).
  rewrite slice_skip with (k := FRAME_HEADER_SIZE) by (by apply length_header || lia).
  rewrite Nat.sub_diag, Nat.add_comm, Nat.add_sub, slice_here by done. cbn [mbind outcome_bind].
  rewrite decide_True; [done|]. rewrite (wf_fr_crc f Hwf), Hp.
  intros Heq. symmetry in Heq. by apply digest_burst in Heq.
Qed.

Lemma frame_payload_corruption_witness :
  Frame_from_bytes (FrameHeader_to_vec (fr_header demo_frame)
    ++ ([Byte.x01] ++ [Byte.x82] ++ [Byte.x03]) ++ []) (zeros 32)
  = Err (Framing.CrcMismatch (fh_crc32c (fr_header demo_frame))
      (crc32c_digest ([Byte.x01] ++ [Byte.x82] ++ [Byte.x03]))).
Proof.
  apply (frame_payload_corruption demo_frame (zeros 32) [Byte.x01] [Byte.x02] [Byte.x82] [Byte.x03]).
  - apply frame_build_wf; [|reflexivity..].
    split; (reflexivity || (split; [vm_compute; discriminate|reflexivity])).
  - reflexivity.
  - reflexivity.
  - reflexivity.
  - simpl; lia.
  - discriminate.
Defined.

(** the MAC authenticates the header and nothing else. For every accepted
    frame and every other payload of the same length, the frame with the
    payload exchanged and the (unkeyed) CRC recomputed is accepted too, under
    the same MAC and with no knowledge of the key. *)
Theorem frame_payload_substitution `{Blake3Laws} bytes key f (payload : list byte) rest :
  Frame_from_bytes bytes key = Ok f -> length payload = length (fr_payload f) ->
  exists f', fr_payload f' = payload
    /\ fh_truncated_mac (fr_header f') = fh_truncated_mac (fr_header f)
    /\ mac_input (fr_header f') = mac_input (fr_header f)
    /\ Frame_from_bytes (Frame_to_vec f' ++ rest) key = Ok f'.
Proof.
  intros (Hwf & Hauth & _)%frame_inv Hlen. destruct f as [h p0]. cbn in Hlen.
  exists {| fr_payload := payload; fr_header :=
      {| fh_magic := fh_magic h; fh_version := fh_version h; fh_frame_type := fh_frame_type h;
         fh_reserved := fh_reserved h; fh_session_id := fh_session_id h;
         fh_truncated_mac := fh_truncated_mac h; fh_block_index := fh_block_index h;
         fh_symbol_index := fh_symbol_index h; fh_payload_length := fh_payload_length h;
         fh_crc32c := crc32c_digest payload |} |}.
  do 3 (split; [done|]). apply frame_parse_print; [|done].
  destruct Hwf as [[] Hl _]. split; cbn in *; [split; cbn; auto using digest_range| |done].
  rewrite Hl. unfold len. lia.
Qed.

Lemma frame_payload_substitution_witness :
  exists f', fr_payload f' = [Byte.xaa; Byte.xbb; Byte.xcc]
    /\ fh_truncated_mac (fr_header f') = fh_truncated_mac (fr_header demo_frame)
    /\ mac_input (fr_header f') = mac_input (fr_header demo_frame)
    /\ Frame_from_bytes (Frame_to_vec f' ++ []) (zeros 32) = Ok f'.
Proof.
  apply (frame_payload_substitution (Frame_to_vec demo_frame) (zeros 32));
    vm_compute; reflexivity.
Defined.

(** the MAC is the first eight bytes of the keyed BLAKE3 hash of its input,
    and two well-formed headers with the same MAC input agree on everything
    but the MAC and CRC fields: no field can move into another. *)
Theorem frame_mac_binds `{Blake3Laws} h1 h2 key :
  wf_header h1 -> wf_header h2 -> mac_input h1 = mac_input h2 ->
  compute_mac h1 key = take MAC_LEN (b3_keyed_hash key (mac_input h1))
  /\ fh_frame_type h1 = fh_frame_type h2 /\ fh_session_id h1 = fh_session_id h2
  /\ fh_block_index h1 = fh_block_index h2 /\ fh_symbol_index h1 = fh_symbol_index h2
  /\ fh_payload_length h1 = fh_payload_length h2.
Proof.
  intros [Hm1 Hv1 _ Hs1 _ Hb1 Hy1 Hp1 _] [Hm2 Hv2 _ Hs2 _ Hb2 Hy2 Hp2 _] Heq.
  split; [apply mac_is_keyed_hash|]. unfold mac_input in Heq.
  rewrite Hm1, Hm2, Hv1, Hv2 in Heq. apply app_inv_head in Heq. apply app_inv_head in Heq.
  apply app_inj_1 in Heq as [Ht Heq]; [|done]. injection Ht as Ht.
  apply app_inj_1 in Heq as [Hs Heq]; [|congruence].
  apply app_inj_1 in Heq as [Hb Heq]; [|by rewrite !length_to_le].
  apply app_inj_1 in Heq as [Hy Hp]; [|by rewrite !length_to_le].
  apply (f_equal from_le) in Hb, Hy, Hp. rewrite !from_to_le in Hb, Hy, Hp by done.
  split; [|done]. pose proof (frame_type_roundtrip (fh_frame_type h1)) as Hf.
  rewrite Ht, frame_type_roundtrip in Hf. by injection Hf.
Qed.

Lemma frame_mac_binds_witness :
  compute_mac demo_header (zeros 32)
  = take MAC_LEN (b3_keyed_hash (zeros 32) (mac_input demo_header)).
Proof.
  apply (frame_mac_binds demo_header (set_mac demo_header (zeros 8)) (zeros 32)); [..|done];
    split; (reflexivity || (split; [vm_compute; discriminate|reflexivity])).
Defined.
