(* ===== verification/Digest.v ===== *)
(** * Payload digests (dhow-codec/src/blake3.rs)

    The crate's wrapper around the [blake3] hasher. *)

From S2P Require Import Prelude Primitives.

(** ** Definitions *)

Definition DIGEST_LEN : nat := 32.

Section blake3.
Context `{Blake3}.

(** [blake3_digest]: [copy_from_slice] panics when the lengths differ, which
    the 32-byte digest rules out. *)
Definition blake3_digest (data : list byte) : list byte := b3_hash data.

Record Blake3Hasher := { state : b3_hasher }.

(** [Blake3Hasher::new], [update] and [finalize] *)
Definition Blake3Hasher_new : Blake3Hasher := {| state := b3_new |}.

Definition update (h : Blake3Hasher) (data : list byte) : Blake3Hasher :=
  {| state := b3_update (state h) data |}.

Definition finalize (h : Blake3Hasher) : list byte := b3_finalize (state h).

End blake3.

(** ** Lemmas *)

Section laws.
Context `{Blake3Laws}.

Lemma length_blake3_digest data : length (blake3_digest data) = DIGEST_LEN.
Proof. apply b3_hash_length. Qed.

(** Hashing a payload piece by piece gives the digest of the whole. *)
Lemma hasher_streams chunks :
  finalize (foldl update Blake3Hasher_new chunks) = blake3_digest (concat chunks).
Proof.
  unfold blake3_digest. rewrite <- b3_streaming. unfold finalize. f_equal.
  enough (forall h, state (foldl update h chunks) = foldl b3_update (state h) chunks) as Hs
    by apply Hs.
  induction chunks as [|c chunks IH]; intros h; cbn; [done|]. by rewrite IH.
Qed.

End laws.

#[export] Hint Resolve length_blake3_digest : dhow.
