(* ===== verification/Session.v ===== *)
(** * Session header (dhow-codec/src/session.rs)

    The 126-byte header that carries the transfer parameters, its CRC, and the
    checks on the parameters. *)

From S2P Require Import Prelude Errors Crc32c Primitives Instances Digest.
From Stdlib Require Strings.String.

(** ** Definitions *)

(** ASCII "DSES" *)
Definition SESSION_MAGIC : list byte := String.list_byte_of_string "DSES".
Definition SESSION_VERSION : byte := byte.of_Z 1.
Definition SESSION_HEADER_SIZE : nat := 126.

Record RaptorQParams := {
  z : Z;
  n : Z;
  psi : Z;
}.

Record SessionParams := {
  payload_size : Z;
  block_count : Z;
  symbol_size : Z;
  source_symbols_per_block : Z;
  total_symbols_per_block : Z;
  raptorq : RaptorQParams;
  payload_digest : list byte;
}.

#[export] Instance RaptorQParams_dec : EqDecision RaptorQParams.
Proof. solve_decision. Defined.

#[export] Instance SessionParams_dec : EqDecision SessionParams.
Proof. solve_decision. Defined.

(** [SessionParams::validate] *)
Definition validate (p : SessionParams) : outcome SessionError unit :=
  if decide (block_count p = 0)
  then Err (Sess.InvalidParameters [Txt "block_count must be non-zero"])
  else if decide (symbol_size p = 0)
  then Err (Sess.InvalidParameters [Txt "symbol_size must be non-zero"])
  else if decide (total_symbols_per_block p < source_symbols_per_block p)
  then Err (Sess.InvalidParameters
    [Txt "total_symbols_per_block must be >= source_symbols_per_block"])
  else Ok tt.

Record SessionHeader := {
  sh_magic : list byte;
  sh_version : byte;
  sh_reserved1 : list byte;
  sh_session_id : list byte;
  sh_params : SessionParams;
  sh_reserved2 : list byte;
  sh_crc32c : Z;
}.

(** [SessionHeader::new] *)
Definition SessionHeader_new (session_id : list byte) (params : SessionParams) : SessionHeader :=
  let bytes :=
    [SESSION_VERSION] ++ zeros 3 ++ session_id
    ++ to_le 8 (payload_size params)
    ++ to_le 4 (block_count params)
    ++ to_le 4 (symbol_size params)
    ++ to_le 4 (source_symbols_per_block params)
    ++ to_le 4 (total_symbols_per_block params)
    ++ to_le 4 (z (raptorq params))
    ++ to_le 4 (n (raptorq params))
    ++ to_le 2 (psi (raptorq params))
    ++ payload_digest params
    ++ zeros 32 in
  {| sh_magic := SESSION_MAGIC; sh_version := SESSION_VERSION; sh_reserved1 := zeros 3;
     sh_session_id := session_id; sh_params := params; sh_reserved2 := zeros 32;
     sh_crc32c := crc32c_digest bytes |}.

(** [SessionHeader::to_vec] *)
Definition SessionHeader_to_vec (h : SessionHeader) : list byte :=
  sh_magic h
  ++ [sh_version h]
  ++ sh_reserved1 h
  ++ sh_session_id h
  ++ to_le 8 (payload_size (sh_params h))
  ++ to_le 4 (block_count (sh_params h))
  ++ to_le 4 (symbol_size (sh_params h))
  ++ to_le 4 (source_symbols_per_block (sh_params h))
  ++ to_le 4 (total_symbols_per_block (sh_params h))
  ++ to_le 4 (z (raptorq (sh_params h)))
  ++ to_le 4 (n (raptorq (sh_params h)))
  ++ to_le 2 (psi (raptorq (sh_params h)))
  ++ payload_digest (sh_params h)
  ++ sh_reserved2 h
  ++ to_le 4 (sh_crc32c h).

(** [SessionHeader::from_bytes] *)
Definition SessionHeader_from_bytes (bytes : list byte) : outcome SessionError SessionHeader :=
  if decide (length bytes < SESSION_HEADER_SIZE)%nat
  then Err (Sess.InvalidParameters
    [Txt "header too short: "; Dec (len bytes); Txt " bytes (minimum "; Dec 126; Txt ")"])
  else
    magic ← slice 0 4 bytes;
    if decide (magic <> SESSION_MAGIC)
    then Err (Sess.InvalidParameters
      [Txt "invalid magic: expected DSES, got "; DebugBytes magic])
    else
      version ← index 4 bytes;
      if decide (version <> SESSION_VERSION)
      then Err (Sess.InvalidParameters
        [Txt "unsupported version: "; Dec (byte.unsigned version)])
      else
        reserved1 ← slice 5 8 bytes;
        if decide (reserved1 <> zeros 3)
        then Err (Sess.InvalidParameters [Txt "reserved field must be zero"])
        else
          session_id ← slice 8 24 bytes;
          payload_size ← slice 24 32 bytes;
          block_count ← slice 32 36 bytes;
          symbol_size ← slice 36 40 bytes;
          source_symbols_per_block ← slice 40 44 bytes;
          total_symbols_per_block ← slice 44 48 bytes;
          z ← slice 48 52 bytes;
          n ← slice 52 56 bytes;
          psi ← slice 56 58 bytes;
          payload_digest ← slice 58 90 bytes;
          reserved2 ← slice 90 122 bytes;
          if decide (reserved2 <> zeros 32)
          then Err (Sess.InvalidParameters [Txt "reserved field 2 must be zero"])
          else
            crc32c ← slice 122 126 bytes;
            covered ← slice 4 122 bytes;
            let expected_crc := crc32c_digest covered in
            if decide (from_le crc32c <> expected_crc)
            then Err (Sess.InvalidParameters
              [Txt "CRC32C mismatch: expected "; HexNum 8 expected_crc;
               Txt ", got "; HexNum 8 (from_le crc32c)])
            else
              Ok {| sh_magic := magic; sh_version := version; sh_reserved1 := reserved1;
                    sh_session_id := session_id;
                    sh_params := {|
                      payload_size := from_le payload_size;
                      block_count := from_le block_count;
                      symbol_size := from_le symbol_size;
                      source_symbols_per_block := from_le source_symbols_per_block;
                      total_symbols_per_block := from_le total_symbols_per_block;
                      raptorq := {| z := from_le z; n := from_le n; psi := from_le psi |};
                      payload_digest := payload_digest |};
                    sh_reserved2 := reserved2; sh_crc32c := from_le crc32c |}.

(** [verify_payload_digest] *)
Definition verify_payload_digest `{Blake3} (data expected : list byte) : bool :=
  bool_decide (blake3_digest data = expected).

(** *** Specification *)

(** The fields the CRC covers. *)
Definition session_body (session_id : list byte) (p : SessionParams) : list byte :=
  [SESSION_VERSION] ++ zeros 3 ++ session_id ++ to_le 8 (payload_size p)
  ++ to_le 4 (block_count p) ++ to_le 4 (symbol_size p)
  ++ to_le 4 (source_symbols_per_block p) ++ to_le 4 (total_symbols_per_block p)
  ++ to_le 4 (z (raptorq p)) ++ to_le 4 (n (raptorq p)) ++ to_le 2 (psi (raptorq p))
  ++ payload_digest p ++ zeros 32.

(** Parameters whose fields have the widths of the struct. *)
Record wf_params (p : SessionParams) : Prop := {
  wp_payload_size : urange 64 (payload_size p);
  wp_block_count : urange 32 (block_count p);
  wp_symbol_size : urange 32 (symbol_size p);
  wp_source_symbols : urange 32 (source_symbols_per_block p);
  wp_total_symbols : urange 32 (total_symbols_per_block p);
  wp_z : urange 32 (z (raptorq p));
  wp_n : urange 32 (n (raptorq p));
  wp_psi : urange 16 (psi (raptorq p));
  wp_digest : length (payload_digest p) = 32%nat;
}.

(** The header of the same fields as proto/session.md describes it: the
    checksum covers bytes 0..122, the magic included. *)
Definition documented_header (session_id : list byte) (p : SessionParams) : list byte :=
  SESSION_MAGIC ++ session_body session_id p
  ++ to_le 4 (crc32c_digest (SESSION_MAGIC ++ session_body session_id p)).

(** An example, for concrete runs. *)
Definition demo_params : SessionParams :=
  {| payload_size := 1000; block_count := 2; symbol_size := 256;
     source_symbols_per_block := 2; total_symbols_per_block := 3;
     raptorq := {| z := 2; n := 1; psi := 1 |}; payload_digest := zeros 32 |}.

(** ** Lemmas *)


Lemma session_to_vec_new sid p :
  SessionHeader_to_vec (SessionHeader_new sid p)
  = SESSION_MAGIC ++ session_body sid p ++ to_le 4 (crc32c_digest (session_body sid p)).
Proof. unfold SessionHeader_to_vec, session_body. by rewrite <- !app_assoc. Qed.

Lemma length_session_body sid p :
  length sid = 16%nat -> wf_params p -> length (session_body sid p) = 118%nat.
Proof.
  intros Hs Hp. unfold session_body.
  by rewrite !length_app, !length_to_le, !length_zeros, Hs, (wp_digest p Hp).
Qed.

Lemma length_session_to_vec sid p :
  length sid = 16%nat -> wf_params p ->
  length (SessionHeader_to_vec (SessionHeader_new sid p)) = SESSION_HEADER_SIZE.
Proof.
  intros. by rewrite session_to_vec_new, !length_app, length_session_body, length_to_le.
Qed.

Lemma session_parse_print sid p rest :
  length sid = 16%nat -> wf_params p ->
  SessionHeader_from_bytes (SessionHeader_to_vec (SessionHeader_new sid p) ++ rest)
  = Ok (SessionHeader_new sid p).
Proof.
  intros Hs Hp. pose proof (length_session_body sid p Hs Hp) as Hb.
  unfold SessionHeader_from_bytes.
  rewrite decide_False by (rewrite length_app, length_session_to_vec by done; lia).
  assert (Hcov : @slice SessionError _ 4 122
    (SessionHeader_to_vec (SessionHeader_new sid p) ++ rest) = Ok (session_body sid p)).
  { rewrite session_to_vec_new, <- !app_assoc.
    rewrite slice_skip with (k := 4%nat) by (done || lia). by apply slice_here. }
  rewrite Hcov. unfold SessionHeader_to_vec. rewrite <- !app_assoc.
  destruct p as [ps bc ss sps tps [pz pn ppsi] dg]. destruct Hp.
  unfold SessionHeader_new; cbn -[app zeros to_le session_body] in *.
  read_fields. rewrite decide_False by auto. read_fields. rewrite decide_False by auto.
  read_fields. rewrite decide_False by auto. read_fields. rewrite decide_False by auto.
  read_fields. rewrite !from_to_le by (done || apply digest_range).
  by rewrite decide_False by auto.
Qed.

Lemma session_inv bytes h :
  SessionHeader_from_bytes bytes = Ok h ->
  h = SessionHeader_new (sh_session_id h) (sh_params h)
  /\ length (sh_session_id h) = 16%nat /\ wf_params (sh_params h)
  /\ bytes = SessionHeader_to_vec h ++ drop SESSION_HEADER_SIZE bytes.
Proof.
  unfold SessionHeader_from_bytes. case_decide as Hlen; [done|]. intros H.
  unfold SESSION_HEADER_SIZE in Hlen.
  apply bind_Ok in H as (magic & Hmagic & H). case_decide as Hm; [done|].
  apply bind_Ok in H as (version & Hversion & H). case_decide as Hv; [done|].
  apply bind_Ok in H as (reserved1 & Hreserved1 & H). case_decide as Hr; [done|].
  do 10 (apply bind_Ok in H as (? & ? & H)).
  apply bind_Ok in H as (reserved2 & Hreserved2 & H). case_decide as Hr2; [done|].
  apply bind_Ok in H as (crc & Hcrc & H). apply bind_Ok in H as (covered & Hcov & H).
  case_decide as Hc; [done|]. injection H as <-. inv_reads.
  assert (Hl : forall lo n, (lo + n <= 126)%nat -> length (sub lo n bytes) = n)
    by (intros; apply length_sub; lia).
  assert (Hbody : covered = session_body x
    {| payload_size := from_le x0; block_count := from_le x1; symbol_size := from_le x2;
       source_symbols_per_block := from_le x3; total_symbols_per_block := from_le x4;
       raptorq := {| z := from_le x5; n := from_le x6; psi := from_le x7 |};
       payload_digest := x8 |}).
  { unfold session_body; cbn -[app zeros to_le]. rewrite !to_from_le by (subst; apply Hl; lia).
    rewrite <- Hr, <- Hr2, <- Hv, <- Hversion. subst. by glue_reads. }
  cbn [sh_session_id sh_params]. split; [|split; [|split]].
  - unfold SessionHeader_new. fold (session_body x
    {| payload_size := from_le x0; block_count := from_le x1; symbol_size := from_le x2;
       source_symbols_per_block := from_le x3; total_symbols_per_block := from_le x4;
       raptorq := {| z := from_le x5; n := from_le x6; psi := from_le x7 |};
       payload_digest := x8 |}). by rewrite <- Hbody, <- Hc, Hm, Hv, Hr, Hr2.
  - subst. apply Hl. lia.
  - split; cbn; subst;
      first [apply (from_le_range 8) | apply (from_le_range 4) | apply (from_le_range 2) | idtac];
      apply Hl; lia.
  - unfold SessionHeader_to_vec; cbn -[drop app to_le].
    rewrite !to_from_le by (subst; apply Hl; lia). rewrite <- Hversion. subst.
    glue_reads. by rewrite app_sub_drop.
Qed.

Lemma session_safe bytes : safe (SessionHeader_from_bytes bytes).
Proof.
  unfold SessionHeader_from_bytes, SESSION_HEADER_SIZE. case_decide; [done|]. solve_safe.
Qed.

#[export] Hint Resolve session_safe : dhow.

(** The stored checksum is the checksum of the covered bytes. *)
Lemma session_inv_crc bytes h :
  SessionHeader_from_bytes bytes = Ok h ->
  (126 <= length bytes)%nat /\ from_le (sub 122 4 bytes) = crc32c_digest (sub 4 118 bytes).
Proof.
  intros Hp. apply session_inv in Hp as (Hn & Hs & Hw & Hb). rewrite Hn in Hb.
  pose proof (length_session_body _ _ Hs Hw) as Hl. rewrite session_to_vec_new in Hb.
  rewrite Hb. split.
  { rewrite !length_app, Hl, length_to_le. cbn. lia. }
  rewrite <- !app_assoc. rewrite (sub_skip 4 122), (sub_skip 4 4) by (done || lia). cbn [Nat.sub].
  rewrite (sub_here 118) by done. rewrite (sub_skip 118) by (done || lia). cbn [Nat.sub].
  rewrite sub_here by done. apply (from_to_le 4), digest_range.
Qed.

Lemma take_magic (body s : list byte) :
  length body = 118%nat -> take 122 (SESSION_MAGIC ++ body ++ s) = SESSION_MAGIC ++ body.
Proof. intros Hb. rewrite app_assoc. apply take_app_length'. by rewrite length_app, Hb. Qed.

(** Fields in order with a checksum that is not theirs. *)
Lemma session_parse_crc sid p crc rest :
  length sid = 16%nat -> wf_params p -> length crc = 4%nat ->
  from_le crc <> crc32c_digest (session_body sid p) ->
  SessionHeader_from_bytes (SESSION_MAGIC ++ session_body sid p ++ crc ++ rest)
  = Err (Sess.InvalidParameters
      [Txt "CRC32C mismatch: expected "; HexNum 8 (crc32c_digest (session_body sid p));
       Txt ", got "; HexNum 8 (from_le crc)]).
Proof.
  intros Hs Hp Hc Hne. pose proof (length_session_body sid p Hs Hp) as Hb.
  unfold SessionHeader_from_bytes.
  rewrite decide_False by (rewrite !length_app, Hb, Hc; cbn; unfold SESSION_HEADER_SIZE; lia).
  assert (Hcov : @slice SessionError _ 4 122 (SESSION_MAGIC ++ session_body sid p ++ crc ++ rest)
    = Ok (session_body sid p)).
  { rewrite slice_skip with (k := 4%nat) by (done || lia). by apply slice_here. }
  rewrite Hcov. unfold session_body in *. rewrite <- !app_assoc in *. destruct p as [ps bc ss sps tps [pz pn ppsi] dg].
  destruct Hp. cbn -[app zeros to_le] in *.
  read_fields. rewrite decide_False by auto. read_fields. rewrite decide_False by auto.
  read_fields. rewrite decide_False by auto. read_fields. rewrite decide_False by auto.
  read_fields. by rewrite decide_True by done.
Qed.

(** The magic shows in the checksum. *)
Lemma magic_counts body : crc32c_digest (SESSION_MAGIC ++ body) <> crc32c_digest body.
Proof. intros Heq%digest_prefix. revert Heq. vm_compute. discriminate. Qed.

(** A window inside [lo, lo + n) splits what is read there. *)
Lemma sub_window {A} lo n (p m s : list A) :
  (lo <= length p)%nat -> (length p + length m <= lo + n)%nat ->
  sub lo n (p ++ m ++ s)
  = drop lo p ++ m ++ take (lo + n - length p - length m) s.
Proof.
  intros. unfold sub. rewrite drop_app_le by done. rewrite take_app_ge by (rewrite length_drop; lia).
  f_equal. rewrite length_drop, take_app_ge by lia. f_equal. f_equal. lia.
Qed.

Lemma sub_past {A} lo n (p m s : list A) :
  (length p + length m <= lo)%nat ->
  sub lo n (p ++ m ++ s) = sub (lo - length p - length m) n s.
Proof. intros. rewrite !sub_skip with (k := length p) by lia. by rewrite (sub_skip (length m)) by lia. Qed.

(** ** Properties *)

(** C36: [SessionHeader::from_bytes] never panics, and it accepts an input
    exactly when the input starts with the serialization of the header
    [SessionHeader::new] builds from the session id and parameters it returns:
    one encoding per header, and every header round-trips. *)
Theorem session_header_wire bytes h :
  safe (SessionHeader_from_bytes bytes)
  /\ (SessionHeader_from_bytes bytes = Ok h
      <-> h = SessionHeader_new (sh_session_id h) (sh_params h)
          /\ length (sh_session_id h) = 16%nat /\ wf_params (sh_params h)
          /\ exists rest, bytes = SessionHeader_to_vec h ++ rest).
Proof.
  split; [apply session_safe|]. split.
  - intros (? & ? & ? & ?)%session_inv. eauto 6.
  - intros (Hh & ? & ? & rest & ->). rewrite Hh. by apply session_parse_print.
Qed.

(** C20: the range of the checksum. No input whose checksum field covers bytes
    0..122, as proto/session.md has it and the published vector does, is a header
    the parser accepts; the header so written of any session has
    the 122 bytes the serializer writes, and is rejected with a checksum mismatch
    that names the two checksums. *)
Theorem session_documented_crc_rejected sid p rest :
  length sid = 16%nat -> wf_params p ->
  (forall bytes h, from_le (sub 122 4 bytes) = crc32c_digest (take 122 bytes) ->
     SessionHeader_from_bytes bytes <> Ok h)
  /\ take 122 (documented_header sid p) = take 122 (SessionHeader_to_vec (SessionHeader_new sid p))
  /\ SessionHeader_from_bytes (documented_header sid p ++ rest)
     = Err (Sess.InvalidParameters
         [Txt "CRC32C mismatch: expected "; HexNum 8 (crc32c_digest (session_body sid p));
          Txt ", got "; HexNum 8 (crc32c_digest (SESSION_MAGIC ++ session_body sid p))]).
Proof.
  intros Hs Hp. pose proof (length_session_body sid p Hs Hp) as Hb. split; [|split].
  - intros bytes h Hcrc Hok. pose proof (session_inv _ _ Hok) as (Hn & Hs' & Hp' & Hbytes).
    apply session_inv_crc in Hok as [_ Hok]. rewrite Hcrc in Hok. revert Hok.
    rewrite Hn, session_to_vec_new in Hbytes. rewrite Hbytes, <- !app_assoc.
    pose proof (length_session_body _ _ Hs' Hp') as Hb'.
    rewrite take_magic, (sub_skip 4) by (done || lia). cbn [Nat.sub]. rewrite sub_here by done.
    apply magic_counts.
  - rewrite session_to_vec_new. unfold documented_header. by rewrite !take_magic by done.
  - unfold documented_header. rewrite <- !app_assoc. rewrite session_parse_crc; [|done..| |].
    + by rewrite from_to_le by apply digest_range.
    + by rewrite length_to_le.
    + rewrite from_to_le by apply digest_range. apply magic_counts.
Qed.

Lemma session_documented_crc_rejected_witness :
  SessionHeader_from_bytes (documented_header (zeros 16) demo_params)
  = Err (Sess.InvalidParameters
      [Txt "CRC32C mismatch: expected "; HexNum 8 (crc32c_digest (session_body (zeros 16) demo_params));
       Txt ", got ";
       HexNum 8 (crc32c_digest (SESSION_MAGIC ++ session_body (zeros 16) demo_params))]).
Proof.
  destruct (session_documented_crc_rejected (zeros 16) demo_params []) as (_ & _ & Hr).
  - reflexivity.
  - split; vm_compute; (split; [discriminate|reflexivity]) || reflexivity.
  - rewrite app_nil_r in Hr. exact Hr.
Defined.

(** corrupting an accepted session header inside a window of at most four
    consecutive bytes between the magic and the checksum makes the parser
    return an error. *)
Theorem session_header_corruption p m1 m2 s h :
  SessionHeader_from_bytes (p ++ m1 ++ s) = Ok h ->
  length m1 = length m2 -> (length m1 <= 4)%nat -> m1 <> m2 ->
  (4 <= length p)%nat -> (length p + length m1 <= 122)%nat ->
  exists e, SessionHeader_from_bytes (p ++ m2 ++ s) = Err e.
Proof.
  intros H1%session_inv_crc Hl H4 Hne Hlo Hhi.
  destruct (SessionHeader_from_bytes (p ++ m2 ++ s)) as [h'|e|] eqn:H2; [|by eauto|].
  - apply session_inv_crc in H2. destruct H1 as [_ H1], H2 as [_ H2].
    rewrite sub_past, sub_window in H1, H2 by lia. rewrite <- Hl in H2. rewrite H1 in H2.
    by apply digest_burst in H2.
  - by destruct (session_safe (p ++ m2 ++ s)).
Qed.

Lemma session_header_corruption_witness :
  exists e, SessionHeader_from_bytes
    (take 24 (SessionHeader_to_vec (SessionHeader_new (zeros 16) demo_params))
     ++ [Byte.xff]
     ++ drop 25 (SessionHeader_to_vec (SessionHeader_new (zeros 16) demo_params))) = Err e.
Proof.
  apply (session_header_corruption
    (take 24 (SessionHeader_to_vec (SessionHeader_new (zeros 16) demo_params)))
    [Byte.xe8] [Byte.xff]
    (drop 25 (SessionHeader_to_vec (SessionHeader_new (zeros 16) demo_params)))
    (SessionHeader_new (zeros 16) demo_params)).
  - vm_compute. reflexivity.
  - reflexivity.
  - simpl. lia.
  - discriminate.
  - vm_compute. lia.
  - vm_compute. lia.
Defined.
