(* ===== verification/SessionState.v ===== *)
(** * Session state machine (dhow-codec/src/session_state.rs)

    The transfer states, the guarded transitions between them, the counters
    and the progress estimate, and what any sequence of calls makes of a session. *)

From S2P Require Import Prelude Errors F64 Session.
From Stdlib Require Import Floats.SpecFloat.

#[local] Open Scope Z_scope.

(** ** Definitions *)

Inductive SessionState :=
| Initializing
| Sending
| Receiving
| Recovering
| Complete
| Error
| Paused.

#[export] Instance SessionState_dec : EqDecision SessionState.
Proof. solve_decision. Defined.

(** What [{:?}] prints for a state. *)
Definition SessionState_debug (s : SessionState) : string :=
  match s with
  | Initializing => "Initializing"
  | Sending => "Sending"
  | Receiving => "Receiving"
  | Recovering => "Recovering"
  | Complete => "Complete"
  | Error => "Error"
  | Paused => "Paused"
  end.

Record SessionStateMachine := {
  session_id : list byte;
  params : SessionParams;
  state : SessionState;
  frames_sent : Z;
  frames_received : Z;
  bytes_transmitted : Z;
  last_error : option message;
}.

(** [SessionStateMachine::new] *)
Definition SessionStateMachine_new (session_id : list byte) (params : SessionParams)
    : SessionStateMachine :=
  {| session_id := session_id; params := params; state := Initializing; frames_sent := 0;
     frames_received := 0; bytes_transmitted := 0; last_error := None |}.

Definition set_state (st : SessionState) (m : SessionStateMachine) : SessionStateMachine :=
  {| session_id := session_id m; params := params m; state := st; frames_sent := frames_sent m;
     frames_received := frames_received m; bytes_transmitted := bytes_transmitted m;
     last_error := last_error m |}.

Definition cannot (what : string) (m : SessionStateMachine) : SessionError :=
  Sess.InvalidParameters [Txt what; Txt (SessionState_debug (state m))].

(** [start_sending] *)
Definition start_sending (m : SessionStateMachine) : outcome SessionError SessionStateMachine :=
  match state m with
  | Initializing | Paused => Ok (set_state Sending m)
  | _ => Err (cannot "cannot start sending from " m)
  end.

(** [start_receiving] *)
Definition start_receiving (m : SessionStateMachine) : outcome SessionError SessionStateMachine :=
  match state m with
  | Initializing => Ok (set_state Receiving m)
  | _ => Err (cannot "cannot start receiving from " m)
  end.

(** [enter_recovery] *)
Definition enter_recovery (m : SessionStateMachine) : outcome SessionError SessionStateMachine :=
  match state m with
  | Receiving | Sending => Ok (set_state Recovering m)
  | _ => Err (cannot "cannot enter recovery from " m)
  end.

(** [complete] *)
Definition complete (m : SessionStateMachine) : outcome SessionError SessionStateMachine :=
  match state m with
  | Sending | Receiving | Recovering => Ok (set_state Complete m)
  | _ => Err (cannot "cannot complete from " m)
  end.

(** [error] *)
Definition error (reason : message) (m : SessionStateMachine) : SessionStateMachine :=
  {| session_id := session_id m; params := params m; state := Error;
     frames_sent := frames_sent m; frames_received := frames_received m;
     bytes_transmitted := bytes_transmitted m; last_error := Some reason |}.

(** [pause] *)
Definition pause (m : SessionStateMachine) : outcome SessionError SessionStateMachine :=
  match state m with
  | Sending | Receiving => Ok (set_state Paused m)
  | _ => Err (cannot "cannot pause from " m)
  end.

(** [record_frame_sent] *)
Definition record_frame_sent (checks : bool) (frame_size : Z) (m : SessionStateMachine)
    : outcome SessionError SessionStateMachine :=
  sent ← add_w checks 64 (frames_sent m) 1;
  bytes ← add_w checks 64 (bytes_transmitted m) frame_size;
  Ok {| session_id := session_id m; params := params m; state := state m; frames_sent := sent;
        frames_received := frames_received m; bytes_transmitted := bytes;
        last_error := last_error m |}.

(** [record_frame_received] *)
Definition record_frame_received (checks : bool) (m : SessionStateMachine)
    : outcome SessionError SessionStateMachine :=
  received ← add_w checks 64 (frames_received m) 1;
  Ok {| session_id := session_id m; params := params m; state := state m;
        frames_sent := frames_sent m; frames_received := received;
        bytes_transmitted := bytes_transmitted m; last_error := last_error m |}.

(** *** Progress *)

(** [progress]; the product of two [u32] fits a [u64]. *)
Definition progress (m : SessionStateMachine) : spec_float :=
  if decide (payload_size (params m) = 0) then f64_one
  else
    let needed := source_symbols_per_block (params m) * block_count (params m) in
    if decide (needed = 0) then f64_one
    else f64_min (SFdiv 53 1024 (f64_of_u64 (frames_received m)) (f64_of_u64 needed)) f64_one.

(** *** Sequences of calls *)

Inductive op :=
| OpStartSending
| OpStartReceiving
| OpEnterRecovery
| OpComplete
| OpError (reason : message)
| OpPause
| OpFrameSent (frame_size : Z)
| OpFrameReceived.

(** One method call. *)
Definition call (checks : bool) (o : op) (m : SessionStateMachine)
    : outcome SessionError SessionStateMachine :=
  match o with
  | OpStartSending => start_sending m
  | OpStartReceiving => start_receiving m
  | OpEnterRecovery => enter_recovery m
  | OpComplete => complete m
  | OpError reason => Ok (error reason m)
  | OpPause => pause m
  | OpFrameSent frame_size => record_frame_sent checks frame_size m
  | OpFrameReceived => record_frame_received checks m
  end.

(** A sequence of calls, each leaving the machine as it was if it fails. *)
Fixpoint calls (checks : bool) (os : list op) (m : SessionStateMachine)
    : outcome SessionError SessionStateMachine :=
  match os with
  | [] => Ok m
  | o :: os' =>
    match call checks o m with
    | Ok m' => calls checks os' m'
    | Err _ => calls checks os' m
    | Panic => Panic
    end
  end.

(** What a call reports: frames and bytes sent, frames received, a reason. *)
Definition frames_of (o : op) : Z := match o with OpFrameSent _ => 1 | _ => 0 end.
Definition bytes_of (o : op) : Z := match o with OpFrameSent n => n | _ => 0 end.
Definition received_of (o : op) : Z := match o with OpFrameReceived => 1 | _ => 0 end.
Definition reason_of (o : op) : option message :=
  match o with OpError reason => Some reason | _ => None end.

Definition reasons (os : list op) : list message := omap reason_of os.

(** One of the counters has outgrown 64 bits. *)
Definition overflows (sent bytes received : Z) : Prop :=
  2 ^ 64 <= sent \/ 2 ^ 64 <= bytes \/ 2 ^ 64 <= received.

(** The states the life of a session can go through: the error state from
    anywhere; every state from the first; and no way back to receiving, out of
    recovery to a transfer, or out of the two last states but into an error. *)
Definition may_reach (s s' : SessionState) : bool :=
  match s, s' with
  | _, Error | Initializing, _ => true
  | (Sending | Paused), (Sending | Paused | Recovering | Complete) => true
  | Receiving, (Receiving | Sending | Paused | Recovering | Complete) => true
  | Recovering, (Recovering | Complete) => true
  | Complete, Complete => true
  | _, _ => false
  end.

(** Calls that lead from one state to another. *)
Definition path (s s' : SessionState) : list op :=
  if decide (s = s') then []
  else
    let start := match s with Initializing | Paused => [OpStartSending] | _ => [] end in
    match s' with
    | Initializing => []
    | Sending => match s with Receiving => [OpPause; OpStartSending] | _ => [OpStartSending] end
    | Receiving => [OpStartReceiving]
    | Recovering => start ++ [OpEnterRecovery]
    | Complete => start ++ [OpComplete]
    | Paused => start ++ [OpPause]
    | Error => [OpError []]
    end.

(** ** Lemmas *)

Lemma add_w_cases {E} checks a b :
  0 <= a + b ->
  match @add_w E checks 64 a b with
  | Ok c => c = (a + b) mod 2 ^ 64 /\ (checks = true -> a + b < 2 ^ 64)
  | Err _ => False
  | Panic => checks = true /\ 2 ^ 64 <= a + b
  end.
Proof.
  intros Hn. unfold add_w. destruct (decide (a + b < 2 ^ 64)) as [Hlt|Hge].
  - split; [|done]. symmetry. by apply Z.mod_small.
  - destruct checks; [split; [done|lia]|done].
Qed.

(** The effect of one call. *)
Definition call_effect (checks : bool) (o : op) (m m' : SessionStateMachine) : Prop :=
  session_id m' = session_id m /\ params m' = params m
  /\ last_error m' = (match reason_of o with Some r => Some r | None => last_error m end)
  /\ (state m' = Error <-> reason_of o <> None \/ state m = Error)
  /\ may_reach (state m) (state m') = true
  /\ frames_sent m' = (frames_sent m + frames_of o) mod 2 ^ 64
  /\ bytes_transmitted m' = (bytes_transmitted m + bytes_of o) mod 2 ^ 64
  /\ frames_received m' = (frames_received m + received_of o) mod 2 ^ 64
  /\ (checks = true -> ~ overflows (frames_sent m + frames_of o)
       (bytes_transmitted m + bytes_of o) (frames_received m + received_of o)).

(** The counters are 64-bit integers. *)
Definition counters_ok (m : SessionStateMachine) : Prop :=
  urange 64 (frames_sent m) /\ urange 64 (bytes_transmitted m) /\ urange 64 (frames_received m).

Lemma may_reach_refl s : may_reach s s = true.
Proof. by destruct s. Qed.

Lemma may_reach_trans s1 s2 s3 :
  may_reach s1 s2 = true -> may_reach s2 s3 = true -> may_reach s1 s3 = true.
Proof. by destruct s1, s2, s3. Qed.

(** A method that does not count moves the state or is refused. *)
Lemma moved_effect checks o m s :
  counters_ok m -> frames_of o = 0 -> bytes_of o = 0 -> received_of o = 0 -> reason_of o = None ->
  state m <> Error -> s <> Error -> may_reach (state m) s = true ->
  call_effect checks o m (set_state s m).
Proof.
  intros (Hs & Hb & Hr) F B R E Hm He Hreach. unfold call_effect, overflows, urange in *.
  rewrite F, B, R, E, !Z.add_0_r, !Z.mod_small by lia. cbn. split_and!; try done; [tauto|lia].
Qed.

Lemma call_cases checks o m :
  counters_ok m -> 0 <= bytes_of o ->
  match call checks o m with
  | Ok m' => call_effect checks o m m'
  | Err _ => frames_of o = 0 /\ bytes_of o = 0 /\ received_of o = 0 /\ reason_of o = None
  | Panic => checks = true /\ overflows (frames_sent m + frames_of o)
      (bytes_transmitted m + bytes_of o) (frames_received m + received_of o)
  end.
Proof.
  intros Hc Hn. pose proof Hc as (Hs & Hb & Hr). unfold urange in Hs, Hb, Hr.
  destruct o; cbn -[Z.pow call_effect];
    unfold start_sending, start_receiving, enter_recovery, complete, pause;
    try (destruct (state m) eqn:Hst; try done; apply moved_effect; by rewrite ?Hst).
  - unfold call_effect, overflows. cbn -[Z.pow]. rewrite !Z.add_0_r, !Z.mod_small by lia.
    split_and!; try done; [by split; [left|]|by destruct (state m)|lia].
  - cbn in Hn. unfold record_frame_sent.
    pose proof (add_w_cases (E:=SessionError) checks (frames_sent m) 1 ltac:(lia)) as H1.
    pose proof (add_w_cases (E:=SessionError) checks (bytes_transmitted m) frame_size ltac:(lia)) as H2.
    destruct (add_w checks 64 (frames_sent m) 1) as [fs|e|]; cbn -[Z.pow]; [|done|].
    2: { split; [apply H1|left; apply H1]. }
    destruct (add_w checks 64 (bytes_transmitted m) frame_size) as [bs|e|]; cbn -[Z.pow]; [|done|].
    2: { split; [apply H2|right; left; apply H2]. }
    unfold call_effect, overflows. cbn -[Z.pow]. rewrite Z.add_0_r, (Z.mod_small (frames_received m)) by lia.
    destruct H1 as [-> H1], H2 as [-> H2]. split_and!; try done; [tauto|apply may_reach_refl|].
    intros Hck. specialize (H1 Hck). specialize (H2 Hck). lia.
  - unfold record_frame_received.
    pose proof (add_w_cases (E:=SessionError) checks (frames_received m) 1 ltac:(lia)) as H1.
    destruct (add_w checks 64 (frames_received m) 1) as [fr|e|]; cbn -[Z.pow]; [|done|].
    2: { split; [apply H1|right; right; apply H1]. }
    unfold call_effect, overflows. cbn -[Z.pow].
    rewrite !Z.add_0_r, (Z.mod_small (frames_sent m)), (Z.mod_small (bytes_transmitted m)) by lia.
    destruct H1 as [-> H1]. split_and!; try done; [tauto|apply may_reach_refl|].
    intros Hck. specialize (H1 Hck). lia.
Qed.

Lemma effect_counters checks o m m' : call_effect checks o m m' -> counters_ok m'.
Proof.
  intros (_ & _ & _ & _ & _ & Hs & Hb & Hr & _). unfold counters_ok, urange.
  rewrite Hs, Hb, Hr. cbn -[Z.pow]. split_and!; apply Z.mod_pos_bound; lia.
Qed.

(** The reports of a sequence, added up. *)
Abbreviation total f os := (zsum (f <$> os)).

Lemma total_cons f (o : op) os : total f (o :: os) = f o + total f os.
Proof. done. Qed.

Lemma total_nonneg os :
  Forall (fun o => 0 <= bytes_of o) os ->
  0 <= total frames_of os /\ 0 <= total bytes_of os /\ 0 <= total received_of os.
Proof.
  intros Hb. split_and!; apply zsum_nonneg, Forall_fmap; [|exact Hb|];
    apply Forall_true; by intros [].
Qed.

Lemma last_reasons (o : op) os (le : option message) :
  match last (reasons (o :: os)) with Some r => Some r | None => le end
  = match last (reasons os) with
    | Some r => Some r
    | None => match reason_of o with Some r => Some r | None => le end
    end.
Proof.
  unfold reasons. cbn. destruct (reason_of o) as [r|]; [|done]. rewrite last_cons.
  by destruct (last _).
Qed.

(** The effect of a sequence of calls. *)
Lemma calls_cases checks os m :
  Forall (fun o => 0 <= bytes_of o) os -> counters_ok m ->
  match calls checks os m with
  | Ok m' =>
    session_id m' = session_id m /\ params m' = params m
    /\ last_error m' = (match last (reasons os) with Some r => Some r | None => last_error m end)
    /\ (state m' = Error <-> reasons os <> [] \/ state m = Error)
    /\ may_reach (state m) (state m') = true
    /\ frames_sent m' = (frames_sent m + total frames_of os) mod 2 ^ 64
    /\ bytes_transmitted m' = (bytes_transmitted m + total bytes_of os) mod 2 ^ 64
    /\ frames_received m' = (frames_received m + total received_of os) mod 2 ^ 64
    /\ (checks = true -> ~ overflows (frames_sent m + total frames_of os)
         (bytes_transmitted m + total bytes_of os) (frames_received m + total received_of os))
  | Err _ => False
  | Panic => checks = true /\ overflows (frames_sent m + total frames_of os)
      (bytes_transmitted m + total bytes_of os) (frames_received m + total received_of os)
  end.
Proof.
  intros Hb. revert m. induction Hb as [|o os Ho Hos IH]; intros m Hc.
  { pose proof Hc as (Hs & Hb & Hr). unfold urange in *. cbn -[Z.pow].
    unfold overflows. rewrite !Z.add_0_r, !Z.mod_small by lia. cbn -[Z.pow].
    split_and!; try done; [tauto|apply may_reach_refl|lia]. }
  pose proof (call_cases checks o m Hc Ho) as Hcall. destruct (total_nonneg os Hos) as (N1 & N2 & N3).
  cbn [calls]. rewrite !total_cons.
  assert (Hre : reasons (o :: os) <> [] <-> reason_of o <> None \/ reasons os <> []).
  { unfold reasons. cbn. destruct (reason_of o); split;
      [by left|done|by right|by intros [?|?]]. }
  destruct (call checks o m) as [m1|e|].
  - pose proof (effect_counters _ _ _ _ Hcall) as Hc1. specialize (IH m1 Hc1).
    destruct Hcall as (E1 & E2 & E3 & E4 & E5 & E6 & E7 & E8 & E9).
    unfold overflows in *.
    assert (Hexact : checks = true -> frames_sent m1 = frames_sent m + frames_of o
      /\ bytes_transmitted m1 = bytes_transmitted m + bytes_of o
      /\ frames_received m1 = frames_received m + received_of o).
    { intros Hck. specialize (E9 Hck). destruct Hc as (C1 & C2 & C3). unfold urange in *.
      rewrite E6, E7, E8, !Z.mod_small; [done|..]; destruct o; cbn -[Z.pow] in *; lia. }
    destruct (calls checks os m1) as [m'|e|]; [|done|].
    + destruct IH as (I1 & I2 & I3 & I4 & I5 & I6 & I7 & I8 & I9).
      rewrite E6 in I6. rewrite E7 in I7. rewrite E8 in I8.
      rewrite Zplus_mod_idemp_l, <- Z.add_assoc in I6, I7, I8.
      split_and!; [congruence|congruence| | |by eapply may_reach_trans|done..|].
      * by rewrite last_reasons, I3, E3.
      * rewrite I4, E4, Hre. tauto.
      * intros Hck. destruct (Hexact Hck) as (X1 & X2 & X3). specialize (I9 Hck). lia.
    + destruct IH as [Hck Hov]. destruct (Hexact Hck) as (X1 & X2 & X3). split; [done|]. lia.
  - destruct Hcall as (F & B & R & N). specialize (IH m Hc). rewrite F, B, R, !Z.add_0_l.
    destruct (calls checks os m) as [m'|e'|]; [|done|done].
    destruct IH as (I1 & I2 & I3 & I4 & I). split; [done|]. split; [done|]. split; [|split; [|done]].
    + by rewrite last_reasons, N.
    + rewrite I4, Hre, N. tauto.
  - destruct Hcall as [Hck Hov]. split; [done|]. unfold overflows in *. lia.
Qed.

Lemma new_counters sid p : counters_ok (SessionStateMachine_new sid p).
Proof. by split_and!. Qed.

(** The calls of a path are not refused. *)
Lemma path_leads checks m s :
  may_reach (state m) s = true -> exists m', calls checks (path (state m) s) m = Ok m' /\ state m' = s.
Proof.
  destruct m as [sid p st fs fr bt le]. cbn. intros Hr.
  destruct st, s; try discriminate Hr; cbn; by eexists.
Qed.

(** ** Properties *)

(** C37: the life of a session, as any sequence of calls makes it, each refused
    call leaving the machine as it was. The identifier and the parameters never
    change; the machine is in the error state exactly when an error was
    reported, with the last reason; the counters count the frames and bytes
    reported, modulo 2^64 in a build without overflow checks; in a build with
    them a call panics exactly when a counter outgrows 64 bits, and nothing
    else ever panics. From there further calls lead to exactly the states of
    [may_reach]: a recovering session never transfers again, a paused one never
    receives again, a complete one can only fail, a failed one stays failed. *)
Theorem session_lifecycle checks sid p os :
  Forall (fun o => 0 <= bytes_of o) os ->
  let sent := zsum (frames_of <$> os) in
  let bytes := zsum (bytes_of <$> os) in
  let received := zsum (received_of <$> os) in
  match calls checks os (SessionStateMachine_new sid p) with
  | Ok m =>
    session_id m = sid /\ params m = p
    /\ last_error m = last (reasons os) /\ (state m = Error <-> last_error m <> None)
    /\ frames_sent m = sent mod 2 ^ 64 /\ bytes_transmitted m = bytes mod 2 ^ 64
    /\ frames_received m = received mod 2 ^ 64
    /\ (checks = true -> ~ overflows sent bytes received)
    /\ (forall os' m', Forall (fun o => 0 <= bytes_of o) os' -> calls checks os' m = Ok m' ->
          may_reach (state m) (state m') = true)
    /\ (forall s, may_reach (state m) s = true ->
          exists os' m', calls checks os' m = Ok m' /\ state m' = s)
  | Err _ => False
  | Panic => checks = true /\ overflows sent bytes received
  end.
Proof.
  intros Hb. cbv zeta. pose proof (calls_cases checks os _ Hb (new_counters sid p)) as Hc.
  destruct (calls checks os _) as [m|e|]; cbn -[Z.pow] in Hc; [|done|exact Hc].
  destruct Hc as (I1 & I2 & I3 & I4 & _ & I6 & I7 & I8 & I9).
  assert (Hle : last_error m = last (reasons os)) by (rewrite I3; by destruct (last _)).
  split_and!; try done.
  - rewrite Hle, I4. destruct (reasons os) as [|r rs] using rev_ind; [cbn; intuition discriminate|].
    rewrite last_snoc. split; [done|]. intros _. left. by destruct rs.
  - intros os' m' Hb' Hm'.
    assert (Hcm : counters_ok m).
    { unfold counters_ok, urange. rewrite I6, I7, I8. cbn -[Z.pow].
      split_and!; apply Z.mod_pos_bound; lia. }
    pose proof (calls_cases checks os' m Hb' Hcm) as Hc. rewrite Hm' in Hc. apply Hc.
  - intros s Hs. destruct (path_leads checks m s Hs) as (m' & Hm' & Hst). by exists (path (state m) s), m'.
Qed.

Lemma session_lifecycle_witness :
  exists m, calls true [OpStartSending; OpFrameSent 300; OpStartSending; OpFrameSent 200; OpPause]
      (SessionStateMachine_new (zeros 16) demo_params) = Ok m
    /\ frames_sent m = 2 /\ bytes_transmitted m = 500 /\ frames_received m = 0
    /\ forall os' m', Forall (fun o => 0 <= bytes_of o) os' -> calls true os' m = Ok m' ->
       state m' <> Receiving.
Proof.
  pose proof (session_lifecycle true (zeros 16) demo_params
    [OpStartSending; OpFrameSent 300; OpStartSending; OpFrameSent 200; OpPause]) as Hl.
  eexists. split; [reflexivity|].
  destruct Hl as (_ & _ & _ & _ & Hs & Hb & Hr & _ & Hreach & _).
  - repeat constructor; vm_compute; discriminate.
  - split; [exact Hs|]. split; [exact Hb|]. split; [exact Hr|]. intros os' m' Hos Hm' Hrec.
    pose proof (Hreach os' m' Hos Hm') as Hm. rewrite Hrec in Hm. discriminate Hm.
Defined.

(** C38: the progress estimate, rounded as binary64 arithmetic rounds it, is
    never a NaN, never negative and never above one. *)
Theorem session_progress_bounds m :
  0 <= frames_received m -> 0 <= source_symbols_per_block (params m) ->
  0 <= block_count (params m) ->
  sign (progress m) = false
  /\ (SFcompare (progress m) f64_one = Some Lt \/ SFcompare (progress m) f64_one = Some Eq).
Proof.
  intros Hf Hs Hb. unfold progress. do 2 (case_decide; [by vm_compute; auto|]).
  split; [|apply min_one]. apply sign_min; [|done]. apply sign_div; apply sign_f64; nia.
Qed.

Lemma session_progress_bounds_witness :
  sign (progress (SessionStateMachine_new (zeros 16) demo_params)) = false
  /\ (SFcompare (progress (SessionStateMachine_new (zeros 16) demo_params)) f64_one = Some Lt
      \/ SFcompare (progress (SessionStateMachine_new (zeros 16) demo_params)) f64_one = Some Eq).
Proof. apply session_progress_bounds; vm_compute; discriminate. Defined.
