(* ===== verification/Fec.v ===== *)
(** * Forward error correction (dhow-codec/src/fec.rs)

    The wrappers around the [raptorq] encoder and decoder. *)

From S2P Require Import Prelude Errors F64 Primitives Instances.
From Stdlib Require Import Floats.SpecFloat.

#[local] Open Scope Z_scope.

(** ** Definitions *)

Definition DEFAULT_MTU : Z := 1024.

Record FecParams := { mtu : Z }.

(** [FecParams::new], [with_mtu] and [try_with_mtu] *)
Definition FecParams_new : FecParams := {| mtu := DEFAULT_MTU |}.

Definition with_mtu {E} (mtu : Z) : outcome E FecParams :=
  if decide (64 <= mtu) then Ok {| mtu := mtu |} else Panic.

Definition try_with_mtu (mtu : Z) : outcome FecError FecParams :=
  if decide (mtu < 64) then Err (FecErr.MtuTooSmall mtu 64) else Ok {| mtu := mtu |}.

Section fec.
Context `{RaptorQ}.

Record EncoderWrapper := {
  params : FecParams;
  inner : rq_encoder;
}.

(** [encode] *)
Definition encode {E} (data : list byte) (params : FecParams) : outcome E EncoderWrapper :=
  encoder ← or_panic (rq_encoder_with_defaults data (mtu params));
  Ok {| inner := encoder; params := params |}.

(** [EncoderWrapper::config], [packets], [source_packets] *)
Definition config (w : EncoderWrapper) : rq_config := rq_get_config (inner w).

Definition packets {E} (w : EncoderWrapper) (repair_packets_per_block : Z)
    : outcome E (list rq_packet) :=
  or_panic (rq_get_encoded_packets (inner w) repair_packets_per_block).

Definition source_packets {E} (w : EncoderWrapper) : outcome E (list rq_packet) :=
  or_panic (rq_get_encoded_packets (inner w) 0).

(** [EncoderWrapper::repair_packets] *)
Definition repair_packets {E} (w : EncoderWrapper) (count : Z) : outcome E (list rq_packet) :=
  all ← or_panic (rq_get_encoded_packets (inner w) count);
  let repair_start := (length all - Z.to_nat count)%nat in
  Ok (drop repair_start all).

(** [EncoderWrapper::repair_packets_for_loss_rate] *)
Definition repair_packets_for_loss_rate {E} (w : EncoderWrapper) (loss_rate : spec_float)
    : outcome E (list rq_packet) :=
  source ← source_packets w;
  let source_count := f64_of_u64 (len source) in
  let repair_count := ceil_as_u32 (SFmul 53 1024 source_count loss_rate) in
  repair_packets w repair_count.

Record FecDecoder := { decoder : rq_decoder }.

(** [FecDecoder::new], [add_packet] and [decode] *)
Definition FecDecoder_new {E} (config : rq_config) : outcome E FecDecoder :=
  inner ← or_panic (rq_decoder_new config); Ok {| decoder := inner |}.

Definition add_packet {E} (d : FecDecoder) (packet : rq_packet) : outcome E FecDecoder :=
  match rq_add_new_packet (decoder d) packet with
  | Some inner => Ok {| decoder := inner |}
  | None => Panic
  end.

Definition FecDecoder_decode (d : FecDecoder) : option (list byte) := rq_get_result (decoder d).

(** The loop of [decode]: every packet goes to the decoder, in order. *)
Fixpoint add_packets {E} (d : rq_decoder) (ps : list rq_packet) : outcome E rq_decoder :=
  match ps with
  | [] => Ok d
  | p :: ps' =>
    match rq_add_new_packet d p with
    | Some d' => add_packets d' ps'
    | None => Panic
    end
  end.

(** [decode] *)
Definition decode {E} (ps : list rq_packet) (config : rq_config) : outcome E (option (list byte)) :=
  d ← or_panic (rq_decoder_new config); d ← add_packets d ps; Ok (rq_get_result d).

End fec.

(** ** Lemmas *)

Lemma add_packets_feed `{RaptorQ} {E} d ps :
  @add_packets _ E d ps = match rq_feed d ps with Some d' => Ok d' | None => Panic end.
Proof.
  revert d. induction ps as [|p ps IH]; intros d; [done|].
  change (p :: ps) with ([p] ++ ps) at 2. rewrite rq_feed_app. cbn.
  by destruct (rq_add_new_packet d p).
Qed.

Lemma add_packet_seq `{RaptorQ} {E} ps d :
  foldl (fun acc p => d ← acc; add_packet d p) (Ok d) ps
  = inner ← @add_packets _ E (decoder d) ps; Ok {| decoder := inner |}.
Proof.
  rewrite add_packets_feed.
  revert d. induction ps as [|p ps IH] using rev_ind; intros d; [by destruct d|].
  rewrite foldl_app, IH, rq_feed_snoc. destruct (rq_feed (decoder d) ps) as [d'|]; [|done].
  cbn. unfold add_packet. cbn. by destruct (rq_add_new_packet d' p).
Qed.

(** ** Properties *)

(** feeding the stateful decoder packet by packet and asking it once is
    decoding the packets in one call, panics included. *)
Theorem fec_incremental `{RaptorQ} {E} config ps :
  (d0 ← FecDecoder_new config; d ← foldl (fun acc p => d ← acc; add_packet d p) (Ok d0) ps;
   Ok (FecDecoder_decode d))
  = @decode _ E ps config.
Proof.
  unfold decode, FecDecoder_new. destruct (rq_decoder_new config) as [d0|]; [|done]. cbn.
  rewrite add_packet_seq. cbn. by destruct (add_packets _ ps).
Qed.

(** [repair_packets] cuts [count] packets from the end of the stream. When
    the stream is, block after block, the source packets of a block and then
    [count] repair packets of it, it returns the repair packets of the last
    block and of no other: all of them for one block only. *)
Theorem fec_repair_packets `{RaptorQ} {E B} w count (src rep : B -> list rq_packet) blocks b :
  0 <= count ->
  rq_get_encoded_packets (inner w) count
  = Some (concat ((fun b => src b ++ rep b) <$> blocks ++ [b])) ->
  len (rep b) = count ->
  @repair_packets _ E w count = Ok (rep b).
Proof.
  intros Hc Hall Hb. unfold repair_packets. rewrite Hall. cbn [or_panic mbind outcome_bind].
  rewrite fmap_app, concat_app. cbn. rewrite app_nil_r, app_assoc. do 2 f_equal.
  unfold len in Hb. apply drop_app_length'. rewrite length_app. lia.
Qed.

Lemma fec_repair_packets_witness :
  let p := toy_mk_packet [Byte.x01; Byte.x02; Byte.x03] (Z.to_nat 1024) 0 in
  exists w, @encode _ FecError [Byte.x01; Byte.x02; Byte.x03] FecParams_new = Ok w
    /\ @packets _ FecError w 1 = Ok [p; p] /\ @repair_packets _ FecError w 1 = Ok [p].
Proof.
  set (p := toy_mk_packet [Byte.x01; Byte.x02; Byte.x03] (Z.to_nat 1024) 0). cbv zeta.
  eexists. split; [reflexivity|]. split; [reflexivity|].
  apply (fec_repair_packets (H:=toy_raptorq) _ 1 (fun _ : unit => [p]) (fun _ => [p]) [] tt); [discriminate| |];
    reflexivity.
Defined.
