(* ===== verification/Qr.v ===== *)
(** * QR encoding of wire frames (dhow-codec/src/qr.rs)

    The capacity search over the external encoder, the frame-size helpers, and
    the module grid. *)

From S2P Require Import Prelude Frame Primitives Instances.

(** ** Definitions *)

(** [Ecc] *)
Inductive Ecc := Low | Medium | Quartile | High.

#[export] Instance Ecc_dec : EqDecision Ecc.
Proof. solve_decision. Defined.

Inductive QrError :=
| DataTooLong (length version : Z) (ecc : Ecc)
| InvalidVersion (version : Z).

Definition to_qrcodegen (ecc : Ecc) : QrCodeEcc :=
  match ecc with
  | Low => QLow
  | Medium => QMedium
  | Quartile => QQuartile
  | High => QHigh
  end.

(** [char::to_ascii_uppercase], on code points *)
Definition to_ascii_uppercase (c : Z) : Z := if decide (97 <= c <= 122) then c - 32 else c.

(** [Ecc::from_letter] and [Ecc::letter]: L, M, Q and H *)
Definition from_letter (c : Z) : option Ecc :=
  match to_ascii_uppercase c with
  | 76 => Some Low
  | 77 => Some Medium
  | 81 => Some Quartile
  | 72 => Some High
  | _ => None
  end.

Definition letter (ecc : Ecc) : Z :=
  match ecc with
  | Low => 76
  | Medium => 77
  | Quartile => 81
  | High => 72
  end.

Definition newline : Ascii.ascii := Ascii.Ascii false true false true false false false false.

Definition MIN_VERSION : Z := 1.
Definition MAX_VERSION : Z := 40.

Definition FRAME_OVERHEAD : Z := Z.of_nat FRAME_HEADER_SIZE + 4.

Section qr.
Context `{Qrcodegen}.

(** [fits] *)
Definition fits (len version : Z) (ecc : Ecc) : bool :=
  let data := zeros (Z.to_nat len) in
  bool_decide (is_Some (qr_encode_segments data (to_qrcodegen ecc) version)).

(** The [while] loop of [capacity], with fuel; [None] when the fuel runs out. *)
Fixpoint capacity_loop (fuel : nat) (version : Z) (ecc : Ecc) (low high : Z) : option Z :=
  match fuel with
  | O => None
  | S fuel' =>
    if decide (low < high)
    then
      let mid := low + div_ceil (high - low) 2 in
      if fits mid version ecc
      then capacity_loop fuel' version ecc mid high
      else capacity_loop fuel' version ecc low (mid - 1)
    else Some low
  end.

(** Enough iterations for the interval [0, 4096]. *)
Definition capacity_fuel : nat := 14.

(** [capacity]; a loop that outran its fuel would panic here. *)
Definition capacity (version : Z) (ecc : Ecc) : outcome QrError Z :=
  if decide (MIN_VERSION <= version <= MAX_VERSION)
  then
    match capacity_loop capacity_fuel version ecc 0 4096 with
    | Some low => Ok low
    | None => Panic
    end
  else Err (InvalidVersion version).

(** [max_symbol_size] *)
Definition max_symbol_size (version : Z) (ecc : Ecc) : outcome QrError (option Z) :=
  cap ← capacity version ecc;
  if decide (cap <= FRAME_OVERHEAD) then Ok None
  else Ok (Some (as_u 32 (cap - FRAME_OVERHEAD))).

(** [smallest_version_for] *)
Definition smallest_version_for (length : Z) (ecc : Ecc) : option Z :=
  find (fun v => match capacity v ecc with Ok c => bool_decide (length <= c) | _ => false end)
    (Z.of_nat <$> seq 1 40).

Record QrCodeEncoder := {
  inner : qr_code;
  ecc : Ecc;
}.

(** [QrCodeEncoder::encode_with] and [encode] *)
Definition encode_with (data : list byte) (ecc : Ecc) : outcome QrError QrCodeEncoder :=
  match qr_encode_binary data (to_qrcodegen ecc) with
  | Some inner => Ok {| inner := inner; ecc := ecc |}
  | None => Err (DataTooLong (len data) MAX_VERSION ecc)
  end.

Definition encode (data : list byte) : outcome QrError QrCodeEncoder := encode_with data Medium.

(** [QrCodeEncoder::encode_at] *)
Definition encode_at (data : list byte) (version : Z) (ecc : Ecc)
    : outcome QrError QrCodeEncoder :=
  if decide (MIN_VERSION <= version <= MAX_VERSION)
  then
    cap ← capacity version ecc;
    if decide (cap < len data) then Err (DataTooLong (len data) version ecc)
    else
      match qr_encode_segments data (to_qrcodegen ecc) version with
      | Some inner => Ok {| inner := inner; ecc := ecc |}
      | None => Err (DataTooLong (len data) version ecc)
      end
  else Err (InvalidVersion version).

(** [version], [size] and [get_module] *)
Definition version (q : QrCodeEncoder) : Z := qr_code_version (inner q).
Definition size (q : QrCodeEncoder) : Z := qr_code_size (inner q).
Definition as_i32 (z : Z) : Z :=
  let m := z mod 2 ^ 32 in if decide (m < 2 ^ 31) then m else m - 2 ^ 32.
Definition get_module (q : QrCodeEncoder) (x y : Z) : bool :=
  qr_code_module (inner q) (as_i32 x) (as_i32 y).

(** [to_modules] *)
Definition to_modules (q : QrCodeEncoder) : list byte :=
  let size := Z.to_nat (size q) in
  concat ((fun y =>
    (fun x => byte.of_Z (Z.b2z (get_module q (Z.of_nat x) (Z.of_nat y)))) <$> seq 0 size)
    <$> seq 0 size).

(** [to_terminal] *)
Definition to_terminal (q : QrCodeEncoder) : string :=
  let size := Z.to_nat (size q) in
  String.concat "" ((fun y =>
    String.append
      (String.concat "" ((fun x =>
        if get_module q (Z.of_nat x) (Z.of_nat y) then "██" else "  ") <$> seq 0 size))
      (String newline EmptyString)) <$> seq 0 size).

End qr.

(** An example symbol, for concrete runs. *)
Definition demo_code : @qr_code toy_qrcodegen := ([Byte.x01], 1).

Definition demo_encoder : QrCodeEncoder := {| inner := demo_code; ecc := Low |}.

(** ** Lemmas *)

Section search.
Context `{QrcodegenLaws}.

Lemma fits_iff data version ecc :
  fits (len data) version ecc = true
  <-> is_Some (qr_encode_segments data (to_qrcodegen ecc) version).
Proof.
  unfold fits, len. rewrite bool_decide_eq_true, Nat2Z.id.
  apply qr_length_only. apply length_zeros.
Qed.

Lemma fits_zeros n version ecc :
  0 <= n -> fits n version ecc = fits (len (zeros (Z.to_nat n))) version ecc.
Proof. intros. unfold len. by rewrite length_zeros, Z2Nat.id. Qed.

(** The encoder accepts exactly the lengths up to some bound. *)
Lemma fits_monotone m n version ecc :
  1 <= version <= 40 -> 0 <= m <= n -> fits n version ecc = true -> fits m version ecc = true.
Proof.
  intros Hv Hmn. rewrite (fits_zeros m), (fits_zeros n), !fits_iff by lia.
  apply qr_monotone; [|done]. rewrite !length_zeros. lia.
Qed.

Lemma fits_empty version ecc : 1 <= version <= 40 -> fits 0 version ecc = true.
Proof. intros. unfold fits. rewrite bool_decide_eq_true. by apply qr_empty. Qed.

Lemma fits_bound n version ecc : 1 <= version <= 40 -> 4096 < n -> fits n version ecc = false.
Proof.
  intros Hv Hn. unfold fits. rewrite bool_decide_eq_false, qr_largest; [by intros []|done|].
  unfold len. rewrite length_zeros. lia.
Qed.

(** The loop invariant: the interval always holds the bound, and [fuel]
    halvings empty an interval shorter than [2 ^ (fuel - 1)]. *)
Lemma capacity_loop_spec fuel version ecc low high :
  1 <= version <= 40 -> 0 <= low <= high -> high - low < 2 ^ (Z.of_nat fuel - 1) ->
  fits low version ecc = true -> (forall n, high < n -> fits n version ecc = false) ->
  exists c, capacity_loop fuel version ecc low high = Some c /\ low <= c <= high
    /\ forall n, 0 <= n -> (fits n version ecc = true <-> n <= c).
Proof.
  intros Hv. revert low high. induction fuel as [|fuel IH]; intros low high Hlh Hgap Hlow Hhigh.
  { exfalso. cbn in Hgap. lia. }
  cbn [capacity_loop]. destruct (decide (low < high)) as [Hlt|Hge].
  - assert (Hf : (0 < fuel)%nat) by (destruct fuel; [cbn in Hgap; lia|lia]).
    assert (Hpow : 2 ^ (Z.of_nat (S fuel) - 1) = 2 * 2 ^ (Z.of_nat fuel - 1)).
    { rewrite <- Z.pow_succ_r by lia. f_equal. lia. }
    pose proof (div_ceil_mul (high - low) 2 ltac:(lia) ltac:(lia)) as Hmid. cbn zeta.
    destruct (fits (low + div_ceil (high - low) 2) version ecc) eqn:Hfit.
    + destruct (IH (low + div_ceil (high - low) 2) high) as (c & -> & Hc & Hspec);
        [lia|lia|done|done|]. exists c. split; [done|]. split; [lia|done].
    + destruct (IH low (low + div_ceil (high - low) 2 - 1)) as (c & -> & Hc & Hspec);
        [lia|lia|done| |].
      { intros n Hn. apply not_true_is_false. intros Hn'.
        rewrite (fits_monotone (low + div_ceil (high - low) 2) n) in Hfit by (done || lia). done. }
      exists c. split; [done|]. split; [lia|done].
  - exists low. split; [done|]. split; [lia|]. intros n Hn. split.
    + intros Hfit. destruct (decide (n <= low)); [done|]. by rewrite Hhigh in Hfit by lia.
    + intros Hle. by apply (fits_monotone n low).
Qed.

Lemma capacity_spec version ecc :
  1 <= version <= 40 ->
  exists c, capacity version ecc = Ok c /\ 0 <= c <= 4096
    /\ forall n, 0 <= n -> (fits n version ecc = true <-> n <= c).
Proof.
  intros Hv. unfold capacity, MIN_VERSION, MAX_VERSION. rewrite decide_True by done.
  destruct (capacity_loop_spec capacity_fuel version ecc 0 4096) as (c & -> & Hc & Hs);
    [done|lia|by vm_compute|by apply fits_empty|by intros; apply fits_bound|eauto].
Qed.

Lemma encode_at_spec (data : list byte) version ecc c :
  1 <= version <= 40 -> capacity version ecc = Ok c ->
  (len data <= c /\ (exists q, encode_at data version ecc = Ok q))
  \/ (c < len data /\ encode_at data version ecc = Err (DataTooLong (len data) version ecc)).
Proof.
  intros Hv Hc. destruct (capacity_spec version ecc Hv) as (c' & Hc' & _ & Hs).
  rewrite Hc in Hc'. injection Hc' as <-. unfold encode_at. rewrite decide_True by done.
  rewrite Hc. cbn. specialize (Hs (len data) (len_nonneg _)). rewrite fits_iff in Hs.
  case_decide as Hd; [by right|left]. split; [lia|].
  destruct Hs as [_ [q ->]]; [lia|]. by eexists.
Qed.

(** Encoding never panics. *)
Lemma encode_at_safe (data : list byte) version ecc : safe (encode_at data version ecc).
Proof.
  unfold safe. destruct (decide (MIN_VERSION <= version <= MAX_VERSION)) as [Hv|Hv].
  - destruct (capacity_spec version ecc Hv) as (c & Hc & _).
    destruct (encode_at_spec data version ecc c Hv Hc) as [[_ [q ->]]|[_ ->]]; done.
  - unfold encode_at. by rewrite decide_False.
Qed.

Lemma encode_with_safe (data : list byte) ecc : safe (encode_with data ecc).
Proof. unfold encode_with. by case_match. Qed.

End search.

Lemma concat_rows_lookup {A} (f : nat -> nat -> A) s n k x y :
  (x < n)%nat -> (y < k)%nat ->
  concat ((fun y => f y <$> seq 0 n) <$> seq s k) !! (y * n + x)%nat = Some (f (s + y)%nat x).
Proof.
  intros Hx. revert s y. induction k as [|k IH]; intros s y Hy; [lia|].
  cbn [seq fmap list_fmap concat]. destruct y as [|y].
  - rewrite lookup_app_l by (by rewrite length_fmap, length_seq).
    rewrite list_lookup_fmap, lookup_seq_lt by lia. cbn. do 2 f_equal. lia.
  - rewrite lookup_app_r by (rewrite length_fmap, length_seq; lia).
    rewrite length_fmap, length_seq. replace (S y * n + x - n)%nat with (y * n + x)%nat by lia.
    rewrite IH by lia. do 2 f_equal. lia.
Qed.

Lemma length_concat_rows {A} (f : nat -> nat -> A) s n k :
  length (concat ((fun y => f y <$> seq 0 n) <$> seq s k)) = (k * n)%nat.
Proof.
  revert s. induction k as [|k IH]; intros s; [done|]. cbn [seq fmap list_fmap concat].
  rewrite length_app, IH, length_fmap, length_seq. lia.
Qed.

(** The searches end within their fuel. *)
Lemma capacity_safe `{QrcodegenLaws} version ecc : safe (capacity version ecc).
Proof.
  destruct (decide (MIN_VERSION <= version <= MAX_VERSION)) as [Hv|Hv].
  - destruct (capacity_spec version ecc Hv) as (c & -> & _). done.
  - unfold capacity. by rewrite decide_False.
Qed.

Lemma max_symbol_size_safe `{QrcodegenLaws} version ecc : safe (max_symbol_size version ecc).
Proof. apply safe_bind; [apply capacity_safe|]. intros cap _. by case_decide. Qed.

(** ** Properties *)

(** C39: for every version of the standard the capacity search terminates
    within its fuel, and the capacity it reports is exact: [encode_at] encodes
    a frame at that version and level when it has at most that many bytes, and
    otherwise reports it as too long. *)
Theorem qr_capacity_exact `{QrcodegenLaws} version ecc :
  1 <= version <= 40 ->
  exists c, capacity version ecc = Ok c /\ 0 <= c <= 4096
    /\ forall data,
       (len data <= c /\ (exists q, encode_at data version ecc = Ok q))
       \/ (c < len data /\ encode_at data version ecc = Err (DataTooLong (len data) version ecc)).
Proof.
  intros Hv. destruct (capacity_spec version ecc Hv) as (c & Hc & Hr & _).
  exists c. split; [done|]. split; [done|]. intros data. by apply encode_at_spec.
Qed.

Lemma qr_capacity_exact_witness :
  exists c, capacity 7 Medium = Ok c /\ 0 <= c <= 4096
    /\ forall data,
       (len data <= c /\ (exists q, encode_at data 7 Medium = Ok q))
       \/ (c < len data /\ encode_at data 7 Medium = Err (DataTooLong (len data) 7 Medium)).
Proof. apply qr_capacity_exact. lia. Defined.

(** a symbol size [max_symbol_size] offers is positive, and it is the
    largest for which a frame (46-byte header, four-byte RaptorQ identifier,
    symbol) still encodes at that version and level; when it offers none, not
    even a one-byte symbol fits. *)
Theorem qr_max_symbol_size `{QrcodegenLaws} version ecc r :
  1 <= version <= 40 -> max_symbol_size version ecc = Ok r ->
  match r with
  | Some s => 0 < s /\ forall frame, len frame <= 46 + 4 + s <->
      exists q, encode_at frame version ecc = Ok q
  | None => forall frame, 46 + 4 + 1 <= len frame ->
      encode_at frame version ecc = Err (DataTooLong (len frame) version ecc)
  end.
Proof.
  intros Hv. unfold max_symbol_size.
  destruct (capacity_spec version ecc Hv) as (c & Hc & Hr & _). rewrite Hc. cbn.
  change FRAME_OVERHEAD with 50. case_decide; intros [= <-].
  - intros frame Hlen. destruct (encode_at_spec frame version ecc c Hv Hc) as [[]|[]]; [lia|done].
  - rewrite as_u_id by (unfold urange; lia). split; [lia|]. intros frame.
    destruct (encode_at_spec frame version ecc c Hv Hc) as [[? ?]|[? He]].
    + split; [done|lia].
    + rewrite He. split; [lia|]. by intros [].
Qed.

Lemma qr_max_symbol_size_witness :
  0 < 20 /\ forall frame, len frame <= 46 + 4 + 20 <->
    exists q, encode_at frame 7 Medium = Ok q.
Proof. apply (qr_max_symbol_size 7 Medium (Some 20)); [lia|vm_compute; reflexivity]. Defined.

(** [smallest_version_for] returns the least version whose capacity
    suffices, and none exactly when no version suffices. *)
Theorem qr_smallest_version `{QrcodegenLaws} (length : Z) ecc :
  match smallest_version_for length ecc with
  | Some v => 1 <= v <= 40 /\ (exists c, capacity v ecc = Ok c /\ length <= c)
      /\ forall v' c, 1 <= v' < v -> capacity v' ecc = Ok c -> c < length
  | None => forall v c, 1 <= v <= 40 -> capacity v ecc = Ok c -> c < length
  end.
Proof.
  unfold smallest_version_for. set (ok := fun v => _).
  assert (Hok : forall v c, capacity v ecc = Ok c -> ok v = bool_decide (length <= c))
    by (unfold ok; by intros v c ->).
  assert (Hfind : forall k s, (1 <= s)%nat -> (s + k = 41)%nat ->
    match find ok (Z.of_nat <$> seq s k) with
    | Some v => Z.of_nat s <= v <= 40 /\ ok v = true
        /\ forall v', Z.of_nat s <= v' < v -> ok v' = false
    | None => forall v, Z.of_nat s <= v <= 40 -> ok v = false
    end).
  { induction k as [|k IH]; intros s Hs Hk; cbn; [lia|]. destruct (ok (Z.of_nat s)) eqn:Hv.
    { split; [lia|]. split; [done|lia]. }
    specialize (IH (S s) ltac:(lia) ltac:(lia)). change (seq (S s) k) with (seq (S s) k) in IH.
    assert (Hle : forall v, Z.of_nat s <= v -> v = Z.of_nat s \/ Z.of_nat (S s) <= v) by lia.
    destruct (find ok _) as [v|].
    - destruct IH as (? & ? & Hall). split; [lia|]. split; [done|]. intros v' Hv'.
      destruct (Hle v') as [->|]; [lia|done|]. apply Hall. lia.
    - intros v Hv'. destruct (Hle v) as [->|]; [lia|done|]. apply IH. lia. }
  specialize (Hfind 40%nat 1%nat ltac:(lia) ltac:(lia)). destruct (find ok _) as [v|].
  - destruct Hfind as (Hv & Hokv & Hall). split; [lia|].
    destruct (capacity_spec v ecc) as (c & Hc & _); [lia|].
    split; [exists c; split; [done|]; rewrite (Hok v c Hc) in Hokv; by apply bool_decide_eq_true in Hokv|].
    intros v' c' Hv' Hc'. specialize (Hall v' ltac:(lia)). rewrite (Hok v' c' Hc') in Hall.
    apply bool_decide_eq_false in Hall. lia.
  - intros v c Hv Hc. specialize (Hfind v ltac:(lia)). rewrite (Hok v c Hc) in Hfind.
    apply bool_decide_eq_false in Hfind. lia.
Qed.

Lemma qr_smallest_version_witness :
  1 <= 5 <= 40 /\ (exists c, capacity 5 Low = Ok c /\ 42 <= c)
  /\ forall v' c, 1 <= v' < 5 -> capacity v' Low = Ok c -> c < 42.
Proof.
  assert (Hv : smallest_version_for 42 Low = Some 5) by (vm_compute; reflexivity).
  pose proof (qr_smallest_version 42 Low) as Hspec. rewrite Hv in Hspec. exact Hspec.
Defined.

(** the module grid has one byte per module, row after row: the byte at
    [y * size + x] is one when the module at column [x] of row [y] is dark and
    zero when it is light. *)
Theorem qr_to_modules `{Qrcodegen} q x y :
  (x < Z.to_nat (size q))%nat -> (y < Z.to_nat (size q))%nat ->
  length (to_modules q) = (Z.to_nat (size q) * Z.to_nat (size q))%nat
  /\ to_modules q !! (y * Z.to_nat (size q) + x)%nat
     = Some (if get_module q (Z.of_nat x) (Z.of_nat y) then Byte.x01 else Byte.x00).
Proof.
  intros Hx Hy. unfold to_modules. set (f := fun y x : nat => byte.of_Z (Z.b2z
    (get_module q (Z.of_nat x) (Z.of_nat y)))).
  split; [apply (length_concat_rows f)|].
  pose proof (concat_rows_lookup f 0 (Z.to_nat (size q)) (Z.to_nat (size q)) x y Hx Hy) as Hl.
  unfold f at 2 in Hl. cbn [Nat.add] in Hl. unfold f in *. rewrite Hl.
  by destruct (get_module q (Z.of_nat x) (Z.of_nat y)).
Qed.

Lemma qr_to_modules_witness :
  length (to_modules demo_encoder) = 441%nat
  /\ to_modules demo_encoder !! 0%nat = Some Byte.x01.
Proof. apply (qr_to_modules demo_encoder 0 0); vm_compute; lia.
Defined.

(** the letter names of the levels round-trip, and parsing ignores case
    and knows no other letter. *)
Theorem qr_ecc_letters c e :
  from_letter c = Some e <-> c = letter e \/ c = letter e + 32.
Proof.
  unfold from_letter, to_ascii_uppercase. split.
  - case_decide; intros He; repeat case_match; simplify_eq/=; lia.
  - destruct e; intros [->| ->]; done.
Qed.
