(* ===== verification/Bitmap.v ===== *)
(** * Symbol bitmaps

    One bit per symbol, the least significant bit of byte 0 first: the
    representation the resume file and the decoder share. *)

From S2P Require Import Prelude.

(** ** Definitions *)

(** [u8::count_ones] *)
Definition count_ones (b : byte) : Z :=
  zsum ((fun j => Z.b2z (Z.testbit (byte.unsigned b) (Z.of_nat j))) <$> seq 0 8).

(** Whether bit [i] of a bitmap is set. *)
Definition bit (bm : list byte) (i : Z) : bool :=
  match bm !! Z.to_nat (i / 8) with
  | Some b => Z.testbit (byte.unsigned b) (i mod 8)
  | None => false
  end.

(** The number of set bits. *)
Definition popcount (bm : list byte) : Z := zsum (count_ones <$> bm).

(** [bm[i / 8] |= 1 << (i % 8)] *)
Definition set_bit (bm : list byte) (i : Z) : list byte :=
  alter (fun b => byte.of_Z (Z.lor (byte.unsigned b) (Z.shiftl 1 (i mod 8))))
    (Z.to_nat (i / 8)) bm.

(** ** Lemmas *)

Lemma count_ones_range b : 0 <= count_ones b <= 8.
Proof. by destruct b; vm_compute. Qed.

Lemma below_8 k : 0 <= k < 8 -> k ∈ [0; 1; 2; 3; 4; 5; 6; 7].
Proof. intros. rewrite !elem_of_cons. lia. Qed.

(** A byte with no bit from [k] on has at most [k] set bits. *)
Lemma count_ones_low b k :
  0 <= k < 8 -> Z.shiftr (byte.unsigned b) k = 0 -> count_ones b <= k.
Proof.
  intros Hin%below_8. revert k Hin. refine (proj1 (Forall_forall _ _) _).
  destruct b; repeat constructor; vm_compute; intros H; try discriminate H; discriminate.
Qed.

Lemma count_ones_set b k :
  0 <= k < 8 -> Z.testbit (byte.unsigned b) k = false ->
  count_ones (byte.of_Z (Z.lor (byte.unsigned b) (Z.shiftl 1 k))) = count_ones b + 1.
Proof.
  intros Hin%below_8. revert k Hin. refine (proj1 (Forall_forall _ _) _).
  destruct b; repeat constructor; vm_compute; intros H; (discriminate H || reflexivity).
Qed.

Lemma byte_set_bit b k j :
  0 <= k < 8 -> 0 <= j ->
  Z.testbit (byte.unsigned (byte.of_Z (Z.lor (byte.unsigned b) (Z.shiftl 1 k)))) j
  = Z.testbit (byte.unsigned b) j || bool_decide (j = k).
Proof.
  intros Hk Hj. rewrite byte.unsigned_of_Z. unfold byte.wrap.
  rewrite Z.mod_small.
  - rewrite Z.lor_spec, Z.shiftl_spec by done. f_equal. case_bool_decide.
    + subst. by rewrite Z.sub_diag.
    + destruct (decide (j < k)); [by rewrite Z.testbit_neg_r by lia|].
      rewrite Z.bit0_eqb || idtac. destruct (j - k) as [|q|q] eqn:Hq; [lia| |lia]. done.
  - apply (urange_bits 8); [lia|]. intros i Hi.
    rewrite Z.lor_spec, Z.shiftl_spec by lia.
    rewrite (proj1 (urange_bits 8 (byte.unsigned b) ltac:(lia)) (urange_byte b)) by done.
    destruct (i - k) as [|q|q] eqn:Hq; [lia| |lia]. done.
Qed.

Lemma length_set_bit bm i : length (set_bit bm i) = length bm.
Proof. apply length_alter. Qed.

Lemma bit_set_bit bm i j :
  0 <= i -> 0 <= j -> i < 8 * len bm ->
  bit (set_bit bm i) j = bit bm j || bool_decide (j = i).
Proof.
  intros Hi Hj Hlen. unfold bit, set_bit.
  pose proof (Z.mod_pos_bound i 8 ltac:(lia)). pose proof (Z.mod_pos_bound j 8 ltac:(lia)).
  destruct (decide (Z.to_nat (i / 8) = Z.to_nat (j / 8))) as [Heq|Hne].
  - rewrite Heq, list_lookup_alter_eq.
    destruct (bm !! Z.to_nat (j / 8)) as [b|] eqn:Hb; cbn.
    + rewrite byte_set_bit by lia. f_equal. apply bool_decide_ext.
      assert (i / 8 = j / 8) by (apply Z2Nat.inj; [apply Z.div_pos; lia..|done]).
      rewrite (Z.div_mod i 8), (Z.div_mod j 8) at 2 by lia. split; intros; [lia|].
      rewrite (Z.div_mod i 8), (Z.div_mod j 8) in * by lia. lia.
    + apply lookup_ge_None in Hb. case_bool_decide; [subst j|done]. unfold len in Hlen.
      exfalso. assert (i / 8 < Z.of_nat (length bm)) by (apply Z.div_lt_upper_bound; lia). lia.
  - rewrite list_lookup_alter_ne by done. rewrite bool_decide_eq_false_2; [by rewrite orb_false_r|].
    intros ->. done.
Qed.

Lemma popcount_set_bit bm i :
  0 <= i -> i < 8 * len bm -> bit bm i = false -> popcount (set_bit bm i) = popcount bm + 1.
Proof.
  intros Hi Hlen. unfold bit, set_bit, len in *.
  assert (Hn : (Z.to_nat (i / 8) < length bm)%nat).
  { assert (i / 8 < Z.of_nat (length bm)) by (apply Z.div_lt_upper_bound; lia).
    pose proof (Z.div_pos i 8). lia. }
  pose proof (Z.mod_pos_bound i 8 ltac:(lia)) as Hm. revert Hn Hm.
  generalize (i mod 8) (Z.to_nat (i / 8)). clear. intros k n.
  unfold popcount, zsum.
  revert n. induction bm as [|b bm IH]; intros n Hn Hk; cbn [length] in Hn; [lia|].
  destruct n as [|n]; cbn [lookup list_lookup alter list_alter fmap list_fmap foldr]; intros Hb.
  - rewrite count_ones_set by done. lia.
  - rewrite IH by (done || lia). lia.
Qed.

Lemma popcount_nonneg bm : 0 <= popcount bm.
Proof.
  apply zsum_nonneg, Forall_fmap, Forall_true. intros b. cbn. apply count_ones_range.
Qed.

Lemma popcount_le bm : popcount bm <= 8 * len bm.
Proof.
  unfold popcount, zsum. induction bm as [|b bm IH]; [done|]. rewrite len_cons.
  cbn [fmap list_fmap foldr]. pose proof (count_ones_range b). lia.
Qed.

(** The bits past [n] of a bitmap for [n] symbols are clear exactly when the
    shift of the last byte by the bits in use leaves nothing. *)
Definition padding_clear (n : Z) (bm : list byte) : Prop :=
  match last bm with
  | Some b => n mod 8 = 0 \/ Z.shiftr (byte.unsigned b) (n mod 8) = 0
  | None => True
  end.

Lemma shiftr_zero_bits b k :
  0 <= k -> Z.shiftr (byte.unsigned b) k = 0
  <-> forall j, k <= j -> Z.testbit (byte.unsigned b) j = false.
Proof.
  intros Hk. split.
  - intros Hs j Hj. replace j with ((j - k) + k) by lia.
    rewrite <- Z.shiftr_spec by lia. by rewrite Hs, Z.bits_0.
  - intros Hall. apply Z.bits_inj'. intros j Hj. rewrite Z.shiftr_spec, Z.bits_0 by done.
    apply Hall. lia.
Qed.

Lemma last_lookup_len (bm : list byte) :
  last bm = bm !! pred (length bm).
Proof. apply last_lookup. Qed.

Lemma padding_clear_iff n bm :
  0 <= n -> len bm = div_ceil n 8 ->
  padding_clear n bm <-> (forall i, 0 <= i -> bit bm i = true -> i < n).
Proof.
  intros Hn Hlen. unfold padding_clear. rewrite last_lookup.
  pose proof (div_ceil_mul n 8 ltac:(lia) Hn) as Hceil. rewrite <- Hlen in Hceil. unfold len in *.
  pose proof (Z.mod_pos_bound n 8 ltac:(lia)) as Hm.
  pose proof (Z.div_mod n 8 ltac:(lia)) as Hd.
  split.
  - intros Hp i Hi Hb. unfold bit in Hb.
    destruct (bm !! Z.to_nat (i / 8)) as [b|] eqn:Hlook; [|done].
    apply lookup_lt_Some in Hlook as Hlt.
    pose proof (Z.div_mod i 8 ltac:(lia)). pose proof (Z.mod_pos_bound i 8 ltac:(lia)).
    pose proof (Z.div_pos i 8 Hi ltac:(lia)).
    destruct (decide (i < n)) as [?|Hge]; [done|]. exfalso.
    assert (Hlast : pred (length bm) = Z.to_nat (i / 8)) by nia.
    rewrite Hlast, Hlook in Hp. destruct Hp as [Hz|Hs]; [nia|].
    rewrite shiftr_zero_bits in Hs by lia.
    rewrite Hs in Hb; [done|]. nia.
  - intros Hall. destruct (bm !! pred (length bm)) as [b|] eqn:Hlook; [|done].
    apply lookup_lt_Some in Hlook as Hlt.
    destruct (decide (n mod 8 = 0)) as [?|Hne]; [by left|right].
    apply shiftr_zero_bits; [lia|]. intros j Hj. apply not_true_is_false. intros Hb.
    assert (j < 8).
    { destruct (decide (j < 8)); [done|].
      by rewrite (proj1 (urange_bits 8 _ ltac:(lia)) (urange_byte b)) in Hb by lia. }
    set (i := 8 * Z.of_nat (pred (length bm)) + j).
    assert (Hi : i / 8 = Z.of_nat (pred (length bm)))
      by (symmetry; apply (Z.div_unique i 8 _ j); lia).
    assert (Hij : i mod 8 = j) by (symmetry; apply (Z.mod_unique i 8 (Z.of_nat (pred (length bm)))); lia).
    specialize (Hall i ltac:(lia)). unfold bit in Hall. rewrite Hi, Nat2Z.id, Hlook, Hij in Hall.
    specialize (Hall Hb). nia.
Qed.

(** A bitmap for [n] symbols with clear padding has at most [n] set bits. *)
Lemma popcount_padding n bm :
  0 <= n -> len bm = div_ceil n 8 -> padding_clear n bm -> popcount bm <= n.
Proof.
  intros Hn Hlen Hp. pose proof (div_ceil_mul n 8 ltac:(lia) Hn) as Hceil.
  pose proof (Z.mod_pos_bound n 8 ltac:(lia)). pose proof (Z.div_mod n 8 ltac:(lia)).
  destruct bm as [|b bm _] using rev_ind; [cbn; lia|].
  unfold padding_clear in Hp. rewrite last_snoc in Hp. rewrite <- Hlen, len_app in Hceil.
  change (len [b]) with 1 in Hceil. unfold popcount. rewrite fmap_app, zsum_app.
  fold (popcount bm). change (zsum (count_ones <$> [b])) with (count_ones b + 0). pose proof (popcount_le bm). pose proof (count_ones_range b).
  destruct Hp as [Hz|Hs]; [nia|]. apply count_ones_low in Hs; [|lia]. nia.
Qed.
