(* ===== verification/Utf8.v ===== *)
(** * Strings

    What the code uses of [String]: UTF-8 validation ([String::from_utf8]),
    the characters of a string, and splitting at a separator. A [String] is
    the list of its bytes. *)

From S2P Require Import Prelude.

(** ** Definitions *)

(** The six low bits of a continuation byte. *)
Definition continuation (b : byte) : option Z :=
  let z := byte.unsigned b in
  if decide (128 <= z < 192) then Some (z - 128) else None.

(** The scalar values of a well-formed UTF-8 string: shortest forms only, no
    surrogates, nothing above U+10FFFF. *)
Fixpoint utf8_decode (bs : list byte) : option (list Z) :=
  match bs with
  | [] => Some []
  | b0 :: rest0 =>
    let z0 := byte.unsigned b0 in
    if decide (z0 < 128) then cons z0 <$> utf8_decode rest0
    else
      match rest0 with
      | [] => None
      | b1 :: rest1 =>
        c1 ← continuation b1;
        if decide (194 <= z0 < 224) then cons ((z0 - 192) * 64 + c1) <$> utf8_decode rest1
        else
          match rest1 with
          | [] => None
          | b2 :: rest2 =>
            c2 ← continuation b2;
            if decide (224 <= z0 < 240)
            then
              let c := (z0 - 224) * 4096 + c1 * 64 + c2 in
              if decide (2048 <= c /\ ~ (55296 <= c < 57344))
              then cons c <$> utf8_decode rest2 else None
            else
              match rest2 with
              | [] => None
              | b3 :: rest3 =>
                c3 ← continuation b3;
                let c := (z0 - 240) * 262144 + c1 * 4096 + c2 * 64 + c3 in
                if decide (240 <= z0 < 245 /\ 65536 <= c < 1114112)
                then cons c <$> utf8_decode rest3 else None
              end
          end
      end
  end.

(** [String::from_utf8] *)
Definition from_utf8 (bs : list byte) : option (list byte) :=
  match utf8_decode bs with Some _ => Some bs | None => None end.

(** [s.chars().nth(n)] *)
Definition chars_nth (s : list byte) (n : nat) : option Z :=
  cs ← utf8_decode s; cs !! n.

(** [s.split(sep)] for an ASCII separator. *)
Fixpoint split (sep : byte) (s : list byte) : list (list byte) :=
  match s with
  | [] => [[]]
  | b :: s' =>
    if decide (b = sep) then [] :: split sep s'
    else
      match split sep s' with
      | [] => [[b]]
      | c :: cs => (b :: c) :: cs
      end
  end.

(** The pieces with the separator put back between them. *)
Fixpoint join (sep : byte) (cs : list (list byte)) : list byte :=
  match cs with
  | [] => []
  | [c] => c
  | c :: cs' => c ++ sep :: join sep cs'
  end.

(** ** Lemmas *)

Lemma split_nonempty sep s : split sep s <> [].
Proof. destruct s as [|b s]; cbn; [done|]. case_decide; [done|]. by destruct (split sep s). Qed.

Lemma join_split sep s : join sep (split sep s) = s.
Proof.
  induction s as [|b s IH]; [done|]. cbn. pose proof (split_nonempty sep s) as Hne.
  case_decide as Hb; [subst b|]; destruct (split sep s) as [|c cs]; try done; cbn in *.
  - by rewrite IH.
  - destruct cs; cbn in *; by rewrite IH.
Qed.

Lemma from_utf8_Some bs s : from_utf8 bs = Some s <-> s = bs /\ is_Some (utf8_decode bs).
Proof.
  unfold from_utf8. destruct (utf8_decode bs); split.
  - intros [= ->]. eauto.
  - intros [-> _]. done.
  - done.
  - intros [_ []]. done.
Qed.
