(* ===== verification/Manifest.v ===== *)
(** * Manifest wire format (dhow-codec/src/manifest.rs)

    File names, file entries, the 228-byte header, the complete manifest, and
    the bytes its signature covers. *)

From S2P Require Import Prelude Errors Crc32c Utf8 Session.
From Stdlib Require Strings.String.

(** ** Definitions *)

(** ASCII "DHMF" *)
Definition MANIFEST_MAGIC : list byte := String.list_byte_of_string "DHMF".
Definition MANIFEST_VERSION : byte := byte.of_Z 2.
Definition MANIFEST_HEADER_SIZE : nat := 228.
Definition CRC_OFFSET : nat := 160.
Definition SIGNATURE_LEN : nat := 64.
Definition MAX_NAME_LEN : Z := 4096.
Definition MAX_FILE_COUNT : Z := 1000000.
Definition SIGNATURE_OFFSET : nat := 164.

Definition slash : byte := byte.of_Z 47.
Definition backslash : byte := byte.of_Z 92.
Definition nul : byte := Byte.x00.
Definition dotdot : list byte := [byte.of_Z 46; byte.of_Z 46].
Definition colon : Z := 58.

(** [validate_name] *)
Definition validate_name (name : list byte) : outcome ManifestError unit :=
  if decide (name = []) then Err (Mani.PathTraversal name)
  else if decide (MAX_NAME_LEN < len name) then Err (Mani.FileNameTooLong (len name))
  else if decide (nul ∈ name \/ backslash ∈ name) then Err (Mani.PathTraversal name)
  else if decide (head name = Some slash \/ chars_nth name 1 = Some colon)
  then Err (Mani.PathTraversal name)
  else if existsb (fun component => bool_decide (component = dotdot)) (split slash name)
  then Err (Mani.PathTraversal name)
  else Ok tt.

Definition ENTRY_FLAG_EXECUTABLE : Z := 1.
Definition ENTRY_FLAG_KNOWN : Z := ENTRY_FLAG_EXECUTABLE.
Definition ENTRY_FIXED_LEN : nat := 2 + 8 + 32 + 1.

Record FileEntry := {
  name : list byte;
  size : Z;
  digest : list byte;
  executable : bool;
}.

(** [FileEntry::new] and [with_mode] *)
Definition FileEntry_new (name : list byte) (size : Z) (digest : list byte) : FileEntry :=
  {| name := name; size := size; digest := digest; executable := false |}.

Definition with_mode (name : list byte) (size : Z) (digest : list byte) (executable : bool)
    : FileEntry :=
  {| name := name; size := size; digest := digest; executable := executable |}.

(** [FileEntry::flags] *)
Definition flags (e : FileEntry) : Z := if executable e then ENTRY_FLAG_EXECUTABLE else 0.

(** [FileEntry::to_vec]; the length field keeps the low 16 bits. *)
Definition FileEntry_to_vec (e : FileEntry) : list byte :=
  to_le 2 (as_u 16 (len (name e)))
  ++ name e
  ++ to_le 8 (size e)
  ++ digest e
  ++ [byte.of_Z (flags e)].

(** [FileEntry::from_bytes] *)
Definition FileEntry_from_bytes (bytes : list byte) : outcome ManifestError (FileEntry * nat) :=
  if decide (length bytes < 2)%nat then Err (Mani.Truncated 2 (len bytes))
  else
    name_len_bytes ← slice 0 2 bytes;
    let name_len := from_le name_len_bytes in
    if decide (MAX_NAME_LEN < name_len) then Err (Mani.FileNameTooLong name_len)
    else
      let name_len := Z.to_nat name_len in
      let total_entry_len := (ENTRY_FIXED_LEN + name_len)%nat in
      if decide (length bytes < total_entry_len)%nat
      then Err (Mani.Truncated (Z.of_nat total_entry_len) (len bytes))
      else
        name_bytes ← slice 2 (2 + name_len) bytes;
        match from_utf8 name_bytes with
        | None => Err (Mani.Malformed [Txt "file name contains invalid UTF-8"])
        | Some name =>
          _ ← validate_name name;
          size ← slice (2 + name_len) (10 + name_len) bytes;
          digest ← slice (10 + name_len) (42 + name_len) bytes;
          flags ← index (42 + name_len) bytes;
          if decide (Z.land (byte.unsigned flags) (255 - ENTRY_FLAG_KNOWN) <> 0)
          then Err (Mani.Malformed
            [Txt "file entry "; Bytes name; Txt " sets undefined flag bits ";
             HexNum 2 (byte.unsigned flags)])
          else
            Ok ({| name := name; size := from_le size; digest := digest;
                   executable := bool_decide
                     (Z.land (byte.unsigned flags) ENTRY_FLAG_EXECUTABLE <> 0) |},
                total_entry_len)
        end.

Record ManifestHeader := {
  mh_magic : list byte;
  mh_version : byte;
  mh_session_id : list byte;
  mh_file_count : Z;
  mh_total_size : Z;
  mh_salt : list byte;
  mh_nonce : list byte;
  mh_params : SessionParams;
  mh_crc32c : Z;
  mh_signature : list byte;
}.

(** [crc_covered_bytes] *)
Definition crc_covered_bytes (session_id : list byte) (file_count total_size : Z)
    (salt nonce : list byte) (params : SessionParams) : list byte :=
  MANIFEST_MAGIC
  ++ [MANIFEST_VERSION]
  ++ zeros 3
  ++ session_id
  ++ to_le 4 file_count
  ++ to_le 8 total_size
  ++ payload_digest params
  ++ salt
  ++ nonce
  ++ to_le 8 (payload_size params)
  ++ to_le 4 (block_count params)
  ++ to_le 4 (symbol_size params)
  ++ to_le 4 (source_symbols_per_block params)
  ++ to_le 4 (total_symbols_per_block params)
  ++ to_le 4 (z (raptorq params))
  ++ to_le 4 (n (raptorq params))
  ++ to_le 2 (psi (raptorq params))
  ++ zeros 2.

(** [ManifestHeader::new] *)
Definition ManifestHeader_new (session_id : list byte) (entries : list FileEntry)
    (total_size : Z) (salt nonce : list byte) (params : SessionParams) : ManifestHeader :=
  let file_count := as_u 32 (len entries) in
  let crc32c :=
    crc32c_digest (crc_covered_bytes session_id file_count total_size salt nonce params) in
  {| mh_magic := MANIFEST_MAGIC; mh_version := MANIFEST_VERSION; mh_session_id := session_id;
     mh_file_count := file_count; mh_total_size := total_size; mh_salt := salt;
     mh_nonce := nonce; mh_params := params; mh_crc32c := crc32c;
     mh_signature := zeros 64 |}.

(** [ManifestHeader::set_signature] *)
Definition set_signature (h : ManifestHeader) (signature : list byte) : ManifestHeader :=
  {| mh_magic := mh_magic h; mh_version := mh_version h; mh_session_id := mh_session_id h;
     mh_file_count := mh_file_count h; mh_total_size := mh_total_size h; mh_salt := mh_salt h;
     mh_nonce := mh_nonce h; mh_params := mh_params h; mh_crc32c := mh_crc32c h;
     mh_signature := signature |}.

(** The CRC-covered bytes of a header. *)
Definition covered_bytes (h : ManifestHeader) : list byte :=
  crc_covered_bytes (mh_session_id h) (mh_file_count h) (mh_total_size h) (mh_salt h)
    (mh_nonce h) (mh_params h).

(** [ManifestHeader::to_vec] *)
Definition ManifestHeader_to_vec (h : ManifestHeader) : list byte :=
  covered_bytes h ++ to_le 4 (mh_crc32c h) ++ mh_signature h.

(** [ManifestHeader::from_bytes] *)
Definition ManifestHeader_from_bytes (bytes : list byte)
    : outcome ManifestError ManifestHeader :=
  if decide (length bytes < 5)%nat
  then Err (Mani.Truncated (Z.of_nat MANIFEST_HEADER_SIZE) (len bytes))
  else
    magic ← slice 0 4 bytes;
    if decide (magic <> MANIFEST_MAGIC) then Err (Mani.InvalidMagic magic)
    else
      version ← index 4 bytes;
      if decide (version <> MANIFEST_VERSION) then Err (Mani.UnsupportedVersion version)
      else if decide (length bytes < MANIFEST_HEADER_SIZE)%nat
      then Err (Mani.Truncated (Z.of_nat MANIFEST_HEADER_SIZE) (len bytes))
      else
        reserved1 ← slice 5 8 bytes;
        if decide (reserved1 <> zeros 3)
        then Err (Mani.Malformed [Txt "reserved bytes at offset 5 must be zero"])
        else
          session_id ← slice 8 24 bytes;
          file_count ← slice 24 28 bytes;
          total_size ← slice 28 36 bytes;
          payload_digest ← slice 36 68 bytes;
          salt ← slice 68 100 bytes;
          nonce ← slice 100 124 bytes;
          payload_size ← slice 124 132 bytes;
          block_count ← slice 132 136 bytes;
          symbol_size ← slice 136 140 bytes;
          source_symbols_per_block ← slice 140 144 bytes;
          total_symbols_per_block ← slice 144 148 bytes;
          z ← slice 148 152 bytes;
          n ← slice 152 156 bytes;
          psi ← slice 156 158 bytes;
          reserved2 ← slice 158 160 bytes;
          if decide (reserved2 <> zeros 2)
          then Err (Mani.Malformed [Txt "reserved bytes at offset 158 must be zero"])
          else
            crc32c ← slice 160 164 bytes;
            signature ← slice 164 228 bytes;
            covered ← slice 0 160 bytes;
            let expected_crc := crc32c_digest covered in
            if decide (from_le crc32c <> expected_crc) then Err Mani.CrcMismatch
            else
              Ok {| mh_magic := magic; mh_version := version; mh_session_id := session_id;
                    mh_file_count := from_le file_count;
                    mh_total_size := from_le total_size; mh_salt := salt; mh_nonce := nonce;
                    mh_params := {|
                      payload_size := from_le payload_size;
                      block_count := from_le block_count;
                      symbol_size := from_le symbol_size;
                      source_symbols_per_block := from_le source_symbols_per_block;
                      total_symbols_per_block := from_le total_symbols_per_block;
                      raptorq := {| z := from_le z; n := from_le n; psi := from_le psi |};
                      payload_digest := payload_digest |};
                    mh_crc32c := from_le crc32c; mh_signature := signature |}.

Record Manifest := {
  header : ManifestHeader;
  entries : list FileEntry;
}.

(** [Manifest::build] *)
Definition Manifest_build (h : ManifestHeader) (entries : list FileEntry)
    (signature : list byte) : Manifest :=
  {| header := set_signature h signature; entries := entries |}.

(** [Manifest::to_vec] *)
Definition Manifest_to_vec (m : Manifest) : list byte :=
  ManifestHeader_to_vec (header m) ++ concat (FileEntry_to_vec <$> entries m).

(** The entry loop of [Manifest::from_bytes]: [count] entries from [offset]. *)
Fixpoint read_entries (count : nat) (bytes : list byte) (offset : nat)
    : outcome ManifestError (list FileEntry * nat) :=
  match count with
  | O => Ok ([], offset)
  | S count' =>
    if decide (length bytes <= offset)%nat
    then Err (Mani.Truncated (len bytes + 1) (len bytes))
    else
      tail ← slice offset (length bytes) bytes;
      '(entry, consumed) ← FileEntry_from_bytes tail;
      '(entries, offset') ← read_entries count' bytes (offset + consumed);
      Ok (entry :: entries, offset')
  end.

(** [Manifest::from_bytes] *)
Definition Manifest_from_bytes (bytes : list byte) : outcome ManifestError Manifest :=
  header ← ManifestHeader_from_bytes bytes;
  if decide (MAX_FILE_COUNT < mh_file_count header)
  then Err (Mani.InvalidFileCount (mh_file_count header))
  else
    let file_count := Z.to_nat (mh_file_count header) in
    '(entries, offset) ← read_entries file_count bytes MANIFEST_HEADER_SIZE;
    if decide (offset <> length bytes)
    then Err (Mani.Malformed
      [Dec (len bytes - Z.of_nat offset); Txt " trailing bytes after the last file entry"])
    else Ok {| header := header; entries := entries |}.

(** [bytes[lo..hi].fill(0)] *)
Definition fill_zero {E} (lo hi : nat) (bytes : list byte) : outcome E (list byte) :=
  if decide (lo <= hi /\ hi <= length bytes)%nat
  then Ok (take lo bytes ++ zeros (hi - lo) ++ drop hi bytes)
  else Panic.

(** [Manifest::signing_bytes] *)
Definition signing_bytes {E} (m : Manifest) : outcome E (list byte) :=
  fill_zero SIGNATURE_OFFSET MANIFEST_HEADER_SIZE (Manifest_to_vec m).

(** [Manifest::signing_bytes_of] *)
Definition signing_bytes_of (bytes : list byte) : outcome ManifestError (list byte) :=
  if decide (length bytes < MANIFEST_HEADER_SIZE)%nat
  then Err (Mani.Truncated (Z.of_nat MANIFEST_HEADER_SIZE) (len bytes))
  else fill_zero SIGNATURE_OFFSET MANIFEST_HEADER_SIZE bytes.

(** *** Specification *)

(** Lexical path resolution from a directory, as a stack of components with
    the innermost first: [..] leaves a directory, and leaving the root fails. *)
Fixpoint resolve (dir : list (list byte)) (path : list (list byte))
    : option (list (list byte)) :=
  match path with
  | [] => Some dir
  | c :: path' =>
    if decide (c = dotdot)
    then match dir with [] => None | _ :: dir' => resolve dir' path' end
    else if decide (c = [] \/ c = [byte.of_Z 46]) then resolve dir path'
    else resolve (c :: dir) path'
  end.

(** A name an entry may carry. *)
Definition safe_name (s : list byte) : Prop :=
  s <> [] /\ len s <= MAX_NAME_LEN /\ ~ nul ∈ s /\ ~ backslash ∈ s
  /\ head s <> Some slash /\ chars_nth s 1 <> Some colon /\ ~ dotdot ∈ split slash s.

Record wf_entry (e : FileEntry) : Prop := {
  we_utf8 : is_Some (utf8_decode (name e));
  we_name : safe_name (name e);
  we_size : urange 64 (size e);
  we_digest : length (digest e) = 32%nat;
}.

Record wf_mheader (h : ManifestHeader) : Prop := {
  wm_magic : mh_magic h = MANIFEST_MAGIC;
  wm_version : mh_version h = MANIFEST_VERSION;
  wm_session_id : length (mh_session_id h) = 16%nat;
  wm_file_count : urange 32 (mh_file_count h);
  wm_total_size : urange 64 (mh_total_size h);
  wm_salt : length (mh_salt h) = 32%nat;
  wm_nonce : length (mh_nonce h) = 24%nat;
  wm_params : wf_params (mh_params h);
  wm_crc32c : mh_crc32c h = crc32c_digest (covered_bytes h);
  wm_signature : length (mh_signature h) = 64%nat;
}.

Record wf_manifest (m : Manifest) : Prop := {
  wfm_header : wf_mheader (header m);
  wfm_entries : Forall wf_entry (entries m);
  wfm_count : mh_file_count (header m) = len (entries m);
  wfm_bound : len (entries m) <= MAX_FILE_COUNT;
}.

(** An example, for concrete runs: one executable file [a/b]. *)
Definition demo_entry : FileEntry :=
  with_mode [byte.of_Z 97; slash; byte.of_Z 98] 5 (zeros 32) true.

Definition demo_manifest : Manifest :=
  Manifest_build (ManifestHeader_new (zeros 16) [demo_entry] 5 (zeros 32) (zeros 24) demo_params)
    [demo_entry] (replicate 64 Byte.x07).

(** ** Lemmas *)

(** *** Names *)

Lemma validate_name_Ok s : validate_name s = Ok tt <-> safe_name s.
Proof.
  unfold validate_name, safe_name. repeat case_decide; try (split; [done|]); try tauto.
  { intros (_ & Hl & _). lia. }
  destruct (existsb _ (split slash s)) eqn:Hex.
  - split; [done|]. intros (_ & _ & _ & _ & _ & _ & Hd). exfalso. apply Hd.
    apply existsb_exists in Hex as (c & Hc%list_elem_of_In & ->%bool_decide_eq_true). done.
  - split; [intros _|done]. split_and!; try tauto; [lia|]. intros Hd.
    apply not_true_iff_false in Hex. apply Hex, existsb_exists. exists dotdot.
    split; [by apply list_elem_of_In|by apply bool_decide_eq_true].
Qed.

Lemma validate_name_safe s : safe (validate_name s).
Proof. unfold validate_name. repeat case_decide; try done. by case_match. Qed.

#[export] Hint Resolve validate_name_safe : dhow.

(** A path without a [..] component only descends. *)
Lemma resolve_descends path dir :
  ~ dotdot ∈ path -> exists inner, resolve dir path = Some (inner ++ dir).
Proof.
  revert dir. induction path as [|c path IH]; intros dir Hno; cbn [resolve].
  { by exists []. }
  apply not_elem_of_cons in Hno as [Hc Hno]. rewrite decide_False by auto.
  case_decide; [by apply IH|]. destruct (IH (c :: dir) Hno) as [inner ->].
  exists (inner ++ [c]). by rewrite <- app_assoc.
Qed.

(** *** File entries *)

Lemma length_entry e :
  length (digest e) = 32%nat ->
  length (FileEntry_to_vec e) = (ENTRY_FIXED_LEN + length (name e))%nat.
Proof.
  intros Hd. unfold FileEntry_to_vec, ENTRY_FIXED_LEN.
  rewrite !length_app, !length_to_le, Hd. cbn. lia.
Qed.

Lemma flags_parse e :
  Z.land (byte.unsigned (byte.of_Z (flags e))) (255 - ENTRY_FLAG_KNOWN) = 0
  /\ bool_decide (Z.land (byte.unsigned (byte.of_Z (flags e))) ENTRY_FLAG_EXECUTABLE <> 0)
     = executable e.
Proof. unfold flags. by destruct (executable e). Qed.

Lemma flags_print b e :
  Z.land (byte.unsigned b) (255 - ENTRY_FLAG_KNOWN) = 0 ->
  executable e = bool_decide (Z.land (byte.unsigned b) ENTRY_FLAG_EXECUTABLE <> 0) ->
  byte.of_Z (flags e) = b.
Proof.
  intros Hk He. unfold flags. rewrite He. clear He. revert Hk.
  by destruct b; vm_compute; intros Hk; try discriminate Hk.
Qed.

Lemma entry_parse_print e rest :
  wf_entry e ->
  FileEntry_from_bytes (FileEntry_to_vec e ++ rest) = Ok (e, length (FileEntry_to_vec e)).
Proof.
  intros [Hutf Hname Hsize Hdig]. unfold FileEntry_from_bytes.
  rewrite (length_entry e Hdig). pose proof (length_entry e Hdig) as Hlen.
  unfold ENTRY_FIXED_LEN in *. pose proof Hname as (_ & Hmax & _). unfold MAX_NAME_LEN in Hmax.
  rewrite decide_False by (rewrite length_app; lia).
  assert (Hfrom : from_le (to_le 2 (as_u 16 (len (name e)))) = len (name e)).
  { pose proof (len_nonneg (name e)).
    rewrite as_u_id by (unfold urange; lia). apply from_to_le. unfold urange. lia. }
  assert (Hshape : FileEntry_to_vec e ++ rest = to_le 2 (as_u 16 (len (name e))) ++ name e
    ++ to_le 8 (size e) ++ digest e ++ [byte.of_Z (flags e)] ++ rest).
  { unfold FileEntry_to_vec. by rewrite <- !app_assoc. }
  rewrite Hshape at 1. rewrite slice_here by apply length_to_le. cbn [mbind outcome_bind].
  rewrite Hfrom. rewrite decide_False by (unfold MAX_NAME_LEN; lia). cbn zeta.
  replace (Z.to_nat (len (name e))) with (length (name e)) by (unfold len; lia).
  rewrite decide_False by (rewrite length_app; lia).
  rewrite Hshape. rewrite (slice_at _ (name e) _ 2) by (rewrite ?length_to_le; lia).
  cbn [mbind outcome_bind]. rewrite (proj2 (from_utf8_Some (name e) (name e))) by done.
  rewrite (proj2 (validate_name_Ok (name e)) Hname). cbn [mbind outcome_bind].
  rewrite !(app_assoc (to_le 2 _)).
  rewrite (slice_at _ (to_le 8 (size e)) _ (2 + length (name e))) by (rewrite ?length_app, ?length_to_le; lia).
  cbn [mbind outcome_bind]. rewrite !(app_assoc (_ ++ name e)).
  rewrite (slice_at _ (digest e) _ (10 + length (name e))) by (rewrite ?length_app, ?length_to_le; lia).
  cbn [mbind outcome_bind]. rewrite !(app_assoc (_ ++ to_le 8 _)).
  rewrite index_at by (rewrite ?length_app, ?length_to_le; lia). cbn [mbind outcome_bind].
  destruct (flags_parse e) as [Hf1 Hf2]. rewrite decide_False by (intros Hn; by apply Hn).
  rewrite Hf2, from_to_le by done. by destruct e.
Qed.

Lemma entry_inv bytes e n :
  FileEntry_from_bytes bytes = Ok (e, n) ->
  wf_entry e /\ n = length (FileEntry_to_vec e) /\ bytes = FileEntry_to_vec e ++ drop n bytes.
Proof.
  unfold FileEntry_from_bytes. case_decide as Hlen2; [done|]. intros H.
  apply bind_Ok in H as (nl & Hnl & H). case_decide as Hmax; [done|]. cbn zeta in H.
  apply slice_inv in Hnl as [_ Hnl]. cbn [Nat.sub] in Hnl.
  set (l := Z.to_nat (from_le nl)) in H. case_decide as Hlen; [done|].
  unfold ENTRY_FIXED_LEN in *. apply bind_Ok in H as (nm & Hnm & H).
  destruct (from_utf8 nm) as [nm'|] eqn:Hutf; [|done]. apply from_utf8_Some in Hutf as [-> Hutf].
  apply bind_Ok in H as ([] & Hval & H). apply validate_name_Ok in Hval.
  apply bind_Ok in H as (sz & Hsz & H). apply bind_Ok in H as (dg & Hdg & H).
  apply bind_Ok in H as (fl & Hfl & H). case_decide as Hknown; [done|].
  injection H as <- <-. apply slice_inv in Hnm as [_ Hnm], Hsz as [_ Hsz], Hdg as [_ Hdg].
  apply index_Ok, lookup_sub in Hfl.
  replace (2 + l - 2)%nat with l in Hnm by lia.
  replace (10 + l - (2 + l))%nat with 8%nat in Hsz by lia.
  replace (42 + l - (10 + l))%nat with 32%nat in Hdg by lia.
  assert (Hnll : length nl = 2%nat) by (subst nl; apply length_sub; lia).
  assert (Hnml : length nm = l) by (subst nm; apply length_sub; lia).
  assert (Hszl : length sz = 8%nat) by (subst sz; apply length_sub; lia).
  pose proof (from_le_range 2 nl Hnll) as [Hnl0 _].
  split; [|split].
  - split; cbn; [done|done|by apply (from_le_range 8)|subst dg; apply length_sub; lia].
  - rewrite length_entry; cbn; [lia|]. subst dg; apply length_sub; lia.
  - unfold FileEntry_to_vec. cbn [name size digest].
    rewrite (flags_print fl) by done. rewrite <- Hfl, to_from_le by done.
    assert (Hle : to_le 2 (as_u 16 (len nm)) = nl).
    { rewrite <- (to_from_le 2 nl Hnll). f_equal. unfold len. rewrite Hnml.
      subst l. rewrite Z2Nat.id by done. apply as_u_id. by apply (from_le_range 2). }
    rewrite Hle, Hnl, Hnm, Hsz, Hdg at 1. rewrite !app_assoc.
    do 4 rewrite sub_join_at by lia. rewrite <- (app_sub_drop (2 + 8 + 32 + 1 + l) bytes) at 1.
    f_equal. f_equal. lia.
Qed.

Lemma entry_safe bytes : safe (FileEntry_from_bytes bytes).
Proof.
  unfold FileEntry_from_bytes, ENTRY_FIXED_LEN. case_decide; [done|]. cbn zeta.
  apply safe_bind; [apply slice_safe; lia|]. intros nl _. do 2 (case_decide; [done|]).
  apply safe_bind; [apply slice_safe; lia|]. intros nm _. case_match; [|done].
  apply safe_bind; [auto with dhow|]. intros _ _. solve_safe.
Qed.

#[export] Hint Resolve entry_safe : dhow.

(** *** Header *)

Lemma length_covered h : wf_mheader h -> length (covered_bytes h) = CRC_OFFSET.
Proof.
  intros []. unfold covered_bytes, crc_covered_bytes.
  by rewrite !length_app, !length_to_le, !length_zeros, wm_session_id0, wm_salt0, wm_nonce0,
    (wp_digest _ wm_params0).
Qed.

Lemma length_mheader h : wf_mheader h -> length (ManifestHeader_to_vec h) = MANIFEST_HEADER_SIZE.
Proof.
  intros Hh. unfold ManifestHeader_to_vec.
  by rewrite !length_app, length_covered, length_to_le, (wm_signature h Hh).
Qed.

Lemma mheader_parse_print h rest :
  wf_mheader h -> ManifestHeader_from_bytes (ManifestHeader_to_vec h ++ rest) = Ok h.
Proof.
  intros Hh. pose proof (length_covered h Hh) as Hcl. pose proof (length_mheader h Hh) as Hl.
  unfold MANIFEST_HEADER_SIZE, CRC_OFFSET in *. unfold ManifestHeader_from_bytes.
  rewrite decide_False by (rewrite length_app, Hl; lia).
  assert (exists cov, @slice ManifestError _ 0 160 (ManifestHeader_to_vec h ++ rest) = Ok cov
    /\ mh_crc32c h = crc32c_digest cov) as (cov & Hcov & Hcrceq).
  { exists (covered_bytes h). split; [|apply Hh]. unfold ManifestHeader_to_vec.
    rewrite <- !app_assoc. by apply slice_here. }
  rewrite Hcov.
  assert (Hcrc : urange 32 (mh_crc32c h)) by (rewrite (wm_crc32c h Hh); apply digest_range).
  unfold ManifestHeader_to_vec, covered_bytes, crc_covered_bytes. rewrite <- !app_assoc.
  destruct h as [magic version sid fc ts salt nonce [ps bc ss sps tps [pz pn ppsi] dg] crc sg].
  destruct Hh as [Hm Hv ? ? ? ? ? [] _ ?].
  cbn -[app zeros to_le] in *. subst magic version.
  read_fields. rewrite decide_False by auto. read_fields. rewrite decide_False by auto.
  rewrite decide_False by (unfold MANIFEST_HEADER_SIZE;
    rewrite !length_app, !length_to_le, !length_zeros; cbn [length]; lia).
  read_fields. rewrite decide_False by auto. read_fields. rewrite decide_False by auto.
  read_fields. rewrite !from_to_le by done. by rewrite decide_False by auto.
Qed.

Lemma mheader_inv bytes h :
  ManifestHeader_from_bytes bytes = Ok h ->
  wf_mheader h /\ bytes = ManifestHeader_to_vec h ++ drop MANIFEST_HEADER_SIZE bytes.
Proof.
  unfold ManifestHeader_from_bytes. case_decide as Hshort; [done|]. intros H.
  apply bind_Ok in H as (magic & Hmagic & H). case_decide as Hm; [done|].
  apply bind_Ok in H as (version & Hversion & H). case_decide as Hv; [done|].
  case_decide as Hlen; [done|]. unfold MANIFEST_HEADER_SIZE in Hlen.
  apply bind_Ok in H as (reserved1 & Hreserved1 & H). case_decide as Hr; [done|].
  do 14 (apply bind_Ok in H as (? & ? & H)).
  apply bind_Ok in H as (reserved2 & Hreserved2 & H). case_decide as Hr2; [done|].
  apply bind_Ok in H as (crc & Hcrc & H). apply bind_Ok in H as (sg & Hsg & H).
  apply bind_Ok in H as (covered & Hcov & H). case_decide as Hc; [done|]. injection H as <-.
  inv_reads.
  assert (Hl : forall lo n, (lo + n <= 228)%nat -> length (sub lo n bytes) = n)
    by (intros; apply length_sub; lia).
  assert (Hbody : covered = crc_covered_bytes x (from_le x0) (from_le x1) x3 x4
    {| payload_size := from_le x5; block_count := from_le x6; symbol_size := from_le x7;
       source_symbols_per_block := from_le x8; total_symbols_per_block := from_le x9;
       raptorq := {| z := from_le x10; n := from_le x11; psi := from_le x12 |};
       payload_digest := x2 |}).
  { unfold crc_covered_bytes; cbn -[app zeros to_le MANIFEST_MAGIC MANIFEST_VERSION].
    rewrite !to_from_le by (subst; apply Hl; lia).
    rewrite <- Hm, <- Hr, <- Hr2, <- Hv, <- Hversion. subst. by glue_reads. }
  split.
  - split; cbn -[covered_bytes zeros]; try done; try (subst; apply Hl; lia);
      try (subst; first [apply (from_le_range 8) | apply (from_le_range 4)]; apply Hl; lia).
    + split; cbn; subst; first [apply (from_le_range 8) | apply (from_le_range 4)
        | apply (from_le_range 2) | idtac]; apply Hl; lia.
    + unfold covered_bytes. cbn -[crc_covered_bytes]. by rewrite <- Hbody.
  - unfold ManifestHeader_to_vec, covered_bytes. cbn -[app drop to_le crc_covered_bytes]. rewrite <- Hbody.
    rewrite to_from_le by (subst; apply Hl; lia). subst. glue_reads. by rewrite app_sub_drop.
Qed.

Lemma mheader_safe bytes : safe (ManifestHeader_from_bytes bytes).
Proof.
  unfold ManifestHeader_from_bytes, MANIFEST_HEADER_SIZE. case_decide; [done|]. solve_safe.
Qed.

#[export] Hint Resolve mheader_safe : dhow.

(** *** Manifest *)

Lemma read_entries_print es pre rest count :
  Forall wf_entry es -> count = length es ->
  read_entries count (pre ++ concat (FileEntry_to_vec <$> es) ++ rest) (length pre)
  = Ok (es, (length pre + length (concat (FileEntry_to_vec <$> es)))%nat).
Proof.
  intros Hes ->. revert pre. induction Hes as [|e es He Hes IH]; intros pre.
  { cbn. do 2 f_equal. lia. }
  cbn [length read_entries fmap list_fmap concat].
  pose proof (length_entry e (we_digest e He)) as Hl. unfold ENTRY_FIXED_LEN in Hl.
  rewrite decide_False by (rewrite !length_app; lia).
  rewrite slice_skip with (k := length pre) by (rewrite ?length_app; lia).
  rewrite Nat.sub_diag, slice_all by (rewrite (length_app pre); lia). cbn [mbind outcome_bind].
  rewrite <- app_assoc, entry_parse_print by done. cbn [mbind outcome_bind].
  specialize (IH (pre ++ FileEntry_to_vec e)). rewrite length_app, <- app_assoc in IH.
  rewrite IH. cbn [mbind outcome_bind]. rewrite length_app. do 2 f_equal. lia.
Qed.

Lemma read_entries_inv count bytes offset es offset' :
  (offset <= length bytes)%nat -> read_entries count bytes offset = Ok (es, offset') ->
  Forall wf_entry es /\ length es = count
  /\ (offset <= offset' <= length bytes)%nat
  /\ sub offset (offset' - offset) bytes = concat (FileEntry_to_vec <$> es).
Proof.
  revert offset es. induction count as [|count IH]; intros offset es Hoff; cbn [read_entries].
  { intros [= <- <-]. split_and!; try done. by rewrite Nat.sub_diag. }
  case_decide; [done|]. intros H1. apply bind_Ok in H1 as (tl & Htl & H1).
  apply bind_Ok in H1 as ([e consumed] & He & H1).
  apply bind_Ok in H1 as ([es' off] & Hes & H1). injection H1 as <- <-.
  apply slice_inv in Htl as [_ ->]. apply entry_inv in He as (Hwf & Hc & Hb).
  unfold sub in Hb. rewrite (firstn_all2 (drop offset bytes)) in Hb by (rewrite length_drop; lia).
  assert (Hcl : (consumed <= length bytes - offset)%nat).
  { rewrite <- length_drop, Hb, length_app, Hc. lia. }
  apply IH in Hes as (? & ? & ? & Hsub); [|lia]. split_and!; [by constructor|by f_equal/=|lia|lia|].
  cbn [fmap list_fmap concat]. rewrite <- Hsub.
  replace (off - offset)%nat with (consumed + (off - (offset + consumed)))%nat by lia.
  rewrite <- (sub_join offset). f_equal. unfold sub at 1. rewrite Hb, Hc. apply take_app_length.
Qed.

Lemma read_entries_safe count bytes offset : safe (read_entries count bytes offset).
Proof.
  revert offset. induction count as [|count IH]; intros offset; [done|]. cbn [read_entries].
  case_decide; [done|]. apply safe_bind; [apply slice_safe; lia|]. intros tl _.
  apply safe_bind; [auto with dhow|]. intros [e consumed] _.
  apply safe_bind; [apply IH|]. by intros [].
Qed.

Lemma manifest_parse_print m :
  wf_manifest m -> Manifest_from_bytes (Manifest_to_vec m) = Ok m.
Proof.
  intros [Hh He Hc Hb]. unfold Manifest_from_bytes, Manifest_to_vec.
  rewrite mheader_parse_print by done. cbn [mbind outcome_bind].
  rewrite decide_False by lia. cbn zeta.
  pose proof (read_entries_print (entries m) (ManifestHeader_to_vec (header m)) []
    (Z.to_nat (mh_file_count (header m))) He) as Hr.
  rewrite app_nil_r, length_mheader in Hr by done. rewrite Hr by (rewrite Hc; unfold len; lia).
  cbn [mbind outcome_bind]. rewrite decide_False; [by destruct m|].
  intros Hn. apply Hn. by rewrite length_app, length_mheader.
Qed.

Lemma manifest_inv bytes m :
  Manifest_from_bytes bytes = Ok m -> wf_manifest m /\ bytes = Manifest_to_vec m.
Proof.
  unfold Manifest_from_bytes. intros H1. apply bind_Ok in H1 as (h & Hh & H1).
  apply mheader_inv in Hh as [Hh Hb]. pose proof (length_mheader h Hh) as Hl.
  assert (Hbl : (MANIFEST_HEADER_SIZE <= length bytes)%nat)
    by (rewrite Hb, length_app, Hl; lia).
  case_decide as Hmax; [done|]. apply bind_Ok in H1 as ([es off] & Hes & H1).
  case_decide as Hoff; [done|]. injection H1 as <-.
  apply read_entries_inv in Hes as (Hwf & Hn & _ & Hsub); [|done].
  pose proof (wm_file_count h Hh) as [Hfc _]. split.
  - split; cbn; [done|done|unfold len; lia|unfold len; lia].
  - unfold Manifest_to_vec. cbn [header entries]. rewrite <- Hsub.
    rewrite Hb at 1. f_equal. unfold sub. rewrite firstn_all2; [done|].
    rewrite length_drop. lia.
Qed.

Lemma manifest_safe bytes : safe (Manifest_from_bytes bytes).
Proof.
  unfold Manifest_from_bytes. apply safe_bind; [auto with dhow|]. intros h _.
  case_decide; [done|]. apply safe_bind; [apply read_entries_safe|].
  intros [es off] _. by case_decide.
Qed.

#[export] Hint Resolve manifest_safe : dhow.

(** *** Signing bytes *)

Lemma wf_set_signature h sg : wf_mheader h -> length sg = 64%nat -> wf_mheader (set_signature h sg).
Proof. intros [] ?. by split. Qed.

Lemma wf_manifest_build h es sg :
  wf_manifest {| header := h; entries := es |} -> length sg = 64%nat ->
  wf_manifest (Manifest_build h es sg).
Proof. intros [] ?. split; cbn in *; [by apply wf_set_signature|done..]. Qed.

(** The signing bytes are the manifest with a zero signature. *)
Lemma signing_bytes_zero {E} m :
  wf_manifest m ->
  @signing_bytes E m = Ok (Manifest_to_vec (Manifest_build (header m) (entries m) (zeros 64))).
Proof.
  intros [Hh _ _ _]. pose proof (length_covered _ Hh) as Hc. pose proof (wm_signature _ Hh) as Hs.
  unfold CRC_OFFSET in Hc. unfold signing_bytes, fill_zero, SIGNATURE_OFFSET, MANIFEST_HEADER_SIZE.
  assert (Hshape : forall sg, Manifest_to_vec (Manifest_build (header m) (entries m) sg)
    = (covered_bytes (header m) ++ to_le 4 (mh_crc32c (header m)))
      ++ sg ++ concat (FileEntry_to_vec <$> entries m)).
  { intros sg. unfold Manifest_to_vec, ManifestHeader_to_vec. cbn -[app to_le].
    by rewrite <- !app_assoc. }
  assert (Hm : Manifest_to_vec m
    = Manifest_to_vec (Manifest_build (header m) (entries m) (mh_signature (header m))))
    by by destruct m as [[] ?].
  rewrite Hm, !Hshape.
  assert (Hpre : length (covered_bytes (header m) ++ to_le 4 (mh_crc32c (header m))) = 164%nat)
    by (rewrite length_app, Hc, length_to_le; done).
  rewrite decide_True by (rewrite length_app, Hpre, length_app, Hs; lia).
  rewrite take_app_length' by done. change (228 - 164)%nat with 64%nat. do 3 f_equal.
  rewrite app_assoc. apply drop_app_length'. rewrite length_app, Hpre, Hs. done.
Qed.

Lemma signing_bytes_of_spec m :
  wf_manifest m -> signing_bytes_of (Manifest_to_vec m) = signing_bytes m.
Proof.
  intros [Hh _ _ _]. unfold signing_bytes_of, signing_bytes.
  rewrite decide_False; [done|]. unfold Manifest_to_vec.
  rewrite length_app, length_mheader by done. lia.
Qed.

Lemma signing_bytes_of_safe bytes : safe (signing_bytes_of bytes).
Proof.
  unfold signing_bytes_of, fill_zero, SIGNATURE_OFFSET, MANIFEST_HEADER_SIZE.
  case_decide; [done|]. rewrite decide_True by lia. done.
Qed.

Lemma wf_header_new sid es total salt nonce p :
  length sid = 16%nat -> len es < 2 ^ 32 -> urange 64 total -> length salt = 32%nat ->
  length nonce = 24%nat -> wf_params p ->
  wf_mheader (ManifestHeader_new sid es total salt nonce p)
  /\ mh_file_count (ManifestHeader_new sid es total salt nonce p) = len es.
Proof.
  intros. pose proof (len_nonneg es). assert (Hc : as_u 32 (len es) = len es)
    by (apply as_u_id; unfold urange; lia). split; [|done].
  split; unfold ManifestHeader_new; cbn -[zeros covered_bytes]; try done; rewrite ?Hc.
  unfold urange. lia.
Qed.

Lemma demo_entry_wf : wf_entry demo_entry.
Proof.
  split; [by eexists|apply validate_name_Ok; vm_compute; reflexivity| |done].
  split; [vm_compute; discriminate|reflexivity].
Qed.

Lemma demo_params_wf : wf_params demo_params.
Proof. split; (reflexivity || (split; [vm_compute; discriminate|reflexivity])). Qed.

Lemma demo_manifest_wf : wf_manifest demo_manifest.
Proof.
  apply wf_manifest_build; [|done].
  destruct (wf_header_new (zeros 16) [demo_entry] 5 (zeros 32) (zeros 24) demo_params) as [Hh Hc];
    [done|by vm_compute|by vm_compute|done|done|apply demo_params_wf|].
  split; cbn [header entries]; [done|repeat constructor; apply demo_entry_wf|done|by vm_compute].
Qed.

(** ** Properties *)

(** C17: [validate_name] never panics and accepts exactly the non-empty names of
    at most 4096 bytes with no NUL, no backslash, no leading slash, no drive
    prefix and no [..] component; resolving an accepted name lexically from any
    directory ends in that directory or below it, and never leaves it. *)
Theorem manifest_names_confined s :
  safe (validate_name s)
  /\ (validate_name s = Ok tt <-> safe_name s)
  /\ (validate_name s = Ok tt ->
      join slash (split slash s) = s
      /\ forall dir, exists inner, resolve dir (split slash s) = Some (inner ++ dir)).
Proof.
  split; [apply validate_name_safe|]. split; [apply validate_name_Ok|].
  intros (_ & _ & _ & _ & _ & _ & Hd)%validate_name_Ok. split; [apply join_split|].
  intros dir. by apply resolve_descends.
Qed.

(** [FileEntry::from_bytes] never panics, and it reads an entry exactly
    when the input starts with the serialization of a well-formed entry, of
    which it consumes every byte. *)
Theorem manifest_entry_wire bytes e n :
  safe (FileEntry_from_bytes bytes)
  /\ (FileEntry_from_bytes bytes = Ok (e, n)
      <-> wf_entry e /\ n = length (FileEntry_to_vec e)
          /\ exists rest, bytes = FileEntry_to_vec e ++ rest).
Proof.
  split; [apply entry_safe|]. split.
  - intros (? & ? & ?)%entry_inv. eauto.
  - intros (? & -> & rest & ->). by apply entry_parse_print.
Qed.

(** C18: [Manifest::from_bytes] never panics, whatever the bytes and whatever
    count they declare, and it accepts exactly the serializations of
    well-formed manifests: a parsed manifest serializes back to the very bytes
    it came from, with no trailing byte. *)
Theorem manifest_wire bytes m :
  safe (Manifest_from_bytes bytes)
  /\ (Manifest_from_bytes bytes = Ok m <-> wf_manifest m /\ bytes = Manifest_to_vec m).
Proof.
  split; [apply manifest_safe|]. split; [apply manifest_inv|].
  intros [? ->]. by apply manifest_parse_print.
Qed.

(** the signature covers the whole manifest and only the signature field is
    left out: signer and verifier build the same bytes whatever the signature
    is, and two well-formed manifests with the same signing bytes have the same
    header fields and the same entries. *)
Theorem manifest_signing_bytes m1 m2 sg :
  wf_manifest m1 -> wf_manifest m2 -> length sg = 64%nat ->
  signing_bytes_of (Manifest_to_vec (Manifest_build (header m1) (entries m1) sg))
  = signing_bytes m1
  /\ (signing_bytes_of (Manifest_to_vec m1) = signing_bytes_of (Manifest_to_vec m2) ->
      Manifest_build (header m1) (entries m1) sg = Manifest_build (header m2) (entries m2) sg).
Proof.
  intros H1 H2 Hsg.
  assert (Hz : forall m sg, wf_manifest m -> length sg = 64%nat ->
    wf_manifest (Manifest_build (header m) (entries m) sg))
    by (intros m ? ? ?; apply wf_manifest_build; [by destruct m|done]).
  split.
  - by rewrite signing_bytes_of_spec, !signing_bytes_zero by auto.
  - rewrite !signing_bytes_of_spec, !signing_bytes_zero by done. intros Heq%Ok_inj.
    assert (Hb : Manifest_build (header m1) (entries m1) (zeros 64)
                 = Manifest_build (header m2) (entries m2) (zeros 64)).
    { apply (Ok_inj (E := ManifestError)). rewrite <- !manifest_parse_print by auto. by rewrite Heq. }
    unfold Manifest_build, set_signature in *. injection Hb. intros. congruence.
Qed.

Lemma manifest_signing_bytes_witness :
  signing_bytes_of (Manifest_to_vec (Manifest_build (header demo_manifest)
    (entries demo_manifest) (zeros 64)))
  = signing_bytes demo_manifest.
Proof.
  apply (manifest_signing_bytes demo_manifest demo_manifest (zeros 64));
    [apply demo_manifest_wf|apply demo_manifest_wf|reflexivity].
Defined.

(** a manifest built from entries whose names pass [validate_name] and
    fields of the right widths parses back to itself, up to the entry bound. *)
Theorem manifest_build_parse sid es total salt nonce p sg :
  length sid = 16%nat -> Forall wf_entry es -> len es <= MAX_FILE_COUNT -> urange 64 total ->
  length salt = 32%nat -> length nonce = 24%nat -> wf_params p -> length sg = 64%nat ->
  let m := Manifest_build (ManifestHeader_new sid es total salt nonce p) es sg in
  Manifest_from_bytes (Manifest_to_vec m) = Ok m.
Proof.
  intros Hs He Hc Ht Hsa Hn Hp Hsg m. unfold MAX_FILE_COUNT in Hc.
  destruct (wf_header_new sid es total salt nonce p) as [Hh Hcount]; [lia || done..|].
  apply manifest_parse_print. unfold m. apply wf_manifest_build; [|done]. by split.
Qed.

Lemma manifest_build_parse_witness :
  let m := Manifest_build
    (ManifestHeader_new (zeros 16) [demo_entry] 5 (zeros 32) (zeros 24) demo_params)
    [demo_entry] (zeros 64) in
  Manifest_from_bytes (Manifest_to_vec m) = Ok m.
Proof.
  apply manifest_build_parse;
    [reflexivity|repeat constructor; apply demo_entry_wf|vm_compute; discriminate
    |split; [vm_compute; discriminate|reflexivity]|reflexivity|reflexivity
    |apply demo_params_wf|reflexivity].
Defined.
