(* ===== verification/Resume.v ===== *)
(** * Resume file (dhow-codec/src/resume.rs)

    Block entries with their symbol bitmaps, the 128-byte header, and the file
    that indexes a journal. *)

From S2P Require Import Prelude Errors Crc32c Primitives Instances Digest Bitmap.
From Stdlib Require Strings.String.

(** ** Definitions *)

(** ASCII "DHRS" *)
Definition RESUME_MAGIC : list byte := String.list_byte_of_string "DHRS".
Definition RESUME_VERSION : byte := byte.of_Z 2.
Definition RESUME_HEADER_SIZE : nat := 128.
Definition CRC_COVER_BYTES : nat := 92.
Definition INTEGRITY_COVER_BYTES : nat := 96.
Definition BLOCK_ENTRY_HEADER_SIZE : nat := 12.

Record BlockEntry := {
  block_index : Z;
  symbol_count : Z;
  symbols_held : Z;
  symbol_bitmap : list byte;
}.

#[export] Instance BlockEntry_dec : EqDecision BlockEntry.
Proof. solve_decision. Defined.

(** [BlockEntry::new] *)
Definition BlockEntry_new (block_index symbol_count symbols_held : Z)
    (symbol_bitmap : list byte) : BlockEntry :=
  {| block_index := block_index; symbol_count := symbol_count; symbols_held := symbols_held;
     symbol_bitmap := symbol_bitmap |}.

(** [BlockEntry::to_vec] *)
Definition BlockEntry_to_vec (e : BlockEntry) : list byte :=
  to_le 4 (block_index e)
  ++ to_le 4 (symbol_count e)
  ++ to_le 4 (symbols_held e)
  ++ symbol_bitmap e.

(** [BlockEntry::from_bytes]; [checks] says whether the sum of the bit counts
    is checked for overflow. *)
Definition BlockEntry_from_bytes (checks : bool) (bytes : list byte)
    : outcome ResumeError (BlockEntry * nat) :=
  if decide (length bytes < BLOCK_ENTRY_HEADER_SIZE)%nat
  then Err (Res.Truncated (Z.of_nat BLOCK_ENTRY_HEADER_SIZE) (len bytes))
  else
    block_index ← slice 0 4 bytes;
    symbol_count ← slice 4 8 bytes;
    symbols_held ← slice 8 12 bytes;
    let symbol_count := from_le symbol_count in
    let symbols_held := from_le symbols_held in
    if decide (symbol_count < symbols_held)
    then Err (Res.InvalidSymbolCount symbols_held)
    else
      let bitmap_len := div_ceil symbol_count 8 in
      let stop := Z.of_nat BLOCK_ENTRY_HEADER_SIZE + bitmap_len in
      if decide (2 ^ 64 <= stop) then Err (Res.InvalidSymbolCount symbol_count)
      else if decide (len bytes < stop) then Err (Res.Truncated stop (len bytes))
      else
        symbol_bitmap ← slice BLOCK_ENTRY_HEADER_SIZE (Z.to_nat stop) bytes;
        set ← sum_w checks 32 (count_ones <$> symbol_bitmap);
        if decide (set <> symbols_held) then Err (Res.HeldCountMismatch symbols_held set)
        else
          let used := symbol_count mod 8 in
          if match last symbol_bitmap with
             | Some last => bool_decide (used <> 0 /\ Z.shiftr (byte.unsigned last) used <> 0)
             | None => false
             end
          then Err (Res.InvalidSymbolCount symbol_count)
          else
            Ok ({| block_index := from_le block_index; symbol_count := symbol_count;
                   symbols_held := symbols_held; symbol_bitmap := symbol_bitmap |},
                Z.to_nat stop).

Record ResumeHeader := {
  rh_magic : list byte;
  rh_version : byte;
  rh_reserved1 : list byte;
  rh_session_id : list byte;
  rh_block_count : Z;
  rh_journal_bytes : Z;
  rh_journal_digest : list byte;
  rh_reserved2 : list byte;
  rh_crc32c : Z;
  rh_integrity_digest : list byte;
}.

Record ResumeFile := {
  rf_header : ResumeHeader;
  rf_entries : list BlockEntry;
}.

Section resume.
Context `{Blake3}.

(** [ResumeHeader::new] *)
Definition ResumeHeader_new (session_id : list byte) (journal_bytes : Z)
    (journal_digest : list byte) (entries : list BlockEntry) : ResumeHeader :=
  let block_count := as_u 32 (len entries) in
  let bytes :=
    RESUME_MAGIC ++ [RESUME_VERSION] ++ zeros 3 ++ session_id ++ to_le 4 block_count
    ++ to_le 8 journal_bytes ++ journal_digest ++ zeros 24 in
  let crc32c := crc32c_digest bytes in
  let integrity_digest := blake3_digest (bytes ++ to_le 4 crc32c) in
  {| rh_magic := RESUME_MAGIC; rh_version := RESUME_VERSION; rh_reserved1 := zeros 3;
     rh_session_id := session_id; rh_block_count := block_count;
     rh_journal_bytes := journal_bytes; rh_journal_digest := journal_digest;
     rh_reserved2 := zeros 24; rh_crc32c := crc32c; rh_integrity_digest := integrity_digest |}.

(** [ResumeHeader::to_vec] *)
Definition ResumeHeader_to_vec (h : ResumeHeader) : list byte :=
  rh_magic h
  ++ [rh_version h]
  ++ rh_reserved1 h
  ++ rh_session_id h
  ++ to_le 4 (rh_block_count h)
  ++ to_le 8 (rh_journal_bytes h)
  ++ rh_journal_digest h
  ++ rh_reserved2 h
  ++ to_le 4 (rh_crc32c h)
  ++ rh_integrity_digest h.

(** [ResumeHeader::from_bytes] *)
Definition ResumeHeader_from_bytes (bytes : list byte) : outcome ResumeError ResumeHeader :=
  if decide (length bytes < RESUME_HEADER_SIZE)%nat
  then Err (Res.Truncated (Z.of_nat RESUME_HEADER_SIZE) (len bytes))
  else
    magic ← slice 0 4 bytes;
    if decide (magic <> RESUME_MAGIC) then Err (Res.InvalidMagic magic)
    else
      version ← index 4 bytes;
      if decide (version <> RESUME_VERSION) then Err (Res.UnsupportedVersion version)
      else
        reserved1 ← slice 5 8 bytes;
        if decide (reserved1 <> zeros 3) then Err (Res.ReservedNotZero 5)
        else
          session_id ← slice 8 24 bytes;
          block_count ← slice 24 28 bytes;
          journal_bytes ← slice 28 36 bytes;
          journal_digest ← slice 36 68 bytes;
          reserved2 ← slice 68 92 bytes;
          if decide (reserved2 <> zeros 24) then Err (Res.ReservedNotZero 68)
          else
            crc32c ← slice 92 96 bytes;
            integrity_digest ← slice 96 128 bytes;
            crc_covered ← slice 0 92 bytes;
            if decide (from_le crc32c <> crc32c_digest crc_covered)
            then Err Res.IntegrityCheckFailed
            else
              covered ← slice 0 96 bytes;
              if decide (integrity_digest <> blake3_digest covered)
              then Err Res.IntegrityCheckFailed
              else
                Ok {| rh_magic := magic; rh_version := version; rh_reserved1 := reserved1;
                      rh_session_id := session_id; rh_block_count := from_le block_count;
                      rh_journal_bytes := from_le journal_bytes;
                      rh_journal_digest := journal_digest; rh_reserved2 := reserved2;
                      rh_crc32c := from_le crc32c; rh_integrity_digest := integrity_digest |}.

(** [ResumeFile::build] and [new] *)
Definition ResumeFile_build (header : ResumeHeader) (entries : list BlockEntry) : ResumeFile :=
  {| rf_header := header; rf_entries := entries |}.

Definition ResumeFile_new (session_id : list byte) (journal_bytes : Z)
    (journal_digest : list byte) (entries : list BlockEntry) : ResumeFile :=
  let header := ResumeHeader_new session_id journal_bytes journal_digest entries in
  ResumeFile_build header entries.

(** [ResumeFile::to_vec] *)
Definition ResumeFile_to_vec (f : ResumeFile) : list byte :=
  ResumeHeader_to_vec (rf_header f) ++ concat (BlockEntry_to_vec <$> rf_entries f).

(** The entry loop of [ResumeFile::from_bytes], from entry [index] on. *)
Fixpoint read_blocks (checks : bool) (count : nat) (index : Z) (bytes : list byte) (offset : nat)
    : outcome ResumeError (list BlockEntry * nat) :=
  match count with
  | O => Ok ([], offset)
  | S count' =>
    tail ← slice offset (length bytes) bytes;
    '(entry, consumed) ← BlockEntry_from_bytes checks tail;
    if decide (block_index entry <> index)
    then Err (Res.BlockIndexOutOfRange (block_index entry))
    else
      '(entries, offset') ← read_blocks checks count' (index + 1) bytes (offset + consumed);
      Ok (entry :: entries, offset')
  end.

(** [ResumeFile::from_bytes] *)
Definition ResumeFile_from_bytes (checks : bool) (bytes : list byte)
    : outcome ResumeError ResumeFile :=
  header ← ResumeHeader_from_bytes bytes;
  let block_count := Z.to_nat (rh_block_count header) in
  '(entries, offset) ← read_blocks checks block_count 0 bytes RESUME_HEADER_SIZE;
  if decide (offset <> length bytes)
  then Err (Res.TrailingBytes (len bytes - Z.of_nat offset))
  else Ok {| rf_header := header; rf_entries := entries |}.

(** *** Specification *)

(** An entry whose two views of its progress agree, and whose bitmap names no
    symbol the block does not have. *)
Record wf_block (e : BlockEntry) : Prop := {
  wb_index : urange 32 (block_index e);
  wb_count : urange 32 (symbol_count e);
  wb_bitmap : len (symbol_bitmap e) = div_ceil (symbol_count e) 8;
  wb_held : symbols_held e = popcount (symbol_bitmap e);
  wb_padding : forall i, 0 <= i -> bit (symbol_bitmap e) i = true -> i < symbol_count e;
}.

(** A file [ResumeFile::new] builds: every block once, in order. *)
Record wf_resume (f : ResumeFile) : Prop := {
  wr_header : rf_header f = ResumeHeader_new (rh_session_id (rf_header f))
    (rh_journal_bytes (rf_header f)) (rh_journal_digest (rf_header f)) (rf_entries f);
  wr_session_id : length (rh_session_id (rf_header f)) = 16%nat;
  wr_journal_bytes : urange 64 (rh_journal_bytes (rf_header f));
  wr_journal_digest : length (rh_journal_digest (rf_header f)) = 32%nat;
  wr_entries : Forall wf_block (rf_entries f);
  wr_order : block_index <$> rf_entries f = Z.of_nat <$> seq 0 (length (rf_entries f));
  wr_count : len (rf_entries f) < 2 ^ 32;
}.

(** The bytes the header CRC covers. *)
Definition resume_body (session_id : list byte) (block_count journal_bytes : Z)
    (journal_digest : list byte) : list byte :=
  RESUME_MAGIC ++ [RESUME_VERSION] ++ zeros 3 ++ session_id ++ to_le 4 block_count
  ++ to_le 8 journal_bytes ++ journal_digest ++ zeros 24.

(** A well-formed header on its own. *)
Record wf_rheader (h : ResumeHeader) : Prop := {
  wrh_magic : rh_magic h = RESUME_MAGIC;
  wrh_version : rh_version h = RESUME_VERSION;
  wrh_reserved1 : rh_reserved1 h = zeros 3;
  wrh_session_id : length (rh_session_id h) = 16%nat;
  wrh_block_count : urange 32 (rh_block_count h);
  wrh_journal_bytes : urange 64 (rh_journal_bytes h);
  wrh_journal_digest : length (rh_journal_digest h) = 32%nat;
  wrh_reserved2 : rh_reserved2 h = zeros 24;
  wrh_crc32c : rh_crc32c h = crc32c_digest (resume_body (rh_session_id h) (rh_block_count h)
    (rh_journal_bytes h) (rh_journal_digest h));
  wrh_integrity : rh_integrity_digest h = blake3_digest (resume_body (rh_session_id h)
    (rh_block_count h) (rh_journal_bytes h) (rh_journal_digest h) ++ to_le 4 (rh_crc32c h));
}.

End resume.

(** An example, for concrete runs: symbols 0 and 2 of 8. *)
Definition demo_block : BlockEntry := BlockEntry_new 0 8 2 [byte.of_Z 5].

Definition demo_resume : ResumeFile := ResumeFile_new (zeros 16) 512 (zeros 32) [demo_block].

(** ** Lemmas *)

(** *** Block entries *)

Lemma bitmap_check_iff n bm :
  (match last bm with
   | Some b => bool_decide (n mod 8 <> 0 /\ Z.shiftr (byte.unsigned b) (n mod 8) <> 0)
   | None => false
   end = false) <-> padding_clear n bm.
Proof.
  unfold padding_clear. destruct (last bm) as [b|]; [|done]. rewrite bool_decide_eq_false.
  destruct (decide (n mod 8 = 0)); destruct (decide (Z.shiftr (byte.unsigned b) (n mod 8) = 0));
    tauto.
Qed.

Lemma count_ones_nonneg_all bm : Forall (fun z => 0 <= z) (count_ones <$> bm).
Proof. apply Forall_fmap, Forall_true. intros b. apply count_ones_range. Qed.

Lemma count_ones_urange_all bm : Forall (urange 32) (count_ones <$> bm).
Proof.
  apply Forall_fmap, Forall_true. intros b. pose proof (count_ones_range b).
  unfold compose, urange. lia.
Qed.

Lemma sum_bits_Ok checks bm :
  popcount bm < 2 ^ 32 -> @sum_w ResumeError checks 32 (count_ones <$> bm) = Ok (popcount bm).
Proof. intros. by rewrite sum_w_Ok by auto using count_ones_nonneg_all. Qed.

(** Whatever the build, a sum that succeeds is the popcount modulo [2^32]. *)
Lemma sum_w_inv {E} checks w l z :
  0 <= w -> Forall (urange w) l -> @sum_w E checks w l = Ok z -> z = zsum l mod 2 ^ w.
Proof.
  intros Hw Hl Hz. destruct checks; [|rewrite sum_w_wrap in Hz by done; by injection Hz].
  enough (zsum l < 2 ^ w) as Hlt.
  { rewrite sum_w_Ok in Hz by (done || (apply (Forall_impl _ _ _ Hl); unfold urange; lia)).
    injection Hz as <-. rewrite Z.mod_small; [done|]. split; [|done]. apply zsum_nonneg.
    apply (Forall_impl _ _ _ Hl). unfold urange. lia. }
  assert (Hpanic : forall l, foldl (fun acc x => a ← acc; @add_w E true w a x) Panic l = Panic)
    by (induction l0; done).
  unfold sum_w in Hz. enough (forall a, foldl (fun acc x => a ← acc; @add_w E true w a x) (Ok a) l
    = Ok z -> a < 2 ^ w -> a + zsum l < 2 ^ w) as Hgen.
  { apply (Hgen 0 Hz). by apply Z.pow_pos_nonneg. }
  clear Hz. induction Hl as [|x l Hx Hl IH]; intros a Hz Ha; [cbn; lia|].
  cbn [foldl mbind outcome_bind] in Hz. unfold add_w at 2 in Hz. case_decide.
  - apply IH in Hz; [|done]. unfold zsum in *. cbn. lia.
  - by rewrite Hpanic in Hz.
Qed.

Lemma length_block e :
  len (symbol_bitmap e) = div_ceil (symbol_count e) 8 ->
  length (BlockEntry_to_vec e) = Z.to_nat (12 + div_ceil (symbol_count e) 8).
Proof.
  intros Hb. unfold BlockEntry_to_vec. rewrite <- Hb, !length_app, !length_to_le. unfold len. lia.
Qed.

Lemma block_parse_print checks e rest :
  wf_block e ->
  BlockEntry_from_bytes checks (BlockEntry_to_vec e ++ rest)
  = Ok (e, length (BlockEntry_to_vec e)).
Proof.
  intros [Hi Hc Hb Hh Hp]. assert (Hc0 : 0 <= symbol_count e) by apply Hc.
  pose proof (div_ceil_nonneg (symbol_count e) 8 ltac:(lia) Hc0) as Hn.
  pose proof (div_ceil_le (symbol_count e) 8 ltac:(lia) Hc0) as Hle.
  pose proof (length_block e Hb) as Hlen.
  apply (padding_clear_iff (symbol_count e)) in Hp; [|done|done].
  pose proof (popcount_padding (symbol_count e) (symbol_bitmap e) Hc0 Hb Hp) as Hpop.
  pose proof (popcount_nonneg (symbol_bitmap e)) as Hpop0.
  unfold BlockEntry_from_bytes, BLOCK_ENTRY_HEADER_SIZE.
  rewrite decide_False by (rewrite length_app, Hlen; lia).
  assert (Hbl : len (BlockEntry_to_vec e ++ rest)
    = 12 + div_ceil (symbol_count e) 8 + len rest)
    by (rewrite len_app; unfold len at 1; rewrite Hlen; lia).
  pose proof (len_nonneg rest). rewrite Hbl, Hlen. clear Hbl.
  unfold BlockEntry_to_vec. rewrite <- !app_assoc. destruct e as [bi sc sh bm].
  cbn -[app to_le div_ceil popcount Z.pow] in *. unfold urange in *. read_fields.
  rewrite !from_to_le by (unfold urange; lia). cbn zeta.
  rewrite decide_False by lia. rewrite decide_False by lia. rewrite decide_False by lia.
  assert (Hstop : Z.to_nat (12 + div_ceil sc 8) = (12 + length bm)%nat) by (unfold len in Hb; lia).
  change (Z.of_nat 12) with 12. rewrite Hstop. erewrite slice_skip; [|apply length_to_le|lia|lia]. cbn [Nat.sub Nat.add].
  erewrite slice_skip; [|apply length_to_le|lia|lia]. cbn [Nat.sub Nat.add].
  erewrite slice_skip; [|apply length_to_le|lia|lia]. cbn [Nat.sub Nat.add].
  rewrite slice_here by lia. cbn [mbind outcome_bind].
  rewrite sum_bits_Ok by lia. cbn [mbind outcome_bind]. rewrite decide_False by lia.
  apply bitmap_check_iff in Hp. by rewrite Hp.
Qed.

Lemma block_inv checks bytes e n :
  BlockEntry_from_bytes checks bytes = Ok (e, n) ->
  wf_block e /\ n = length (BlockEntry_to_vec e) /\ bytes = BlockEntry_to_vec e ++ drop n bytes.
Proof.
  unfold BlockEntry_from_bytes, BLOCK_ENTRY_HEADER_SIZE. case_decide as Hlen; [done|]. intros H.
  apply bind_Ok in H as (bi & Hbi & H). apply bind_Ok in H as (sc & Hsc & H).
  apply bind_Ok in H as (sh & Hsh & H). cbn zeta in H. inv_reads.
  assert (Hl : forall lo, (lo <= 8)%nat -> length (sub lo 4 bytes) = 4%nat)
    by (intros; apply length_sub; lia).
  assert (Hbil : length bi = 4%nat) by (subst bi; apply Hl; lia).
  assert (Hscl : length sc = 4%nat) by (subst sc; apply Hl; lia).
  assert (Hshl : length sh = 4%nat) by (subst sh; apply Hl; lia).
  pose proof (from_le_range 4 sc Hscl) as Hscr. assert (Hsc0 : 0 <= from_le sc) by apply Hscr.
  pose proof (div_ceil_nonneg (from_le sc) 8 ltac:(lia) Hsc0) as Hn.
  case_decide as Hheld; [done|]. case_decide; [done|]. case_decide as Hstop; [done|].
  apply bind_Ok in H as (bm & Hbm & H). apply bind_Ok in H as (set & Hset & H).
  case_decide as Heq; [done|].
  destruct (match last bm with Some _ => _ | None => _ end) eqn:Hpad; [done|].
  injection H as <- <-. apply bitmap_check_iff in Hpad.
  apply slice_inv in Hbm as [[Hbm1 Hbm2] Hbm].
  assert (Hbml : len bm = div_ceil (from_le sc) 8)
    by (subst bm; unfold len; rewrite length_sub by lia; lia).
  apply sum_w_inv in Hset; [|lia|apply count_ones_urange_all]. fold (popcount bm) in Hset.
  pose proof (popcount_padding (from_le sc) bm Hsc0 Hbml Hpad) as Hpop.
  pose proof (popcount_nonneg bm). unfold urange in Hscr.
  rewrite Z.mod_small in Hset by lia. split; [|split].
  - split; cbn -[popcount].
    + by apply (from_le_range 4).
    + done.
    + done.
    + congruence.
    + by apply (padding_clear_iff (from_le sc)).
  - rewrite length_block by done. done.
  - unfold BlockEntry_to_vec. cbn -[to_le app drop]. rewrite !to_from_le by done.
    assert (Hjoin : bi ++ sc ++ sh ++ bm = sub 0 (Z.to_nat (12 + div_ceil (from_le sc) 8)) bytes).
    { rewrite Hbm at 1. rewrite Hbi, Hsc, Hsh. glue_reads.
      f_equal.
      rewrite <- Hsc. lia. }
    rewrite Hjoin. by rewrite app_sub_drop.
Qed.

Lemma block_safe checks bytes :
  checks = false \/ len bytes < 2 ^ 29 -> safe (BlockEntry_from_bytes checks bytes).
Proof.
  intros Hc. unfold BlockEntry_from_bytes, BLOCK_ENTRY_HEADER_SIZE. case_decide; [done|].
  apply safe_bind; [apply slice_safe; lia|]. intros bi _.
  apply safe_bind; [apply slice_safe; lia|]. intros sc _.
  apply safe_bind; [apply slice_safe; lia|]. intros sh _. cbn zeta.
  pose proof (from_le_range (length sc) sc eq_refl) as [Hsc _].
  pose proof (div_ceil_nonneg (from_le sc) 8 ltac:(lia) Hsc) as Hd.
  do 3 (case_decide; [done|]). unfold len in *.
  apply safe_bind; [apply slice_safe; lia|intros bm Hbm].
  apply slice_inv in Hbm as [Hle Hbm].
    assert (Hbml : (length bm <= length bytes)%nat).
    { rewrite Hbm. unfold sub. rewrite length_take, length_drop. lia. }
    apply safe_bind; [|intros ? _; case_decide; [done|]; by repeat case_match].
    destruct Hc as [->|Hlen].
    + by rewrite sum_w_wrap by (done || apply count_ones_urange_all).
    + pose proof (popcount_le bm). unfold len in *. by rewrite sum_bits_Ok by lia.
Qed.

(** *** Header *)

Section header.
Context `{Blake3Laws}.

Lemma length_resume_body sid n jb jd :
  length sid = 16%nat -> length jd = 32%nat -> length (resume_body sid n jb jd) = CRC_COVER_BYTES.
Proof.
  intros Hs Hd. unfold resume_body. by rewrite !length_app, !length_to_le, !length_zeros, Hs, Hd.
Qed.

Lemma rheader_to_vec_body h :
  wf_rheader h ->
  ResumeHeader_to_vec h
  = resume_body (rh_session_id h) (rh_block_count h) (rh_journal_bytes h) (rh_journal_digest h)
    ++ to_le 4 (rh_crc32c h) ++ rh_integrity_digest h.
Proof.
  intros [Hm Hv H1 _ _ _ _ H2 _ _]. unfold ResumeHeader_to_vec, resume_body.
  by rewrite Hm, Hv, H1, H2, <- !app_assoc.
Qed.

Lemma length_rheader h : wf_rheader h -> length (ResumeHeader_to_vec h) = RESUME_HEADER_SIZE.
Proof.
  intros Hh. rewrite rheader_to_vec_body by done. destruct Hh.
  by rewrite !length_app, length_resume_body, length_to_le, wrh_integrity0, length_blake3_digest.
Qed.

Lemma rheader_parse_print h rest :
  wf_rheader h -> ResumeHeader_from_bytes (ResumeHeader_to_vec h ++ rest) = Ok h.
Proof.
  intros Hh. pose proof (length_rheader h Hh) as Hl. unfold ResumeHeader_from_bytes.
  rewrite decide_False by (rewrite length_app, Hl; lia).
  pose proof (length_resume_body (rh_session_id h) (rh_block_count h) (rh_journal_bytes h)
    (rh_journal_digest h) (wrh_session_id h Hh) (wrh_journal_digest h Hh)) as Hbl.
  assert (exists body, @slice ResumeError _ 0 92 (ResumeHeader_to_vec h ++ rest) = Ok body
    /\ @slice ResumeError _ 0 96 (ResumeHeader_to_vec h ++ rest)
       = Ok (body ++ to_le 4 (rh_crc32c h))
    /\ rh_crc32c h = crc32c_digest body
    /\ rh_integrity_digest h = blake3_digest (body ++ to_le 4 (rh_crc32c h)))
    as (body & Hs1 & Hs2 & Hc & Hi).
  { eexists. rewrite (rheader_to_vec_body h Hh). split; [|split; [|split; apply Hh]].
    - rewrite <- !app_assoc. by apply slice_here.
    - rewrite <- !app_assoc, app_assoc. apply slice_here. by rewrite length_app, Hbl. }
  assert (Hcrc : urange 32 (rh_crc32c h)) by (rewrite Hc; apply digest_range).
  assert (Hil : length (rh_integrity_digest h) = 32%nat)
    by (rewrite Hi; apply length_blake3_digest).
  rewrite Hs1, Hs2. clear Hs1 Hs2 Hl Hbl. unfold ResumeHeader_to_vec.
  destruct h as [magic version r1 sid bc jb jd r2 crc ig]. destruct Hh as [Hm Hv Hr1 ? ? ? ? Hr2 _ _].
  cbn -[app zeros to_le] in *. subst magic version r1 r2. rewrite <- !app_assoc.
  read_fields. rewrite decide_False by auto. read_fields. rewrite decide_False by auto.
  read_fields. rewrite decide_False by auto. read_fields. rewrite decide_False by auto.
  read_fields. rewrite !from_to_le by done. rewrite decide_False by auto. read_fields.
  by rewrite decide_False by auto.
Qed.

Lemma rheader_inv bytes h :
  ResumeHeader_from_bytes bytes = Ok h ->
  wf_rheader h /\ bytes = ResumeHeader_to_vec h ++ drop RESUME_HEADER_SIZE bytes.
Proof.
  unfold ResumeHeader_from_bytes. case_decide as Hlen; [done|]. intros H1.
  unfold RESUME_HEADER_SIZE in Hlen.
  apply bind_Ok in H1 as (magic & Hmagic & H1). case_decide as Hm; [done|].
  apply bind_Ok in H1 as (version & Hversion & H1). case_decide as Hv; [done|].
  apply bind_Ok in H1 as (r1 & Hreserved1 & H1). case_decide as Hr1; [done|].
  do 4 (apply bind_Ok in H1 as (? & ? & H1)).
  apply bind_Ok in H1 as (r2 & Hreserved2 & H1). case_decide as Hr2; [done|].
  apply bind_Ok in H1 as (crc & Hcrc & H1). apply bind_Ok in H1 as (ig & Hig & H1).
  apply bind_Ok in H1 as (c1 & Hc1 & H1). case_decide as Hc; [done|].
  apply bind_Ok in H1 as (c2 & Hc2 & H1). case_decide as Hi; [done|]. injection H1 as <-.
  inv_reads.
  assert (Hl : forall lo n, (lo + n <= 128)%nat -> length (sub lo n bytes) = n)
    by (intros; apply length_sub; lia).
  assert (Hbody : c1 = resume_body x (from_le x0) (from_le x1) x2).
  { unfold resume_body. rewrite !to_from_le by (subst; apply Hl; lia).
    rewrite <- Hm, <- Hr1, <- Hr2, <- Hv, <- Hversion. subst. by glue_reads. }
  assert (Hbody2 : c2 = c1 ++ to_le 4 (from_le crc)).
  { rewrite to_from_le by (subst; apply Hl; lia). subst. by glue_reads. }
  split.
  - split; cbn -[resume_body zeros]; try done; try (subst; apply Hl; lia);
      try (subst; first [apply (from_le_range 8) | apply (from_le_range 4)]; apply Hl; lia).
    + by rewrite <- Hbody.
    + rewrite <- Hbody, <- Hbody2. done.
  - unfold ResumeHeader_to_vec. cbn -[app drop to_le].
    rewrite !to_from_le by (subst; apply Hl; lia). rewrite <- Hversion. subst.
    glue_reads. by rewrite app_sub_drop.
Qed.

Lemma rheader_safe bytes : safe (ResumeHeader_from_bytes bytes).
Proof.
  unfold ResumeHeader_from_bytes, RESUME_HEADER_SIZE. case_decide; [done|]. solve_safe.
Qed.

Lemma wf_rheader_new sid jb jd es :
  length sid = 16%nat -> urange 64 jb -> length jd = 32%nat -> len es < 2 ^ 32 ->
  wf_rheader (ResumeHeader_new sid jb jd es)
  /\ rh_block_count (ResumeHeader_new sid jb jd es) = len es.
Proof.
  intros. pose proof (len_nonneg es).
  assert (Hc : as_u 32 (len es) = len es) by (apply as_u_id; unfold urange; lia).
  split; [|done]. split; unfold ResumeHeader_new; cbn -[zeros resume_body]; try done; rewrite ?Hc.
  unfold urange. lia.
Qed.

(** A well-formed header is the one [ResumeHeader::new] builds. *)
Lemma rheader_new_eq h (es : list BlockEntry) :
  wf_rheader h -> rh_block_count h = len es ->
  h = ResumeHeader_new (rh_session_id h) (rh_journal_bytes h) (rh_journal_digest h) es.
Proof.
  intros [Hm Hv Hr1 ? Hbc ? ? Hr2 Hc Hi] Hn. unfold ResumeHeader_new. rewrite <- Hn, as_u_id by done.
  fold (resume_body (rh_session_id h) (rh_block_count h) (rh_journal_bytes h)
    (rh_journal_digest h)).
  rewrite <- Hc, <- Hi. destruct h. cbn in *. by subst.
Qed.

End header.

#[export] Hint Resolve rheader_safe : dhow.

(** *** File *)

Lemma read_blocks_print checks es pre i :
  Forall wf_block es -> block_index <$> es = (fun k => i + Z.of_nat k) <$> seq 0 (length es) ->
  read_blocks checks (length es) i (pre ++ concat (BlockEntry_to_vec <$> es)) (length pre)
  = Ok (es, (length pre + length (concat (BlockEntry_to_vec <$> es)))%nat).
Proof.
  intros Hes. revert pre i. induction Hes as [|e es He Hes IH]; intros pre i Hord.
  { cbn. do 2 f_equal. lia. }
  cbn [length seq fmap list_fmap] in Hord. injection Hord as Hi Hord.
  rewrite <- fmap_S_seq, <- list_fmap_compose in Hord.
  cbn [length read_blocks fmap list_fmap concat].
  rewrite slice_skip with (k := length pre) by (rewrite ?length_app; lia).
  rewrite Nat.sub_diag, slice_all by (rewrite (length_app pre); lia). cbn [mbind outcome_bind].
  rewrite block_parse_print by done. cbn [mbind outcome_bind]. rewrite decide_False by lia.
  specialize (IH (pre ++ BlockEntry_to_vec e) (i + 1)). rewrite length_app, <- app_assoc in IH.
  rewrite IH.
  - cbn [mbind outcome_bind]. rewrite length_app. do 2 f_equal. lia.
  - rewrite Hord. apply list_fmap_ext. intros ? k _. cbn. lia.
Qed.

Lemma read_blocks_inv checks count i bytes offset es offset' :
  (offset <= length bytes)%nat -> read_blocks checks count i bytes offset = Ok (es, offset') ->
  Forall wf_block es /\ length es = count
  /\ block_index <$> es = (fun k => i + Z.of_nat k) <$> seq 0 count
  /\ (offset <= offset' <= length bytes)%nat
  /\ sub offset (offset' - offset) bytes = concat (BlockEntry_to_vec <$> es).
Proof.
  revert i offset es. induction count as [|count IH]; intros i offset es Hoff;
    cbn [read_blocks].
  { intros [= <- <-]. split_and!; try done. by rewrite Nat.sub_diag. }
  intros H1. apply bind_Ok in H1 as (tl & Htl & H1).
  apply bind_Ok in H1 as ([e consumed] & He & H1). case_decide as Hi; [done|].
  apply bind_Ok in H1 as ([es' off] & Hes & H1). injection H1 as <- <-.
  apply slice_inv in Htl as [_ ->]. apply block_inv in He as (Hwf & Hc & Hb).
  unfold sub in Hb. rewrite (firstn_all2 (drop offset bytes)) in Hb by (rewrite length_drop; lia).
  assert (Hcl : (consumed <= length bytes - offset)%nat).
  { rewrite <- length_drop, Hb, length_app, Hc. lia. }
  apply IH in Hes as (? & ? & Hord & ? & Hsub); [|lia].
  split_and!; [by constructor|by f_equal/=| |lia|lia|].
  - cbn [seq fmap list_fmap]. rewrite Hord, <- fmap_S_seq, <- list_fmap_compose.
    f_equal; [lia|]. apply list_fmap_ext. intros ? k _. cbn. lia.
  - cbn [fmap list_fmap concat]. rewrite <- Hsub.
    replace (off - offset)%nat with (consumed + (off - (offset + consumed)))%nat by lia.
    rewrite <- (sub_join offset). f_equal. unfold sub at 1. rewrite Hb, Hc. apply take_app_length.
Qed.

Lemma read_blocks_safe checks count i bytes offset :
  checks = false \/ len bytes < 2 ^ 29 -> (offset <= length bytes)%nat ->
  safe (read_blocks checks count i bytes offset).
Proof.
  intros Hc. revert i offset. induction count as [|count IH]; intros i offset Hoff; [done|].
  cbn [read_blocks]. rewrite slice_Ok by lia. cbn [mbind outcome_bind].
  apply safe_bind.
  - apply block_safe. destruct Hc as [?|Hc]; [by left|right]. unfold len, sub in *.
    rewrite length_take, length_drop. lia.
  - intros [e consumed] He. apply block_inv in He as (_ & Hn & Hb). case_decide; [done|].
    assert (Hcl : (consumed <= length bytes - offset)%nat).
    { apply (f_equal length) in Hb. rewrite length_app, <- Hn in Hb.
      unfold sub in Hb at 1. rewrite length_take, length_drop in Hb. lia. }
    apply safe_bind; [apply IH; lia|]. by intros [].
Qed.

Section file.
Context `{Blake3Laws}.

Lemma wf_resume_header f : wf_resume f -> wf_rheader (rf_header f)
  /\ rh_block_count (rf_header f) = len (rf_entries f).
Proof. intros [Hh ? ? ? _ _ ?]. rewrite Hh. by apply wf_rheader_new. Qed.

Lemma resume_parse_print checks f :
  wf_resume f -> ResumeFile_from_bytes checks (ResumeFile_to_vec f) = Ok f.
Proof.
  intros Hf. destruct (wf_resume_header f Hf) as [Hh Hn]. destruct Hf.
  unfold ResumeFile_from_bytes, ResumeFile_to_vec. rewrite rheader_parse_print by done.
  cbn [mbind outcome_bind]. rewrite Hn. unfold len. rewrite Nat2Z.id.
  pose proof (read_blocks_print checks (rf_entries f) (ResumeHeader_to_vec (rf_header f)) 0) as Hr.
  rewrite length_rheader in Hr by done. rewrite Hr by done.
  cbn [mbind outcome_bind]. rewrite decide_False; [by destruct f|].
  intros Hne. apply Hne. by rewrite length_app, length_rheader.
Qed.

Lemma resume_inv checks bytes f :
  ResumeFile_from_bytes checks bytes = Ok f -> wf_resume f /\ bytes = ResumeFile_to_vec f.
Proof.
  unfold ResumeFile_from_bytes. intros H1. apply bind_Ok in H1 as (h & Hh & H1).
  apply rheader_inv in Hh as [Hh Hb]. pose proof (length_rheader h Hh) as Hl.
  assert (Hbl : (RESUME_HEADER_SIZE <= length bytes)%nat) by (rewrite Hb, length_app, Hl; lia).
  apply bind_Ok in H1 as ([es off] & Hes & H1). case_decide as Hoff; [done|]. injection H1 as <-.
  apply read_blocks_inv in Hes as (Hwf & Hn & Hord & _ & Hsub); [|done].
  pose proof (wrh_block_count h Hh) as Hbc. unfold urange in Hbc.
  assert (Hcount : rh_block_count h = len es) by (unfold len; lia). split.
  - split; cbn [rf_header rf_entries]; [by apply rheader_new_eq|apply Hh..|done| |lia].
    rewrite Hord, Hn. apply list_fmap_ext. intros ? k _. lia.
  - unfold ResumeFile_to_vec. cbn [rf_header rf_entries]. rewrite <- Hsub.
    rewrite Hb at 1. f_equal. unfold sub. rewrite firstn_all2; [done|].
    rewrite length_drop. lia.
Qed.

Lemma resume_safe checks bytes :
  checks = false \/ len bytes < 2 ^ 29 -> safe (ResumeFile_from_bytes checks bytes).
Proof.
  intros Hc. unfold ResumeFile_from_bytes. apply safe_bind; [auto with dhow|]. intros h Hh.
  apply rheader_inv in Hh as [Hh Hb]. apply safe_bind.
  - apply read_blocks_safe; [done|]. rewrite Hb, length_app, length_rheader by done. lia.
  - intros [es off] _. by case_decide.
Qed.

Lemma wf_resume_new sid jb jd es :
  length sid = 16%nat -> urange 64 jb -> length jd = 32%nat -> len es < 2 ^ 32 ->
  Forall wf_block es -> block_index <$> es = Z.of_nat <$> seq 0 (length es) ->
  wf_resume (ResumeFile_new sid jb jd es).
Proof. intros. by split. Qed.

End file.

(** *** The bit-count sum *)

Lemma sum_w_overflow {E} w l :
  0 <= w -> Forall (fun z => 0 <= z) l -> 2 ^ w <= zsum l -> @sum_w E true w l = Panic.
Proof.
  intros Hw Hl.
  assert (Hpanic : forall l, foldl (fun acc x => a ← acc; @add_w E true w a x) Panic l = Panic)
    by (induction l0; done).
  unfold sum_w. enough (forall a, a < 2 ^ w -> 2 ^ w <= a + zsum l ->
    foldl (fun acc x => a ← acc; @add_w E true w a x) (Ok a) l = Panic) as Hgen.
  { intros. apply Hgen; [by apply Z.pow_pos_nonneg|lia]. }
  induction Hl as [|x l Hx Hl IH]; intros a Ha Hs; [unfold zsum in Hs; cbn in Hs; lia|].
  cbn [foldl mbind outcome_bind]. unfold add_w at 2. case_decide.
  - apply IH; [done|]. unfold zsum in *. cbn [foldr] in Hs. lia.
  - apply Hpanic.
Qed.

Lemma popcount_ones n : popcount (replicate n Byte.xff) = 8 * Z.of_nat n.
Proof.
  unfold popcount, zsum. induction n as [|n IH]; [done|].
  cbn [replicate fmap list_fmap foldr]. rewrite IH.
  change (count_ones Byte.xff) with 8. lia.
Qed.

(** ** Properties *)

(** C19: [ResumeFile::from_bytes] accepts exactly the serializations of
    well-formed files: header rebuilt by [ResumeHeader::new], every block once
    and in order, each count equal to the number of set bits, no bit past the
    last symbol, no trailing byte. It never panics without overflow checks, nor
    on an input below 512 MiB with them. *)
Theorem resume_wire `{Blake3Laws} checks bytes f :
  (checks = false \/ len bytes < 2 ^ 29 -> safe (ResumeFile_from_bytes checks bytes))
  /\ (ResumeFile_from_bytes checks bytes = Ok f <-> wf_resume f /\ bytes = ResumeFile_to_vec f).
Proof.
  split; [apply resume_safe|]. split; [apply resume_inv|]. intros [? ->].
  by apply resume_parse_print.
Qed.

Lemma resume_wire_witness :
  wf_resume demo_resume /\ ResumeFile_to_vec demo_resume = ResumeFile_to_vec demo_resume.
Proof.
  apply (resume_wire true (ResumeFile_to_vec demo_resume) demo_resume).
  vm_compute. reflexivity.
Defined.

(** an entry read from any input has as many set bits as it declares held
    symbols, at most as many as its block has symbols, and re-serializes to the
    bytes it consumed. *)
Theorem resume_block_entry checks bytes e n :
  BlockEntry_from_bytes checks bytes = Ok (e, n) ->
  symbols_held e = popcount (symbol_bitmap e)
  /\ 0 <= symbols_held e <= symbol_count e
  /\ (forall i, 0 <= i -> bit (symbol_bitmap e) i = true -> i < symbol_count e)
  /\ BlockEntry_to_vec e = take n bytes.
Proof.
  intros ([Hi Hc Hb Hh Hp] & Hn & Hbytes)%block_inv.
  assert (Hc0 : 0 <= symbol_count e) by apply Hc. split; [done|]. split; [|split; [done|]].
  - rewrite Hh. split; [apply popcount_nonneg|]. apply popcount_padding; [done|done|].
    by apply padding_clear_iff.
  - rewrite Hbytes, Hn. by rewrite take_app_length.
Qed.

Lemma resume_block_entry_witness :
  2 = popcount [byte.of_Z 5] /\ 0 <= 2 <= 8
  /\ (forall i, 0 <= i -> bit [byte.of_Z 5] i = true -> i < 8)
  /\ BlockEntry_to_vec demo_block = take 13 (BlockEntry_to_vec demo_block ++ [Byte.xff]).
Proof.
  apply (resume_block_entry true (BlockEntry_to_vec demo_block ++ [Byte.xff]) demo_block 13).
  vm_compute. reflexivity.
Defined.

(** the bit count of a bitmap is summed in 32 bits, which one full-size
    block overflows: for a bitmap of 2^29 bytes of ones, with 2^32 - 1 symbols
    and none held declared, a build with overflow checks panics; one without
    wraps to the declared zero and rejects the entry only for its padding. *)
Theorem resume_count_overflow n :
  Z.of_nat n = 2 ^ 29 ->
  let bytes := to_le 4 0 ++ to_le 4 (2 ^ 32 - 1) ++ to_le 4 0 ++ replicate n Byte.xff in
  BlockEntry_from_bytes true bytes = Panic
  /\ BlockEntry_from_bytes false bytes = Err (Res.InvalidSymbolCount (2 ^ 32 - 1)).
Proof.
  intros Hn bytes.
  assert (Hlen : length bytes = (12 + n)%nat)
    by (unfold bytes; rewrite !length_app, !length_to_le, length_replicate; lia).
  assert (Hstop : div_ceil (2 ^ 32 - 1) 8 = Z.of_nat n) by (rewrite Hn; reflexivity).
  assert (Hpop : popcount (replicate n Byte.xff) = 2 ^ 32) by (rewrite popcount_ones, Hn; done).
  assert (Hread : forall checks, BlockEntry_from_bytes checks bytes
    = set ← sum_w checks 32 (count_ones <$> replicate n Byte.xff);
      if decide (set <> 0) then Err (Res.HeldCountMismatch 0 set)
      else Err (Res.InvalidSymbolCount (2 ^ 32 - 1))).
  { intros checks. unfold BlockEntry_from_bytes, BLOCK_ENTRY_HEADER_SIZE.
    rewrite decide_False by lia. unfold len. rewrite Hlen. unfold bytes. read_fields. cbn zeta.
    rewrite !from_to_le by (unfold urange; lia).
    rewrite decide_False by lia. rewrite Hstop. rewrite decide_False by lia.
    rewrite decide_False by lia.
    replace (Z.to_nat (Z.of_nat 12 + Z.of_nat n)) with (12 + n)%nat by lia.
    do 3 (erewrite slice_skip; [|apply length_to_le|lia|lia]; cbn [Nat.sub]).
    rewrite slice_all by (rewrite length_replicate; lia). cbn [mbind outcome_bind].
    destruct (sum_w checks 32 (count_ones <$> replicate n Byte.xff)); [|done..].
    cbn [mbind outcome_bind]. case_decide; [done|].
    destruct n as [|n]; [done|]. rewrite replicate_S_end, last_snoc.
    rewrite bool_decide_eq_true_2; [done|]. by vm_compute. }
  rewrite !Hread. split.
  - rewrite sum_w_overflow; [done|lia|apply count_ones_nonneg_all|].
    fold (popcount (replicate n Byte.xff)). by rewrite Hpop.
  - rewrite sum_w_wrap by (lia || apply count_ones_urange_all).
    fold (popcount (replicate n Byte.xff)). rewrite Hpop. done.
Qed.

Lemma resume_count_overflow_witness :
  let bytes := to_le 4 0 ++ to_le 4 (2 ^ 32 - 1) ++ to_le 4 0
    ++ replicate (Z.to_nat (2 ^ 29)) Byte.xff in
  BlockEntry_from_bytes true bytes = Panic
  /\ BlockEntry_from_bytes false bytes = Err (Res.InvalidSymbolCount (2 ^ 32 - 1)).
Proof. apply resume_count_overflow. apply Z2Nat.id. lia. Defined.
