(* ===== verification/Pipeline.v ===== *)
(** * Frame pipeline (dhow-codec/src/pipeline.rs)

    The sender [Pipeline], which turns a payload into frames, and the receiver
    [PipelineDecoder], which takes frames in any order, records what it holds,
    and reassembles the payload. *)

From S2P Require Import Prelude Errors Crc32c Primitives Instances Chunker Frame Digest Session.
From S2P Require Import Bitmap Resume.

(** ** Definitions *)

Definition PAYLOAD_ID_LEN : Z := 4.
Definition MIN_FEC_SYMBOL_SIZE : Z := 64.
Definition MAX_FEC_SYMBOL_SIZE : Z := MAX_PAYLOAD_LEN - PAYLOAD_ID_LEN.

(** One round of [interleave]: the next element of every list that has one. *)
Definition heads {A} (cursors : list (list A)) : list A := omap head cursors.

(** The [for _ in 0..longest] loop of [interleave]. *)
Fixpoint rounds {A} (n : nat) (cursors : list (list A)) : list A :=
  match n with
  | O => []
  | S n' => heads cursors ++ rounds n' (tail <$> cursors)
  end.

(** [interleave] *)
Definition interleave {A} (per_block : list (list A)) : list A :=
  let longest := foldr Nat.max 0%nat (length <$> per_block) in
  rounds longest per_block.

(** [validate_params] *)
Definition validate_params (params : SessionParams) : outcome CodecError unit :=
  _ ← map_err Codec.Session (validate params);
  if decide (~ (MIN_FEC_SYMBOL_SIZE <= symbol_size params <= MAX_FEC_SYMBOL_SIZE))
  then Err (Codec.Session (Sess.InvalidParameters
    [Txt "symbol_size "; Dec (symbol_size params); Txt " out of range ";
     Dec MIN_FEC_SYMBOL_SIZE; Txt "..="; Dec MAX_FEC_SYMBOL_SIZE]))
  else Ok tt.

(** [chunk_map_for] *)
Definition chunk_map_for (checks : bool) (params : SessionParams)
    : outcome CodecError ChunkMap :=
  chunk_params ← map_err Codec.Chunk
    (ChunkParams_new (payload_size params) (block_count params) (symbol_size params));
  map_err Codec.Chunk (ChunkMap_new checks chunk_params).

Inductive FrameOutcome :=
| Accepted
| BlockComplete (block_index : Z)
| Redundant.

Section pipeline.
Context `{Blake3} `{RaptorQ}.

(** [config_for_block] *)
Definition config_for_block {E} (block_size symbol_size : Z) : outcome E rq_config :=
  or_panic (rq_with_defaults block_size (as_u 16 symbol_size)).

(** *** Sender *)

Record Pipeline := {
  pl_session_id : list byte;
  pl_params : SessionParams;
  pl_session_key : list byte;
  pl_chunk_map : ChunkMap;
}.

(** [Pipeline::new] *)
Definition Pipeline_new (checks : bool) (session_id : list byte) (params : SessionParams)
    (session_key : list byte) : outcome CodecError Pipeline :=
  _ ← validate_params params;
  chunk_map ← chunk_map_for checks params;
  Ok {| pl_session_id := session_id; pl_params := params; pl_session_key := session_key;
        pl_chunk_map := chunk_map |}.

(** The body of the packet loop of [Pipeline::encode]. *)
Definition encode_symbol (pl : Pipeline) (block_index : Z) (sp : nat * rq_packet)
    : outcome CodecError Frame :=
  let serialized := rq_serialize sp.2 in
  if decide (MAX_PAYLOAD_LEN < len serialized)
  then Err (Codec.FramePayloadTooLarge (len serialized) MAX_PAYLOAD_LEN)
  else
    header ← FrameHeader_new FRepair (pl_session_id pl) block_index
      (as_u 32 (Z.of_nat sp.1)) serialized;
    Ok (Frame_build_owned header serialized (pl_session_key pl)).

(** The body of the block loop of [Pipeline::encode]. *)
Definition encode_block (checks : bool) (pl : Pipeline) (payload : list byte)
    (repair_count : Z) (block : BlockInfo) : outcome CodecError (list Frame) :=
  if decide (bi_size block = 0) then Ok []
  else
    block_bytes ← map_err Codec.Chunk
      (extract_block checks (pl_chunk_map pl) payload (bi_index block));
    config ← config_for_block (bi_size block) (symbol_size (pl_params pl));
    encoder ← or_panic (rq_encoder_new block_bytes config);
    packets ← or_panic (rq_get_encoded_packets encoder repair_count);
    traverse (encode_symbol pl (bi_index block)) (imap pair packets).

(** [Pipeline::encode] *)
Definition encode (checks : bool) (pl : Pipeline) (payload : list byte)
    : outcome CodecError (list Frame) :=
  if decide (len payload <> payload_size (pl_params pl))
  then Err (Codec.Session (Sess.InvalidParameters
    [Txt "payload is "; Dec (len payload); Txt " bytes but session declares ";
     Dec (payload_size (pl_params pl))]))
  else
    let repair_count :=
      Z.max 0 (total_symbols_per_block (pl_params pl) - source_symbols_per_block (pl_params pl)) in
    per_block ← traverse (encode_block checks pl payload repair_count)
      (cm_blocks (pl_chunk_map pl));
    Ok (interleave per_block).

(** [Pipeline::encode_to_bytes] *)
Definition encode_to_bytes (checks : bool) (pl : Pipeline) (payload : list byte)
    : outcome CodecError (list (list byte)) :=
  frames ← encode checks pl payload; Ok (Frame_into_vec <$> (frames : list Frame)).

(** *** Receiver *)

Inductive BlockState :=
| Pending (decoder : rq_decoder)
| Done (data : list byte).

Record PipelineDecoder := {
  pd_session_id : list byte;
  pd_params : SessionParams;
  pd_session_key : list byte;
  pd_chunk_map : ChunkMap;
  pd_blocks : list BlockState;
  pd_held : list (list byte);
  pd_held_counts : list Z;
  pd_journal : Blake3Hasher;
}.

(** The state [PipelineDecoder::new] gives a block. *)
Definition initial_block {E} (symbol_size : Z) (block : BlockInfo) : outcome E BlockState :=
  if decide (bi_size block = 0) then Ok (Done [])
  else
    config ← config_for_block (bi_size block) symbol_size;
    decoder ← or_panic (rq_decoder_new config);
    Ok (Pending decoder).

(** [PipelineDecoder::new] *)
Definition PipelineDecoder_new (checks : bool) (session_id : list byte) (params : SessionParams)
    (session_key : list byte) : outcome CodecError PipelineDecoder :=
  _ ← validate_params params;
  chunk_map ← chunk_map_for checks params;
  blocks ← traverse (initial_block (symbol_size params)) (cm_blocks chunk_map);
  let bitmap_len := Z.to_nat (div_ceil (total_symbols_per_block params) 8) in
  let block_count := length (cm_blocks chunk_map) in
  Ok {| pd_session_id := session_id; pd_params := params; pd_session_key := session_key;
        pd_chunk_map := chunk_map; pd_blocks := blocks;
        pd_held := replicate block_count (zeros bitmap_len);
        pd_held_counts := replicate block_count 0;
        pd_journal := Blake3Hasher_new |}.

Definition set_blocks (blocks : list BlockState) (d : PipelineDecoder) : PipelineDecoder :=
  {| pd_session_id := pd_session_id d; pd_params := pd_params d;
     pd_session_key := pd_session_key d; pd_chunk_map := pd_chunk_map d; pd_blocks := blocks;
     pd_held := pd_held d; pd_held_counts := pd_held_counts d; pd_journal := pd_journal d |}.

Definition set_held (held : list (list byte)) (counts : list Z) (d : PipelineDecoder)
    : PipelineDecoder :=
  {| pd_session_id := pd_session_id d; pd_params := pd_params d;
     pd_session_key := pd_session_key d; pd_chunk_map := pd_chunk_map d;
     pd_blocks := pd_blocks d; pd_held := held; pd_held_counts := counts;
     pd_journal := pd_journal d |}.

Definition set_journal (j : Blake3Hasher) (d : PipelineDecoder) : PipelineDecoder :=
  {| pd_session_id := pd_session_id d; pd_params := pd_params d;
     pd_session_key := pd_session_key d; pd_chunk_map := pd_chunk_map d;
     pd_blocks := pd_blocks d; pd_held := pd_held d; pd_held_counts := pd_held_counts d;
     pd_journal := j |}.

(** [PipelineDecoder::mark_held] *)
Definition mark_held (checks : bool) (block_index symbol_index : Z)
    : action PipelineDecoder CodecError bool :=
  d ← get_state;
  if decide (total_symbols_per_block (pd_params d) <= symbol_index) then mret false
  else
    bitmap ← lift (index (Z.to_nat block_index) (pd_held d));
    byte ← lift (index (Z.to_nat (symbol_index / 8)) bitmap);
    let mask := Z.shiftl 1 (symbol_index mod 8) in
    if decide (Z.land (byte.unsigned byte) mask <> 0) then mret false
    else
      let bitmap := <[Z.to_nat (symbol_index / 8) :=
                       byte.of_Z (Z.lor (byte.unsigned byte) mask)]> bitmap in
      _ ← modify (set_held (<[Z.to_nat block_index := bitmap]> (pd_held d)) (pd_held_counts d));
      count ← lift (index (Z.to_nat block_index) (pd_held_counts d));
      count ← lift (add_w checks 32 count 1);
      _ ← modify (fun d =>
        set_held (pd_held d) (<[Z.to_nat block_index := count]> (pd_held_counts d)) d);
      mret true.

(** [PipelineDecoder::accept] *)
Definition accept (checks : bool) (bytes : list byte)
    : action PipelineDecoder CodecError FrameOutcome :=
  d ← get_state;
  frame ← lift (map_err Codec.Frame (Frame_from_bytes bytes (pd_session_key d)));
  let header := fr_header frame in
  if decide (fh_session_id header <> pd_session_id d)
  then lift (Err (Codec.Frame
    (Framing.SessionMismatch (pd_session_id d) (fh_session_id header))))
  else if decide (fh_frame_type header <> FRepair)
  then lift (Err (Codec.Frame
    (Framing.UnknownFrameType (frame_type_u8 (fh_frame_type header)))))
  else
    let block_index := fh_block_index header in
    if decide (Z.of_nat (length (pd_blocks d)) <= block_index)
    then lift (Err (Codec.Frame
      (Framing.SessionMismatch (pd_session_id d) (fh_session_id header))))
    else
      let payload := fr_payload frame in
      if decide (len payload <= PAYLOAD_ID_LEN)
      then lift (Err (Codec.Fec (FecErr.InvalidSourceBlock
        [Txt "symbol payload is "; Dec (len payload); Txt " bytes, need more than ";
         Dec PAYLOAD_ID_LEN])))
      else
        _ ← mark_held checks block_index (fh_symbol_index header);
        _ ← modify (fun d => set_journal (update (pd_journal d) bytes) d);
        d ← get_state;
        state ← lift (index (Z.to_nat block_index) (pd_blocks d));
        match state with
        | Done _ => mret Redundant
        | Pending decoder =>
          match (p ← rq_deserialize payload; rq_add_new_packet decoder p) with
          | None => lift Panic
          | Some decoder =>
            _ ← modify (set_blocks (<[Z.to_nat block_index := Pending decoder]> (pd_blocks d)));
            match rq_get_result decoder with
            | Some data =>
              _ ← modify (set_blocks (<[Z.to_nat block_index := Done data]> (pd_blocks d)));
              mret (BlockComplete block_index)
            | None => mret Accepted
            end
          end
        end.

(** [symbol_bitmap], [symbols_held], [block_count] *)
Definition symbol_bitmap (d : PipelineDecoder) (block_index : Z) : option (list byte) :=
  pd_held d !! Z.to_nat block_index.

Definition symbols_held (d : PipelineDecoder) (block_index : Z) : option Z :=
  pd_held_counts d !! Z.to_nat block_index.

Definition decoder_block_count (d : PipelineDecoder) : Z := as_u 32 (len (pd_blocks d)).

(** [journal_digest] *)
Definition journal_digest (d : PipelineDecoder) : list byte := finalize (pd_journal d).

Definition is_done (s : BlockState) : bool := match s with Done _ => true | _ => false end.

(** [is_complete] and [blocks_complete] *)
Definition is_complete (d : PipelineDecoder) : bool := forallb is_done (pd_blocks d).

Definition blocks_complete (d : PipelineDecoder) : Z :=
  as_u 32 (len (filter (fun s => is_done s = true) (pd_blocks d))).

(** The loop of [finish] that collects the decoded blocks, from [index] on. *)
Fixpoint collect_blocks (index : Z) (states : list BlockState)
    : outcome CodecError (list (list byte)) :=
  match states with
  | [] => Ok []
  | Done data :: states' => blocks ← collect_blocks (index + 1) states'; Ok (data :: blocks)
  | Pending _ :: _ =>
    Err (Codec.Session (Sess.InvalidParameters
      [Txt "block "; Dec index; Txt " is not yet decoded"]))
  end.

(** [finish] *)
Definition finish (d : PipelineDecoder) : outcome CodecError (list byte) :=
  blocks ← collect_blocks 0 (pd_blocks d);
  payload ← map_err Codec.Chunk (reassemble (pd_chunk_map d) blocks);
  if decide (blake3_digest payload <> payload_digest (pd_params d))
  then Err (Codec.Session Sess.DigestMismatch)
  else Ok payload.

(** [resume_state] *)
Definition resume_state {E} (journal_bytes : Z) (d : PipelineDecoder) : outcome E ResumeFile :=
  entries ← traverse (fun i =>
    count ← index i (pd_held_counts d);
    held ← index i (pd_held d);
    Ok (BlockEntry_new (as_u 32 (Z.of_nat i)) (total_symbols_per_block (pd_params d)) count held))
    (seq 0 (length (pd_blocks d)));
  Ok (ResumeFile_new (pd_session_id d) journal_bytes (journal_digest d) entries).

(** The loop of [verify_resume] over the entries. *)
Fixpoint verify_entries (d : PipelineDecoder) (entries : list BlockEntry)
    : outcome CodecError unit :=
  match entries with
  | [] => Ok tt
  | entry :: entries' =>
    if decide (symbol_count entry <> total_symbols_per_block (pd_params d))
    then Err (Codec.Resume (Res.JournalMismatch
      [Txt "block "; Dec (Resume.block_index entry); Txt " declares "; Dec (symbol_count entry);
       Txt " symbols, session has "; Dec (total_symbols_per_block (pd_params d))]))
    else
      held ← index (Z.to_nat (Resume.block_index entry)) (pd_held d);
      if decide (Resume.symbol_bitmap entry <> held)
      then Err (Codec.Resume (Res.JournalMismatch
        [Txt "block "; Dec (Resume.block_index entry);
         Txt " holds different symbols than recorded"]))
      else verify_entries d entries'
  end.

(** [verify_resume] *)
Definition verify_resume (d : PipelineDecoder) (state : ResumeFile) : outcome CodecError unit :=
  if decide (rh_session_id (rf_header state) <> pd_session_id d)
  then Err (Codec.Resume Res.SessionMismatch)
  else if decide (rh_block_count (rf_header state) <> decoder_block_count d)
  then Err (Codec.Resume (Res.JournalMismatch
    [Txt "resume state covers "; Dec (rh_block_count (rf_header state));
     Txt " blocks, session has "; Dec (decoder_block_count d)]))
  else if decide (rh_journal_digest (rf_header state) <> journal_digest d)
  then Err (Codec.Resume (Res.JournalMismatch
    [Txt "replayed frames do not reproduce the recorded digest"]))
  else verify_entries d (rf_entries state).

(** *** Specification *)

(** A receiver offered a sequence of byte strings: rejected ones are dropped,
    and the accepted ones are listed in order. [None] is a panic. *)
Fixpoint receive (checks : bool) (bs : list (list byte)) (d : PipelineDecoder)
    : option (PipelineDecoder * list (list byte)) :=
  match bs with
  | [] => Some (d, [])
  | b :: bs' =>
    match accept checks b d with
    | (d', Ok _) => '(d'', acc) ← receive checks bs' d'; Some (d'', b :: acc)
    | (d', Err _) => receive checks bs' d'
    | (_, Panic) => None
    end
  end.

(** The checks [accept] makes before it changes anything. *)
Definition admission (d : PipelineDecoder) (bytes : list byte) : outcome CodecError Frame :=
  frame ← map_err Codec.Frame (Frame_from_bytes bytes (pd_session_key d));
  let header := fr_header frame in
  if decide (fh_session_id header <> pd_session_id d)
  then Err (Codec.Frame (Framing.SessionMismatch (pd_session_id d) (fh_session_id header)))
  else if decide (fh_frame_type header <> FRepair)
  then Err (Codec.Frame (Framing.UnknownFrameType (frame_type_u8 (fh_frame_type header))))
  else if decide (Z.of_nat (length (pd_blocks d)) <= fh_block_index header)
  then Err (Codec.Frame (Framing.SessionMismatch (pd_session_id d) (fh_session_id header)))
  else if decide (len (fr_payload frame) <= PAYLOAD_ID_LEN)
  then Err (Codec.Fec (FecErr.InvalidSourceBlock
    [Txt "symbol payload is "; Dec (len (fr_payload frame)); Txt " bytes, need more than ";
     Dec PAYLOAD_ID_LEN]))
  else Ok frame.

(** A serialized frame that names symbol [k] of block [i]. *)
Definition announces (key b : list byte) (i k : Z) : Prop :=
  exists f, Frame_from_bytes b key = Ok f
    /\ fh_block_index (fr_header f) = i /\ fh_symbol_index (fr_header f) = k.

(** Bitmap [bm] records exactly the symbols of block [i] the frames [acc]
    announce, of those the block has. *)
Definition records (total : Z) (key : list byte) (acc : list (list byte)) (i : Z)
    (bm : list byte) : Prop :=
  len bm = div_ceil total 8
  /\ forall k, 0 <= k ->
     (bit bm k = true <-> k < total /\ exists b, b ∈ acc /\ announces key b i k).

(** The bookkeeping invariant of a decoder that has accepted [acc]. *)
Record decoder_ok (d : PipelineDecoder) (acc : list (list byte)) : Prop := {
  do_session_id : length (pd_session_id d) = 16%nat;
  do_params : wf_params (pd_params d);
  do_map : valid_map (pd_chunk_map d);
  do_map_params : cm_params (pd_chunk_map d) =
    {| cp_payload_size := payload_size (pd_params d);
       cp_block_count := block_count (pd_params d);
       cp_symbol_size := symbol_size (pd_params d) |};
  do_blocks : length (pd_blocks d) = Z.to_nat (block_count (pd_params d));
  do_held : length (pd_held d) = length (pd_blocks d);
  do_counts : pd_held_counts d = popcount <$> pd_held d;
  do_bitmap : forall i bm, pd_held d !! i = Some bm ->
    records (total_symbols_per_block (pd_params d)) (pd_session_key d) acc (Z.of_nat i) bm;
  do_journal : pd_journal d = foldl update Blake3Hasher_new acc;
}.

End pipeline.

(** [is_plausible_frame] *)
Definition is_plausible_frame (bytes : list byte) : bool :=
  bool_decide (FRAME_HEADER_SIZE <= length bytes)%nat.

(** ** Lemmas *)

(** *** Interleaving *)

Lemma rounds_lookup {A} n (ls : list (list A)) r j :
  Forall (fun l => length l = n) ls -> (r < n)%nat -> (j < length ls)%nat ->
  rounds n ls !! (r * length ls + j)%nat = (l ← ls !! j; l !! r).
Proof.
  revert ls r. induction n as [|n IH]; intros ls r Hls Hr Hj; [lia|]. cbn [rounds].
  assert (Hheads : forall ls', Forall (fun l => length l = S n) ls' ->
    length (heads ls') = length ls'
    /\ forall j, (j < length ls')%nat -> heads ls' !! j = ls' !! j ≫= (fun l : list A => l !! 0%nat)).
  { unfold heads. induction 1 as [|l ls' Hl _ [IHl IHj]]; [split; [done|intros; cbn in *; lia]|].
    destruct l as [|a l]; [done|]. cbn. split; [by rewrite IHl|].
    intros [|j'] Hj'; [done|]. cbn. apply IHj. lia. }
  destruct (Hheads ls Hls) as [Hlen Hlook]. destruct r as [|r].
  - rewrite Nat.mul_0_l, Nat.add_0_l, lookup_app_l by lia. by apply Hlook.
  - rewrite lookup_app_r by lia. rewrite Hlen.
    replace (S r * length ls + j - length ls)%nat with (r * length (tail <$> ls) + j)%nat
      by (rewrite length_fmap; lia).
    rewrite IH; [|apply Forall_fmap, (Forall_impl _ _ _ Hls); by intros [|? ?] [=]
      |lia|by rewrite length_fmap].
    rewrite list_lookup_fmap. destruct (ls !! j) as [l|] eqn:Hl; [|done]. cbn.
    rewrite Forall_forall in Hls. apply list_elem_of_lookup_2, Hls in Hl. by destruct l.
Qed.

Lemma rounds_permutation {A} n (ls : list (list A)) :
  Forall (fun l => length l <= n)%nat ls -> rounds n ls ≡ₚ concat ls.
Proof.
  revert ls. induction n as [|n IH]; intros ls Hls; cbn [rounds].
  { induction Hls as [|l ls Hl _ IHls]; [done|]. destruct l; [|cbn in Hl; lia]. exact IHls. }
  rewrite IH.
  - clear. unfold heads. induction ls as [|l ls IHls]; [done|]. destruct l as [|a l]; cbn.
    + exact IHls.
    + constructor. rewrite app_assoc, (Permutation_app_comm _ l), <- app_assoc. by rewrite IHls.
  - apply Forall_fmap, (Forall_impl _ _ _ Hls). intros [|? l] Hl; cbn in *; lia.
Qed.

Lemma longest_bound {A} (ls : list (list A)) :
  Forall (fun l => length l <= foldr Nat.max 0 (length <$> ls))%nat ls.
Proof.
  induction ls as [|l ls IH]; [done|]. constructor; cbn; [lia|].
  apply (Forall_impl _ _ _ IH). lia.
Qed.

Lemma interleave_permutation {A} (ls : list (list A)) : interleave ls ≡ₚ concat ls.
Proof. apply rounds_permutation, longest_bound. Qed.

(** *** Parameters *)

Lemma validate_params_Ok p :
  validate_params p = Ok tt ->
  block_count p <> 0 /\ source_symbols_per_block p <= total_symbols_per_block p
  /\ 64 <= symbol_size p <= 65531.
Proof.
  unfold validate_params. intros H. apply bind_Ok in H as ([] & Hv & H).
  apply map_err_Ok in Hv. unfold validate in Hv. repeat case_decide; try done.
  unfold MIN_FEC_SYMBOL_SIZE, MAX_FEC_SYMBOL_SIZE, MAX_PAYLOAD_LEN, PAYLOAD_ID_LEN in *. lia.
Qed.

Lemma chunk_map_for_Ok checks p m :
  wf_params p -> chunk_map_for checks p = Ok m ->
  valid_map m /\ cm_params m = {| cp_payload_size := payload_size p;
    cp_block_count := block_count p; cp_symbol_size := symbol_size p |}.
Proof.
  intros Hp. unfold chunk_map_for. intros H. apply bind_Ok in H as (cp & Hcp & H).
  apply map_err_Ok in Hcp, H. apply ChunkParams_new_Ok in Hcp as [Hv Hcp]; [|apply Hp].
  apply ChunkMap_new_Ok in H as [Hm Hmp]; [|done]. by rewrite Hmp, Hcp.
Qed.

Lemma vm_blocks_lookup m i blk :
  valid_map m -> cm_blocks m !! i = Some blk ->
  (i < Z.to_nat (cp_block_count (cm_params m)))%nat /\ blk = spec_block (cm_params m) i.
Proof.
  intros Hm Hi. apply lookup_lt_Some in Hi as Hlt. rewrite vm_length in Hlt by done.
  split; [done|]. rewrite vm_lookup in Hi by done. by injection Hi.
Qed.

(** *** Bookkeeping *)

Lemma bit_zeros n k : bit (zeros n) k = false.
Proof.
  unfold bit, zeros. destruct (replicate n Byte.x00 !! Z.to_nat (k / 8)) as [b|] eqn:Hb; [|done].
  apply lookup_replicate in Hb as [-> _]. apply Z.testbit_0_l.
Qed.

Lemma popcount_zeros n : popcount (zeros n) = 0.
Proof. unfold popcount, zeros. rewrite fmap_replicate. by induction n. Qed.

(** The byte operations of [mark_held] are those of the bitmap. *)
Lemma bit_lookup bm k b :
  0 <= k -> bm !! Z.to_nat (k / 8) = Some b ->
  bit bm k = bool_decide (Z.land (byte.unsigned b) (Z.shiftl 1 (k mod 8)) <> 0).
Proof.
  intros Hk Hb. unfold bit. rewrite Hb. pose proof (Z.mod_pos_bound k 8 ltac:(lia)) as Hm.
  revert Hm. generalize (k mod 8). clear. intros j Hj.
  destruct (Z.testbit (byte.unsigned b) j) eqn:Ht.
  - symmetry. apply bool_decide_eq_true. intros Hz.
    apply (f_equal (fun z => Z.testbit z j)) in Hz.
    rewrite Z.land_spec, Ht, Z.shiftl_spec, Z.sub_diag, Z.bits_0 in Hz by lia. done.
  - symmetry. apply bool_decide_eq_false. intros Hz. apply Hz. apply Z.bits_inj'. intros i Hi.
    rewrite Z.land_spec, Z.shiftl_spec, Z.bits_0 by lia.
    destruct (decide (i = j)) as [->|Hne]; [by rewrite Ht|].
    replace (Z.testbit 1 (i - j)) with false; [by rewrite andb_false_r|].
    destruct (i - j) as [|p|p] eqn:Hij; [lia|by destruct p|done].
Qed.

Lemma set_bit_insert bm k b :
  bm !! Z.to_nat (k / 8) = Some b ->
  <[Z.to_nat (k / 8) := byte.of_Z (Z.lor (byte.unsigned b) (Z.shiftl 1 (k mod 8)))]> bm
  = set_bit bm k.
Proof.
  intros Hb. unfold set_bit. symmetry. apply list_eq. intros i.
  destruct (decide (Z.to_nat (k / 8) = i)) as [<-|Hne].
  - rewrite list_lookup_alter_eq, Hb, list_lookup_insert_eq; [done|].
    by apply lookup_lt_Some in Hb.
  - by rewrite list_lookup_alter_ne, list_lookup_insert_ne by done.
Qed.

Section bookkeeping.
Context `{Blake3Laws} `{RaptorQ}.

Lemma decoder_new_ok checks sid params key d :
  length sid = 16%nat -> wf_params params ->
  PipelineDecoder_new checks sid params key = Ok d ->
  decoder_ok d [] /\ pd_session_id d = sid /\ pd_params d = params /\ pd_session_key d = key.
Proof.
  intros Hs Hp. unfold PipelineDecoder_new. intros H2. apply bind_Ok in H2 as ([] & Hv & H2).
  apply bind_Ok in H2 as (m & Hm & H2). apply bind_Ok in H2 as (bls & Hbl & H2).
  injection H2 as <-. apply traverse_Ok, Forall2_length in Hbl.
  apply chunk_map_for_Ok in Hm as [Hm Hmp]; [|done]. split; [|done].
  split; cbn -[zeros popcount div_ceil]; try done.
  - rewrite <- Hbl, vm_length by done. by rewrite Hmp.
  - by rewrite length_replicate.
  - by rewrite fmap_replicate, popcount_zeros.
  - intros i bm Hi. apply lookup_replicate in Hi as [-> _]. split.
    + unfold len. rewrite length_zeros. apply Z2Nat.id. apply div_ceil_nonneg; [lia|].
      apply Hp.
    + intros k Hk. rewrite bit_zeros. split; [done|]. intros (_ & b & Hb & _).
      by apply not_elem_of_nil in Hb.
Qed.

Lemma records_skip total key acc b i bm :
  records total key acc i bm ->
  (forall k, 0 <= k -> announces key b i k -> total <= k \/ bit bm k = true) ->
  records total key (acc ++ [b]) i bm.
Proof.
  intros [Hlen Hiff] Hskip. split; [done|]. intros k Hk. rewrite exists_snoc.
  split; [rewrite Hiff by done; tauto|]. intros [Hlt [Hex|Hann]]; [by apply Hiff|].
  apply Hskip in Hann as [?|?]; [lia|done|done].
Qed.

Lemma records_size total key acc i bm k :
  records total key acc i bm -> 0 <= k < total -> k < 8 * len bm.
Proof.
  intros [-> _] Hk. pose proof (div_ceil_mul total 8 ltac:(lia) ltac:(lia)). lia.
Qed.

Lemma records_set total key acc b i bm k :
  records total key acc i bm -> 0 <= k < total ->
  (forall k', announces key b i k' <-> k' = k) ->
  records total key (acc ++ [b]) i (set_bit bm k).
Proof.
  intros Hrec Hk Hann. pose proof (records_size _ _ _ _ _ k Hrec Hk) as Hk8.
  destruct Hrec as [Hlen Hiff]. split; [unfold len in *; by rewrite length_set_bit|].
  intros k' Hk'. rewrite bit_set_bit, orb_true_iff, bool_decide_eq_true by lia.
  rewrite exists_snoc, Hann, Hiff by done. split; [|tauto]. intros [?| ->]; [tauto|].
  split; [lia|by right].
Qed.

Lemma records_bound total key acc i bm :
  records total key acc i bm -> 0 <= total ->
  padding_clear total bm /\ popcount bm <= total.
Proof.
  intros [Hlen Hiff] Ht. assert (Hp : padding_clear total bm).
  { apply padding_clear_iff; [done|done|]. intros k Hk Hb. by apply Hiff in Hb as [? _]. }
  split; [done|]. by apply popcount_padding.
Qed.

(** A decoder whose record of held symbols is replaced. *)
Lemma decoder_ok_snoc d acc b held :
  decoder_ok d acc -> length held = length (pd_held d) ->
  (forall i bm, held !! i = Some bm -> records (total_symbols_per_block (pd_params d))
    (pd_session_key d) (acc ++ [b]) (Z.of_nat i) bm) ->
  decoder_ok (set_journal (update (pd_journal d) b) (set_held held (popcount <$> held) d))
    (acc ++ [b]).
Proof.
  intros [] Hl Hspec. split; cbn; try done; [by rewrite Hl|].
  by rewrite do_journal0, foldl_app.
Qed.

Lemma set_held_same d acc :
  decoder_ok d acc -> set_held (pd_held d) (popcount <$> pd_held d) d = d.
Proof. intros []. rewrite <- do_counts0. by destruct d. Qed.

Lemma announces_frame key b f i k :
  Frame_from_bytes b key = Ok f ->
  announces key b i k <-> i = fh_block_index (fr_header f) /\ k = fh_symbol_index (fr_header f).
Proof.
  intros Hf. unfold announces. split.
  - intros (f' & Hf' & <- & <-). rewrite Hf in Hf'. by injection Hf' as <-.
  - intros [-> ->]. by exists f.
Qed.

(** A frame whose symbol is not recorded anew leaves the invariant. *)
Lemma held_skip d acc b f :
  decoder_ok d acc -> Frame_from_bytes b (pd_session_key d) = Ok f ->
  0 <= fh_block_index (fr_header f) ->
  (forall bm, pd_held d !! Z.to_nat (fh_block_index (fr_header f)) = Some bm ->
    total_symbols_per_block (pd_params d) <= fh_symbol_index (fr_header f)
    \/ bit bm (fh_symbol_index (fr_header f)) = true) ->
  decoder_ok (set_journal (update (pd_journal d) b) d) (acc ++ [b]).
Proof.
  intros Hok Hf Hbi Hskip. rewrite <- (set_held_same d acc Hok) at 2.
  apply decoder_ok_snoc; [done|done|]. intros i bm Hi.
  apply records_skip; [by apply (do_bitmap _ _ Hok)|]. intros k Hk Hann.
  apply (announces_frame _ _ f) in Hann as [Hi' ->]; [|done].
  apply Hskip. by rewrite <- Hi', Nat2Z.id.
Qed.

(** A frame whose symbol is new sets its bit. *)
Lemma held_set d acc b f bm :
  decoder_ok d acc -> Frame_from_bytes b (pd_session_key d) = Ok f ->
  0 <= fh_block_index (fr_header f) ->
  pd_held d !! Z.to_nat (fh_block_index (fr_header f)) = Some bm ->
  0 <= fh_symbol_index (fr_header f) < total_symbols_per_block (pd_params d) ->
  let held := <[Z.to_nat (fh_block_index (fr_header f)) :=
                 set_bit bm (fh_symbol_index (fr_header f))]> (pd_held d) in
  decoder_ok (set_journal (update (pd_journal d) b) (set_held held (popcount <$> held) d))
    (acc ++ [b]).
Proof.
  intros Hok Hf Hbi Hbm Hk held. apply decoder_ok_snoc; [done|apply length_insert|].
  intros i bm' Hi. apply list_lookup_insert_Some in Hi as [(<- & <- & _)|[Hne Hi]].
  - rewrite Z2Nat.id by done. apply records_set; [|done|].
    + apply (do_bitmap _ _ Hok) in Hbm. by rewrite Z2Nat.id in Hbm by done.
    + intros k'. rewrite (announces_frame _ _ f) by done. split; [by intros [_ ->]|by intros ->].
  - apply records_skip; [by apply (do_bitmap _ _ Hok)|]. intros k' _ Hann.
    apply (announces_frame _ _ f) in Hann as [Hi' _]; [|done]. exfalso. apply Hne.
    rewrite <- Hi'. apply Nat2Z.id.
Qed.

(** The byte [mark_held] looks at exists. *)
Lemma held_byte total key acc i bm k :
  records total key acc i bm -> 0 <= k < total -> is_Some (bm !! Z.to_nat (k / 8)).
Proof.
  intros Hrec Hk. pose proof (records_size _ _ _ _ _ k Hrec Hk). unfold len in *.
  apply lookup_lt_is_Some. pose proof (Z.div_lt_upper_bound k 8 (Z.of_nat (length bm))).
  pose proof (Z.div_pos k 8). lia.
Qed.

(** The held count never overflows: a new bit leaves it at most [total]. *)
Lemma held_count_bound total key acc i bm k :
  records total key acc i bm -> 0 <= k < total -> bit bm k = false ->
  popcount (set_bit bm k) = popcount bm + 1 /\ popcount bm < total.
Proof.
  intros Hrec Hk Hb. pose proof (records_size _ _ _ _ _ k Hrec Hk) as Hk8.
  pose proof (popcount_set_bit bm k ltac:(lia) Hk8 Hb) as Hpop. split; [done|].
  destruct Hrec as [Hlen Hiff]. enough (popcount (set_bit bm k) <= total) by lia.
  apply popcount_padding; [lia|unfold len in *; by rewrite length_set_bit|].
  apply padding_clear_iff; [lia|unfold len in *; by rewrite length_set_bit|].
  intros i' Hi'. rewrite bit_set_bit, orb_true_iff, bool_decide_eq_true by lia.
  intros [Hb'| ->]; [|lia]. by apply Hiff in Hb' as [? _].
Qed.

(** Recording a symbol: never a panic, and the invariant for the longer
    history. *)
Lemma mark_held_ok checks d acc b f :
  decoder_ok d acc -> Frame_from_bytes b (pd_session_key d) = Ok f ->
  fh_block_index (fr_header f) < Z.of_nat (length (pd_blocks d)) ->
  exists r held counts,
    mark_held checks (fh_block_index (fr_header f)) (fh_symbol_index (fr_header f)) d
    = (set_held held counts d, Ok r)
    /\ decoder_ok (set_journal (update (pd_journal d) b) (set_held held counts d)) (acc ++ [b]).
Proof.
  intros Hok Hf Hbi. pose proof (frame_inv _ _ _ Hf) as (Hwf & _ & _).
  pose proof (wh_symbol_index _ (wf_fr_header _ Hwf)) as Hk.
  pose proof (wh_block_index _ (wf_fr_header _ Hwf)) as Hb0. unfold urange in Hk, Hb0.
  assert (Hself : set_held (pd_held d) (pd_held_counts d) d = d) by by destruct d.
  unfold mark_held. run_action. case_decide as Hge.
  { exists false, (pd_held d), (pd_held_counts d). rewrite Hself. split; [done|].
    apply (held_skip d acc b f); auto with lia. }
  destruct (pd_held d !! Z.to_nat (fh_block_index (fr_header f))) as [bm|] eqn:Hlook;
    [|apply lookup_ge_None in Hlook; rewrite (do_held _ _ Hok) in Hlook; lia].
  pose proof (do_bitmap _ _ Hok _ _ Hlook) as Hrec. rewrite Z2Nat.id in Hrec by lia.
  rewrite (proj2 (index_Ok _ _ _) Hlook). run_action.
  destruct (held_byte _ _ _ _ _ (fh_symbol_index (fr_header f)) Hrec) as [byte Hbyte]; [lia|].
  rewrite (proj2 (index_Ok _ _ _) Hbyte). run_action.
  case_decide as Hset;
    pose proof (bit_lookup bm (fh_symbol_index (fr_header f)) byte ltac:(lia) Hbyte) as Hbit.
  { exists false, (pd_held d), (pd_held_counts d). rewrite Hself. split; [done|].
    apply (held_skip d acc b f); [done|done|lia|]. intros bm' Hbm'. right.
    rewrite Hlook in Hbm'. injection Hbm' as <-. by rewrite Hbit, bool_decide_eq_true_2. }
  rewrite bool_decide_eq_false_2 in Hbit by auto. rewrite (set_bit_insert bm _ byte Hbyte).
  destruct (held_count_bound _ _ _ _ _ (fh_symbol_index (fr_header f)) Hrec ltac:(lia) Hbit) as [Hpop Hbound].
  pose proof (wp_total_symbols _ (do_params _ _ Hok)) as Htot. unfold urange in Htot.
  assert (Hcount : pd_held_counts d !! Z.to_nat (fh_block_index (fr_header f))
                   = Some (popcount bm))
    by (by rewrite (do_counts _ _ Hok), list_lookup_fmap, Hlook).
  run_action. rewrite (proj2 (index_Ok _ _ _) Hcount). run_action.
  rewrite add_w_Ok by lia. run_action. exists true.
  set (held := <[Z.to_nat (fh_block_index (fr_header f)) :=
    set_bit bm (fh_symbol_index (fr_header f))]> (pd_held d)).
  exists held, (popcount <$> held). split.
  - cbn -[popcount]. unfold set_held. cbn -[popcount].
    do 2 f_equal. unfold held. by rewrite list_fmap_insert, Hpop, <- (do_counts _ _ Hok).
  - by apply (held_set d acc b f bm); auto with lia.
Qed.

(** *** Accepting a frame *)

Lemma admission_Ok d b f :
  admission d b = Ok f ->
  Frame_from_bytes b (pd_session_key d) = Ok f
  /\ fh_session_id (fr_header f) = pd_session_id d /\ fh_frame_type (fr_header f) = FRepair
  /\ 0 <= fh_block_index (fr_header f) < Z.of_nat (length (pd_blocks d))
  /\ 4 < len (fr_payload f).
Proof.
  unfold admission. intros H2. apply bind_Ok in H2 as (f' & Hf & H2). apply map_err_Ok in Hf.
  repeat case_decide; try done. injection H2 as <-.
  pose proof (frame_inv _ _ _ Hf) as (Hwf & _ & _).
  pose proof (wh_block_index _ (wf_fr_header _ Hwf)) as Hb0. unfold urange, PAYLOAD_ID_LEN in *.
  split_and!; (done || lia).
Qed.

Lemma admission_safe d b : safe (admission d b).
Proof.
  unfold admission. apply safe_bind; [apply safe_map_err, frame_safe|]. intros f _.
  by repeat case_decide.
Qed.

(** The decoder after the bookkeeping of an admitted frame. *)
Definition booked (d d1 : PipelineDecoder) : Prop :=
  pd_session_id d1 = pd_session_id d /\ pd_params d1 = pd_params d
  /\ pd_session_key d1 = pd_session_key d /\ pd_chunk_map d1 = pd_chunk_map d
  /\ pd_blocks d1 = pd_blocks d.

(** What [accept] does to the block of an admitted frame. *)
Definition deliver (d d1 : PipelineDecoder) (f : Frame) (st : BlockState)
    : PipelineDecoder * outcome CodecError FrameOutcome :=
  let i := fh_block_index (fr_header f) in
  match st with
  | Done _ => (d1, Ok Redundant)
  | Pending decoder =>
    match (p ← rq_deserialize (fr_payload f); rq_add_new_packet decoder p) with
    | None => (d1, Panic)
    | Some decoder =>
      match rq_get_result decoder with
      | Some data => (set_blocks (<[Z.to_nat i := Done data]> (pd_blocks d)) d1,
                      Ok (BlockComplete i))
      | None => (set_blocks (<[Z.to_nat i := Pending decoder]> (pd_blocks d)) d1, Ok Accepted)
      end
    end
  end.

Lemma accept_cases checks d acc b :
  decoder_ok d acc ->
  match admission d b with
  | Ok f => exists d1 st, booked d d1 /\ decoder_ok d1 (acc ++ [b])
      /\ pd_blocks d !! Z.to_nat (fh_block_index (fr_header f)) = Some st
      /\ accept checks b d = deliver d d1 f st
  | Err e => accept checks b d = (d, Err e)
  | Panic => False
  end.
Proof.
  intros Hok. pose proof (admission_safe d b) as Hsafe. destruct (admission d b) as [f|e|] eqn:Ha; [| |done].
  - destruct (admission_Ok d b f Ha) as (Hf & Hsid & Hft & Hbi & Hpl).
    destruct (mark_held_ok checks d acc b f Hok Hf ltac:(lia)) as (r & held & counts & Hm & Hok1).
    destruct (lookup_lt_is_Some_2 (pd_blocks d) (Z.to_nat (fh_block_index (fr_header f)))) as [st Hst];
      [lia|].
    exists (set_journal (update (pd_journal d) b) (set_held held counts d)), st.
    split; [done|]. split; [done|]. split; [done|].
    unfold accept. run_action. rewrite Hf. cbn [map_err]. rewrite Hsid, Hft.
    do 2 rewrite decide_False by auto. rewrite decide_False by lia.
    rewrite decide_False by (unfold PAYLOAD_ID_LEN; lia). rewrite (bind_action _ _ _ _ _ Hm).
    run_action. cbn [pd_blocks set_held set_journal].
    rewrite (proj2 (index_Ok _ _ _) Hst). run_action. unfold deliver.
    destruct st as [decoder|data]; [|done].
    destruct (p ← rq_deserialize (fr_payload f); rq_add_new_packet decoder p) as [decoder'|];
      [|done].
    run_action. by destruct (rq_get_result decoder').
  - unfold accept. run_action. unfold admission in Ha.
    destruct (Frame_from_bytes b (pd_session_key d)) as [f|ef|] eqn:Hf; cbn [map_err] in *;
      [|by injection Ha as <-|done].
    cbn [mbind outcome_bind] in Ha. repeat (case_decide; [by injection Ha as <-|]). done.
Qed.

Lemma decoder_ok_set_blocks d acc blocks :
  decoder_ok d acc -> length blocks = length (pd_blocks d) ->
  decoder_ok (set_blocks blocks d) acc.
Proof. intros [] Hl. split; cbn; try done; by rewrite Hl. Qed.

(** An accepted frame is an admitted one, and it extends the history. *)
Lemma accept_step checks d acc b d' r :
  decoder_ok d acc -> accept checks b d = (d', r) ->
  match r with
  | Ok _ => decoder_ok d' (acc ++ [b]) /\ (exists f, admission d b = Ok f)
  | Err _ => d' = d
  | Panic => exists f decoder, admission d b = Ok f
      /\ pd_blocks d !! Z.to_nat (fh_block_index (fr_header f)) = Some (Pending decoder)
      /\ (p ← rq_deserialize (fr_payload f); rq_add_new_packet decoder p) = None
  end
  /\ pd_session_id d' = pd_session_id d /\ pd_params d' = pd_params d
  /\ pd_session_key d' = pd_session_key d /\ pd_chunk_map d' = pd_chunk_map d.
Proof.
  intros Hok Hacc. pose proof (accept_cases checks d acc b Hok) as Hcases.
  destruct (admission d b) as [f|e|] eqn:Ha; [| |done].
  - destruct Hcases as (d1 & st & (Hs & Hp & Hk & Hm & Hb) & Hok1 & Hst & Heq).
    rewrite Hacc in Heq. unfold deliver in Heq. destruct st as [decoder|data].
    + destruct (p ← rq_deserialize (fr_payload f); rq_add_new_packet decoder p) as [decoder'|]
        eqn:Hadd; [|injection Heq as -> ->; split; [by exists f, decoder|done]].
      destruct (rq_get_result decoder'); injection Heq as -> ->; (split; [|done]);
        (split; [|by exists f]); apply decoder_ok_set_blocks; try done; by rewrite length_insert, Hb.
    + injection Heq as -> ->. split; [|done]. split; [done|by exists f].
  - rewrite Hacc in Hcases. by injection Hcases as -> ->.
Qed.

Lemma receive_ok checks bs d acc d' acc' :
  decoder_ok d acc -> receive checks bs d = Some (d', acc') ->
  decoder_ok d' (acc ++ acc') /\ acc' ⊆ bs
  /\ pd_session_id d' = pd_session_id d /\ pd_params d' = pd_params d
  /\ pd_session_key d' = pd_session_key d /\ pd_chunk_map d' = pd_chunk_map d.
Proof.
  revert d acc acc'. induction bs as [|b bs IH]; intros d acc acc' Hok; cbn [receive].
  { intros [= <- <-]. by rewrite app_nil_r. }
  destruct (accept checks b d) as [d1 r] eqn:Hacc.
  destruct (accept_step checks d acc b d1 r Hok Hacc) as (Hstep & Hs & Hp & Hk & Hm).
  destruct r as [o|e|]; [| |done].
  - destruct Hstep as [Hok1 _]. destruct (receive checks bs d1) as [[d2 acc2]|] eqn:Hrec; [|done].
    intros [= <- <-]. apply (IH d1 (acc ++ [b])) in Hrec as (Hok2 & Hsub & ? & ? & ? & ?); [|done].
    rewrite <- app_assoc in Hok2. split_and!; try congruence; [done|].
    intros x [->|Hx]%elem_of_cons; [left|right; by apply Hsub].
  - subst d1. intros Hrec. apply (IH d acc) in Hrec as (Hok2 & Hsub & Hrest); [|done].
    split; [done|]. split; [|done]. intros x Hx. right. by apply Hsub.
Qed.

(** Dropping what was rejected changes nothing. *)
Lemma receive_accepted checks bs d acc d' acc' :
  decoder_ok d acc -> receive checks bs d = Some (d', acc') ->
  receive checks acc' d = Some (d', acc').
Proof.
  revert d acc acc'. induction bs as [|b bs IH]; intros d acc acc' Hok; cbn [receive].
  { by intros [= <- <-]. }
  destruct (accept checks b d) as [d1 r] eqn:Hacc.
  destruct (accept_step checks d acc b d1 r Hok Hacc) as (Hstep & _).
  destruct r as [o|e|]; [| |done].
  - destruct Hstep as [Hok1 _]. destruct (receive checks bs d1) as [[d2 acc2]|] eqn:Hrec; [|done].
    intros [= <- <-]. cbn [receive]. rewrite Hacc.
    by rewrite (IH d1 (acc ++ [b]) acc2 Hok1 Hrec).
  - subst d1. intros Hrec. by apply (IH d acc).
Qed.


(** *** Finishing *)

Lemma collect_blocks_Ok i states bs : collect_blocks i states = Ok bs <-> states = Done <$> bs.
Proof.
  revert i bs. induction states as [|[decoder|data] states IH]; intros i bs; cbn [collect_blocks].
  - split; [by intros [= <-]|]. by destruct bs.
  - split; [done|]. by destruct bs.
  - rewrite bind_Ok. setoid_rewrite IH. split.
    + intros (bs' & -> & [= <-]). done.
    + destruct bs as [|b bs']; [done|]. cbn. intros [= -> ->]. eauto.
Qed.

Lemma collect_blocks_safe i states : safe (collect_blocks i states).
Proof.
  revert i. induction states as [|[decoder|data] states IH]; intros i; cbn [collect_blocks];
    [done..|]. apply safe_bind; [apply IH|done].
Qed.

Lemma reassemble_loop_spec m i bs acc :
  valid_map m -> (i + length bs <= length (cm_blocks m))%nat ->
  safe (reassemble_loop m i bs acc)
  /\ forall out, reassemble_loop m i bs acc = Ok out ->
     len out = len acc + zsum (bi_size <$> sub i (length bs) (cm_blocks m)).
Proof.
  intros Hm. revert i acc. induction bs as [|b bs IH]; intros i acc Hlen; cbn [reassemble_loop].
  { split; [done|]. intros out [= <-]. unfold sub. cbn [length]. rewrite take_0. cbn [fmap list_fmap zsum foldr]. lia. }
  cbn [length] in Hlen.
  destruct (lookup_lt_is_Some_2 (cm_blocks m) i) as [blk Hblk]; [lia|].
  rewrite (proj2 (index_Ok _ _ _) Hblk). cbn [mbind outcome_bind]. case_decide as Hb; [done|].
  assert (Hsz : 0 <= bi_size blk).
  { apply vm_blocks_lookup in Hblk as [Hi ->]; [|done]. cbn.
    pose proof (vm_bounds m Hm). pose proof (spec_size_bounds _ (vm_params m Hm) (Z.of_nat i) ltac:(lia)). lia. }
  unfold len in Hb. rewrite slice_Ok by lia. cbn [mbind outcome_bind].
  destruct (IH (S i) (acc ++ sub 0 (Z.to_nat (bi_size blk) - 0) b)) as [Hsafe Hspec]; [lia|].
  split; [done|]. intros out Hout. apply Hspec in Hout. rewrite Hout, len_app.
  cbn [length]. rewrite (sub_S i _ _ blk Hblk). cbn [fmap list_fmap]. unfold zsum. cbn [foldr].
  unfold len. rewrite length_sub by lia. lia.
Qed.

Lemma reassemble_spec m bs :
  valid_map m -> safe (reassemble m bs)
  /\ forall out, reassemble m bs = Ok out -> len out = cp_payload_size (cm_params m).
Proof.
  intros Hm. pose proof (vm_bounds m Hm) as Hb. unfold reassemble. rewrite vm_block_count by done.
  case_decide as Hn; [done|]. unfold len in Hn.
  assert (Hl : length bs = length (cm_blocks m)) by (rewrite vm_length by done; lia).
  destruct (reassemble_loop_spec m 0 bs [] Hm ltac:(lia)) as [Hsafe Hspec]. split; [done|].
  intros out Hout. apply Hspec in Hout. rewrite Hout, Hl, sub_all, vm_sizes by done.
  rewrite zsum_sizes by (done || lia). change (len []) with 0.
  rewrite Z2Nat.id by lia. unfold spec_start.
  destruct (payload_split _ (vm_params m Hm)) as (Hs & Hr & _). rewrite Z.min_r by lia. lia.
Qed.

Lemma finish_safe d acc : decoder_ok d acc -> safe (finish d).
Proof.
  intros Hok. unfold finish. apply safe_bind; [apply collect_blocks_safe|]. intros bs _.
  apply safe_bind; [apply safe_map_err, reassemble_spec, Hok|]. intros out _. by case_decide.
Qed.

Lemma is_complete_iff d : is_complete d = true <-> exists bs, pd_blocks d = Done <$> bs.
Proof.
  unfold is_complete. rewrite forallb_forall. split.
  - intros Hall. exists ((fun st => match st with Done b => b | Pending _ => [] end) <$> pd_blocks d).
    rewrite <- list_fmap_compose. symmetry. rewrite <- (list_fmap_id (pd_blocks d)) at 2.
    apply list_fmap_ext. intros i st Hst. apply list_elem_of_lookup_2, list_elem_of_In, Hall in Hst.
    by destruct st.
  - intros [bs ->] st Hst. apply list_elem_of_In, list_elem_of_fmap in Hst as (b & -> & _). done.
Qed.

(** What a decoder finishes with has the declared digest and length. *)
Lemma finish_Ok d acc out :
  decoder_ok d acc -> finish d = Ok out ->
  blake3_digest out = payload_digest (pd_params d) /\ len out = payload_size (pd_params d)
  /\ is_complete d = true.
Proof.
  intros Hok Ho. unfold finish in Ho.
  apply bind_Ok in Ho as (blocks & Hc & Ho). apply bind_Ok in Ho as (out' & Hre & Ho).
  apply map_err_Ok in Hre. case_decide as Hd; [done|]. injection Ho as ->.
  destruct (reassemble_spec _ blocks (do_map _ _ Hok)) as [_ Hl]. apply Hl in Hre.
  rewrite (do_map_params _ _ Hok) in Hre. split_and!; [done|done|].
  apply is_complete_iff. exists blocks. by apply collect_blocks_Ok in Hc.
Qed.

(** *** Resuming *)

Lemma wf_block_records total key acc i bm :
  urange 32 total -> (i < 1024)%nat -> records total key acc (Z.of_nat i) bm ->
  wf_block (BlockEntry_new (as_u 32 (Z.of_nat i)) total (popcount bm) bm).
Proof.
  intros Ht Hi [Hl Hb]. assert (Hi32 : urange 32 (Z.of_nat i)) by (unfold urange; lia).
  split; cbn -[popcount]; try done; [by rewrite as_u_id|].
  intros k Hk Hbit. by apply Hb in Hbit as [? _].
Qed.

Lemma resume_state_eq {E} jb d acc :
  decoder_ok d acc -> urange 64 jb -> (length (pd_blocks d) <= 1024)%nat ->
  exists es, @resume_state _ _ E jb d
    = Ok (ResumeFile_new (pd_session_id d) jb (journal_digest d) es)
  /\ es = imap (fun i bm => BlockEntry_new (Z.of_nat i) (total_symbols_per_block (pd_params d))
                 (popcount bm) bm) (pd_held d)
  /\ Forall wf_block es /\ block_index <$> es = Z.of_nat <$> seq 0 (length es)
  /\ length es = length (pd_blocks d).
Proof.
  intros Hok Hjb Hn. unfold resume_state.
  set (es := imap _ (pd_held d)). exists es.
  assert (Hel : length es = length (pd_blocks d))
    by (unfold es; by rewrite length_imap, (do_held _ _ Hok)).
  assert (Hlook : forall i e, es !! i = Some e -> exists bm, pd_held d !! i = Some bm
    /\ e = BlockEntry_new (Z.of_nat i) (total_symbols_per_block (pd_params d)) (popcount bm) bm).
  { intros i e. unfold es. rewrite list_lookup_imap.
    destruct (pd_held d !! i) as [bm|]; [|done]. intros [= <-]. eauto. }
  assert (Htr : traverse (fun i => count ← index i (pd_held_counts d); held ← index i (pd_held d);
      Ok (BlockEntry_new (as_u 32 (Z.of_nat i)) (total_symbols_per_block (pd_params d)) count held))
      (seq 0 (length (pd_blocks d))) = @Ok E _ es).
  { apply traverse_Ok, Forall2_same_length_lookup. rewrite length_seq. split; [done|].
    intros i j e Hj He. apply lookup_seq in Hj as [-> Hlt].
    apply Hlook in He as (bm & Hbm & ->). cbn [Nat.add].
    rewrite (do_counts _ _ Hok). unfold index. rewrite list_lookup_fmap, Hbm. cbn.
    rewrite as_u_id by (unfold urange; lia). done. }
  rewrite Htr. split; [done|]. split; [done|]. split; [|split; [|done]].
  - apply Forall_lookup. intros i e He. apply lookup_lt_Some in He as Hlt.
    apply Hlook in He as (bm & Hbm & ->).
    rewrite <- (as_u_id 32 (Z.of_nat i)) by (unfold urange; lia).
    apply (wf_block_records _ (pd_session_key d) acc); [apply (do_params _ _ Hok)|lia|].
    by apply (do_bitmap _ _ Hok).
  - apply list_eq. intros i. rewrite !list_lookup_fmap.
    destruct (decide (i < length es)%nat) as [Hi|Hi].
    + rewrite lookup_seq_lt by done. destruct (lookup_lt_is_Some_2 es i Hi) as [e He].
      rewrite He. apply Hlook in He as (bm & _ & ->). done.
    + rewrite (proj2 (lookup_ge_None es i)), (proj2 (lookup_ge_None (seq 0 _) i)) by
        (rewrite ?length_seq; lia). done.
Qed.

Lemma verify_entries_Ok d es :
  verify_entries d es = Ok tt <->
  Forall (fun e => symbol_count e = total_symbols_per_block (pd_params d)
    /\ pd_held d !! Z.to_nat (block_index e) = Some (Resume.symbol_bitmap e)) es.
Proof.
  induction es as [|e es IH]; cbn [verify_entries]; [split; [by constructor|done]|].
  rewrite Forall_cons. case_decide as Hc; [split; [done|by intros [[? _] _]]|].
  unfold index. destruct (pd_held d !! Z.to_nat (block_index e)) as [bm|];
    cbn [mbind outcome_bind]; [|split; [done|by intros [[_ ?] _]]].
  case_decide as Hb; [split; [done|intros [[_ [= Heq]] _]; by symmetry in Heq]|].
  rewrite IH. split; [|tauto]. intros ?. split; [|done]. split; [done|]. by f_equal.
Qed.

End bookkeeping.

Section reachable.
Context `{Blake3Laws} `{RaptorQ}.

Lemma received_ok checks sid params key d0 bs d acc :
  length sid = 16%nat -> wf_params params -> PipelineDecoder_new checks sid params key = Ok d0 ->
  receive checks bs d0 = Some (d, acc) ->
  decoder_ok d acc /\ pd_session_id d = sid /\ pd_params d = params /\ pd_session_key d = key
  /\ acc ⊆ bs.
Proof.
  intros Hs Hp Hn Hr. destruct (decoder_new_ok _ _ _ _ _ Hs Hp Hn) as (Hok & <- & <- & <-).
  apply (receive_ok _ _ _ []) in Hr as (Hok' & Hsub & -> & -> & -> & _); [|done]. done.
Qed.

Lemma block_count_bound d acc : decoder_ok d acc ->
  (1 <= length (pd_blocks d) <= 1024)%nat /\ decoder_block_count d = Z.of_nat (length (pd_blocks d)).
Proof.
  intros Hok. pose proof (vm_bounds _ (do_map _ _ Hok)) as Hb.
  rewrite (do_map_params _ _ Hok) in Hb. cbn in Hb. pose proof (do_blocks _ _ Hok).
  split; [lia|]. unfold decoder_block_count, len. apply as_u_id. unfold urange. lia.
Qed.

End reachable.

(** Example parameters, for concrete runs: two bytes in two blocks. *)
Definition demo_payload : list byte := [Byte.x2a; Byte.x2b].

Definition demo_session : SessionParams :=
  {| payload_size := 2; block_count := 2; symbol_size := 64; source_symbols_per_block := 1;
     total_symbols_per_block := 2; raptorq := {| z := 1; n := 1; psi := 1 |};
     payload_digest := blake3_digest demo_payload |}.

Lemma demo_session_wf : wf_params demo_session.
Proof. split; (reflexivity || (split; [vm_compute; discriminate|reflexivity])). Qed.

(** ** Properties *)

(** interleaving loses, adds and duplicates nothing, whatever the lengths
    of the lists; when they are equal, element [r] of list [j] comes at
    position [r * lists + j], so any run of consecutive elements is spread
    evenly over the lists. *)
Theorem pipeline_interleave {A} (ls : list (list A)) n r j :
  interleave ls ≡ₚ concat ls
  /\ (Forall (fun l => length l = n) ls -> (r < n)%nat -> (j < length ls)%nat ->
      interleave ls !! (r * length ls + j)%nat = (ls !! j ≫= fun l : list A => l !! r)).
Proof.
  split; [apply interleave_permutation|]. intros Hls Hr Hj. unfold interleave.
  replace (foldr Nat.max 0 (length <$> ls))%nat with n; [by apply rounds_lookup|].
  destruct ls as [|l ls]; [cbn in Hj; lia|]. clear Hj. apply Forall_cons in Hls as [Hl Hls].
  cbn. rewrite Hl. enough (foldr Nat.max 0 (length <$> ls) <= n)%nat by lia.
  clear Hl. induction Hls as [|l' ls Hl' _ IH]; cbn; lia.
Qed.

Lemma pipeline_interleave_witness :
  interleave [[1; 2]; [3; 4]; [5; 6]] ≡ₚ concat [[1; 2]; [3; 4]; [5; 6]]
  /\ interleave [[1; 2]; [3; 4]; [5; 6]] !! 4%nat = Some 4.
Proof.
  destruct (pipeline_interleave [[1; 2]; [3; 4]; [5; 6]] 2 1 1) as [Hp Hl].
  split; [exact Hp|]. apply Hl; [repeat constructor|lia|simpl; lia].
Defined.

(** C21: a rejected frame leaves the decoder exactly as it was; an accepted one
    parses under the session key, belongs to the session, is a repair frame for
    one of its blocks and carries more than a packet identifier; and the only
    panic is one of the RaptorQ library on a packet for a pending block. *)
Theorem pipeline_accept `{Blake3Laws} `{RaptorQ} checks sid params key d0 bs d acc b d' r :
  length sid = 16%nat -> wf_params params -> PipelineDecoder_new checks sid params key = Ok d0 ->
  receive checks bs d0 = Some (d, acc) -> accept checks b d = (d', r) ->
  match r with
  | Err _ => d' = d
  | Ok _ => exists f, Frame_from_bytes b key = Ok f /\ fh_session_id (fr_header f) = sid
      /\ fh_frame_type (fr_header f) = FRepair
      /\ 0 <= fh_block_index (fr_header f) < block_count params /\ 4 < len (fr_payload f)
  | Panic => exists f decoder, Frame_from_bytes b key = Ok f
      /\ pd_blocks d !! Z.to_nat (fh_block_index (fr_header f)) = Some (Pending decoder)
      /\ (p ← rq_deserialize (fr_payload f); rq_add_new_packet decoder p) = None
  end.
Proof.
  intros Hs Hp Hn Hr Ha.
  destruct (received_ok _ _ _ _ _ _ _ _ Hs Hp Hn Hr) as (Hok & <- & <- & <- & _).
  destruct (accept_step _ _ _ _ _ _ Hok Ha) as [Hstep _]. pose proof (do_blocks _ _ Hok) as Hb.
  destruct r as [o|e|]; [|done|].
  - destruct Hstep as (_ & f & Hf). apply admission_Ok in Hf as (? & ? & ? & ? & ?). exists f.
    split_and!; (done || lia).
  - destruct Hstep as (f & decoder & Hf & ? & ?). apply admission_Ok in Hf as [? _]. by exists f, decoder.
Qed.

Lemma pipeline_accept_witness :
  exists d0, PipelineDecoder_new true (zeros 16) demo_session (zeros 32) = Ok d0
    /\ (accept true [Byte.x44] d0).1 = d0.
Proof.
  eexists. split; [reflexivity|].
  eapply (pipeline_accept true (zeros 16) demo_session (zeros 32) _ [] _ [] [Byte.x44] _
    (Err (Codec.Frame (Framing.HeaderTooShort 1))));
    [reflexivity|apply demo_session_wf|reflexivity|reflexivity|reflexivity].
Defined.

(** C22: after any sequence of arrivals, for each block: the reported count is
    the number of set bits of the reported bitmap and at most the declared
    number of symbols, bit [k] is set exactly when the block has a symbol [k]
    and an accepted frame announced it, and the journal digest is the digest of
    the accepted frames' bytes in order of acceptance. *)
Theorem pipeline_bookkeeping `{Blake3Laws} `{RaptorQ} checks sid params key d0 bs d acc i bm :
  length sid = 16%nat -> wf_params params -> PipelineDecoder_new checks sid params key = Ok d0 ->
  receive checks bs d0 = Some (d, acc) -> 0 <= i -> symbol_bitmap d i = Some bm ->
  symbols_held d i = Some (popcount bm)
  /\ popcount bm <= total_symbols_per_block params
  /\ (forall k, 0 <= k -> bit bm k = true <->
        k < total_symbols_per_block params /\ exists b, b ∈ acc /\ announces key b i k)
  /\ journal_digest d = blake3_digest (concat acc).
Proof.
  intros Hs Hp Hn Hr Hi Hbm.
  destruct (received_ok _ _ _ _ _ _ _ _ Hs Hp Hn Hr) as (Hok & _ & <- & <- & _).
  pose proof (do_bitmap _ _ Hok _ _ Hbm) as Hrec. rewrite Z2Nat.id in Hrec by done.
  split; [|split; [|split]].
  - unfold symbols_held, symbol_bitmap in *. by rewrite (do_counts _ _ Hok), list_lookup_fmap, Hbm.
  - apply records_bound in Hrec as [_ ?]; [done|]. apply (do_params _ _ Hok).
  - apply Hrec.
  - unfold journal_digest. rewrite (do_journal _ _ Hok). apply hasher_streams.
Qed.

Lemma pipeline_bookkeeping_witness :
  exists d0, PipelineDecoder_new true (zeros 16) demo_session (zeros 32) = Ok d0
    /\ symbols_held d0 1 = Some (popcount [Byte.x00])
    /\ journal_digest d0 = blake3_digest (concat []).
Proof.
  eexists. split; [reflexivity|].
  eassert (Hw := pipeline_bookkeeping true (zeros 16) demo_session (zeros 32) _ [] _ [] 1
    [Byte.x00] eq_refl demo_session_wf eq_refl eq_refl ltac:(lia) eq_refl).
  split; [exact (proj1 Hw)|exact (proj2 (proj2 (proj2 Hw)))].
Defined.

(** C9: [finish] never panics, whatever arrived, and bytes it returns have the
    declared digest and the declared size and come from a decoder all of whose
    blocks are done: an unverified payload is never handed out. *)
Theorem pipeline_finish `{Blake3Laws} `{RaptorQ} checks sid params key d0 bs d acc :
  length sid = 16%nat -> wf_params params -> PipelineDecoder_new checks sid params key = Ok d0 ->
  receive checks bs d0 = Some (d, acc) ->
  safe (finish d)
  /\ forall out, finish d = Ok out ->
     blake3_digest out = payload_digest params /\ len out = payload_size params
     /\ is_complete d = true.
Proof.
  intros Hs Hp Hn Hr.
  destruct (received_ok _ _ _ _ _ _ _ _ Hs Hp Hn Hr) as (Hok & _ & <- & _ & _).
  split; [by apply (finish_safe d acc)|]. intros out. by apply (finish_Ok d acc).
Qed.

Lemma pipeline_finish_witness :
  exists d0, PipelineDecoder_new true (zeros 16) demo_session (zeros 32) = Ok d0
    /\ safe (finish d0).
Proof.
  eexists. split; [reflexivity|].
  eapply (pipeline_finish true (zeros 16) demo_session (zeros 32) _ [] _ []);
    [reflexivity|apply demo_session_wf|reflexivity|reflexivity].
Defined.
