(* ===== verification/Transfer.v ===== *)
(** * Transfers, end to end

    The sender and the receiver of [Pipeline] against each other and against
    the resume file: every frame the sender emits is one the receiver takes,
    any arrival order delivers the payload, and a journal replays. *)

From S2P Require Import Prelude Errors Crc32c Primitives Instances Chunker Frame Digest Session.
From S2P Require Import Bitmap Resume Pipeline.

(** ** Definitions *)

Section transfer.
Context `{Blake3} `{RaptorQ}.

(** Block [i] of a payload. *)
Definition block_data (p : SessionParams) (payload : list byte) (i : nat) : list byte :=
  sub (Z.to_nat (spec_start (payload_size p) (block_count p) (Z.of_nat i)))
      (Z.to_nat (spec_size (payload_size p) (block_count p) (Z.of_nat i))) payload.

(** The packets the sender makes of block [i]. *)
Definition block_packets (p : SessionParams) (payload : list byte) (repair : Z) (i : nat)
    : list rq_packet :=
  rq_packets (block_data p payload i) (symbol_size p) repair.

(** A serialized frame that carries packet [p] of block [i]. *)
Definition carries (key b : list byte) (i : nat) (p : rq_packet) : Prop :=
  exists f, Frame_from_bytes b key = Ok f
    /\ fh_block_index (fr_header f) = Z.of_nat i /\ rq_deserialize (fr_payload f) = Some p.

(** A frame of the session for packet [p] of block [i]. *)
Record symbol_frame (sid key : list byte) (i : nat) (p : rq_packet) (f : Frame) : Prop := {
  sf_wf : wf_frame f;
  sf_authentic : authentic f key;
  sf_session_id : fh_session_id (fr_header f) = sid;
  sf_type : fh_frame_type (fr_header f) = FRepair;
  sf_block : fh_block_index (fr_header f) = Z.of_nat i;
  sf_payload : fr_payload f = rq_serialize p;
}.

(** A sender [Pipeline::new] made. *)
Record sender_ok (pl : Pipeline) : Prop := {
  so_session_id : length (pl_session_id pl) = 16%nat;
  so_params : wf_params (pl_params pl);
  so_symbol_size : 64 <= symbol_size (pl_params pl) <= 65531;
  so_map : valid_map (pl_chunk_map pl);
  so_map_params : cm_params (pl_chunk_map pl) =
    {| cp_payload_size := payload_size (pl_params pl);
       cp_block_count := block_count (pl_params pl);
       cp_symbol_size := symbol_size (pl_params pl) |};
}.

(** How many repair packets per block the sender asks for. *)
Definition repair_count (p : SessionParams) : Z :=
  Z.max 0 (total_symbols_per_block p - source_symbols_per_block p).

(** Every block with bytes in it encodes: the RaptorQ encoder takes it. *)
Definition encodable (p : SessionParams) (payload : list byte) : Prop :=
  forall i, (i < Z.to_nat (block_count p))%nat -> 0 < len (block_data p payload i) ->
    is_Some (rq_stream (block_data p payload i) (symbol_size p) (repair_count p)).

(** The largest block stays within the source symbols RFC 6330 lets a block
    have, and the repair packets within sixteen bits. *)
Definition within_limit (p : SessionParams) : Prop :=
  div_ceil (div_ceil (payload_size p) (block_count p)) (symbol_size p - symbol_size p mod 8)
    <= RQ_MAX_SYMBOLS
  /\ repair_count p <= 65535.

(** Block [i] of the receiver is on its way to [data]. *)
Definition progress (p : SessionParams) (key payload : list byte) (acc : list (list byte))
    (i : nat) (st : BlockState) : Prop :=
  match st with
  | Done bytes => bytes = block_data p payload i
  | Pending decoder =>
    0 < len (block_data p payload i)
    /\ exists d0 ps,
      rq_decoder_for (len (block_data p payload i)) (symbol_size p) = Some d0
      /\ rq_feed d0 ps = Some decoder
      /\ Forall (fun q => q ∈ block_packets p payload (repair_count p) i) ps
      /\ (forall b q, b ∈ acc -> carries key b i q -> q ∈ ps)
      /\ (ps = [] \/ rq_get_result decoder = None)
  end.

(** The receiver is on its way to [payload]. *)
Definition receiving (d : PipelineDecoder) (payload : list byte) (acc : list (list byte)) : Prop :=
  forall i st, pd_blocks d !! i = Some st ->
    progress (pd_params d) (pd_session_key d) payload acc i st.

(** A byte string the sender of [payload] could have emitted. *)
Definition genuine (d : PipelineDecoder) (payload b : list byte) : Prop :=
  exists i p f, (i < Z.to_nat (block_count (pd_params d)))%nat
    /\ 0 < len (block_data (pd_params d) payload i)
    /\ p ∈ block_packets (pd_params d) payload (repair_count (pd_params d)) i
    /\ symbol_frame (pd_session_id d) (pd_session_key d) i p f /\ b = Frame_to_vec f.

(** A byte string a receiver turns down. *)
Definition refused (checks : bool) (d : PipelineDecoder) (b : list byte) : Prop :=
  exists e, accept checks b d = (d, Err e).

(** The sender's frames in a stream. *)
Definition sent (frames bs : list (list byte)) : list (list byte) :=
  filter (fun b => b ∈ frames) bs.

End transfer.

(** ** Lemmas *)

Section blocks.
Context `{Blake3} `{RaptorQ} (p : SessionParams) (payload : list byte) (m : ChunkMap).
Context (Hm : valid_map m) (Hmp : cm_params m =
  {| cp_payload_size := payload_size p; cp_block_count := block_count p;
     cp_symbol_size := symbol_size p |}).
Context (Hlen : len payload = payload_size p).

Lemma block_bounds : 0 <= payload_size p <= 2 ^ 32 /\ 1 <= block_count p <= 1024.
Proof. pose proof (vm_bounds m Hm) as Hb. rewrite Hmp in Hb. cbn in Hb. lia. Qed.

Lemma len_block_data i :
  (i < Z.to_nat (block_count p))%nat ->
  len (block_data p payload i) = spec_size (payload_size p) (block_count p) (Z.of_nat i)
  /\ len (block_data p payload i) <= 2 ^ 32.
Proof using Hm Hmp Hlen.
  intros Hi. pose proof block_bounds as [_ Hb]. pose proof (vm_params m Hm) as Hv.
  pose proof (spec_size_bounds _ Hv (Z.of_nat i) ltac:(lia)) as Hs.
  pose proof (spec_start_bounds _ Hv (Z.of_nat i)) as H1.
  pose proof (spec_start_S (cm_params m) (Z.of_nat i)) as H2.
  pose proof (spec_start_mono _ Hv (Z.of_nat i + 1) (cp_block_count (cm_params m))) as H3.
  pose proof (spec_start_end _ Hv) as H4.
  rewrite Hmp in Hs, H1, H2, H3, H4. cbn in Hs, H1, H2, H3, H4. unfold len in *.
  enough (length (block_data p payload i)
          = Z.to_nat (spec_size (payload_size p) (block_count p) (Z.of_nat i))) by lia.
  apply length_sub. lia.
Qed.

(** The blocks, one after the other, are the payload. *)
Lemma concat_block_data :
  concat (block_data p payload <$> seq 0 (Z.to_nat (block_count p))) = payload.
Proof using Hm Hmp Hlen.
  pose proof block_bounds as [_ Hb]. pose proof (vm_params m Hm) as Hv.
  pose proof (concat_blocks m Hm payload (Z.to_nat (block_count p))) as Hc.
  pose proof (spec_start_end _ Hv) as H4. rewrite Hmp in Hc, H4. cbn in Hc, H4.
  unfold block_data. rewrite Hc by lia. rewrite Z2Nat.id, H4, <- Hlen by lia. unfold len.
  rewrite Nat2Z.id. by apply firstn_all.
Qed.

Lemma reassemble_block_data :
  reassemble m (block_data p payload <$> seq 0 (Z.to_nat (block_count p))) = Ok payload.
Proof using Hm Hmp Hlen.
  rewrite (reassemble_Ok m Hm), concat_block_data; [done|..].
  - rewrite length_fmap, length_seq. by rewrite Hmp.
  - intros j b Hj. apply list_lookup_fmap_Some in Hj as (i & -> & Hi).
    apply lookup_seq in Hi as [-> Hi]. destruct (len_block_data j Hi) as [Hl _].
    cbn [Nat.add]. rewrite Hl, Hmp. done.
Qed.

(** The block loop's view of block [i]. *)
Lemma block_lookup i :
  (i < Z.to_nat (block_count p))%nat ->
  exists blk, cm_blocks m !! i = Some blk /\ bi_index blk = Z.of_nat i
    /\ bi_size blk = len (block_data p payload i)
    /\ forall checks, extract_block checks m payload (bi_index blk) = Ok (block_data p payload i).
Proof using Hm Hmp Hlen.
  intros Hi. pose proof block_bounds as [_ Hb]. exists (spec_block (cm_params m) i).
  rewrite vm_lookup by (rewrite ?Hmp; done). split; [done|]. split; [done|].
  destruct (len_block_data i Hi) as [Hl _]. split; [rewrite Hl, Hmp; done|].
  intros checks. cbn [bi_index spec_block].
  rewrite extract_block_Ok by (rewrite ?Hmp; cbn; lia || done). by rewrite Hmp.
Qed.

End blocks.

(** *** Sending *)

Section sending.
Context `{Blake3Laws} `{RaptorQLaws}.

Lemma sender_new_ok checks sid params key pl :
  length sid = 16%nat -> wf_params params -> Pipeline_new checks sid params key = Ok pl ->
  sender_ok pl /\ pl_session_id pl = sid /\ pl_params pl = params /\ pl_session_key pl = key.
Proof.
  intros Hs Hp. unfold Pipeline_new. intros Hn. apply bind_Ok in Hn as ([] & Hv & Hn).
  apply bind_Ok in Hn as (m & Hm & Hn). injection Hn as <-.
  apply chunk_map_for_Ok in Hm as [Hm Hmp]; [|done].
  apply validate_params_Ok in Hv as (_ & _ & Hss). by split.
Qed.

Lemma config_is_mtu {E} size ss :
  64 <= ss <= 65531 -> @config_for_block _ E size ss = or_panic (rq_with_defaults size ss).
Proof. intros. unfold config_for_block. rewrite as_u_id; [done|]. unfold urange. lia. Qed.

(** One packet, one frame. *)
Lemma encode_symbol_Ok pl i j p data repair :
  sender_ok pl -> (i < 1024)%nat -> 0 < len data -> 0 <= repair ->
  p ∈ rq_packets data (symbol_size (pl_params pl)) repair ->
  exists f, encode_symbol pl (Z.of_nat i) (j, p) = Ok f
    /\ symbol_frame (pl_session_id pl) (pl_session_key pl) i p f.
Proof.
  intros Hpl Hi Hd Hr Hp. pose proof (so_symbol_size _ Hpl) as Hss.
  destruct (rq_packet_roundtrip data (symbol_size (pl_params pl)) repair p Hd ltac:(lia) Hr Hp) as [_ Hl].
  unfold encode_symbol. cbn [fst snd]. unfold MAX_PAYLOAD_LEN.
  rewrite decide_False by lia.
  destruct (@FrameHeader_new CodecError FRepair (pl_session_id pl) (Z.of_nat i)
    (as_u 32 (Z.of_nat j)) (rq_serialize p)) as [h|e|] eqn:Hh;
    [|unfold FrameHeader_new, MAX_PAYLOAD_LEN in Hh; by rewrite decide_True in Hh by lia..].
  destruct (header_new_Ok _ _ _ _ _ _ Hh (so_session_id _ Hpl)) as
    (Hwf & Hpl' & Hcrc & Hft & Hsid & Hbi & Hsi);
    [unfold urange; lia|apply urange_as_u; lia|].
  eexists. split; [done|]. destruct (frame_build_wf h (rq_serialize p) (pl_session_key pl) Hwf Hpl' Hcrc).
  by split.
Qed.

(** The packets of a block, one frame each. *)
Lemma encode_symbols_Ok pl i data repair :
  sender_ok pl -> (i < 1024)%nat -> 0 < len data -> 0 <= repair ->
  let ps := rq_packets data (symbol_size (pl_params pl)) repair in
  exists fs, traverse (encode_symbol pl (Z.of_nat i)) (imap pair ps) = Ok fs
    /\ Forall2 (fun p f => symbol_frame (pl_session_id pl) (pl_session_key pl) i p f) ps fs.
Proof.
  intros Hpl Hi Hd Hr ps.
  assert (Hone : forall j p, ps !! j = Some p -> exists f, encode_symbol pl (Z.of_nat i) (j, p) = Ok f
    /\ symbol_frame (pl_session_id pl) (pl_session_key pl) i p f).
  { intros j p Hp. apply list_elem_of_lookup_2 in Hp.
    exact (encode_symbol_Ok pl i j p data repair Hpl Hi Hd Hr Hp). }
  destruct (traverse_total (encode_symbol pl (Z.of_nat i)) (imap pair ps)) as [fs Hfs].
  { apply Forall_lookup. intros j [j' p] Hj. rewrite list_lookup_imap in Hj.
    apply fmap_Some in Hj as (p' & Hp & [= -> ->]). destruct (Hone j p' Hp) as (f & Hf & _). by exists f. }
  exists fs. split; [done|]. apply traverse_Ok in Hfs.
  apply Forall2_same_length_lookup. apply Forall2_same_length_lookup in Hfs as [Hl Hfs].
  rewrite length_imap in Hl. split; [done|]. intros j p f Hp Hf.
  specialize (Hfs j (j, p) f). rewrite list_lookup_imap, Hp in Hfs. specialize (Hfs eq_refl Hf).
  destruct (Hone j p Hp) as (f' & Hf' & Hsf). rewrite Hf' in Hfs. by injection Hfs as <-.
Qed.

(** Block [i] encodes exactly when its packet stream exists; its frames then. *)
Lemma encode_block_cases checks pl payload repair i :
  sender_ok pl -> len payload = payload_size (pl_params pl) -> 0 <= repair ->
  (i < Z.to_nat (block_count (pl_params pl)))%nat ->
  exists blk, cm_blocks (pl_chunk_map pl) !! i = Some blk
    /\ if decide (len (block_data (pl_params pl) payload i) = 0)
       then encode_block checks pl payload repair blk = Ok []
       else match rq_stream (block_data (pl_params pl) payload i) (symbol_size (pl_params pl)) repair with
            | Some ps => exists fs, encode_block checks pl payload repair blk = Ok fs
                /\ Forall2 (fun p f => symbol_frame (pl_session_id pl) (pl_session_key pl) i p f) ps fs
            | None => encode_block checks pl payload repair blk = Panic
            end.
Proof.
  intros Hpl Hlen Hr Hi. pose proof (so_map _ Hpl) as Hm. pose proof (so_map_params _ Hpl) as Hmp.
  pose proof (block_bounds (pl_params pl) _ Hm Hmp) as [_ Hb].
  destruct (block_lookup (pl_params pl) payload _ Hm Hmp Hlen i Hi) as (blk & Hblk & Hidx & Hsz & Hex).
  exists blk. split; [done|]. unfold encode_block. rewrite Hsz. case_decide as Hz; [done|].
  rewrite Hex. cbn [map_err mbind outcome_bind].
  rewrite config_is_mtu by apply (so_symbol_size _ Hpl). rewrite Hidx.
  pose proof (len_nonneg (block_data (pl_params pl) payload i)) as Hnn.
  pose proof (encode_symbols_Ok pl i (block_data (pl_params pl) payload i) repair Hpl ltac:(lia)
    ltac:(lia) Hr) as Hsym. cbv zeta in Hsym. unfold rq_packets in Hsym. unfold rq_stream in *.
  destruct (rq_with_defaults _ _) as [c|]; [|done]. cbn in Hsym |- *.
  destruct (rq_encoder_new _ c) as [e|]; [|done]. cbn in Hsym |- *.
  destruct (rq_get_encoded_packets e repair) as [ps|]; [|done]. exact Hsym.
Qed.

(** The frames of block [i], in packet order. *)
Definition block_frames (pl : Pipeline) (payload : list byte) (i : nat) (fs : list Frame) : Prop :=
  Forall2 (fun p f => symbol_frame (pl_session_id pl) (pl_session_key pl) i p f)
    (if decide (len (block_data (pl_params pl) payload i) = 0) then []
     else block_packets (pl_params pl) payload (repair_count (pl_params pl)) i) fs.

Lemma repair_count_nonneg p : 0 <= repair_count p.
Proof. unfold repair_count. lia. Qed.

Lemma sender_blocks pl :
  sender_ok pl -> length (cm_blocks (pl_chunk_map pl)) = Z.to_nat (block_count (pl_params pl)).
Proof. intros Hpl. rewrite (vm_length _ (so_map _ Hpl)). by rewrite (so_map_params _ Hpl). Qed.

(** What [encode] returns, when no block panics. *)
Lemma encode_Ok checks pl payload frames :
  sender_ok pl -> len payload = payload_size (pl_params pl) ->
  encode checks pl payload = Ok frames ->
  encodable (pl_params pl) payload
  /\ exists per_block, frames = interleave per_block
    /\ length per_block = Z.to_nat (block_count (pl_params pl))
    /\ forall i fs, per_block !! i = Some fs -> block_frames pl payload i fs.
Proof.
  intros Hpl Hlen. unfold encode. rewrite decide_False by auto.
  fold (repair_count (pl_params pl)). set (r := repair_count (pl_params pl)).
  pose proof (repair_count_nonneg (pl_params pl) : 0 <= r) as Hr.
  pose proof (sender_blocks pl Hpl) as Hn. intros He. apply bind_Ok in He as (pb & Hpb & He).
  injection He as <-. apply traverse_Ok in Hpb.
  apply Forall2_same_length_lookup in Hpb as [Hl Hpb].
  assert (Hall : forall i, (i < Z.to_nat (block_count (pl_params pl)))%nat ->
    exists fs, pb !! i = Some fs /\ block_frames pl payload i fs
      /\ (0 < len (block_data (pl_params pl) payload i) ->
          is_Some (rq_stream (block_data (pl_params pl) payload i) (symbol_size (pl_params pl)) r))).
  { intros i Hi. destruct (lookup_lt_is_Some_2 pb i) as [fs Hfs]; [lia|].
    destruct (encode_block_cases checks pl payload r i Hpl Hlen Hr Hi) as (blk & Hblk & Hc).
    specialize (Hpb i blk fs Hblk Hfs). exists fs. split; [done|]. unfold block_frames, block_packets.
    case_decide as Hz; [rewrite Hpb in Hc; injection Hc as ->; split; [done|lia]|].
    destruct (rq_stream _ _ _) as [ps|] eqn:Hs; [|by rewrite Hpb in Hc].
    destruct Hc as (fs' & Hfs' & Hc). rewrite Hpb in Hfs'. injection Hfs' as <-.
    fold r. rewrite (rq_packets_of _ _ _ _ Hs). by split. }
  split; [intros i Hi Hd; by destruct (Hall i Hi) as (_ & _ & _ & Hs); apply Hs|].
  exists pb. split; [done|]. split; [lia|]. intros i fs Hfs.
  destruct (Hall i) as (fs' & Hfs' & Hb & _); [apply lookup_lt_Some in Hfs; lia|].
  rewrite Hfs in Hfs'. by injection Hfs' as <-.
Qed.

(** A payload every block of which encodes. *)
Lemma encode_total checks pl payload :
  sender_ok pl -> len payload = payload_size (pl_params pl) ->
  encodable (pl_params pl) payload -> exists frames, encode checks pl payload = Ok frames.
Proof.
  intros Hpl Hlen Henc. unfold encode. rewrite decide_False by auto.
  fold (repair_count (pl_params pl)). pose proof (sender_blocks pl Hpl) as Hn.
  destruct (traverse_total (encode_block checks pl payload (repair_count (pl_params pl)))
    (cm_blocks (pl_chunk_map pl))) as [pb ->]; [|by eexists].
  apply Forall_lookup. intros i blk Hblk. apply lookup_lt_Some in Hblk as Hi. rewrite Hn in Hi.
  destruct (encode_block_cases checks pl payload _ i Hpl Hlen (repair_count_nonneg (pl_params pl)) Hi)
    as (blk' & Hblk' & Hc). rewrite Hblk in Hblk'. injection Hblk' as <-.
  case_decide as Hz; [by eexists|]. pose proof (len_nonneg (block_data (pl_params pl) payload i)).
  destruct (Henc i Hi ltac:(lia)) as [ps Hs]. rewrite Hs in Hc. destruct Hc as (fs & Hfs & _). by exists fs.
Qed.

(** A block that does not encode is a panic, and there is no error. *)
Lemma encode_no_error checks pl payload e :
  sender_ok pl -> len payload = payload_size (pl_params pl) -> encode checks pl payload <> Err e.
Proof.
  intros Hpl Hlen. unfold encode. rewrite decide_False by auto.
  fold (repair_count (pl_params pl)). pose proof (sender_blocks pl Hpl) as Hn.
  destruct (traverse _ _) as [pb|e'|] eqn:Ht; [done| |done]. exfalso.
  apply traverse_Err in Ht as (i & blk & Hblk & He). apply lookup_lt_Some in Hblk as Hi. rewrite Hn in Hi.
  destruct (encode_block_cases checks pl payload _ i Hpl Hlen (repair_count_nonneg (pl_params pl)) Hi)
    as (blk' & Hblk' & Hc). rewrite Hblk in Hblk'. injection Hblk' as <-.
  case_decide; [by rewrite He in Hc|]. case_match; [|by rewrite He in Hc].
  destruct Hc as (fs & Hfs & _). by rewrite He in Hfs.
Qed.

Lemma spec_size_le_ceil s b i : 0 <= s -> 1 <= b -> 0 <= i -> spec_size s b i <= div_ceil s b.
Proof.
  intros Hs Hb Hi. pose proof (div_ceil_mul s b ltac:(lia) Hs) as Hc.
  pose proof (Z.div_mod s b ltac:(lia)) as Hd. pose proof (Z.mod_pos_bound s b ltac:(lia)) as Hm.
  unfold spec_size. case_decide; nia.
Qed.

(** Within the limit of RFC 6330 every payload encodes. *)
Lemma within_limit_encodable pl payload :
  sender_ok pl -> len payload = payload_size (pl_params pl) ->
  within_limit (pl_params pl) -> encodable (pl_params pl) payload.
Proof.
  intros Hpl Hlen [Hl Hr] i Hi Hd. pose proof (so_map _ Hpl) as Hm.
  pose proof (so_map_params _ Hpl) as Hmp. pose proof (so_symbol_size _ Hpl) as Hss.
  pose proof (repair_count_nonneg (pl_params pl)) as Hr0.
  pose proof (block_bounds (pl_params pl) _ Hm Hmp) as [Hps Hb].
  destruct (len_block_data (pl_params pl) payload _ Hm Hmp Hlen i Hi) as [Hsz _].
  apply rq_within_limit; [done|lia|lia|]. etransitivity; [|exact Hl].
  pose proof (Z.mod_pos_bound (symbol_size (pl_params pl)) 8 ltac:(lia)).
  unfold div_ceil at 1 2. apply Z.div_le_mono; [lia|].
  enough (len (block_data (pl_params pl) payload i)
          <= div_ceil (payload_size (pl_params pl)) (block_count (pl_params pl))) by lia.
  rewrite Hsz. apply spec_size_le_ceil; lia.
Qed.

(** Membership in the stream, packet by packet. *)
Lemma encode_elem checks pl payload frames f :
  sender_ok pl -> encode checks pl payload = Ok frames -> f ∈ frames ->
  exists i p, (i < Z.to_nat (block_count (pl_params pl)))%nat
    /\ 0 < len (block_data (pl_params pl) payload i)
    /\ p ∈ block_packets (pl_params pl) payload (repair_count (pl_params pl)) i
    /\ symbol_frame (pl_session_id pl) (pl_session_key pl) i p f.
Proof.
  intros Hpl He Hf. assert (Hlen : len payload = payload_size (pl_params pl))
    by (unfold encode in He; by case_decide).
  destruct (encode_Ok checks pl payload _ Hpl Hlen He) as (_ & pb & -> & Hl & Hpb).
  rewrite interleave_permutation in Hf.
  apply elem_of_concat in Hf as (fs & Hf & Hfs). apply list_elem_of_lookup in Hfs as [i Hi].
  apply lookup_lt_Some in Hi as Hlt. specialize (Hpb i fs Hi). unfold block_frames in Hpb.
  apply list_elem_of_lookup in Hf as [j Hj].
  destruct (Forall2_lookup_r _ _ _ _ _ Hpb Hj) as (p & Hp & Hsf).
  case_decide as Hz; [done|]. pose proof (len_nonneg (block_data (pl_params pl) payload i)).
  exists i, p. split_and!; [lia|lia| |done]. by apply list_elem_of_lookup_2 in Hp.
Qed.

Lemma encode_has checks pl payload frames i p :
  sender_ok pl -> encode checks pl payload = Ok frames ->
  (i < Z.to_nat (block_count (pl_params pl)))%nat ->
  0 < len (block_data (pl_params pl) payload i) ->
  p ∈ block_packets (pl_params pl) payload (repair_count (pl_params pl)) i ->
  exists f, f ∈ frames /\ symbol_frame (pl_session_id pl) (pl_session_key pl) i p f.
Proof.
  intros Hpl He Hi Hd Hp. assert (Hlen : len payload = payload_size (pl_params pl))
    by (unfold encode in He; by case_decide).
  destruct (encode_Ok checks pl payload _ Hpl Hlen He) as (_ & pb & -> & Hl & Hpb).
  destruct (lookup_lt_is_Some_2 pb i) as [bf Hbf]; [lia|].
  pose proof (Hpb i bf Hbf) as Hfr. unfold block_frames in Hfr. rewrite decide_False in Hfr by lia.
  apply list_elem_of_lookup in Hp as [j Hj].
  destruct (Forall2_lookup_l _ _ _ _ _ Hfr Hj) as (f & Hf & Hsf). exists f. split; [|done].
  rewrite interleave_permutation. apply elem_of_concat.
  exists bf. split; by eapply list_elem_of_lookup_2.
Qed.

End sending.

(** *** Receiving *)

Section receiving.
Context `{Blake3Laws} `{RaptorQLaws}.

Lemma symbol_frame_parse sid key i p f :
  symbol_frame sid key i p f -> Frame_from_bytes (Frame_to_vec f) key = Ok f.
Proof.
  intros [? ? _ _ _ _]. rewrite <- (app_nil_r (Frame_to_vec f)). by apply frame_parse_print.
Qed.

Lemma genuine_carries d b i p f (data : list byte) repair i' p' :
  symbol_frame (pd_session_id d) (pd_session_key d) i p f -> b = Frame_to_vec f ->
  0 < len data -> 64 <= symbol_size (pd_params d) <= 65531 -> 0 <= repair ->
  p ∈ rq_packets data (symbol_size (pd_params d)) repair ->
  carries (pd_session_key d) b i' p' <-> i' = i /\ p' = p.
Proof.
  intros Hsf -> Hd Hss Hr Hp. pose proof (symbol_frame_parse _ _ _ _ _ Hsf) as Hparse.
  destruct (rq_packet_roundtrip data (symbol_size (pd_params d)) repair p Hd ltac:(lia) Hr Hp) as [Hrt _].
  destruct Hsf as [_ _ _ _ Hb Hpl]. unfold carries. split.
  - intros (f' & Hf' & Hbi & Hdes). rewrite Hparse in Hf'. injection Hf' as <-.
    rewrite Hpl, Hrt in Hdes. injection Hdes as ->. split; [lia|done].
  - intros [-> ->]. exists f. by rewrite Hpl.
Qed.

(** The receiver admits every frame of its session. *)
Lemma genuine_admission d i p f (data : list byte) repair :
  symbol_frame (pd_session_id d) (pd_session_key d) i p f ->
  (i < length (pd_blocks d))%nat -> 0 < len data ->
  64 <= symbol_size (pd_params d) <= 65531 -> 0 <= repair ->
  p ∈ rq_packets data (symbol_size (pd_params d)) repair ->
  admission d (Frame_to_vec f) = Ok f.
Proof.
  intros Hsf Hi Hd Hss Hr Hp. pose proof (symbol_frame_parse _ _ _ _ _ Hsf) as Hparse.
  destruct (rq_packet_roundtrip data (symbol_size (pd_params d)) repair p Hd ltac:(lia) Hr Hp) as [_ Hl].
  destruct Hsf as [_ _ Hs Ht Hb Hpl]. unfold admission. rewrite Hparse. cbn [map_err mbind outcome_bind].
  rewrite Hs, Ht, Hb, Hpl. do 2 rewrite decide_False by auto.
  rewrite decide_False by lia. by rewrite decide_False by (unfold PAYLOAD_ID_LEN; lia).
Qed.

(** A packet of a block says that the block encoded. *)
Lemma block_packet_stream p payload repair i q :
  q ∈ block_packets p payload repair i ->
  is_Some (rq_stream (block_data p payload i) (symbol_size p) repair).
Proof. intros (ps & Hs & _)%elem_of_rq_packets. by exists ps. Qed.

(** One packet more for a pending block. *)
Lemma feed_step p payload repair i d0 ps decoder q :
  0 < len (block_data p payload i) -> 64 <= symbol_size p <= 65531 -> 0 <= repair ->
  rq_decoder_for (len (block_data p payload i)) (symbol_size p) = Some d0 ->
  rq_feed d0 ps = Some decoder ->
  Forall (fun q => q ∈ block_packets p payload repair i) (ps ++ [q]) ->
  exists decoder', rq_add_new_packet decoder q = Some decoder'
    /\ rq_feed d0 (ps ++ [q]) = Some decoder'
    /\ (rq_get_result decoder' = None
        \/ rq_get_result decoder' = Some (block_data p payload i)).
Proof.
  intros Hd Hss Hr Hd0 Hfeed Hps. rewrite Forall_forall in Hps.
  assert (Hin : q ∈ ps ++ [q]) by (apply elem_of_app; right; by apply list_elem_of_singleton).
  pose proof (block_packet_stream p payload repair i q (Hps q Hin)) as Hs.
  destruct (rq_decode_from (block_data p payload i) (symbol_size p) repair d0 (ps ++ [q]) Hd ltac:(lia)
    Hr Hs Hd0 Hps) as (decoder' & Hf & Hres & _).
  exists decoder'. split; [|done]. rewrite rq_feed_snoc, Hfeed in Hf. exact Hf.
Qed.

Lemma progress_snoc p key payload acc b i st :
  (forall q, ~ carries key b i q) -> progress p key payload acc i st ->
  progress p key payload (acc ++ [b]) i st.
Proof.
  intros Hno. destruct st as [decoder|data]; cbn; [|done].
  intros (Hd & d0 & ps & Hd0 & Hf & Hps & Hall & Hres). split; [done|]. exists d0, ps.
  split_and!; try done. intros b' q Hb' Hc. apply elem_of_app in Hb' as [Hb'|Hb'].
  - by apply (Hall b').
  - apply list_elem_of_singleton in Hb' as ->. by apply Hno in Hc.
Qed.

(** The receiver takes a genuine frame, and stays on its way. *)
Lemma genuine_accept checks d acc payload b :
  decoder_ok d acc -> len payload = payload_size (pd_params d) ->
  64 <= symbol_size (pd_params d) <= 65531 ->
  receiving d payload acc -> genuine d payload b ->
  exists d' o, accept checks b d = (d', Ok o) /\ receiving d' payload (acc ++ [b]).
Proof.
  intros Hok Hlen Hss Hrec (i & q & f & Hi & Hd & Hq & Hsf & ->).
  pose proof (repair_count_nonneg (pd_params d)) as Hr0.
  rewrite <- (do_blocks _ _ Hok) in Hi.
  pose proof (genuine_admission d i q f _ _ Hsf Hi Hd Hss Hr0 Hq) as Hadmit.
  assert (Hcar : forall i' q', carries (pd_session_key d) (Frame_to_vec f) i' q' <-> i' = i /\ q' = q)
    by (intros; by apply (genuine_carries d _ i q f _ _ i' q' Hsf eq_refl Hd Hss Hr0 Hq)).
  pose proof (accept_cases checks d acc (Frame_to_vec f) Hok) as Hcases. rewrite Hadmit in Hcases.
  destruct Hcases as (d1 & st & (Hs1 & Hp1 & Hk1 & Hm1 & Hb1) & Hok1 & Hst & Heq).
  rewrite (sf_block _ _ _ _ _ Hsf), Nat2Z.id in Hst. rewrite Heq. unfold deliver.
  rewrite (sf_block _ _ _ _ _ Hsf), (sf_payload _ _ _ _ _ Hsf), Nat2Z.id.
  destruct (rq_packet_roundtrip (block_data (pd_params d) payload i) (symbol_size (pd_params d))
    (repair_count (pd_params d)) q Hd ltac:(lia) Hr0 Hq) as [-> _]. cbn [mbind option_bind].
  pose proof (Hrec i st Hst) as Hprog.
  assert (Hother : forall j st', j <> i -> pd_blocks d !! j = Some st' ->
    progress (pd_params d) (pd_session_key d) payload (acc ++ [Frame_to_vec f]) j st').
  { intros j st' Hne Hj. apply progress_snoc; [|by apply Hrec]. intros q'. rewrite Hcar. tauto. }
  destruct st as [decoder|data].
  - destruct Hprog as (_ & d0 & ps & Hd0 & Hf & Hps & Hall & Hres).
    assert (Hps' : Forall (fun q => q ∈ block_packets (pd_params d) payload
      (repair_count (pd_params d)) i) (ps ++ [q])) by (apply Forall_app; by repeat constructor).
    destruct (feed_step (pd_params d) payload _ i d0 ps decoder q Hd Hss Hr0 Hd0 Hf Hps')
      as (decoder' & -> & Hf' & Hres').
    assert (Hset : forall st', progress (pd_params d) (pd_session_key d) payload
        (acc ++ [Frame_to_vec f]) i st' ->
      receiving (set_blocks (<[i := st']> (pd_blocks d)) d1) payload (acc ++ [Frame_to_vec f])).
    { intros st' Hst' j st'' Hj. cbn in Hj |- *. rewrite Hp1, Hk1.
      apply list_lookup_insert_Some in Hj as [(<- & <- & _)|[Hne Hj]]; [done|].
      by apply Hother. }
    destruct Hres' as [Hn|Hsome].
    + rewrite Hn. do 2 eexists. split; [done|]. apply Hset. split; [done|].
      exists d0, (ps ++ [q]). split_and!; [done|done|done| |by right]. intros b q' Hb Hc.
      rewrite elem_of_app, list_elem_of_singleton. apply elem_of_app in Hb as [Hb|Hb].
      * left. by apply (Hall b).
      * apply list_elem_of_singleton in Hb as ->. apply Hcar in Hc as [_ ->]. by right.
    + rewrite Hsome. do 2 eexists. split; [done|]. by apply Hset.
  - do 2 eexists. split; [done|]. intros j st' Hj. rewrite Hp1, Hk1. rewrite Hb1 in Hj.
    destruct (decide (j = i)) as [->|Hne]; [|by apply Hother].
    rewrite Hst in Hj. injection Hj as <-. exact Hprog.
Qed.

Lemma receiving_new checks sid params key d payload :
  length sid = 16%nat -> wf_params params -> PipelineDecoder_new checks sid params key = Ok d ->
  len payload = payload_size params ->
  receiving d payload [] /\ 64 <= symbol_size params <= 65531.
Proof.
  intros Hs Hp Hn Hlen. pose proof (decoder_new_ok _ _ _ _ _ Hs Hp Hn) as (Hok & _ & Hpp & _).
  unfold PipelineDecoder_new in Hn. apply bind_Ok in Hn as ([] & Hv & Hn).
  apply validate_params_Ok in Hv as (_ & _ & Hss). split; [|done].
  apply bind_Ok in Hn as (m & Hm & Hn). apply bind_Ok in Hn as (bls & Hbl & Hn). injection Hn as <-.
  apply traverse_Ok in Hbl.
  apply chunk_map_for_Ok in Hm as [Hm Hmp]; [|done]. intros i st Hi. cbn in Hi |- *.
  destruct (Forall2_lookup_r _ _ _ _ _ Hbl Hi) as (blk & Hblk & Hst). clear Hi.
  apply lookup_lt_Some in Hblk as Hi. rewrite vm_length, Hmp in Hi by done. cbn in Hi.
  destruct (block_lookup params payload m Hm Hmp Hlen i Hi) as (blk' & Hblk' & _ & Hsz & _).
  rewrite Hblk in Hblk'. injection Hblk' as <-. unfold initial_block in Hst. rewrite Hsz in Hst.
  pose proof (len_nonneg (block_data params payload i)) as Hnn. case_decide as Hz.
  - injection Hst as <-. cbn. unfold len in Hz. destruct (block_data params payload i); [done|cbn in Hz; lia].
  - rewrite config_is_mtu in Hst by done. apply bind_Ok in Hst as (c & Hc%or_panic_Ok & Hst).
    apply bind_Ok in Hst as (d0 & Hd0%or_panic_Ok & Hst). injection Hst as <-. cbn.
    split; [lia|]. exists d0, []. unfold rq_decoder_for. rewrite Hc. cbn.
    split_and!; [done|done|done| |by left]. intros b q Hb. by apply not_elem_of_nil in Hb.
Qed.

(** A whole sequence of genuine frames is accepted. *)
Lemma receive_genuine checks bs d acc payload :
  decoder_ok d acc -> len payload = payload_size (pd_params d) ->
  64 <= symbol_size (pd_params d) <= 65531 -> receiving d payload acc ->
  Forall (genuine d payload) bs ->
  exists d', receive checks bs d = Some (d', bs) /\ receiving d' payload (acc ++ bs).
Proof.
  intros Hok Hlen Hss Hrec Hbs. revert d acc Hok Hlen Hss Hrec Hbs.
  induction bs as [|b bs IH]; intros d acc Hok Hlen Hss Hrec Hbs.
  { exists d. by rewrite app_nil_r. }
  apply Forall_cons in Hbs as [Hb Hbs].
  destruct (genuine_accept checks d acc payload b Hok Hlen Hss Hrec Hb) as (d1 & o & Hacc & Hrec1).
  destruct (accept_step checks d acc b d1 _ Hok Hacc) as ([Hok1 _] & Hs1 & Hp1 & Hk1 & _).
  destruct (IH d1 (acc ++ [b])) as (d2 & Hr2 & Hrec2); try done; [by rewrite Hp1..| |].
  { apply (Forall_impl _ _ _ Hbs). intros b'. unfold genuine. by rewrite Hs1, Hp1, Hk1. }
  exists d2. cbn [receive]. rewrite Hacc, Hr2. rewrite <- app_assoc in Hrec2. done.
Qed.

(** What the source packets of every block among the arrivals guarantee. *)
Lemma receiving_complete d acc payload :
  decoder_ok d acc -> len payload = payload_size (pd_params d) ->
  64 <= symbol_size (pd_params d) <= 65531 -> receiving d payload acc ->
  encodable (pd_params d) payload ->
  (forall i q, (i < Z.to_nat (block_count (pd_params d)))%nat ->
     0 < len (block_data (pd_params d) payload i) ->
     q ∈ block_packets (pd_params d) payload 0 i ->
     exists b, b ∈ acc /\ carries (pd_session_key d) b i q) ->
  pd_blocks d = Done <$> (block_data (pd_params d) payload
                          <$> seq 0 (Z.to_nat (block_count (pd_params d)))).
Proof.
  intros Hok Hlen Hss Hrec Henc Hcov. apply list_eq. intros i. rewrite !list_lookup_fmap.
  pose proof (do_blocks _ _ Hok) as Hn.
  destruct (decide (i < Z.to_nat (block_count (pd_params d)))%nat) as [Hi|Hi].
  2: { rewrite (proj2 (lookup_ge_None (pd_blocks d) i)) by lia.
       by rewrite (proj2 (lookup_ge_None (seq 0 _) i)) by (rewrite length_seq; lia). }
  rewrite lookup_seq_lt by done. cbn.
  destruct (lookup_lt_is_Some_2 (pd_blocks d) i) as [st Hst]; [lia|]. rewrite Hst. f_equal.
  specialize (Hrec i st Hst). destruct st as [decoder|data]; cbn in Hrec; [|by f_equal].
  destruct Hrec as (Hd & d0 & ps & Hd0 & Hf & Hps & Hall & Hres). rewrite Forall_forall in Hps.
  pose proof (repair_count_nonneg (pd_params d)) as Hr. pose proof (Henc i Hi Hd) as Hs.
  destruct (rq_decode_from (block_data (pd_params d) payload i) (symbol_size (pd_params d))
    (repair_count (pd_params d)) d0 ps Hd ltac:(lia) Hr Hs Hd0 Hps) as (decoder' & Hf' & _ & Hsrc).
  rewrite Hf in Hf'. injection Hf' as <-.
  destruct (rq_packets_source _ (symbol_size (pd_params d)) _ Hd ltac:(lia) Hr Hs) as [Hne _].
  assert (Hin : rq_packets (block_data (pd_params d) payload i) (symbol_size (pd_params d)) 0 ⊆ ps).
  { intros q Hq. destruct (Hcov i q Hi Hd Hq) as (b & Hb & Hc). by apply (Hall b). }
  rewrite Hsrc in Hres by done. destruct Hres as [->|?]; [|done].
  exfalso. apply Hne. by apply list_nil_subseteq.
Qed.

(** Blocks that are done hold their part of the payload. *)
Lemma done_blocks d acc payload blocks :
  decoder_ok d acc -> receiving d payload acc -> pd_blocks d = Done <$> blocks ->
  blocks = block_data (pd_params d) payload <$> seq 0 (Z.to_nat (block_count (pd_params d))).
Proof.
  intros Hok Hrec Hb. apply list_eq. intros i. rewrite list_lookup_fmap.
  pose proof (do_blocks _ _ Hok) as Hn. rewrite Hb, length_fmap in Hn.
  destruct (decide (i < length blocks)%nat) as [Hi|Hi].
  - destruct (lookup_lt_is_Some_2 blocks i Hi) as [bl Hbl].
    rewrite Hbl, lookup_seq_lt by lia. cbn. f_equal.
    apply (Hrec i (Done bl)). by rewrite Hb, list_lookup_fmap, Hbl.
  - rewrite (proj2 (lookup_ge_None blocks i)) by lia.
    by rewrite (proj2 (lookup_ge_None (seq 0 _) i)) by (rewrite length_seq; lia).
Qed.

(** A receiver on its way to a payload finishes with nothing else. *)
Lemma receiving_finish d acc payload out :
  decoder_ok d acc -> len payload = payload_size (pd_params d) -> receiving d payload acc ->
  finish d = Ok out -> out = payload.
Proof.
  intros Hok Hlen Hrec Ho. unfold finish in Ho. apply bind_Ok in Ho as (blocks & Hc & Ho).
  apply collect_blocks_Ok in Hc. apply (done_blocks _ _ _ _ Hok Hrec) in Hc as ->.
  rewrite (reassemble_block_data (pd_params d) payload _ (do_map _ _ Hok)
    (do_map_params _ _ Hok) Hlen) in Ho.
  cbn [map_err mbind outcome_bind] in Ho. case_decide; [done|]. by injection Ho.
Qed.

(** With every source packet at hand, it is complete and finishes. *)
Lemma covered_finish d acc payload :
  decoder_ok d acc -> len payload = payload_size (pd_params d) ->
  64 <= symbol_size (pd_params d) <= 65531 -> receiving d payload acc ->
  encodable (pd_params d) payload -> payload_digest (pd_params d) = blake3_digest payload ->
  (forall i q, (i < Z.to_nat (block_count (pd_params d)))%nat ->
     0 < len (block_data (pd_params d) payload i) ->
     q ∈ block_packets (pd_params d) payload 0 i ->
     exists b, b ∈ acc /\ carries (pd_session_key d) b i q) ->
  is_complete d = true /\ finish d = Ok payload.
Proof.
  intros Hok Hlen Hss Hrec Henc Hdig Hcov.
  pose proof (receiving_complete d acc payload Hok Hlen Hss Hrec Henc Hcov) as Hall.
  split; [apply is_complete_iff; eauto|]. unfold finish.
  rewrite (proj2 (collect_blocks_Ok 0 _ _) Hall). cbn [mbind outcome_bind].
  rewrite (reassemble_block_data (pd_params d) payload _ (do_map _ _ Hok)
    (do_map_params _ _ Hok) Hlen).
  cbn [map_err mbind outcome_bind]. by rewrite decide_False by auto.
Qed.

(** A receiver opens on the parameters a sender encoded with: the decoder of a
    block that encoded does not panic. *)
Lemma receiver_new checks sid params key pl payload frames :
  length sid = 16%nat -> wf_params params -> Pipeline_new checks sid params key = Ok pl ->
  encode_to_bytes checks pl payload = Ok frames ->
  exists d, PipelineDecoder_new checks sid params key = Ok d.
Proof.
  intros Hs Hp Hn He. destruct (sender_new_ok _ _ _ _ _ Hs Hp Hn) as (Hpl & _ & Ep & _).
  unfold encode_to_bytes in He. apply bind_Ok in He as (fs & He & _).
  assert (Hlen : len payload = payload_size (pl_params pl)) by (unfold encode in He; by case_decide).
  destruct (encode_Ok checks pl payload fs Hpl Hlen He) as [Henc _]. pose proof (so_symbol_size _ Hpl) as Hss.
  pose proof (repair_count_nonneg (pl_params pl)) as Hr. rewrite Ep in Henc, Hlen, Hss, Hr.
  unfold Pipeline_new in Hn. apply bind_Ok in Hn as ([] & Hv & Hn). apply bind_Ok in Hn as (m & Hm & _).
  unfold PipelineDecoder_new. rewrite Hv, Hm. cbn [mbind outcome_bind].
  apply chunk_map_for_Ok in Hm as [Hm Hmp]; [|done].
  destruct (traverse_total (initial_block (E:=CodecError) (symbol_size params)) (cm_blocks m))
    as [bls ->]; [|by eexists].
  apply Forall_lookup. intros i blk Hblk. apply lookup_lt_Some in Hblk as Hi.
  rewrite vm_length, Hmp in Hi by done. cbn in Hi.
  destruct (block_lookup params payload m Hm Hmp Hlen i Hi) as (blk' & Hblk' & _ & Hsz & _).
  rewrite Hblk in Hblk'. injection Hblk' as <-. unfold initial_block. rewrite Hsz.
  pose proof (len_nonneg (block_data params payload i)). case_decide as Hz; [by eexists|].
  rewrite config_is_mtu by done. assert (Hd : 0 < len (block_data params payload i)) by lia.
  destruct (Henc i Hi Hd) as [ps Hps].
  destruct (rq_decode (block_data params payload i) (symbol_size params) (repair_count params) ps []
    Hd ltac:(lia) Hr Hps) as (d0 & _ & Hd0 & _).
  { intros q Hq. by apply not_elem_of_nil in Hq. }
  unfold rq_decoder_for in Hd0. destruct (rq_with_defaults _ _) as [c|]; [|done]. cbn in Hd0 |- *.
  rewrite Hd0. by eexists.
Qed.

(** The sender's frames are genuine for a fresh receiver. *)
Lemma sender_genuine checks sid params key pl payload frames d0 :
  length sid = 16%nat -> wf_params params -> Pipeline_new checks sid params key = Ok pl ->
  encode_to_bytes checks pl payload = Ok frames ->
  PipelineDecoder_new checks sid params key = Ok d0 ->
  len payload = payload_size params /\ encodable params payload
  /\ Forall (genuine d0 payload) frames.
Proof.
  intros Hs Hp Hn He Hd. destruct (sender_new_ok _ _ _ _ _ Hs Hp Hn) as (Hpl & Es & Ep & Ek).
  unfold encode_to_bytes in He. apply bind_Ok in He as (fs & He & Hfs). injection Hfs as <-.
  assert (Hlen : len payload = payload_size (pl_params pl)) by (unfold encode in He; by case_decide).
  destruct (encode_Ok checks pl payload fs Hpl Hlen He) as [Henc _].
  rewrite Ep in Henc, Hlen. do 2 (split; [done|]).
  destruct (decoder_new_ok _ _ _ _ _ Hs Hp Hd) as (_ & Ds & Dp & Dk).
  apply Forall_forall. intros b Hb. apply list_elem_of_fmap in Hb as (f & -> & Hf).
  destruct (encode_elem _ _ _ _ f Hpl He Hf) as (i & p & Hi & Hl & Hq & Hsf).
  exists i, p, f. rewrite Ds, Dp, Dk, <- Es, <- Ep, <- Ek. by split_and!.
Qed.

(** A fresh receiver takes any of them. *)
Lemma receive_sent checks sid params key pl payload frames d0 bs :
  length sid = 16%nat -> wf_params params -> Pipeline_new checks sid params key = Ok pl ->
  encode_to_bytes checks pl payload = Ok frames ->
  PipelineDecoder_new checks sid params key = Ok d0 -> bs ⊆ frames ->
  exists d, receive checks bs d0 = Some (d, bs) /\ decoder_ok d bs /\ receiving d payload bs
    /\ pd_params d = params /\ pd_session_key d = key
    /\ len payload = payload_size params /\ 64 <= symbol_size params <= 65531
    /\ encodable params payload.
Proof.
  intros Hs Hp Hn He Hd Hbs.
  destruct (sender_genuine _ _ _ _ _ _ _ _ Hs Hp Hn He Hd) as (Hlen & Henc & Hgen).
  destruct (decoder_new_ok _ _ _ _ _ Hs Hp Hd) as (Hok & Ds & Dp & Dk).
  destruct (receiving_new _ _ _ _ _ payload Hs Hp Hd Hlen) as [Hrec Hss].
  assert (Hgen' : Forall (genuine d0 payload) bs).
  { apply Forall_forall. intros b Hb. rewrite Forall_forall in Hgen. by apply Hgen, Hbs. }
  destruct (receive_genuine checks bs d0 [] payload Hok) as (d & Hr & Hrec');
    [by rewrite Dp|by rewrite Dp|done|done|].
  destruct (receive_ok _ _ _ _ _ _ Hok Hr) as (Hok' & _ & _ & Ep' & Ek' & _).
  exists d. split_and!; try done; congruence || lia.
Qed.

(** Whether a receiver turns a byte string down depends on its session only. *)
Lemma refused_later checks d acc d' acc' b :
  decoder_ok d acc -> decoder_ok d' acc' -> pd_session_id d' = pd_session_id d ->
  pd_params d' = pd_params d -> pd_session_key d' = pd_session_key d ->
  refused checks d b -> refused checks d' b.
Proof.
  intros Hok Hok' Hs Hp Hk [e He].
  assert (Heq : admission d' b = admission d b).
  { unfold admission. by rewrite Hk, Hs, (do_blocks _ _ Hok), (do_blocks _ _ Hok'), Hp. }
  pose proof (accept_cases checks d acc b Hok) as Hc.
  pose proof (accept_cases checks d' acc' b Hok') as Hc'. rewrite Heq in Hc'.
  destruct (admission d b) as [f|e'|]; [|by exists e'|done].
  destruct Hc as (d1 & st & _ & _ & _ & Hd). rewrite He in Hd. unfold deliver in Hd.
  repeat (case_match; try discriminate Hd).
Qed.

(** Byte strings that are turned down might as well not arrive. *)
Lemma receive_noise checks (P : list byte -> Prop) `{!forall b, Decision (P b)} bs d acc :
  decoder_ok d acc -> Forall (fun b => P b \/ refused checks d b) bs ->
  receive checks bs d = receive checks (filter P bs) d.
Proof.
  intros Hok Hbs. revert d acc Hok Hbs. induction bs as [|b bs IH]; intros d acc Hok Hbs; [done|].
  apply Forall_cons in Hbs as [Hb Hbs]. rewrite filter_cons. destruct (decide (P b)) as [HP|HP].
  - cbn [receive]. destruct (accept checks b d) as [d' r] eqn:Ha.
    destruct (accept_step checks d acc b d' r Hok Ha) as (Hstep & Hs & Hp & Hk & _).
    destruct r as [o|e|]; [|subst d'; by apply (IH d acc)|done].
    destruct Hstep as [Hok' _]. rewrite (IH d' (acc ++ [b]) Hok'); [done|].
    eapply Forall_impl; [exact Hbs|]. intros x [?|Hx]; [by left|right].
    exact (refused_later checks d acc d' (acc ++ [b]) x Hok Hok' Hs Hp Hk Hx).
  - destruct Hb as [?|[e He]]; [done|]. cbn [receive]. rewrite He. by apply (IH d acc).
Qed.

(** A fresh receiver takes the sender's frames out of any noise. *)
Lemma receive_among checks sid params key pl payload frames d0 bs :
  length sid = 16%nat -> wf_params params -> Pipeline_new checks sid params key = Ok pl ->
  encode_to_bytes checks pl payload = Ok frames ->
  PipelineDecoder_new checks sid params key = Ok d0 ->
  Forall (fun b => b ∈ frames \/ refused checks d0 b) bs ->
  exists d, receive checks bs d0 = Some (d, sent frames bs) /\ decoder_ok d (sent frames bs)
    /\ receiving d payload (sent frames bs) /\ pd_params d = params /\ pd_session_key d = key
    /\ len payload = payload_size params /\ 64 <= symbol_size params <= 65531
    /\ encodable params payload.
Proof.
  intros Hs Hp Hn He Hd Hbs. destruct (decoder_new_ok _ _ _ _ _ Hs Hp Hd) as (Hok & _).
  rewrite (receive_noise checks (fun b => b ∈ frames) bs d0 [] Hok Hbs).
  apply (receive_sent checks sid params key pl payload frames d0 (sent frames bs)); try done.
  intros b Hb. by apply list_elem_of_filter in Hb as [? _].
Qed.

(** All the frames together carry every source packet. *)
Lemma frames_cover checks sid params key pl payload frames i q :
  length sid = 16%nat -> wf_params params -> Pipeline_new checks sid params key = Ok pl ->
  encode_to_bytes checks pl payload = Ok frames -> (i < Z.to_nat (block_count params))%nat ->
  0 < len (block_data params payload i) -> q ∈ block_packets params payload 0 i ->
  exists b, b ∈ frames /\ carries key b i q.
Proof.
  intros Hs Hp Hn He Hi Hd Hq. destruct (sender_new_ok _ _ _ _ _ Hs Hp Hn) as (Hpl & <- & <- & <-).
  unfold encode_to_bytes in He. apply bind_Ok in He as (fs & He & Hfs). injection Hfs as <-.
  assert (Hlen : len payload = payload_size (pl_params pl)) by (unfold encode in He; by case_decide).
  destruct (encode_Ok checks pl payload fs Hpl Hlen He) as (Henc & _).
  pose proof (so_symbol_size _ Hpl) as Hss. pose proof (repair_count_nonneg (pl_params pl)) as Hr.
  destruct (rq_packets_source _ (symbol_size (pl_params pl)) _ Hd ltac:(lia) Hr (Henc i Hi Hd))
    as [_ Hsub]. apply Hsub in Hq.
  destruct (rq_packet_roundtrip (block_data (pl_params pl) payload i) (symbol_size (pl_params pl))
    (repair_count (pl_params pl)) q Hd ltac:(lia) Hr Hq) as [Hrt _].
  destruct (encode_has checks pl payload fs i q Hpl He Hi Hd Hq) as (f & Hf & Hsf).
  exists (Frame_to_vec f). split; [by apply list_elem_of_fmap_2|].
  exists f. rewrite (sf_block _ _ _ _ _ Hsf), (sf_payload _ _ _ _ _ Hsf).
  split; [by eapply symbol_frame_parse|done].
Qed.

End receiving.

Lemma verify_entries_safe `{Blake3} `{RaptorQ} d es :
  Forall (fun e => is_Some (pd_held d !! Z.to_nat (block_index e))) es ->
  safe (verify_entries d es).
Proof.
  induction 1 as [|e es [bm Hbm] _ IH]; [done|]. cbn [verify_entries]. case_decide; [done|].
  unfold index. rewrite Hbm. cbn [mbind outcome_bind]. by case_decide.
Qed.

(** The entries of a well-formed file are numbered from zero. *)
Lemma resume_entry_index `{Blake3} rf i e :
  wf_resume rf -> rf_entries rf !! i = Some e -> block_index e = Z.of_nat i.
Proof.
  intros Hrf He. apply lookup_lt_Some in He as Hi. pose proof (wr_order _ Hrf) as Hord.
  apply (f_equal (fun l => l !! i)) in Hord. rewrite !list_lookup_fmap, He in Hord.
  rewrite lookup_seq_lt in Hord by done. by injection Hord.
Qed.

Lemma verify_resume_safe `{Blake3Laws} `{RaptorQ} d acc rf :
  decoder_ok d acc -> wf_resume rf -> safe (verify_resume d rf).
Proof.
  intros Hok Hrf. destruct (block_count_bound _ _ Hok) as [_ Hbc].
  destruct (wf_resume_header rf Hrf) as [_ Hcount]. unfold verify_resume. rewrite Hbc, Hcount.
  case_decide; [done|]. case_decide as C2; [done|]. case_decide; [done|]. unfold len in C2.
  apply verify_entries_safe, Forall_lookup. intros i e He. apply lookup_lt_is_Some.
  rewrite (resume_entry_index rf i e Hrf He), Nat2Z.id, (do_held _ _ Hok).
  apply lookup_lt_Some in He. lia.
Qed.

(** The resume file of a receiver parses back, and the receiver verifies it. *)
Lemma resume_round_trip `{Blake3Laws} `{RaptorQ} {E} checks d acc jb :
  decoder_ok d acc -> urange 64 jb ->
  exists rf, @resume_state _ _ E jb d = Ok rf /\ wf_resume rf
    /\ ResumeFile_from_bytes checks (ResumeFile_to_vec rf) = Ok rf
    /\ verify_resume d rf = Ok tt
    /\ rh_session_id (rf_header rf) = pd_session_id d /\ rh_journal_bytes (rf_header rf) = jb
    /\ rh_block_count (rf_header rf) = len (pd_blocks d).
Proof.
  intros Hok Hjb. destruct (block_count_bound _ _ Hok) as [Hb Hbc].
  destruct (resume_state_eq (E:=E) jb d acc Hok Hjb ltac:(lia)) as
    (es & Hrs & Hes & Hwf & Hord & Hl).
  assert (Hjd : length (journal_digest d) = 32%nat).
  { unfold journal_digest. rewrite (do_journal _ _ Hok), hasher_streams.
    apply length_blake3_digest. }
  assert (Hrf : wf_resume (ResumeFile_new (pd_session_id d) jb (journal_digest d) es)).
  { apply wf_resume_new; try done; [apply (do_session_id _ _ Hok)|unfold len; lia]. }
  destruct (wf_resume_header _ Hrf) as [_ Hcount].
  eexists. split; [exact Hrs|]. split; [done|]. split; [by apply resume_parse_print|].
  split; [|split; [done|split; [done|rewrite Hcount; cbn; unfold len; lia]]].
  unfold verify_resume. cbn [rf_header rf_entries ResumeFile_new ResumeFile_build ResumeHeader_new
    rh_session_id rh_block_count rh_journal_digest].
  rewrite decide_False by auto. rewrite decide_False.
  2: { rewrite Hbc, as_u_id; unfold len, urange; lia. }
  rewrite decide_False by auto. apply verify_entries_Ok. rewrite Hes.
  apply Forall_lookup. intros i e He. rewrite list_lookup_imap in He.
  apply fmap_Some in He as (bm & Hbm & ->). cbn. by rewrite Nat2Z.id.
Qed.

(** What a receiver verifies: a file that describes it. *)
Lemma verify_resume_Ok `{Blake3Laws} `{RaptorQ} d acc rf :
  decoder_ok d acc -> wf_resume rf ->
  verify_resume d rf = Ok tt <->
    rh_session_id (rf_header rf) = pd_session_id d
    /\ length (rf_entries rf) = length (pd_blocks d)
    /\ rh_journal_digest (rf_header rf) = blake3_digest (concat acc)
    /\ forall i e, rf_entries rf !! i = Some e ->
       symbol_count e = total_symbols_per_block (pd_params d)
       /\ Some (Resume.symbol_bitmap e) = Pipeline.symbol_bitmap d (Z.of_nat i).
Proof.
  intros Hok Hrf. destruct (block_count_bound _ _ Hok) as [Hb Hbc].
  destruct (wf_resume_header rf Hrf) as [_ Hcount].
  assert (Hjd : journal_digest d = blake3_digest (concat acc))
    by (unfold journal_digest; rewrite (do_journal _ _ Hok); apply hasher_streams).
  pose proof (resume_entry_index rf) as Hidx.
  unfold verify_resume. rewrite Hbc, Hcount, Hjd.
  case_decide as C1; [split; [done|tauto]|].
  case_decide as C2; [split; [done|unfold len in C2; lia]|].
  case_decide as C3; [split; [done|tauto]|]. unfold len in C2.
  assert (Hl : length (rf_entries rf) = length (pd_blocks d)) by lia.
  rewrite verify_entries_Ok, Forall_lookup. unfold Pipeline.symbol_bitmap. split.
  - intros Hall. split_and!; try done. intros i e He. destruct (Hall i e He) as [? Hbm].
    rewrite (Hidx i e Hrf He), Nat2Z.id in Hbm. by rewrite Nat2Z.id.
  - intros (_ & _ & _ & Hall) i e He. destruct (Hall i e He) as [? Hbm].
    rewrite (Hidx i e Hrf He), Nat2Z.id. by rewrite Nat2Z.id in Hbm.
Qed.

(** One receiver verifies the file of another: the same journal digest and the
    same bitmaps. *)
Lemma resume_cross `{Blake3Laws} `{RaptorQ} {E} dA accA dB accB jb rf :
  decoder_ok dA accA -> decoder_ok dB accB -> pd_session_id dB = pd_session_id dA ->
  pd_params dB = pd_params dA -> urange 64 jb -> @resume_state _ _ E jb dA = Ok rf ->
  verify_resume dB rf = Ok tt <->
    blake3_digest (concat accA) = blake3_digest (concat accB) /\ pd_held dB = pd_held dA.
Proof.
  intros HA HB Hs Hp Hjb Hrf. destruct (block_count_bound _ _ HA) as [Hb _].
  destruct (resume_round_trip (E:=E) true dA accA jb HA Hjb) as (rf' & Hrf' & Hwf & _).
  rewrite Hrf in Hrf'. apply Ok_inj in Hrf' as <-.
  destruct (resume_state_eq (E:=E) jb dA accA HA Hjb ltac:(lia)) as (es & Hes & He & _ & _ & Hl).
  rewrite Hrf in Hes. apply Ok_inj in Hes as ->. rewrite (verify_resume_Ok dB accB) by done.
  cbn [rf_header rf_entries ResumeFile_new ResumeFile_build ResumeHeader_new rh_session_id
    rh_journal_digest].
  unfold journal_digest at 1. rewrite (do_journal _ _ HA), hasher_streams, Hl.
  pose proof (do_blocks _ _ HA) as BA. pose proof (do_blocks _ _ HB) as BB. rewrite Hp in BB.
  pose proof (do_held _ _ HA) as LA. pose proof (do_held _ _ HB) as LB.
  rewrite Hp. unfold Pipeline.symbol_bitmap. split.
  - intros (_ & _ & Hd & Hall). split; [done|]. apply list_eq_same_length with (length (pd_held dA));
      [lia|lia|]. intros i x y Hi Hx Hy.
    assert (Hle : es !! i = Some (BlockEntry_new (Z.of_nat i) (total_symbols_per_block (pd_params dA))
      (popcount y) y)) by (rewrite He, list_lookup_imap, Hy; done).
    destruct (Hall i _ Hle) as [_ Hbm]. rewrite Nat2Z.id, Hx in Hbm. cbn in Hbm. congruence.
  - intros [Hd Hh]. split_and!; [done|lia|done|]. intros i e Hei. rewrite He, list_lookup_imap in Hei.
    apply fmap_Some in Hei as (bm & Hbm & ->). rewrite Nat2Z.id, Hh. done.
Qed.

(** The example transfer, computed. *)
Definition demo_transfer : outcome CodecError bool :=
  pl ← Pipeline_new true (zeros 16) demo_session (zeros 32);
  frames ← encode_to_bytes true pl demo_payload;
  d0 ← PipelineDecoder_new true (zeros 16) demo_session (zeros 32);
  Ok (bool_decide (is_Some (receive true ([Byte.x44] :: frames) d0))).

Lemma demo_transfer_runs : demo_transfer = Ok true.
Proof. vm_compute. reflexivity. Qed.

Lemma demo_transfer_inv :
  exists pl frames d0 d acc, Pipeline_new true (zeros 16) demo_session (zeros 32) = Ok pl
    /\ encode_to_bytes true pl demo_payload = Ok frames
    /\ PipelineDecoder_new true (zeros 16) demo_session (zeros 32) = Ok d0
    /\ receive true ([Byte.x44] :: frames) d0 = Some (d, acc).
Proof.
  pose proof demo_transfer_runs as Hd. unfold demo_transfer in Hd.
  apply bind_Ok in Hd as (pl & Hn & Hd). apply bind_Ok in Hd as (frames & He & Hd).
  apply bind_Ok in Hd as (d0 & Hn' & Hd). injection Hd as Hr.
  apply bool_decide_eq_true in Hr as [[d acc] Hr]. exists pl, frames, d0, d, acc. auto.
Qed.

(** ** Properties *)

(** C12: the sender. A pipeline [Pipeline::new] made never turns down a payload
    of the declared size: it encodes it whenever the blocks stay within the
    limits of RFC 6330, and beyond them it encodes or the RaptorQ crate panics.
    Every frame of the stream is well formed and authentic under the session key,
    of the session, of type repair, and carries one serialized packet of the
    encoder of the block it names; every packet of every block, source and
    repair, is carried by one of the frames. *)
Theorem transfer_encode `{Blake3Laws} `{RaptorQLaws} checks sid params key pl payload :
  length sid = 16%nat -> wf_params params -> Pipeline_new checks sid params key = Ok pl ->
  len payload = payload_size params ->
  (within_limit params -> exists frames, encode checks pl payload = Ok frames)
  /\ match encode checks pl payload with
     | Ok frames =>
       (forall f, f ∈ frames -> wf_frame f /\ authentic f key
          /\ fh_session_id (fr_header f) = sid /\ fh_frame_type (fr_header f) = FRepair
          /\ exists i p, (i < Z.to_nat (block_count params))%nat
             /\ fh_block_index (fr_header f) = Z.of_nat i
             /\ p ∈ block_packets params payload (repair_count params) i
             /\ fr_payload f = rq_serialize p)
       /\ (forall i p, (i < Z.to_nat (block_count params))%nat ->
             0 < len (block_data params payload i) ->
             p ∈ block_packets params payload (repair_count params) i ->
             exists f, f ∈ frames /\ fh_block_index (fr_header f) = Z.of_nat i
               /\ fr_payload f = rq_serialize p)
     | Err _ => False
     | Panic => ~ within_limit params
     end.
Proof.
  intros Hs Hp Hn Hlen. destruct (sender_new_ok _ _ _ _ _ Hs Hp Hn) as (Hpl & <- & <- & <-).
  assert (Htot : within_limit (pl_params pl) -> exists frames, encode checks pl payload = Ok frames).
  { intros Hl. apply encode_total; [done..|]. by apply within_limit_encodable. }
  split; [done|]. destruct (encode checks pl payload) as [frames|e|] eqn:He.
  - split.
    + intros f Hf. destruct (encode_elem checks pl payload _ f Hpl He Hf) as (i & p & Hi & _ & Hq & []).
      split_and!; try done. by exists i, p.
    + intros i p Hi Hd Hq. destruct (encode_has checks pl payload frames i p Hpl He Hi Hd Hq)
        as (f & Hf & []). by exists f.
  - by apply (encode_no_error checks pl payload e Hpl Hlen).
  - intros Hl. by destruct (Htot Hl).
Qed.

Lemma transfer_encode_witness :
  exists pl frames, Pipeline_new true (zeros 16) demo_session (zeros 32) = Ok pl
    /\ encode true pl demo_payload = Ok frames.
Proof.
  eexists.
  eassert (Hw := transfer_encode true (zeros 16) demo_session (zeros 32) _ demo_payload
    eq_refl demo_session_wf eq_refl eq_refl).
  destruct Hw as [Hl _]. destruct Hl as [frames He]; [split; vm_compute; discriminate|].
  exists frames. split; [reflexivity|exact He].
Defined.

(** C8: delivery. Whatever selection of the sender's frames arrives, in any
    order and with any duplicates, among any byte strings the receiver turns
    down, it accepts exactly the frames; once the source packets of every block
    are among the arrivals, every block is done and [finish] returns exactly the
    payload; and before that [finish] never returns anything else. *)
Theorem transfer_delivery `{Blake3Laws} `{RaptorQLaws} checks sid params key pl payload frames
    d0 bs :
  length sid = 16%nat -> wf_params params -> payload_digest params = blake3_digest payload ->
  Pipeline_new checks sid params key = Ok pl -> encode_to_bytes checks pl payload = Ok frames ->
  PipelineDecoder_new checks sid params key = Ok d0 ->
  Forall (fun b => b ∈ frames \/ refused checks d0 b) bs ->
  exists d, receive checks bs d0 = Some (d, sent frames bs)
    /\ (forall out, finish d = Ok out -> out = payload)
    /\ ((forall i q, (i < Z.to_nat (block_count params))%nat ->
           0 < len (block_data params payload i) -> q ∈ block_packets params payload 0 i ->
           exists b, b ∈ sent frames bs /\ carries key b i q) ->
        is_complete d = true /\ finish d = Ok payload).
Proof.
  intros Hs Hp Hdig Hn He Hd Hbs.
  destruct (receive_among _ _ _ _ _ _ _ _ _ Hs Hp Hn He Hd Hbs)
    as (d & Hr & Hok & Hrec & Ep & Ek & Hlen & Hss & Henc).
  rewrite <- Ep in Hlen, Hss, Hdig, Henc. exists d. split; [done|]. split.
  - intros out. by apply (receiving_finish d (sent frames bs)).
  - intros Hcov. rewrite <- Ep, <- Ek in Hcov. by apply (covered_finish d (sent frames bs)).
Qed.

Lemma transfer_delivery_witness :
  exists pl frames d0 d, Pipeline_new true (zeros 16) demo_session (zeros 32) = Ok pl
    /\ encode_to_bytes true pl demo_payload = Ok frames
    /\ PipelineDecoder_new true (zeros 16) demo_session (zeros 32) = Ok d0
    /\ receive true ([Byte.x44] :: frames ++ frames) d0
       = Some (d, sent frames ([Byte.x44] :: frames ++ frames))
    /\ forall out, finish d = Ok out -> out = demo_payload.
Proof.
  destruct demo_transfer_inv as (pl & frames & d0 & _ & _ & Hn & He & Hd & _).
  destruct (transfer_delivery true (zeros 16) demo_session (zeros 32) pl demo_payload frames d0
    ([Byte.x44] :: frames ++ frames) eq_refl demo_session_wf eq_refl Hn He Hd) as (d & Hr & Hf & _).
  { constructor; [right; eexists; reflexivity|]. apply Forall_forall.
    intros b Hb. left. apply elem_of_app in Hb as [Hb|Hb]; exact Hb. }
  exists pl, frames, d0, d. auto.
Defined.

(** replaying a journal. Feeding a fresh decoder the accepted frames alone,
    in the order they were accepted, is accepted in full and rebuilds the
    decoder that received the whole stream, its bitmaps, blocks and journal
    digest included. *)
Theorem transfer_replay `{Blake3Laws} `{RaptorQ} checks sid params key d0 bs d acc :
  length sid = 16%nat -> wf_params params -> PipelineDecoder_new checks sid params key = Ok d0 ->
  receive checks bs d0 = Some (d, acc) -> receive checks acc d0 = Some (d, acc).
Proof.
  intros Hs Hp Hn Hr. destruct (decoder_new_ok _ _ _ _ _ Hs Hp Hn) as (Hok & _).
  by apply (receive_accepted checks bs d0 [] d acc).
Qed.

Lemma transfer_replay_witness :
  exists frames d0 d acc, PipelineDecoder_new true (zeros 16) demo_session (zeros 32) = Ok d0
    /\ receive true ([Byte.x44] :: frames) d0 = Some (d, acc)
    /\ receive true acc d0 = Some (d, acc).
Proof.
  destruct demo_transfer_inv as (pl & frames & d0 & d & acc & _ & _ & Hd & Hr).
  exists frames, d0, d, acc. split; [exact Hd|]. split; [exact Hr|].
  exact (transfer_replay true (zeros 16) demo_session (zeros 32) d0 _ d acc eq_refl
    demo_session_wf Hd Hr).
Defined.

(** the resume file of a receiver, after any arrivals: it is built without
    a panic, it parses back to itself, and the receiver verifies it. *)
Theorem transfer_resume_round_trip `{Blake3Laws} `{RaptorQ} checks sid params key d0 bs d acc jb :
  length sid = 16%nat -> wf_params params -> PipelineDecoder_new checks sid params key = Ok d0 ->
  receive checks bs d0 = Some (d, acc) -> urange 64 jb ->
  exists rf, @resume_state _ _ CodecError jb d = Ok rf
    /\ ResumeFile_from_bytes checks (ResumeFile_to_vec rf) = Ok rf
    /\ verify_resume d rf = Ok tt.
Proof.
  intros Hs Hp Hn Hr Hjb.
  destruct (received_ok _ _ _ _ _ _ _ _ Hs Hp Hn Hr) as (Hok & _).
  destruct (resume_round_trip (E:=CodecError) checks d acc jb Hok Hjb) as (rf & ? & _ & ? & ? & _).
  by exists rf.
Qed.

Lemma transfer_resume_round_trip_witness :
  exists d0 rf, PipelineDecoder_new true (zeros 16) demo_session (zeros 32) = Ok d0
    /\ @resume_state _ _ CodecError 512 d0 = Ok rf
    /\ ResumeFile_from_bytes true (ResumeFile_to_vec rf) = Ok rf
    /\ verify_resume d0 rf = Ok tt.
Proof.
  eexists.
  eassert (Hw := transfer_resume_round_trip true (zeros 16) demo_session (zeros 32) _ [] _ [] 512
    eq_refl demo_session_wf eq_refl eq_refl ltac:(split; [lia|reflexivity])).
  destruct Hw as (rf & Hw). exists rf. split; [reflexivity|exact Hw].
Defined.

(** a well-formed resume file never makes [verify_resume] panic, and it
    passes exactly when it describes this receiver: same session, same number
    of blocks and of symbols per block, same journal digest, and for every
    block the very bitmap the receiver holds. *)
Theorem transfer_resume_verified `{Blake3Laws} `{RaptorQ} checks sid params key d0 bs d acc rf :
  length sid = 16%nat -> wf_params params -> PipelineDecoder_new checks sid params key = Ok d0 ->
  receive checks bs d0 = Some (d, acc) -> wf_resume rf ->
  safe (verify_resume d rf)
  /\ (verify_resume d rf = Ok tt <->
      rh_session_id (rf_header rf) = sid
      /\ length (rf_entries rf) = length (pd_blocks d)
      /\ rh_journal_digest (rf_header rf) = blake3_digest (concat acc)
      /\ forall i e, rf_entries rf !! i = Some e ->
         symbol_count e = total_symbols_per_block params
         /\ Some (Resume.symbol_bitmap e) = Pipeline.symbol_bitmap d (Z.of_nat i)).
Proof.
  intros Hs Hp Hn Hr Hrf.
  destruct (received_ok _ _ _ _ _ _ _ _ Hs Hp Hn Hr) as (Hok & <- & <- & _ & _).
  split; [by eapply verify_resume_safe|]. by apply verify_resume_Ok.
Qed.

Lemma transfer_resume_verified_witness :
  exists d0, PipelineDecoder_new true (zeros 16) demo_session (zeros 32) = Ok d0
    /\ safe (verify_resume d0 demo_resume).
Proof.
  eexists. split; [reflexivity|].
  eapply (transfer_resume_verified true (zeros 16) demo_session (zeros 32) _ [] _ []);
    [reflexivity|apply demo_session_wf|reflexivity|reflexivity|].
  apply (resume_inv true (ResumeFile_to_vec demo_resume) demo_resume). vm_compute. reflexivity.
Defined.
