(* ===== verification/CryptErrors.v ===== *)
(** * Error types of the crypto crate (dhow-crypt/src/lib.rs)

    One module per Rust enum, and the top-level [CryptError]. *)

From S2P Require Import Prelude.

Module Key.

Inductive KeyError :=
| GenerationFailed (details : message)
| InvalidMagic (expected got : list byte)
| UnsupportedVersion (version : byte)
| Truncated (expected actual : Z)
| InsecurePermissions (perms : Z)
| InvalidKey (details : message)
| ZeroizationFailed.

End Key.

Module AeadErr.

Inductive AeadError :=
| EncryptionFailed (details : message)
| DecryptionFailed (details : message)
| InvalidNonce (details : message)
| KeyDerivationFailed (details : message).

End AeadErr.

Module Signing.

Inductive SigningError :=
| SigningFailed (details : message)
| VerificationFailed
| InvalidPublicKey (details : message)
| InvalidSignature (details : message).

End Signing.

Module SMani.

Inductive ManifestError :=
| InvalidMagic (got : list byte)
| UnsupportedVersion (version : byte)
| SignatureVerificationFailed
| CrcMismatch
| Truncated (expected actual : Z)
| PathTraversal (name : list byte)
| FileNameTooLong (length : Z)
| FileSizeTooLarge (size max : Z)
| InvalidBlockCount (count : Z)
| SessionMismatch
| Malformed (details : message).

End SMani.

Abbreviation KeyError := Key.KeyError.
Abbreviation AeadError := AeadErr.AeadError.
Abbreviation SigningError := Signing.SigningError.

Module Crypt.

Inductive CryptError :=
| Key (e : KeyError)
| Aead (e : AeadError)
| Signing (e : SigningError)
| Manifest (e : SMani.ManifestError)
| Internal (details : message).

End Crypt.

Abbreviation CryptError := Crypt.CryptError.
