(* ===== verification/Display.v ===== *)
(** * Error texts (the [#[error(..)]] attributes of dhow-codec and dhow-crypt)

    [e.to_string()] of every error enum as a message, and the bytes a message
    renders to. *)

From S2P Require Import Prelude Errors CryptErrors Qr.
From Stdlib Require Strings.String.

(** ** Definitions *)

(** *** Rendering *)

(** The digits of [z] in base [b], most significant first; [fuel] bounds how
    many there are. *)
Fixpoint digits (fuel : nat) (b z : Z) (acc : list byte) : list byte :=
  match fuel with
  | O => acc
  | S fuel' =>
      let d := z mod b in
      let c := byte.of_Z (if decide (d < 10) then 48 + d else 87 + d) in
      if decide (z < b) then c :: acc else digits fuel' b (z / b) (c :: acc)
  end.

(** Enough fuel for a number of any size. *)
Definition show (b z : Z) : list byte := digits (S (Z.to_nat (Z.log2 z))) b z [].

Definition text (s : string) : list byte := String.list_byte_of_string s.

(** [{:#0w$x}] pads with zeros to [n] digits. *)
Definition show_hex (n : nat) (z : Z) : list byte :=
  let ds := show 16 z in
  text "0x" ++ replicate (n - length ds) (byte.of_Z 48) ++ ds.

(** [{:?}] of a byte array. *)
Fixpoint comma_separated (l : list (list byte)) : list byte :=
  match l with
  | [] => []
  | [x] => x
  | x :: l' => x ++ text ", " ++ comma_separated l'
  end.

Definition show_bytes (bs : list byte) : list byte :=
  text "[" ++ comma_separated ((fun b => show 10 (byte.unsigned b)) <$> bs) ++ text "]".

Definition render_fragment (f : fragment) : list byte :=
  match f with
  | Txt s => text s
  | Dec z => show 10 z
  | HexNum n z => show_hex n z
  | Octal z => text "0o" ++ show 8 z
  | DebugBytes bs => show_bytes bs
  | Bytes bs => bs
  end.

Definition render (m : message) : list byte := concat (render_fragment <$> m).

(** *** The codec's errors *)

Definition ChunkError_display (e : ChunkError) : message :=
  match e with
  | Chunk.PayloadTooLarge size max =>
      [Txt "payload size "; Dec size; Txt " exceeds maximum "; Dec max]
  | Chunk.InvalidBlockCount count => [Txt "invalid block count: "; Dec count]
  | Chunk.InvalidSymbolSize size => [Txt "invalid symbol size: "; Dec size]
  | Chunk.EmptyPayload => [Txt "payload is empty"]
  | Chunk.BlockIndexOutOfRange index count =>
      [Txt "block index "; Dec index; Txt " out of range (0.."; Dec count; Txt ")"]
  | Chunk.SymbolIndexOutOfRange index count =>
      [Txt "symbol index "; Dec index; Txt " out of range (0.."; Dec count; Txt ")"]
  | Chunk.Truncated expected actual =>
      [Txt "payload truncated: expected "; Dec expected; Txt " bytes, got "; Dec actual]
  end.

Definition FrameError_display (e : FrameError) : message :=
  match e with
  | Framing.InvalidMagic got =>
      [Txt "invalid magic bytes: expected DHOW, got "; DebugBytes got]
  | Framing.UnsupportedVersion version =>
      [Txt "unsupported version: "; Dec (byte.unsigned version)]
  | Framing.CrcMismatch expected actual =>
      [Txt "CRC32C mismatch: expected "; HexNum 8 expected; Txt ", got "; HexNum 8 actual]
  | Framing.PayloadTooLarge length =>
      [Txt "payload length "; Dec length; Txt " exceeds maximum 65535"]
  | Framing.Truncated expected actual =>
      [Txt "frame truncated: expected "; Dec expected; Txt " bytes, got "; Dec actual]
  | Framing.UnknownFrameType frame_type =>
      [Txt "unknown frame type: "; Dec (byte.unsigned frame_type)]
  | Framing.SessionMismatch expected actual =>
      [Txt "session ID mismatch: expected "; DebugBytes expected; Txt ", got ";
       DebugBytes actual]
  | Framing.MacVerificationFailed => [Txt "MAC verification failed"]
  | Framing.HeaderTooShort length =>
      [Txt "frame header too short: "; Dec length; Txt " bytes (minimum 46)"]
  | Framing.ReservedFieldNonZero value =>
      [Txt "reserved field must be zero, got "; Dec value]
  end.

Definition SessionError_display (e : SessionError) : message :=
  match e with
  | Sess.NotInitialized => [Txt "session not initialized"]
  | Sess.InvalidSessionId => [Txt "session ID is all zeros"]
  | Sess.InvalidParameters details => Txt "invalid session parameters: " :: details
  | Sess.DigestMismatch => [Txt "payload digest mismatch"]
  end.

Definition ResumeError_display (e : ResumeError) : message :=
  match e with
  | Res.InvalidMagic got =>
      [Txt "invalid resume file magic: expected DHRS, got "; DebugBytes got]
  | Res.UnsupportedVersion version =>
      [Txt "unsupported resume version: "; Dec (byte.unsigned version)]
  | Res.IntegrityCheckFailed =>
      [Txt "resume file integrity check failed (possible tampering)"]
  | Res.Truncated expected actual =>
      [Txt "resume file truncated: expected "; Dec expected; Txt " bytes, got "; Dec actual]
  | Res.SessionMismatch => [Txt "resume session ID mismatch"]
  | Res.BlockIndexOutOfRange index =>
      [Txt "resume block index "; Dec index; Txt " out of range"]
  | Res.InvalidSymbolCount count => [Txt "invalid symbol count: "; Dec count]
  | Res.ReservedNotZero offset =>
      [Txt "reserved field at offset "; Dec offset; Txt " is not zero"]
  | Res.HeldCountMismatch declared bitmap =>
      [Txt "resume block declares "; Dec declared; Txt " symbols held but its bitmap has ";
       Dec bitmap]
  | Res.TrailingBytes extra =>
      [Txt "resume file has "; Dec extra; Txt " trailing bytes after the last block entry"]
  | Res.JournalMismatch details =>
      Txt "resume state does not describe this journal: " :: details
  end.

Definition ManifestError_display (e : ManifestError) : message :=
  match e with
  | Mani.InvalidMagic got => [Txt "invalid manifest magic: expected DHMF, got "; DebugBytes got]
  | Mani.UnsupportedVersion version =>
      [Txt "unsupported manifest version: "; Dec (byte.unsigned version)]
  | Mani.SignatureVerificationFailed => [Txt "manifest signature verification failed"]
  | Mani.CrcMismatch => [Txt "manifest CRC mismatch"]
  | Mani.Truncated expected actual =>
      [Txt "manifest truncated: expected "; Dec expected; Txt " bytes, got "; Dec actual]
  | Mani.PathTraversal name => [Txt "path traversal detected in file name: "; Bytes name]
  | Mani.FileNameTooLong length =>
      [Txt "file name too long: "; Dec length; Txt " bytes (max 4096)"]
  | Mani.FileSizeTooLarge size max =>
      [Txt "file size "; Dec size; Txt " exceeds maximum "; Dec max]
  | Mani.InvalidFileCount count => [Txt "invalid file count in manifest: "; Dec count]
  | Mani.SessionMismatch => [Txt "manifest session ID mismatch"]
  | Mani.Malformed details => Txt "malformed manifest: " :: details
  end.

Definition FecError_display (e : FecError) : message :=
  match e with
  | FecErr.PayloadTooLarge => [Txt "payload too large for FEC encoding"]
  | FecErr.InvalidSourceBlock details => Txt "invalid source block size: " :: details
  | FecErr.InsufficientPackets => [Txt "decoding failed: insufficient packets"]
  | FecErr.MtuTooSmall mtu min => [Txt "MTU "; Dec mtu; Txt " is below minimum "; Dec min]
  end.

(** The parenthesis [FramePayloadTooLarge] opens is not closed in the code. *)
Definition CodecError_display (e : CodecError) : message :=
  match e with
  | Codec.Chunk e => Txt "chunking error: " :: ChunkError_display e
  | Codec.Frame e => Txt "frame error: " :: FrameError_display e
  | Codec.FramePayloadTooLarge length max =>
      [Txt "frame payload too large: "; Dec length; Txt " bytes (max "; Dec max]
  | Codec.Session e => Txt "session error: " :: SessionError_display e
  | Codec.Manifest e => Txt "manifest error: " :: ManifestError_display e
  | Codec.Resume e => Txt "resume error: " :: ResumeError_display e
  | Codec.RaptorQ details => Txt "raptorq error: " :: details
  | Codec.Fec e => Txt "FEC error: " :: FecError_display e
  | Codec.Internal details => Txt "internal error: " :: details
  end.

Definition Ecc_debug (e : Ecc) : string :=
  match e with Low => "Low" | Medium => "Medium" | Quartile => "Quartile" | High => "High" end.

Definition QrError_display (e : QrError) : message :=
  match e with
  | DataTooLong length version ecc =>
      [Txt "data too large for QR encoding: "; Dec length;
       Txt " bytes exceeds the capacity of version "; Dec version; Txt " at ";
       Txt (Ecc_debug ecc)]
  | InvalidVersion version =>
      [Txt "invalid QR version "; Dec version; Txt ", must be 1..=40"]
  end.

(** *** The crypto crate's errors *)

Definition KeyError_display (e : KeyError) : message :=
  match e with
  | Key.GenerationFailed details => Txt "key generation failed: " :: details
  | Key.InvalidMagic expected got =>
      [Txt "invalid key file magic: expected "; DebugBytes expected; Txt ", got ";
       DebugBytes got]
  | Key.UnsupportedVersion version =>
      [Txt "unsupported key file version: "; Dec (byte.unsigned version)]
  | Key.Truncated expected actual =>
      [Txt "key file truncated: expected "; Dec expected; Txt " bytes, got "; Dec actual]
  | Key.InsecurePermissions perms =>
      [Txt "key file permissions too permissive: "; Octal perms; Txt " (expected 0600)"]
  | Key.InvalidKey details => Txt "invalid key data: " :: details
  | Key.ZeroizationFailed => [Txt "key zeroization failed"]
  end.

Definition AeadError_display (e : AeadError) : message :=
  match e with
  | AeadErr.EncryptionFailed details => Txt "encryption failed: " :: details
  | AeadErr.DecryptionFailed details => Txt "decryption failed: " :: details
  | AeadErr.InvalidNonce details => Txt "invalid nonce: " :: details
  | AeadErr.KeyDerivationFailed details => Txt "key derivation failed: " :: details
  end.

Definition SigningError_display (e : SigningError) : message :=
  match e with
  | Signing.SigningFailed details => Txt "signing failed: " :: details
  | Signing.VerificationFailed => [Txt "signature verification failed"]
  | Signing.InvalidPublicKey details => Txt "invalid public key: " :: details
  | Signing.InvalidSignature details => Txt "invalid signature: " :: details
  end.

Definition SManifestError_display (e : SMani.ManifestError) : message :=
  match e with
  | SMani.InvalidMagic got =>
      [Txt "invalid manifest magic: expected DHMF, got "; DebugBytes got]
  | SMani.UnsupportedVersion version =>
      [Txt "unsupported manifest version: "; Dec (byte.unsigned version)]
  | SMani.SignatureVerificationFailed => [Txt "manifest signature verification failed"]
  | SMani.CrcMismatch => [Txt "manifest CRC mismatch"]
  | SMani.Truncated expected actual =>
      [Txt "manifest truncated: expected "; Dec expected; Txt " bytes, got "; Dec actual]
  | SMani.PathTraversal name => [Txt "path traversal detected in file name: "; Bytes name]
  | SMani.FileNameTooLong length =>
      [Txt "file name too long: "; Dec length; Txt " bytes (max 4096)"]
  | SMani.FileSizeTooLarge size max =>
      [Txt "file size "; Dec size; Txt " exceeds maximum "; Dec max]
  | SMani.InvalidBlockCount count => [Txt "invalid block count in manifest: "; Dec count]
  | SMani.SessionMismatch => [Txt "manifest session ID mismatch"]
  | SMani.Malformed details => Txt "malformed manifest: " :: details
  end.

Definition CryptError_display (e : CryptError) : message :=
  match e with
  | Crypt.Key e => Txt "key error: " :: KeyError_display e
  | Crypt.Aead e => Txt "aead error: " :: AeadError_display e
  | Crypt.Signing e => Txt "signing error: " :: SigningError_display e
  | Crypt.Manifest e => Txt "manifest error: " :: SManifestError_display e
  | Crypt.Internal details => Txt "internal error: " :: details
  end.

(** ** Lemmas *)

(** A rendered number is never empty, so a text with a literal or a number in
    it is not empty either. *)
Lemma digits_nonempty fuel b z acc : acc <> [] -> digits fuel b z acc <> [].
Proof.
  revert z acc. induction fuel as [|fuel IH]; intros z acc Hacc; cbn; [done|].
  case_decide; [done|]. by apply IH.
Qed.

Lemma show_nonempty b z : show b z <> [].
Proof. unfold show. cbn. case_decide; [done|]. by apply digits_nonempty. Qed.

Example render_crc :
  render (FrameError_display (Framing.CrcMismatch 255 3735928559))
  = text "CRC32C mismatch: expected 0x000000ff, got 0xdeadbeef".
Proof. vm_compute. reflexivity. Qed.

Example render_mode :
  render (KeyError_display (Key.InsecurePermissions 420))
  = text "key file permissions too permissive: 0o644 (expected 0600)".
Proof. vm_compute. reflexivity. Qed.

Example render_magic :
  render (FrameError_display (Framing.InvalidMagic [Byte.x00; Byte.x0a; Byte.xff]))
  = text "invalid magic bytes: expected DHOW, got [0, 10, 255]".
Proof. vm_compute. reflexivity. Qed.
