(* ===== verification/UnitTests.v ===== *)
(** * The tests of the checksum, digest and error modules
    (dhow-codec/src/crc32c.rs, blake3.rs and lib.rs, dhow-crypt/src/lib.rs)

    The [mod tests] of each, as the functions they are. The known answers of
    BLAKE3 are a fact about the external hash and are not among them. *)

From S2P Require Import Prelude Harness Errors CryptErrors Crc32c Primitives Instances Digest.
From S2P Require Import Display.

(** ** Definitions *)

(** [str::contains] for a string pattern. *)
Definition contains (hay : list byte) (needle : string) : bool :=
  existsb (fun i => bool_decide (take (length (text needle)) (drop i hay) = text needle))
    (seq 0 (S (length hay))).

(** *** crc32c.rs *)

(** One hasher fed some pieces. *)
Definition crc_of (pieces : list (list byte)) : Z :=
  crc_finalize (foldl crc_update crc_new pieces).

Definition test_crc32c_known_answers : target :=
  _ ← assert (crc32c_digest (text "") = 0);
  _ ← assert (crc32c_digest (text "123456789") = 0xE3069283);
  _ ← assert (crc32c_digest (text "Hello world!") = 0x7B98E751);
  _ ← assert (crc32c_digest (text "a") = 0xC1D04330);
  assert (crc32c_digest [Byte.x00] = 0x527D5351).

Definition test_crc32c_streaming_equals_one_shot : target :=
  let data := ramp 1000 in
  let one_shot := crc32c_digest data in
  piece1 ← slice 0 100 data;
  piece2 ← slice 100 500 data;
  piece3 ← slice 500 (length data) data;
  let streaming := crc_of [piece1; piece2; piece3] in
  assert (one_shot = streaming).

Definition test_crc32c_streaming_empty : target := assert (crc_of [] = crc32c_digest []).

Definition test_crc32c_streaming_single_byte : target :=
  assert (crc_of [[byte.of_Z 66]] = crc32c_digest [byte.of_Z 66]).

Definition test_crc32c_streaming_single_byte_incremental : target :=
  assert (crc_of ((fun i => [byte.of_Z i]) <$> upto 256)
          = crc32c_digest (byte.of_Z <$> upto 256)).

Definition test_crc32c_streaming_empty_update : target :=
  let data := text "test data for empty update" in
  let one_shot := crc32c_digest data in
  assert (crc_of [[]; data; []] = one_shot).

Definition test_crc32c_large_input_consistency : target :=
  let data := ramp (Z.to_nat 100000) in
  let one_shot := crc32c_digest data in
  assert (crc_of (chunks 997 data) = one_shot).

Definition prop_crc32c_streaming_arbitrary_chunks (data : list byte) (chunk_size : Z) : target :=
  let one_shot := crc32c_digest data in
  assert (crc_of (chunks (Z.to_nat chunk_size) data) = one_shot).

(** *** blake3.rs *)

Section blake3.
Context `{Blake3}.

Definition blake3_of (pieces : list (list byte)) : list byte :=
  finalize (foldl Digest.update Blake3Hasher_new pieces).

Definition test_blake3_streaming_equals_one_shot : target :=
  let data := ramp 1000 in
  let one_shot := blake3_digest data in
  piece1 ← slice 0 100 data;
  piece2 ← slice 100 500 data;
  piece3 ← slice 500 (length data) data;
  let streaming := blake3_of [piece1; piece2; piece3] in
  assert (one_shot = streaming).

Definition test_blake3_streaming_empty : target := assert (blake3_of [] = blake3_digest []).

Definition test_blake3_streaming_single_byte : target :=
  assert (blake3_of [[byte.of_Z 66]] = blake3_digest [byte.of_Z 66]).

Definition test_blake3_streaming_single_byte_incremental : target :=
  assert (blake3_of ((fun i => [byte.of_Z i]) <$> upto 256)
          = blake3_digest (byte.of_Z <$> upto 256)).

Definition test_blake3_large_input_chunked : target :=
  let data := (fun i => byte.of_Z (i * 3)) <$> upto 50000 in
  let one_shot := blake3_digest data in
  assert (blake3_of (chunks 511 data) = one_shot).

Definition test_blake3_streaming_with_empty_updates : target :=
  let data := text "test data for empty update" in
  let one_shot := blake3_digest data in
  assert (blake3_of [[]; data; []] = one_shot).

Definition test_blake3_deterministic : target :=
  let data := text "payload for determinism check" in
  let h1 := blake3_digest data in
  let h2 := blake3_digest data in
  assert (h1 = h2).

Definition blake3_tests : list target := [
  test_blake3_streaming_equals_one_shot; test_blake3_streaming_empty;
  test_blake3_streaming_single_byte; test_blake3_streaming_single_byte_incremental;
  test_blake3_large_input_chunked; test_blake3_streaming_with_empty_updates;
  test_blake3_deterministic].

End blake3.

(** *** lib.rs of the codec: the texts of the errors *)

(** [assert!(err.to_string().contains(needle))] *)
Definition says (m : message) (needle : string) : target :=
  assert (contains (render m) needle = true).

Definition test_chunk_error_display : target :=
  says (ChunkError_display (Chunk.PayloadTooLarge 100 50)) "exceeds maximum".

Definition test_frame_error_display : target :=
  says (FrameError_display (Framing.InvalidMagic (zeros 4))) "invalid magic".

Definition test_frame_error_reserved_nonzero : target :=
  says (FrameError_display (Framing.ReservedFieldNonZero 1)) "must be zero".

Definition test_frame_error_crc_mismatch : target :=
  says (FrameError_display (Framing.CrcMismatch 1 2)) "CRC32C mismatch".

Definition test_frame_error_mac_verification : target :=
  says (FrameError_display Framing.MacVerificationFailed) "MAC verification".

Definition test_manifest_error_display : target :=
  says (ManifestError_display (Mani.PathTraversal (text "test"))) "path traversal".

Definition test_manifest_error_crc_mismatch : target :=
  says (ManifestError_display Mani.CrcMismatch) "CRC".

Definition test_manifest_error_invalid_magic : target :=
  says (ManifestError_display (Mani.InvalidMagic (zeros 4))) "manifest magic".

Definition test_codec_error_from_manifest : target :=
  says (CodecError_display (Codec.Manifest Mani.SignatureVerificationFailed)) "manifest".

Definition test_session_error_display : target :=
  says (SessionError_display Sess.NotInitialized) "not initialized".

Definition test_resume_error_display : target :=
  says (ResumeError_display Res.IntegrityCheckFailed) "integrity".

Definition test_resume_error_invalid_magic : target :=
  says (ResumeError_display (Res.InvalidMagic (zeros 4))) "invalid resume file magic".

Definition test_codec_error_from_chunk : target :=
  says (CodecError_display (Codec.Chunk Chunk.EmptyPayload)) "chunking error".

Definition test_codec_error_from_frame : target :=
  says (CodecError_display (Codec.Frame (Framing.UnsupportedVersion (byte.of_Z 99)))) "frame error".

Definition test_codec_error_frame_payload_too_large : target :=
  says (CodecError_display (Codec.FramePayloadTooLarge 70000 65535)) "too large".

Definition test_codec_error_from_session : target :=
  says (CodecError_display (Codec.Session Sess.InvalidSessionId)) "session error".

Definition test_codec_error_from_resume : target :=
  says (CodecError_display (Codec.Resume (Res.Truncated 100 50))) "resume error".

(** *** lib.rs of the crypto crate *)

Definition test_key_error_display : target :=
  says (KeyError_display (Key.InvalidKey [Txt "bad key"])) "invalid key".

Definition test_aead_error_display : target :=
  says (AeadError_display (AeadErr.DecryptionFailed [Txt "wrong key"])) "decryption failed".

Definition test_signing_error_display : target :=
  says (SigningError_display Signing.VerificationFailed) "verification failed".

Definition test_smanifest_error_display : target :=
  says (SManifestError_display (SMani.PathTraversal (text "../../etc/passwd"))) "path traversal".

Definition test_crypt_error_from_key : target :=
  says (CryptError_display (Crypt.Key Key.ZeroizationFailed)) "key error".

Definition test_crypt_error_from_aead : target :=
  says (CryptError_display (Crypt.Aead (AeadErr.InvalidNonce [Txt "bad nonce"]))) "aead error".

Definition test_crypt_error_from_signing : target :=
  says (CryptError_display (Crypt.Signing (Signing.SigningFailed [Txt "bad key"]))) "signing error".

Definition test_crypt_error_from_manifest : target :=
  says (CryptError_display (Crypt.Manifest SMani.CrcMismatch)) "manifest error".

Definition text_tests : list target := [
  test_chunk_error_display; test_frame_error_display; test_frame_error_reserved_nonzero;
  test_frame_error_crc_mismatch; test_frame_error_mac_verification; test_manifest_error_display;
  test_manifest_error_crc_mismatch; test_manifest_error_invalid_magic;
  test_codec_error_from_manifest; test_session_error_display; test_resume_error_display;
  test_resume_error_invalid_magic; test_codec_error_from_chunk; test_codec_error_from_frame;
  test_codec_error_frame_payload_too_large; test_codec_error_from_session;
  test_codec_error_from_resume; test_key_error_display; test_aead_error_display;
  test_signing_error_display; test_smanifest_error_display; test_crypt_error_from_key;
  test_crypt_error_from_aead; test_crypt_error_from_signing; test_crypt_error_from_manifest].

Definition crc_tests : list target := [
  test_crc32c_known_answers; test_crc32c_streaming_equals_one_shot; test_crc32c_streaming_empty;
  test_crc32c_streaming_single_byte; test_crc32c_streaming_single_byte_incremental;
  test_crc32c_streaming_empty_update; test_crc32c_large_input_consistency].

(** ** Lemmas *)

Lemma streamed pieces : crc_of pieces = crc32c_digest (concat pieces).
Proof. apply (streaming_digest pieces []). Qed.

Lemma arbitrary_chunks data chunk_size :
  0 < chunk_size -> prop_crc32c_streaming_arbitrary_chunks data chunk_size = Ok tt.
Proof. intros. apply assert_pass. by rewrite streamed, concat_chunks by lia. Qed.

(** Pieces cut at two offsets. *)
Lemma three_pieces {E} (data : list byte) i j :
  (i <= j <= length data)%nat ->
  exists a b c, @slice E _ 0 i data = Ok a /\ @slice E _ i j data = Ok b
    /\ @slice E _ j (length data) data = Ok c /\ concat [a; b; c] = data.
Proof.
  intros Hij. exists (sub 0 (i - 0) data), (sub i (j - i) data), (sub j (length data - j) data).
  rewrite !slice_Ok by lia. split_and!; try done. cbn [concat]. rewrite app_nil_r, app_assoc.
  rewrite sub_join_at, sub_join_at by lia. apply sub_all. lia.
Qed.

Lemma concat_singletons (l : list Z) : concat ((fun i => [byte.of_Z i]) <$> l) = byte.of_Z <$> l.
Proof. induction l as [|i l IH]; [done|]. cbn. by rewrite IH. Qed.

Lemma ramp_1000 : length (ramp 1000) = 1000%nat.
Proof. unfold ramp. by rewrite length_fmap, length_seq. Qed.

Lemma crc_tests_pass : Forall (fun t => t = Ok tt) crc_tests.
Proof.
  repeat (apply Forall_cons; split); [..|apply Forall_nil_2].
  - vm_compute. reflexivity.
  - unfold test_crc32c_streaming_equals_one_shot. pose proof ramp_1000 as Hl.
    revert Hl. generalize (ramp 1000). intros data Hl.
    destruct (three_pieces (E := Empty_set) data 100 500)
      as (a & b & c & -> & -> & Hc & Hconcat); [lia|].
    cbn [mbind outcome_bind]. rewrite Hc. cbn [mbind outcome_bind]. apply assert_pass.
    by rewrite streamed, Hconcat.
  - apply assert_pass. apply streamed.
  - apply assert_pass. apply streamed.
  - apply assert_pass. by rewrite streamed, concat_singletons.
  - apply assert_pass. by rewrite streamed.
  - unfold test_crc32c_large_input_consistency. generalize (ramp (Z.to_nat 100000)).
    intros data. apply assert_pass. by rewrite streamed, concat_chunks by lia.
Qed.

Lemma blake3_streamed `{Blake3Laws} pieces : blake3_of pieces = blake3_digest (concat pieces).
Proof. apply hasher_streams. Qed.

Lemma blake3_tests_pass `{Blake3Laws} : Forall (fun t => t = Ok tt) blake3_tests.
Proof.
  repeat (apply Forall_cons; split); [..|apply Forall_nil_2].
  - unfold test_blake3_streaming_equals_one_shot. pose proof ramp_1000 as Hl.
    revert Hl. generalize (ramp 1000). intros data Hl.
    destruct (three_pieces (E := Empty_set) data 100 500)
      as (a & b & c & -> & -> & Hc & Hconcat); [lia|].
    cbn [mbind outcome_bind]. rewrite Hc. cbn [mbind outcome_bind]. apply assert_pass.
    by rewrite blake3_streamed, Hconcat.
  - apply assert_pass. apply blake3_streamed.
  - apply assert_pass. apply blake3_streamed.
  - apply assert_pass. by rewrite blake3_streamed, concat_singletons.
  - unfold test_blake3_large_input_chunked. generalize (upto 50000). intros l.
    apply assert_pass. by rewrite blake3_streamed, concat_chunks by lia.
  - apply assert_pass. by rewrite blake3_streamed.
  - by apply assert_pass.
Qed.

Lemma text_tests_pass : Forall (fun t => t = Ok tt) text_tests.
Proof. vm_compute. repeat (constructor; [reflexivity|]). constructor. Qed.

(** ** Properties *)

(** the tests of the checksum, digest and error modules pass: the CRC32C of
    each known answer is the one stated and the error texts contain what the
    tests look for; and streaming in chunks of any positive size gives the
    one-shot checksum for every byte string, not only for those generated. *)
Theorem module_tests_pass `{Blake3Laws} data chunk_size :
  0 < chunk_size ->
  Forall (fun t => t = Ok tt) (crc_tests ++ text_tests)
  /\ Forall (fun t => t = Ok tt) blake3_tests
  /\ prop_crc32c_streaming_arbitrary_chunks data chunk_size = Ok tt.
Proof.
  intros Hc. split; [apply Forall_app; split; [apply crc_tests_pass|apply text_tests_pass]|].
  split; [apply blake3_tests_pass|]. by apply arbitrary_chunks.
Qed.

Lemma module_tests_pass_witness :
  Forall (fun t => t = Ok tt) (crc_tests ++ text_tests)
  /\ Forall (fun t => t = Ok tt) blake3_tests
  /\ prop_crc32c_streaming_arbitrary_chunks (ramp 20) 7 = Ok tt.
Proof. apply module_tests_pass. reflexivity. Defined.
