(* ===== verification/Text.v ===== *)
(** * Text: the string functions of the standard library the line-oriented
    programs use

    [char] encoding, [str::trim], [str::split_whitespace], [BufRead::lines] and
    [from_str_radix] on the bytes of a [String], and what they do on text that
    was printed. *)

From S2P Require Import Prelude Utf8 Errors Display.
From Stdlib Require Strings.String.

(** ** Definitions *)

(** *** Characters *)

(** A Unicode scalar value. *)
Definition scalar (c : Z) : Prop := 0 <= c < 55296 \/ 57344 <= c < 1114112.

(** [char::encode_utf8] *)
Definition utf8_encode (c : Z) : list byte :=
  if decide (c < 128) then [byte.of_Z c]
  else if decide (c < 2048)
  then [byte.of_Z (192 + c / 64); byte.of_Z (128 + c mod 64)]
  else if decide (c < 65536)
  then [byte.of_Z (224 + c / 4096); byte.of_Z (128 + c / 64 mod 64); byte.of_Z (128 + c mod 64)]
  else [byte.of_Z (240 + c / 262144); byte.of_Z (128 + c / 4096 mod 64);
        byte.of_Z (128 + c / 64 mod 64); byte.of_Z (128 + c mod 64)].

(** The characters of a string, and the string of some characters. *)
Definition chars (s : list byte) : list Z := default [] (utf8_decode s).
Definition of_chars (cs : list Z) : list byte := concat (utf8_encode <$> cs).

(** [char::is_whitespace]: the White_Space property. *)
Definition is_whitespace (c : Z) : bool :=
  bool_decide (9 <= c <= 13 \/ c = 32 \/ c = 133 \/ c = 160 \/ c = 5760 \/ 8192 <= c <= 8202
    \/ c = 8232 \/ c = 8233 \/ c = 8239 \/ c = 8287 \/ c = 12288).

(** The longest suffix that does not start with a character of [P]. *)
Fixpoint drop_while {A} (P : A -> bool) (l : list A) : list A :=
  match l with
  | [] => []
  | a :: l' => if P a then drop_while P l' else l
  end.

(** [str::trim] *)
Definition trim (s : list byte) : list byte :=
  of_chars (reverse (drop_while is_whitespace
    (reverse (drop_while is_whitespace (chars s))))).

(** The runs of elements between those that satisfy [P]. *)
Fixpoint split_by {A} (P : A -> bool) (l : list A) : list (list A) :=
  match l with
  | [] => [[]]
  | a :: l' =>
    if P a then [] :: split_by P l'
    else
      match split_by P l' with
      | [] => [[a]]
      | c :: cs => (a :: c) :: cs
      end
  end.

(** [str::split_whitespace]: the runs that are not empty. *)
Definition split_whitespace (s : list byte) : list (list byte) :=
  of_chars <$> filter (fun w => w <> []) (split_by is_whitespace (chars s)).

(** [str::is_char_boundary] *)
Definition is_char_boundary (i : nat) (s : list byte) : bool :=
  match s !! i with
  | Some b => bool_decide (~ (128 <= byte.unsigned b < 192))
  | None => bool_decide (i = length s)
  end.

(** [&s[lo..hi]] of a [str]: the ends must be character boundaries. *)
Definition str_slice {E} (lo hi : nat) (s : list byte) : outcome E (list byte) :=
  if decide (is_char_boundary lo s = true /\ is_char_boundary hi s = true)
  then slice lo hi s else Panic.

(** *** Lines *)

Definition newline : byte := byte.of_Z 10.
Definition carriage_return : byte := byte.of_Z 13.

(** A line without the [\r] of a [\r\n] terminator. *)
Definition chomp (line : list byte) : list byte :=
  if decide (last line = Some carriage_return) then take (length line - 1) line else line.

(** The pieces around the terminators: the last has none, and is a line only
    when it is not empty. *)
Fixpoint terminated (pieces : list (list byte)) : list (list byte) :=
  match pieces with
  | [] => []
  | [p] => if decide (p = []) then [] else [p]
  | p :: pieces' => chomp p :: terminated pieces'
  end.

(** [BufRead::lines], before each line is checked to be UTF-8. *)
Definition lines (input : list byte) : list (list byte) := terminated (split newline input).

(** *** Integers *)

(** [char::to_digit] *)
Definition to_digit (radix : Z) (b : byte) : option Z :=
  let z := byte.unsigned b in
  let d :=
    if decide (48 <= z <= 57) then z - 48
    else if decide (97 <= z <= 122) then z - 87
    else if decide (65 <= z <= 90) then z - 55
    else radix in
  if decide (d < radix) then Some d else None.

Definition empty_integer : message := [Txt "cannot parse integer from empty string"].
Definition invalid_digit : message := [Txt "invalid digit found in string"].
Definition too_large : message := [Txt "number too large to fit in target type"].

Fixpoint parse_digits (radix w acc : Z) (ds : list byte) : outcome message Z :=
  match ds with
  | [] => Ok acc
  | b :: ds' =>
    match to_digit radix b with
    | None => Err invalid_digit
    | Some d =>
      if decide (acc * radix + d < 2 ^ w) then parse_digits radix w (acc * radix + d) ds'
      else Err too_large
    end
  end.

(** [uN::from_str_radix], and [str::parse] in base ten, for an unsigned type
    of [w] bits; the error is its text. *)
Definition from_str_radix (radix w : Z) (s : list byte) : outcome message Z :=
  match s with
  | [] => Err empty_integer
  | b :: ds =>
    if decide (b = byte.of_Z 43 (* + *))
    then match ds with [] => Err invalid_digit | _ => parse_digits radix w 0 ds end
    else parse_digits radix w 0 s
  end.

(** *** Hexadecimal *)

(** [{:02x}] *)
Definition hex2 (b : byte) : list byte :=
  let ds := show 16 (byte.unsigned b) in
  replicate (2 - length ds) (byte.of_Z 48) ++ ds.

(** *** Specification *)

Definition ascii (s : list byte) : Prop := Forall (fun b => byte.unsigned b < 128) s.

(** A word: text with a character, and none of them white space. *)
Definition word (s : list byte) : Prop :=
  s <> [] /\ exists cs, utf8_decode s = Some cs /\ Forall (fun c => is_whitespace c = false) cs.

(** Words with one space between each two. *)
Fixpoint spaced (ws : list (list byte)) : list byte :=
  match ws with
  | [] => []
  | [w] => w
  | w :: ws' => w ++ byte.of_Z 32 :: spaced ws'
  end.

(** ** Lemmas *)

(** *** Characters *)

Lemma unsigned_of_Z_small z : 0 <= z < 256 -> byte.unsigned (byte.of_Z z) = z.
Proof. intros. rewrite byte.unsigned_of_Z. unfold byte.wrap. by rewrite Z.mod_small. Qed.

Ltac div64 c :=
  pose proof (Z.div_mod c 64 ltac:(lia)); pose proof (Z.mod_pos_bound c 64 ltac:(lia)).

Lemma continuation_of_Z z : 0 <= z < 64 -> continuation (byte.of_Z (128 + z)) = Some z.
Proof.
  intros. unfold continuation. rewrite unsigned_of_Z_small by lia.
  rewrite decide_True by lia. f_equal. lia.
Qed.

(** Decoding reads back what was encoded. *)
Lemma decode_encode c rest :
  scalar c -> utf8_decode (utf8_encode c ++ rest) = cons c <$> utf8_decode rest.
Proof.
  intros Hc. unfold scalar in Hc. unfold utf8_encode. div64 c. div64 (c / 64). div64 (c / 64 / 64).
  rewrite (Z.div_div c 64 64) in * by lia. change (64 * 64) with 4096 in *.
  rewrite (Z.div_div c 4096 64) in * by lia. change (4096 * 64) with 262144 in *.
  repeat case_decide; cbn [app utf8_decode]; rewrite unsigned_of_Z_small by lia.
  - by rewrite decide_True by lia.
  - rewrite decide_False by lia. rewrite continuation_of_Z by lia. cbn [mbind option_bind].
    rewrite decide_True by lia. f_equal. f_equal. lia.
  - rewrite decide_False by lia. rewrite !continuation_of_Z by lia. cbn [mbind option_bind].
    rewrite decide_False, decide_True by lia. cbn zeta. rewrite decide_True by lia.
    f_equal. f_equal. lia.
  - rewrite decide_False by lia. rewrite !continuation_of_Z by lia. cbn [mbind option_bind].
    rewrite !decide_False by lia. cbn zeta. rewrite decide_True by lia. f_equal. f_equal. lia.
Qed.

Lemma continuation_inv b c :
  continuation b = Some c -> 0 <= c < 64 /\ byte.unsigned b = 128 + c.
Proof. unfold continuation. case_decide; [|done]. intros [= <-]. lia. Qed.

Lemma byte_is b z : byte.unsigned b = z -> b = byte.of_Z z.
Proof. intros <-. symmetry. apply byte.of_Z_unsigned. Qed.

(** One step of the decoder: the first character and the bytes it is encoded
    in. *)
Lemma decode_step b bs cs :
  utf8_decode (b :: bs) = Some cs ->
  exists c cs' rest, cs = c :: cs' /\ scalar c /\ b :: bs = utf8_encode c ++ rest
    /\ utf8_decode rest = Some cs'.
Proof.
  pose proof (byte.unsigned_range b) as Hb. cbn [utf8_decode]. case_decide as H0.
  { intros (cs' & Hr & ->)%fmap_Some. exists (byte.unsigned b), cs', bs.
    unfold scalar, utf8_encode. rewrite decide_True by lia. rewrite byte.of_Z_unsigned.
    split_and!; [done|lia|done|done]. }
  destruct bs as [|b1 bs1]; [done|]. intros (c1 & Hc1 & H1)%bind_Some.
  apply continuation_inv in Hc1 as [Hc1 Hb1]. case_decide as H2.
  { apply fmap_Some in H1 as (cs' & Hr & ->). set (c := (byte.unsigned b - 192) * 64 + c1).
    exists c, cs', bs1. unfold scalar, utf8_encode. div64 c.
    rewrite decide_False, decide_True by lia. split_and!; [done|lia| |done].
    cbn [app]. f_equal; [apply byte_is; lia|]. f_equal. apply byte_is. lia. }
  destruct bs1 as [|b2 bs2]; [done|]. apply bind_Some in H1 as (c2 & Hc2 & H1).
  apply continuation_inv in Hc2 as [Hc2 Hb2]. case_decide as H3.
  { cbn zeta in H1. case_decide as H4; [|done]. apply fmap_Some in H1 as (cs' & Hr & ->).
    set (c := (byte.unsigned b - 224) * 4096 + c1 * 64 + c2) in *.
    exists c, cs', bs2. unfold scalar, utf8_encode. div64 c. div64 (c / 64).
    rewrite (Z.div_div c 64 64) in * by lia. change (64 * 64) with 4096 in *.
    rewrite !decide_False, decide_True by lia. split_and!; [done|lia| |done].
    cbn [app]. f_equal; [apply byte_is; lia|]. f_equal; [apply byte_is; lia|].
    f_equal. apply byte_is. lia. }
  destruct bs2 as [|b3 bs3]; [done|]. apply bind_Some in H1 as (c3 & Hc3 & H1).
  apply continuation_inv in Hc3 as [Hc3 Hb3]. cbn zeta in H1. case_decide as H4; [|done].
  apply fmap_Some in H1 as (cs' & Hr & ->).
  set (c := (byte.unsigned b - 240) * 262144 + c1 * 4096 + c2 * 64 + c3) in *.
  exists c, cs', bs3. unfold scalar, utf8_encode. div64 c. div64 (c / 64). div64 (c / 64 / 64).
  rewrite (Z.div_div c 64 64) in * by lia. change (64 * 64) with 4096 in *.
  rewrite (Z.div_div c 4096 64) in * by lia. change (4096 * 64) with 262144 in *.
  rewrite !decide_False by lia. split_and!; [done|lia| |done].
  cbn [app]. f_equal; [apply byte_is; lia|]. f_equal; [apply byte_is; lia|].
  f_equal; [apply byte_is; lia|]. f_equal. apply byte_is. lia.
Qed.

Lemma encode_nonempty c rest : (length rest < length (utf8_encode c ++ rest))%nat.
Proof. rewrite length_app. unfold utf8_encode. repeat case_decide; cbn; lia. Qed.

(** A string is well-formed UTF-8 exactly when it is the encoding of scalar
    values, which are then its characters. *)
Lemma utf8_decode_iff bs cs :
  utf8_decode bs = Some cs <-> Forall scalar cs /\ bs = of_chars cs.
Proof.
  split.
  - remember (length bs) as l eqn:Hl. revert bs cs Hl.
    induction l as [l IH] using lt_wf_ind. intros [|b bs] cs -> Hd.
    { cbn in Hd. injection Hd as <-. by split. }
    apply decode_step in Hd as (c & cs' & rest & -> & Hc & Hb & Hr).
    pose proof (encode_nonempty c rest) as Hlt. rewrite <- Hb in Hlt.
    destruct (IH _ Hlt rest cs' eq_refl Hr) as [Hs ->]. split; [by constructor|done].
  - intros [Hcs ->]. induction Hcs as [|c cs Hc _ IH]; [done|].
    unfold of_chars in *. cbn [fmap list_fmap concat]. by rewrite decode_encode, IH.
Qed.

Lemma of_chars_app a b : of_chars (a ++ b) = of_chars a ++ of_chars b.
Proof. unfold of_chars. by rewrite fmap_app, concat_app. Qed.

Lemma utf8_app a b ca cb :
  utf8_decode a = Some ca -> utf8_decode b = Some cb -> utf8_decode (a ++ b) = Some (ca ++ cb).
Proof.
  rewrite !utf8_decode_iff. intros [Ha ->] [Hb ->]. split; [by apply Forall_app|].
  by rewrite of_chars_app.
Qed.

Lemma chars_Some s cs : utf8_decode s = Some cs -> chars s = cs.
Proof. unfold chars. by intros ->. Qed.

Lemma of_chars_chars s : is_Some (utf8_decode s) -> of_chars (chars s) = s.
Proof. intros [cs Hd]. unfold chars. rewrite Hd. by apply utf8_decode_iff in Hd as [_ ->]. Qed.

(** ASCII text is its own characters. *)
Lemma utf8_ascii s : ascii s -> utf8_decode s = Some (byte.unsigned <$> s).
Proof.
  induction 1 as [|b s Hb _ IH]; [done|]. cbn [utf8_decode]. by rewrite decide_True, IH by done.
Qed.

(** *** Words *)

Lemma split_by_none {A} (P : A -> bool) l :
  Forall (fun a => P a = false) l -> split_by P l = [l].
Proof. induction 1 as [|a l Ha _ IH]; cbn; [done|]. by rewrite Ha, IH. Qed.

Lemma split_by_at {A} (P : A -> bool) l a l' :
  Forall (fun a => P a = false) l -> P a = true ->
  split_by P (l ++ a :: l') = l :: split_by P l'.
Proof.
  intros Hl Ha. induction Hl as [|x l Hx _ IH]; cbn; [by rewrite Ha|]. by rewrite Hx, IH.
Qed.

Lemma spaced_chars ws :
  Forall word ws -> is_Some (utf8_decode (spaced ws))
  /\ filter (fun w => w <> []) (split_by is_whitespace (chars (spaced ws))) = chars <$> ws.
Proof.
  assert (Hne : forall w cs, w <> [] -> utf8_decode w = Some cs -> cs <> []).
  { intros w cs Hw Hd ->. by apply utf8_decode_iff in Hd as [_ ->]. }
  induction 1 as [|w ws (Hw & cs & Hd & Hcs) Hws IH].
  { split; [by eexists|done]. }
  cbn [fmap list_fmap]. destruct ws as [|w' ws].
  - cbn [spaced]. rewrite (chars_Some _ _ Hd). split; [by eexists|].
    rewrite split_by_none, filter_cons_True by (done || by eapply Hne). done.
  - change (spaced (w :: w' :: ws)) with (w ++ [byte.of_Z 32] ++ spaced (w' :: ws)).
    destruct IH as [[cs' Hd'] IH]. rewrite (chars_Some _ _ Hd') in IH.
    pose proof (utf8_app [byte.of_Z 32] _ [32] cs' eq_refl Hd') as Hs.
    pose proof (utf8_app _ _ _ _ Hd Hs) as Hs2. split; [by eexists|].
    rewrite (chars_Some _ _ Hs2), (chars_Some _ _ Hd). cbn [app].
    rewrite split_by_at, filter_cons_True by (done || by eapply Hne). by rewrite IH.
Qed.

(** Splitting spaced words gives them back. *)
Lemma split_spaced ws : Forall word ws -> split_whitespace (spaced ws) = ws.
Proof.
  intros Hws. unfold split_whitespace. destruct (spaced_chars ws Hws) as [_ ->].
  rewrite <- list_fmap_compose. rewrite <- (list_fmap_id ws) at 2. apply list_fmap_ext.
  intros i w Hi. cbn. apply of_chars_chars. rewrite Forall_lookup in Hws.
  destruct (Hws i w Hi) as (_ & cs & -> & _). by eexists.
Qed.

(** A printed line of words is trimmed already. *)
Lemma spaced_ends ws :
  Forall word ws -> ws <> [] ->
  exists c l l' c', utf8_decode (spaced ws) = Some (c :: l) /\ c :: l = l' ++ [c']
    /\ is_whitespace c = false /\ is_whitespace c' = false.
Proof.
  induction 1 as [|w ws (Hw & cs & Hd & Hcs) Hws IH]; [done|]. intros _.
  assert (Hne : cs <> []) by (intros ->; by apply utf8_decode_iff in Hd as [_ ->]).
  destruct cs as [|c cs]; [done|]. assert (Hc : is_whitespace c = false) by by inversion Hcs.
  destruct ws as [|w' ws].
  - destruct (exists_last Hne) as (l' & c' & Hl). exists c, cs, l', c'. split_and!; [done..|].
    rewrite Hl in Hcs. apply Forall_app in Hcs as [_ Hx]. by inversion Hx.
  - destruct IH as (d & l & l' & c' & Hs & Hl & _ & Hc'); [done|].
    change (spaced (w :: w' :: ws)) with (w ++ [byte.of_Z 32] ++ spaced (w' :: ws)).
    exists c, (cs ++ 32 :: d :: l), ((c :: cs) ++ 32 :: l'), c'. split_and!; [|by rewrite Hl, <- app_assoc|done..].
    apply (utf8_app _ _ _ _ Hd). by apply (utf8_app [byte.of_Z 32] _ [32]).
Qed.

Lemma trim_spaced ws : Forall word ws -> trim (spaced ws) = spaced ws.
Proof.
  intros Hws. destruct (decide (ws = [])) as [->|Hne]; [done|].
  destruct (spaced_ends ws Hws Hne) as (c & l & l' & c' & Hd & Hl & Hc & Hc').
  unfold trim. rewrite (chars_Some _ _ Hd). cbn [drop_while]. rewrite Hc, Hl, reverse_app.
  cbn [reverse app drop_while]. change (reverse [c']) with [c']. cbn [app drop_while]. rewrite Hc'.
  change (c' :: reverse l') with ([c'] ++ reverse l').
  rewrite reverse_app, reverse_involutive. change (reverse [c']) with [c']. rewrite <- Hl.
  by apply utf8_decode_iff in Hd as [_ ->].
Qed.

(** *** Lines *)

Lemma split_at sep a b : sep ∉ a -> split sep (a ++ sep :: b) = a :: split sep b.
Proof.
  induction a as [|x a IH]; intros Hn; cbn; [by rewrite decide_True|].
  apply not_elem_of_cons in Hn as [Hx Ha]. rewrite decide_False, IH by done. done.
Qed.

(** Lines that were written one by one are read back. *)
Lemma lines_written ls :
  Forall (fun l => (newline ∉ l) /\ last l <> Some carriage_return) ls ->
  lines (concat ((fun l => l ++ [newline]) <$> ls)) = ls.
Proof.
  unfold lines. induction 1 as [|l ls [Hn Hc] Hls IH]; [done|].
  cbn [fmap list_fmap concat]. rewrite <- app_assoc. cbn [app]. rewrite split_at by done.
  pose proof (split_nonempty newline (concat ((fun l => l ++ [newline]) <$> ls))) as Hne.
  destruct (split newline _) as [|p ps]; [done|]. cbn [terminated]. unfold chomp.
  rewrite decide_False by done. by f_equal.
Qed.

(** *** Integers *)

Lemma to_digit_of radix d :
  0 <= d < radix -> radix <= 16 ->
  to_digit radix (byte.of_Z (if decide (d < 10) then 48 + d else 87 + d)) = Some d.
Proof.
  intros Hd Hr. unfold to_digit. destruct (decide (d < 10)); rewrite unsigned_of_Z_small by lia.
  - rewrite (decide_True (P := 48 <= 48 + d <= 57)), decide_True by lia. f_equal. lia.
  - rewrite (decide_False (P := 48 <= 87 + d <= 57)), (decide_True (P := 97 <= 87 + d <= 122)),
      decide_True by lia. f_equal. lia.
Qed.

(** Reading back the digits of a number. *)
Lemma parse_printed_digits fuel b w z acc :
  2 <= b <= 16 -> 0 <= z < b ^ Z.of_nat fuel -> z < 2 ^ w ->
  parse_digits b w 0 (digits fuel b z acc) = parse_digits b w z acc.
Proof.
  intros Hb. revert z acc. induction fuel as [|fuel IH]; intros z acc Hz Hw.
  { change (Z.of_nat 0) with 0 in Hz. rewrite Z.pow_0_r in Hz. by replace z with 0 by lia. }
  pose proof (Z.mod_pos_bound z b ltac:(lia)) as Hm. pose proof (Z.div_mod z b ltac:(lia)) as Hdm.
  cbn [digits]. case_decide as Hlt.
  - rewrite Z.mod_small by lia. cbn [parse_digits]. rewrite to_digit_of by lia.
    by rewrite decide_True by lia.
  - rewrite Nat2Z.inj_succ, Z.pow_succ_r in Hz by lia.
    assert (0 <= z / b) by (apply Z.div_pos; lia).
    rewrite IH; [|split; [done|apply Z.div_lt_upper_bound; lia]|nia].
    cbn [parse_digits]. rewrite to_digit_of by lia. rewrite decide_True by lia. f_equal. lia.
Qed.

Lemma digits_printable fuel b z acc :
  2 <= b <= 16 -> 0 <= z -> Forall (fun c => 48 <= byte.unsigned c < 128) acc ->
  Forall (fun c => 48 <= byte.unsigned c < 128) (digits fuel b z acc).
Proof.
  intros Hb. revert z acc. induction fuel as [|fuel IH]; intros z acc Hz Hacc; [done|].
  pose proof (Z.mod_pos_bound z b ltac:(lia)) as Hm.
  assert (Forall (fun c => 48 <= byte.unsigned c < 128)
    (byte.of_Z (if decide (z mod b < 10) then 48 + z mod b else 87 + z mod b) :: acc)).
  { constructor; [|done]. case_decide; rewrite unsigned_of_Z_small; lia. }
  cbn [digits]. destruct (decide (z < b)); [done|]. apply IH; [|done]. apply Z.div_pos; lia.
Qed.

Lemma show_printable b z :
  2 <= b <= 16 -> 0 <= z -> Forall (fun c => 48 <= byte.unsigned c < 128) (show b z).
Proof. intros. apply digits_printable; [done|done|constructor]. Qed.

(** Printing a number and parsing it. *)
Lemma from_str_radix_show b w z :
  2 <= b <= 16 -> 0 <= z < 2 ^ w -> from_str_radix b w (show b z) = Ok z.
Proof.
  intros Hb Hz. pose proof (show_nonempty b z) as Hne.
  pose proof (show_printable b z Hb (proj1 Hz)) as Hp.
  assert (Hparse : parse_digits b w 0 (show b z) = Ok z).
  { unfold show. rewrite parse_printed_digits; [done|done| |lia].
    split; [lia|]. rewrite Nat2Z.inj_succ, Z2Nat.id by apply Z.log2_nonneg.
    destruct (decide (z = 0)) as [->|]; [apply Z.pow_pos_nonneg; [lia|]; pose proof (Z.log2_nonneg 0); lia|].
    apply Z.lt_le_trans with (2 ^ Z.succ (Z.log2 z)); [apply Z.log2_spec; lia|].
    apply Z.pow_le_mono_l. lia. }
  unfold from_str_radix. destruct (show b z) as [|c ds]; [done|].
  rewrite decide_False; [done|]. intros ->. inversion Hp as [|? ? Hc]. vm_compute in Hc.
  destruct Hc as [[] _]. done.
Qed.

(** *** Hexadecimal *)

Lemma length_hex2 b : length (hex2 b) = 2%nat.
Proof. by destruct b. Qed.

Lemma hex2_printable b : Forall (fun c => 48 <= byte.unsigned c < 128) (hex2 b).
Proof.
  assert (Hall : forall b, forallb (fun c => bool_decide (48 <= byte.unsigned c < 128)) (hex2 b) = true)
    by (intros []; vm_compute; reflexivity).
  specialize (Hall b). rewrite forallb_forall in Hall. apply Forall_forall. intros c Hc.
  apply list_elem_of_In, Hall in Hc. by apply bool_decide_eq_true in Hc.
Qed.

Lemma from_str_radix_hex2 b : from_str_radix 16 8 (hex2 b) = Ok (byte.unsigned b).
Proof. by destruct b. Qed.
