(* ===== verification/Vectors.v ===== *)
(** * Golden vectors (proto/vectors.json)

    The wire formats' published vectors, and what the serializers and parsers
    make of them. The vectors of the chunker are in ChunkerTests. *)

From S2P Require Import Prelude Errors Crc32c Primitives Instances Frame Digest Session Bitmap.
From S2P Require Import Utf8 Manifest Resume Display Text.

(** ** Definitions *)

(** The bytes of a string of hexadecimal digits. *)
Fixpoint pairs (ds : list byte) : list byte :=
  match ds with
  | a :: b :: ds' =>
    match from_str_radix 16 8 [a; b] with Ok z => byte.of_Z z :: pairs ds' | _ => [] end
  | _ => []
  end.

Definition hex (s : string) : list byte := pairs (text s).

(** The session identifier and the digest all the vectors share. *)
Definition session_id : list byte := hex "000102030405060708090a0b0c0d0e0f".
Definition digest_aa : list byte := replicate 32 (byte.of_Z 170).

(** *** frame_header_v1 *)

Definition frame_header : FrameHeader :=
  {| fh_magic := MAGIC; fh_version := VERSION; fh_frame_type := FRepair; fh_reserved := 0;
     fh_session_id := session_id; fh_truncated_mac := hex "0001020304050607"; fh_block_index := 1;
     fh_symbol_index := 2; fh_payload_length := 255; fh_crc32c := 2303968386 |}.

Definition frame_payload : list byte := (fun i => byte.of_Z (Z.of_nat i)) <$> seq 0 255.

Definition frame_header_v1 : list byte :=
  hex "44484f5701010000000102030405060708090a0b0c0d0e0f00010203040506070100000002000000ff0082c4"
    ++ hex "5389".

(** *** session_header_v1 *)

Definition session_params : SessionParams :=
  {| payload_size := 4096; block_count := 4; symbol_size := 256; source_symbols_per_block := 16;
     total_symbols_per_block := 20; raptorq := {| z := 4; n := 1; psi := 16 |};
     payload_digest := digest_aa |}.

Definition session_header_v1 : list byte :=
  hex "4453455301000000000102030405060708090a0b0c0d0e0f0010000000000000040000000001000010000000"
    ++ hex "1400000004000000010000001000aaaaaaaaaaaaaaaaaaaaaaaaaaaaaaaaaaaaaaaaaaaaaaaaaaaaaaaaaaaa"
    ++ hex "aaaa00000000000000000000000000000000000000000000000000000000000000004f19ac4f".

(** *** manifest_file_entry_v2 and full_manifest_v2 *)

Definition file_entry : FileEntry := with_mode (text "test/file.txt") 256 digest_aa true.

Definition manifest_file_entry_v2 : list byte :=
  hex "0d00746573742f66696c652e7478740001000000000000aaaaaaaaaaaaaaaaaaaaaaaaaaaaaaaaaaaaaaaaaa"
    ++ hex "aaaaaaaaaaaaaaaaaaaaaa01".

Definition manifest_params : SessionParams :=
  {| payload_size := 65536; block_count := 4; symbol_size := 256; source_symbols_per_block := 64;
     total_symbols_per_block := 96; raptorq := {| z := 1; n := 1; psi := 1 |};
     payload_digest := digest_aa |}.

Definition manifest_entries : list FileEntry :=
  [FileEntry_new (text "file1.txt") 4096 digest_aa;
   with_mode (text "file2.txt") 4096 digest_aa true].

Definition manifest : Manifest :=
  Manifest_build (ManifestHeader_new session_id manifest_entries 8192
      (hex "404142434445464748494a4b4c4d4e4f505152535455565758595a5b5c5d5e5f")
      (hex "808182838485868788898a8b8c8d8e8f9091929394959697") manifest_params)
    manifest_entries (replicate 64 (byte.of_Z 187)).

Definition full_manifest_v2 : list byte :=
  hex "44484d4602000000000102030405060708090a0b0c0d0e0f020000000020000000000000aaaaaaaaaaaaaaaa"
    ++ hex "aaaaaaaaaaaaaaaaaaaaaaaaaaaaaaaaaaaaaaaaaaaaaaaa404142434445464748494a4b4c4d4e4f50515253"
    ++ hex "5455565758595a5b5c5d5e5f808182838485868788898a8b8c8d8e8f90919293949596970000010000000000"
    ++ hex "04000000000100004000000060000000010000000100000001000000bb4ebe51bbbbbbbbbbbbbbbbbbbbbbbb"
    ++ hex "bbbbbbbbbbbbbbbbbbbbbbbbbbbbbbbbbbbbbbbbbbbbbbbbbbbbbbbbbbbbbbbbbbbbbbbbbbbbbbbbbbbbbbbb"
    ++ hex "bbbbbbbbbbbbbbbb090066696c65312e7478740010000000000000aaaaaaaaaaaaaaaaaaaaaaaaaaaaaaaaaa"
    ++ hex "aaaaaaaaaaaaaaaaaaaaaaaaaaaaaa00090066696c65322e7478740010000000000000aaaaaaaaaaaaaaaaaa"
    ++ hex "aaaaaaaaaaaaaaaaaaaaaaaaaaaaaaaaaaaaaaaaaaaaaa01".

(** *** resume_block_entry_v2 and full_resume_v2 *)

Definition block_entry : BlockEntry := BlockEntry_new 1 20 16 (hex "ffff00").

Definition resume_block_entry_v2 : list byte := hex "010000001400000010000000ffff00".

Definition resume_entries : list BlockEntry :=
  [BlockEntry_new 0 20 16 (hex "ffff00"); BlockEntry_new 1 20 16 (hex "ffff00");
   BlockEntry_new 2 20 0 (hex "000000"); BlockEntry_new 3 20 0 (hex "000000")].

Definition resume_file `{Blake3} : ResumeFile :=
  ResumeFile_new session_id 10000
    (hex "84453a29cc9e0c43ee618c5ce19982caf875a0ce4fb361b1fa22d13910ffd505")
    resume_entries.

Definition full_resume_v2 : list byte :=
  hex "4448525302000000000102030405060708090a0b0c0d0e0f04000000102700000000000084453a29cc9e0c43"
    ++ hex "ee618c5ce19982caf875a0ce4fb361b1fa22d13910ffd5050000000000000000000000000000000000000000"
    ++ hex "00000000cc06da31e4e127d8e120770725839a2d0b497793b7f43d8610ac58d24b100d31d0b71ef500000000"
    ++ hex "1400000010000000ffff00010000001400000010000000ffff00020000001400000000000000000000030000"
    ++ hex "001400000000000000000000".

(** ** Lemmas *)

Lemma manifest_vector :
  Manifest_to_vec manifest = full_manifest_v2 /\ Manifest_from_bytes full_manifest_v2 = Ok manifest.
Proof. vm_compute. split; reflexivity. Qed.

(** The published vectors. The serializers turn the inputs of each vector of
    proto/vectors.json into exactly the bytes it lists, and the parsers turn
    those bytes back into the inputs: the frame header with the checksum of its
    payload, the file entry, the manifest header and the manifest with two
    files, and the resume block entry; the resume file is the vector with the
    digest of its first 96 bytes in the integrity field. The session header is
    the exception: the serializer writes the vector's first 122 bytes, but the
    vector's checksum covers the magic (as proto/session.md says) and the
    code's does not, so the parser rejects the published session header. *)
Lemma vectors_agree `{Blake3} :
  (FrameHeader_to_vec frame_header = frame_header_v1
   /\ FrameHeader_from_bytes frame_header_v1 = Ok frame_header
   /\ crc32c_digest frame_payload = fh_crc32c frame_header)
  /\ (let h := SessionHeader_new session_id session_params in
      SessionHeader_to_vec h
      = take 122 session_header_v1 ++ to_le 4 (crc32c_digest (drop 4 (take 122 session_header_v1)))
      /\ drop 122 session_header_v1 = to_le 4 (crc32c_digest (take 122 session_header_v1))
      /\ SessionHeader_from_bytes (SessionHeader_to_vec h) = Ok h
      /\ SessionHeader_from_bytes session_header_v1
         = Err (Sess.InvalidParameters [Txt "CRC32C mismatch: expected "; HexNum 8 1785101020;
             Txt ", got "; HexNum 8 1336678735]))
  /\ (FileEntry_to_vec file_entry = manifest_file_entry_v2
      /\ FileEntry_from_bytes manifest_file_entry_v2 = Ok (file_entry, 56%nat))
  /\ (Manifest_to_vec manifest = full_manifest_v2
      /\ Manifest_from_bytes full_manifest_v2 = Ok manifest
      /\ mh_crc32c (header manifest) = 1371426491)
  /\ (BlockEntry_to_vec block_entry = resume_block_entry_v2
      /\ BlockEntry_from_bytes true resume_block_entry_v2 = Ok (block_entry, 15%nat))
  /\ (ResumeFile_to_vec resume_file
       = take 96 full_resume_v2 ++ blake3_digest (take 96 full_resume_v2)
         ++ drop 128 full_resume_v2
      /\ rh_crc32c (rf_header resume_file) = 836372172).
Proof.
  split; [split; [|split]; vm_compute; reflexivity|].
  split; [split; [|split; [|split]]; vm_compute; reflexivity|].
  split; [split; vm_compute; reflexivity|].
  split; [destruct manifest_vector; split; [done|split; [done|vm_compute; reflexivity]]|].
  split; [split; vm_compute; reflexivity|]. split; vm_compute; reflexivity.
Qed.
