(* ===== verification/CapacityTable.v ===== *)
(** * The QR capacity table (dhow-codec/examples/gen_capacity.rs)

    The generator of the committed table: one row for each version, with the
    capacity and the largest symbol size at each error-correction level. *)

From S2P Require Import Prelude Harness Frame Primitives Instances Qr Errors Display Text.
From Stdlib Require Strings.String.

(** ** Definitions *)

Section table.
Context `{Qrcodegen}.

Definition symbol_cell (sym : option Z) : message :=
  match sym with Some s => [Dec s] | None => [Txt "-"] end.

(** The two cells of a level. *)
Definition cells (v : Z) (ecc : Ecc) : outcome Empty_set message :=
  cap ← expect (capacity v ecc);
  sym ← expect (max_symbol_size v ecc);
  Ok (Txt " " :: Dec cap :: Txt " | " :: symbol_cell sym ++ [Txt " |"]).

Definition levels : list Ecc := [Low; Medium; Quartile; High].

(** The body of the loop over the versions. *)
Definition row (v : Z) : outcome Empty_set message :=
  let modules := 17 + 4 * v in
  cs ← traverse (cells v) levels;
  Ok (Txt "| " :: Dec v :: Txt " | " :: Dec modules :: Txt " |" :: concat cs).

Definition preamble : list message := [
  [Txt "# QR Capacity Table"];
  [];
  [Txt "> GENERATED FILE. Do not edit by hand."];
  [Txt "> Regenerate with `scripts/gen_qr_capacity.sh`."];
  [];
  [Txt "Bytes that fit in one QR code, and the largest codec symbol size that"];
  [Txt "leaves room for a 46-byte frame header and a 4-byte RaptorQ payload"];
  [Txt "identifier. Measured against the encoder, not transcribed from the"];
  [Txt "specification: a hand-copied table can be optimistic by a byte, and that"];
  [Txt "fails only for the frames that fill a version exactly."];
  [];
  [Txt "A dash means the version is too small to hold even a frame header."];
  [];
  [Txt "| Version | Modules | L bytes | L symbol | M bytes | M symbol | Q bytes | Q symbol | H bytes | H symbol |"];
  [Txt "|--------:|--------:|--------:|---------:|--------:|---------:|--------:|---------:|--------:|---------:|"]].

(** [main]: the lines it prints. *)
Definition table : outcome Empty_set (list message) :=
  rows ← traverse row (Z.of_nat <$> seq (Z.to_nat MIN_VERSION) (Z.to_nat MAX_VERSION));
  Ok (preamble ++ rows).

(** The bytes on the standard output. *)
Definition printed (ls : list message) : list byte :=
  concat ((fun l => render l ++ [Text.newline]) <$> ls).

(** *** Specification *)

(** What a level of a row says: [c] bytes encode and no more do, and [sym] is
    the largest symbol whose frame encodes, if one does. *)
Record level_is (v : Z) (e : Ecc) (c : Z) (sym : option Z) : Prop := {
  lv_capacity data : len data <= c <-> exists q, encode_at data v e = Ok q;
  lv_symbol s : 0 < s ->
    (exists m, sym = Some m /\ s <= m)
    <-> forall frame, len frame = FRAME_OVERHEAD + s -> exists q, encode_at frame v e = Ok q;
}.

(** The row of a version, from what each level says. *)
Definition row_of (v : Z) (ls : list (Z * option Z)) : message :=
  Txt "| " :: Dec v :: Txt " | " :: Dec (17 + 4 * v) :: Txt " |" ::
  concat ((fun '(c, sym) => Txt " " :: Dec c :: Txt " | " :: symbol_cell sym ++ [Txt " |"]) <$> ls).

Definition row_spec (v : Z) (l : message) : Prop :=
  exists ls, l = row_of v ls /\ Forall2 (fun e x => level_is v e x.1 x.2) levels ls.

End table.

(** ** Lemmas *)

Section rows.
Context `{QrcodegenLaws}.

(** The capacity and the symbol size of a level, and what they mean. *)
Lemma level_spec v e :
  1 <= v <= 40 ->
  exists c sym, capacity v e = Ok c /\ max_symbol_size v e = Ok sym /\ level_is v e c sym.
Proof.
  intros Hv. destruct (capacity_spec v e Hv) as (c & Hc & Hr & _).
  assert (Hcap : forall data, len data <= c <-> exists q, encode_at data v e = Ok q).
  { intros data. destruct (encode_at_spec data v e c Hv Hc) as [[? ?]|[? He]]; [done|].
    rewrite He. split; [lia|]. by intros []. }
  eexists c, _. split; [done|]. unfold max_symbol_size. rewrite Hc. cbn [mbind outcome_bind].
  change FRAME_OVERHEAD with 50. split.
  { instantiate (1 := if decide (c <= 50) then None else Some (c - 50)).
    case_decide; [done|]. by rewrite as_u_id by (unfold urange; lia). }
  split; [done|]. change FRAME_OVERHEAD with 50. intros s Hs.
  assert (Hfr : (forall frame, len frame = 50 + s -> exists q, encode_at frame v e = Ok q)
    <-> 50 + s <= c).
  { split.
    - intros Hall. specialize (Hall (zeros (Z.to_nat (50 + s)))). rewrite <- Hcap in Hall.
      rewrite (zeros_len (A := unit)) in Hall. lia.
    - intros Hle frame Hl. apply Hcap. lia. }
  rewrite Hfr. case_decide; split.
  - by intros (? & ? & _).
  - lia.
  - intros (m & [= <-] & ?). lia.
  - intros. eexists. split; [done|lia].
Qed.

Lemma row_Ok v : 1 <= v <= 40 -> exists l, row v = Ok l /\ row_spec v l.
Proof.
  intros Hv.
  assert (Hc : forall es, exists ls, Forall2 (fun e x => level_is v e x.1 x.2) es ls
    /\ traverse (cells v) es = Ok ((fun '(c, sym) =>
         Txt " " :: Dec c :: Txt " | " :: symbol_cell sym ++ [Txt " |"]) <$> ls)).
  { induction es as [|e es (ls & Hls & Ht)]; [by exists []|].
    destruct (level_spec v e Hv) as (c & sym & Hcap & Hsym & Hlv).
    assert (Hce : cells v e = Ok (Txt " " :: Dec c :: Txt " | " :: symbol_cell sym ++ [Txt " |"]))
      by (unfold cells; by rewrite Hcap, Hsym).
    exists ((c, sym) :: ls). split; [by constructor|]. cbn [traverse]. by rewrite Hce, Ht. }
  destruct (Hc levels) as (ls & Hls & Ht). unfold row. rewrite Ht. cbn [mbind outcome_bind].
  eexists. split; [done|]. by exists ls.
Qed.

End rows.

(** ** Properties *)

(** C40: the generator of the capacity table never fails, and the table is
    right: after its preamble it has one row for each of the forty versions in
    order, whose cells say for each level how many bytes encode at that version
    and level, exactly, and the largest symbol whose whole frame encodes, or a
    dash when not even a symbol of one byte does. *)
Theorem capacity_table `{QrcodegenLaws} :
  exists rows, table = Ok (preamble ++ rows)
    /\ Forall2 row_spec (Z.of_nat <$> seq 1 40) rows.
Proof.
  assert (Hrows : forall vs, Forall (fun v => 1 <= v <= 40) vs ->
    exists rows, traverse row vs = Ok rows /\ Forall2 row_spec vs rows).
  { induction 1 as [|v vs Hv _ (rows & Ht & Hr)]; [by exists []|].
    destruct (row_Ok v Hv) as (l & Hl & Hs). exists (l :: rows). cbn [traverse].
    rewrite Hl, Ht. split; [done|by constructor]. }
  destruct (Hrows (Z.of_nat <$> seq 1 40)) as (rows & Ht & Hr).
  { apply Forall_fmap, Forall_seq. cbn. lia. }
  exists rows. unfold table. change (Z.to_nat MIN_VERSION) with 1%nat.
  change (Z.to_nat MAX_VERSION) with 40%nat. rewrite Ht. done.
Qed.

Lemma capacity_table_witness :
  exists rows, table = Ok (preamble ++ rows)
    /\ Forall2 row_spec (Z.of_nat <$> seq 1 40) rows.
Proof. exact capacity_table. Defined.
