(* ===== verification/Kdf.v ===== *)
(** * Key derivation (dhow-crypt/src/kdf.rs)

    HKDF with BLAKE3's keyed hash as its pseudorandom function, and the
    RFC 5869 description it is compared with. *)

From S2P Require Import Prelude Primitives Instances CryptErrors.
From Stdlib Require Strings.String.

(** ** Definitions *)

Definition SALT_LEN : nat := 32.
Definition MAX_OKM_LEN : Z := 255 * 32.

Definition INFO_PAYLOAD_KEY : list byte :=
  String.list_byte_of_string "dhow v1 payload encryption key".
Definition INFO_SESSION_KEY : list byte :=
  String.list_byte_of_string "dhow v1 frame session key".

(** A [Salt] wraps its 32 bytes. *)
Record Salt := { salt_bytes : list byte }.

(** [Salt::generate], [from_bytes] and [as_bytes] *)
Definition Salt_generate `{Getrandom} : action gr_state AeadError Salt := fun s =>
  match gr_fill SALT_LEN s with
  | (s', inl bytes) => (s', Ok {| salt_bytes := bytes |})
  | (s', inr e) => (s', Err (AeadErr.KeyDerivationFailed
      (Txt "system randomness unavailable: " :: e)))
  end.

Definition Salt_from_bytes (bytes : list byte) : Salt := {| salt_bytes := bytes |}.
Definition Salt_as_bytes (s : Salt) : list byte := salt_bytes s.

Section kdf.
Context `{Blake3}.

(** [extract] *)
Definition extract (salt : Salt) (ikm : list byte) : list byte :=
  b3_keyed_hash (Salt_as_bytes salt) ikm.

(** The loop of [expand], over the counters still to come: [okm] is the
    output so far and [previous] the last block. *)
Fixpoint expand_loop (prk info : list byte) (out_len : Z) (counters : list Z)
    (okm previous : list byte) : list byte :=
  match counters with
  | [] => okm
  | counter :: counters' =>
      if decide (out_len <= len okm) then okm
      else
        let hasher := b3_new_keyed prk in
        let hasher := b3_update hasher previous in
        let hasher := b3_update hasher info in
        let hasher := b3_update hasher [byte.of_Z counter] in
        let block := b3_finalize hasher in
        let n := Z.min (out_len - len okm) (len block) in
        expand_loop prk info out_len counters' (okm ++ take (Z.to_nat n) block) block
  end.

(** [expand]; the counters are [1u8..=255]. *)
Definition expand (prk info : list byte) (out_len : Z) : outcome AeadError (list byte) :=
  if decide (MAX_OKM_LEN < out_len)
  then Err (AeadErr.KeyDerivationFailed
    [Txt "requested "; Dec out_len; Txt " bytes, maximum is "; Dec MAX_OKM_LEN])
  else Ok (expand_loop prk info out_len (Z.of_nat <$> seq 1 255) [] []).

(** [derive] and [derive_key]; [copy_from_slice] panics when the lengths
    differ. *)
Definition derive (salt : Salt) (ikm info : list byte) (out_len : Z)
    : outcome AeadError (list byte) :=
  expand (extract salt ikm) info out_len.

Definition derive_key (salt : Salt) (ikm info : list byte) : outcome AeadError (list byte) :=
  bytes ← derive salt ikm info 32;
  if decide (length bytes = 32%nat) then Ok bytes else Panic.

(** RFC 5869: [T(0)] is empty, [T(i) = PRF(PRK, T(i-1) | info | i)], and the
    output is the first [L] bytes of [T(1) | ... | T(N)] for [N] blocks that
    suffice. *)
Fixpoint hkdf_T (prk info : list byte) (i : nat) : list byte :=
  match i with
  | O => []
  | S i' => b3_keyed_hash prk (hkdf_T prk info i' ++ info ++ [byte.of_Z (Z.of_nat i)])
  end.

Definition hkdf_blocks (prk info : list byte) (n : nat) : list byte :=
  concat (hkdf_T prk info <$> seq 1 n).

Definition hkdf (prk info : list byte) (l : Z) : list byte :=
  take (Z.to_nat l) (hkdf_blocks prk info (Z.to_nat (div_ceil l 32))).

End kdf.

(** ** Lemmas *)

Section laws.
Context `{Blake3Laws}.

Lemma length_hkdf_T prk info i : (0 < i)%nat -> length (hkdf_T prk info i) = 32%nat.
Proof. destruct i; [lia|]. intros _. apply b3_keyed_hash_length. Qed.

(** A block as the loop computes it. *)
Lemma hkdf_T_streams prk info previous c :
  b3_finalize (b3_update (b3_update (b3_update (b3_new_keyed prk) previous) info) [c])
  = b3_keyed_hash prk (previous ++ info ++ [c]).
Proof. apply (b3_streaming_keyed prk [previous; info; [c]]). Qed.

Lemma hkdf_blocks_S prk info n :
  hkdf_blocks prk info (S n) = hkdf_blocks prk info n ++ hkdf_T prk info (S n).
Proof.
  unfold hkdf_blocks. rewrite seq_S, fmap_app, concat_app. cbn. by rewrite app_nil_r.
Qed.

Lemma length_hkdf_blocks prk info n : length (hkdf_blocks prk info n) = (32 * n)%nat.
Proof.
  induction n as [|n IH]; [done|]. rewrite hkdf_blocks_S, length_app, IH, length_hkdf_T; lia.
Qed.

(** More blocks than needed do not change the output. *)
Lemma hkdf_enough prk info l n m :
  0 <= l <= 32 * Z.of_nat n -> (n <= m)%nat ->
  take (Z.to_nat l) (hkdf_blocks prk info m) = take (Z.to_nat l) (hkdf_blocks prk info n).
Proof.
  intros Hl. induction 1 as [|m Hm IH]; [done|].
  rewrite hkdf_blocks_S, take_app_le; [done|]. rewrite length_hkdf_blocks. lia.
Qed.

(** The loop from block [i] on. *)
Lemma expand_loop_spec prk info l k i :
  0 <= l <= 32 * Z.of_nat (i + k) ->
  expand_loop prk info l (Z.of_nat <$> seq (S i) k)
    (take (Z.to_nat l) (hkdf_blocks prk info i)) (hkdf_T prk info i)
  = take (Z.to_nat l) (hkdf_blocks prk info (i + k)).
Proof.
  revert i. induction k as [|k IH]; intros i Hl; cbn [seq fmap list_fmap expand_loop].
  { by rewrite Nat.add_0_r. }
  pose proof (length_hkdf_blocks prk info i) as Hlen. rewrite hkdf_T_streams.
  change (b3_keyed_hash prk _) with (hkdf_T prk info (S i)).
  assert (Ho : len (take (Z.to_nat l) (hkdf_blocks prk info i)) = Z.min l (32 * Z.of_nat i))
    by (unfold len; rewrite length_take; lia).
  rewrite Ho. case_decide as Hd.
  - symmetry. apply hkdf_enough; lia.
  - rewrite (take_ge (hkdf_blocks prk info i)) by lia.
    replace (i + S k)%nat with (S i + k)%nat by lia. rewrite <- IH by lia. f_equal.
    rewrite hkdf_blocks_S, take_app, (take_ge (hkdf_blocks prk info i)) by lia. f_equal.
    unfold len. rewrite length_hkdf_T, Hlen by lia.
    destruct (decide (l - Z.of_nat (32 * i) <= 32)).
    + f_equal. lia.
    + rewrite !take_ge; rewrite ?length_hkdf_T by lia; try done; lia.
Qed.

Lemma expand_hkdf prk info l :
  0 <= l <= MAX_OKM_LEN -> expand prk info l = Ok (hkdf prk info l).
Proof.
  intros Hl. unfold expand. rewrite decide_False by lia. f_equal. unfold MAX_OKM_LEN in *.
  pose proof (expand_loop_spec prk info l 255 0 ltac:(lia)) as Hloop.
  cbn [hkdf_blocks seq fmap list_fmap concat hkdf_T] in Hloop. rewrite take_nil in Hloop.
  etransitivity; [exact Hloop|]. unfold hkdf. apply hkdf_enough.
  - pose proof (div_ceil_mul l 32). lia.
  - pose proof (div_ceil_mul l 32). lia.
Qed.

Lemma length_hkdf prk info l : 0 <= l -> length (hkdf prk info l) = Z.to_nat l.
Proof.
  intros Hl. unfold hkdf. rewrite length_take, length_hkdf_blocks.
  pose proof (div_ceil_mul l 32). lia.
Qed.

(** The key [derive_key] gives: the first block. *)
Lemma derive_key_first salt ikm info :
  derive_key salt ikm info
  = Ok (b3_keyed_hash (extract salt ikm) (info ++ [Byte.x01])).
Proof.
  unfold derive_key, derive. rewrite expand_hkdf by (unfold MAX_OKM_LEN; lia).
  cbn [mbind outcome_bind]. rewrite decide_True by by rewrite length_hkdf. f_equal.
  unfold hkdf. change (Z.to_nat (div_ceil 32 32)) with 1%nat.
  unfold hkdf_blocks. cbn [seq fmap list_fmap concat hkdf_T app]. rewrite app_nil_r.
  apply take_ge. rewrite b3_keyed_hash_length. lia.
Qed.

End laws.

(** ** Properties *)

(** C26: key derivation is RFC 5869 over the keyed hash: for every output length
    up to the 255-block limit [derive] returns exactly the first bytes of
    [T(1) | T(2) | ...] under the extracted key, as many as were asked for,
    and beyond the limit it returns an error, never a truncated output. *)
Theorem kdf_is_hkdf `{Blake3Laws} salt ikm info l :
  0 <= l ->
  derive salt ikm info l
  = (if decide (l <= MAX_OKM_LEN) then Ok (hkdf (extract salt ikm) info l)
     else Err (AeadErr.KeyDerivationFailed
       [Txt "requested "; Dec l; Txt " bytes, maximum is "; Dec MAX_OKM_LEN]))
  /\ (l <= MAX_OKM_LEN -> len (hkdf (extract salt ikm) info l) = l).
Proof.
  intros Hl. unfold derive. split.
  - case_decide; [by apply expand_hkdf|]. unfold expand. by rewrite decide_True by lia.
  - intros _. unfold len. rewrite length_hkdf; lia.
Qed.

Lemma kdf_is_hkdf_witness :
  derive (Salt_from_bytes (zeros 32)) [Byte.x01] INFO_PAYLOAD_KEY 70
  = Ok (hkdf (extract (Salt_from_bytes (zeros 32)) [Byte.x01]) INFO_PAYLOAD_KEY 70).
Proof.
  assert (H70 : 0 <= 70) by lia.
  apply (proj1 (kdf_is_hkdf (Salt_from_bytes (zeros 32)) [Byte.x01] INFO_PAYLOAD_KEY 70 H70)).
Defined.
