(* ===== verification/Fs.v ===== *)
(** * The file system, as the key store uses it

    [std::fs] on Unix: files with permission bits and contents. Every call can
    fail, and a failed write may have written a part of its bytes; which calls
    fail is given by a schedule in the state. The state also records every
    file system it went through, which is what another user could have seen. *)

From S2P Require Import Prelude.
From stdpp Require Import gmap.

#[local] Open Scope Z_scope.

(** ** Definitions *)

Record File := { mode : Z; content : list byte }.

Abbreviation Files := (gmap string File).

(** Whether the next call succeeds, and what it wrote if it does not. *)
Inductive event :=
| Succeeds
| Fails (written : nat) (e : message).

Record World := {
  files : Files;
  umask : Z;
  events : list event;
  past : list Files;
}.

(** A call takes the next event; when the schedule is exhausted, calls
    succeed. *)
Definition next (w : World) : event := default Succeeds (head (events w)).

Definition elapse (w : World) : World :=
  {| files := files w; umask := umask w; events := tail (events w); past := past w |}.

(** A change of the files is seen by everyone. *)
Definition put (fs : Files) (w : World) : World :=
  {| files := fs; umask := umask w; events := events w; past := past w ++ [fs] |}.

Definition not_found : message := [Txt "No such file or directory (os error 2)"].

(** [OpenOptions::new().write(true).create(true).truncate(true).mode(m).open]:
    a file that exists is emptied and keeps its mode. *)
Definition open_create (path : string) (m : Z) : action World message unit := fun w =>
  match next w with
  | Fails _ e => (elapse w, Err e)
  | Succeeds =>
      let m' := match files w !! path with
                | Some f => mode f
                | None => Z.land m (Z.lnot (umask w))
                end in
      (put (<[path := {| mode := m'; content := [] |}]> (files w)) (elapse w), Ok tt)
  end.

(** [File::write_all] on the file just opened. *)
Definition write_all (path : string) (bytes : list byte) : action World message unit := fun w =>
  let written b :=
    match files w !! path with
    | Some f => put (<[path := {| mode := mode f; content := b |}]> (files w)) (elapse w)
    | None => elapse w
    end in
  match next w with
  | Fails n e => (written (take n bytes), Err e)
  | Succeeds => (written bytes, Ok tt)
  end.

(** [fs::set_permissions] *)
Definition set_permissions (path : string) (m : Z) : action World message unit := fun w =>
  match next w, files w !! path with
  | Fails _ e, _ => (elapse w, Err e)
  | Succeeds, None => (elapse w, Err not_found)
  | Succeeds, Some f =>
      (put (<[path := {| mode := m; content := content f |}]> (files w)) (elapse w), Ok tt)
  end.

(** [fs::metadata(path).permissions().mode()] *)
Definition metadata_mode (path : string) : action World message Z := fun w =>
  match next w, files w !! path with
  | Fails _ e, _ => (elapse w, Err e)
  | Succeeds, None => (elapse w, Err not_found)
  | Succeeds, Some f => (elapse w, Ok (mode f))
  end.

(** [fs::read] *)
Definition read (path : string) : action World message (list byte) := fun w =>
  match next w, files w !! path with
  | Fails _ e, _ => (elapse w, Err e)
  | Succeeds, None => (elapse w, Err not_found)
  | Succeeds, Some f => (elapse w, Ok (content f))
  end.

(** [fs::write] *)
Definition write (path : string) (bytes : list byte) : action World message unit :=
  _ ← open_create path 438 (* 0o666 *); write_all path bytes.

(** [map_err] on the result of a call. *)
Definition map_err_io {E F A} (f : E -> F) (m : action World E A) : action World F A := fun w =>
  let '(w', r) := m w in (w', map_err f r).

(** The modes [path] has had, and has, satisfy [P]. *)
Definition modes_seen (path : string) (P : Z -> Prop) (w : World) : Prop :=
  (forall f, files w !! path = Some f -> P (mode f))
  /\ forall fs f, fs ∈ past w -> fs !! path = Some f -> P (mode f).

(** ** Lemmas *)

Lemma map_err_io_run {E F A} (f : E -> F) (m : action World E A) w :
  map_err_io f m w = ((m w).1, map_err f (m w).2).
Proof. unfold map_err_io. by destruct (m w). Qed.

Lemma map_err_io_Ok {E F A} (f : E -> F) (m : action World E A) w w' a :
  map_err_io f m w = (w', Ok a) <-> m w = (w', Ok a).
Proof.
  rewrite map_err_io_run. destruct (m w) as [w1 [a1|e|]]; cbn; split; intros [= <-]; by subst.
Qed.

Lemma metadata_mode_Ok path w w' m :
  metadata_mode path w = (w', Ok m) ->
  w' = elapse w /\ exists f, files w !! path = Some f /\ m = mode f.
Proof.
  unfold metadata_mode. destruct (next w), (files w !! path) as [f|]; intros [= <- <-]; eauto.
Qed.

Lemma read_Ok path w w' bytes :
  read path w = (w', Ok bytes) ->
  w' = elapse w /\ exists f, files w !! path = Some f /\ bytes = content f.
Proof. unfold read. destruct (next w), (files w !! path) as [f|]; intros [= <- <-]; eauto. Qed.

Lemma next_nil w : events w = [] -> next w = Succeeds.
Proof. unfold next. by intros ->. Qed.

(** Whatever a reader does, the files stay. *)
Lemma metadata_mode_files path w : files (metadata_mode path w).1 = files w.
Proof. unfold metadata_mode. by destruct (next w), (files w !! path). Qed.

Lemma read_files path w : files (read path w).1 = files w.
Proof. unfold read. by destruct (next w), (files w !! path). Qed.

Section seen.
Variable path : string.
Variable P : Z -> Prop.

Lemma modes_seen_elapse w : modes_seen path P w -> modes_seen path P (elapse w).
Proof. done. Qed.

Lemma modes_seen_put w f :
  modes_seen path P w -> P (mode f) -> modes_seen path P (put (<[path := f]> (files w)) w).
Proof.
  intros [Hf Hp] Hm. split; cbn.
  - intros g. rewrite lookup_insert_eq. by intros [= <-].
  - intros fs g [Hin | ->%list_elem_of_singleton]%elem_of_app; [by apply Hp|].
    rewrite lookup_insert_eq. by intros [= <-].
Qed.

Lemma open_create_modes m :
  (forall u, P (Z.land m (Z.lnot u))) -> preserves (modes_seen path P) (open_create path m).
Proof.
  intros Hm w Hw. unfold open_create. destruct (next w); [|done].
  apply (modes_seen_put (elapse w)); [done|]. cbn. destruct (files w !! path) eqn:Hf; [|done].
  by apply Hw.
Qed.

Lemma write_all_modes bytes : preserves (modes_seen path P) (write_all path bytes).
Proof.
  intros w Hw. unfold write_all.
  destruct (files w !! path) eqn:Hf; destruct (next w); try done;
    (apply (modes_seen_put (elapse w)); [done|cbn; by apply (proj1 Hw)]).
Qed.

Lemma set_permissions_modes m : P m -> preserves (modes_seen path P) (set_permissions path m).
Proof.
  intros Hm w Hw. unfold set_permissions. destruct (next w), (files w !! path); try done.
  by apply (modes_seen_put (elapse w)).
Qed.

Lemma map_err_modes {E F A} (f : E -> F) (m : action World E A) :
  preserves (modes_seen path P) m -> preserves (modes_seen path P) (map_err_io f m).
Proof. intros Hm w Hw. rewrite map_err_io_run. by apply Hm. Qed.

End seen.
