(* ===== verification/Key.v ===== *)
(** * Keys and key files (dhow-crypt/src/key.rs)

    Operator and identity keys, the 72-byte key file, and saving and loading
    it with owner-only permissions (the Unix build). Zeroizing has no
    observable effect and is not modelled; constant-time equality is
    equality. *)

From S2P Require Import Prelude Primitives Instances CryptErrors Fs.
From Stdlib Require Strings.String.
From stdpp Require Import gmap.

#[local] Open Scope Z_scope.

(** ** Definitions *)

(** ASCII "DHKY" *)
Definition KEY_MAGIC : list byte := String.list_byte_of_string "DHKY".
Definition KEY_VERSION : byte := byte.of_Z 1.
Definition KEY_MATERIAL_LEN : nat := 32.
Definition KEY_FILE_SIZE : nat := 72.
Definition CHECKSUM_OFFSET : nat := 40.
(** 0o077 *)
Definition FORBIDDEN_MODE_BITS : Z := 63.

Inductive KeyKind := KIdentity | KOperator.

#[export] Instance KeyKind_dec : EqDecision KeyKind.
Proof. solve_decision. Defined.

(** [kind as u8] *)
Definition kind_u8 (k : KeyKind) : byte :=
  match k with KIdentity => byte.of_Z 1 | KOperator => byte.of_Z 2 end.

(** [KeyKind::from_u8] *)
Definition KeyKind_from_u8 (value : byte) : outcome KeyError KeyKind :=
  if decide (value = byte.of_Z 1) then Ok KIdentity
  else if decide (value = byte.of_Z 2) then Ok KOperator
  else Err (Key.InvalidKey [Txt "unknown key kind "; Dec (byte.unsigned value)]).

(** [random_bytes] *)
Definition random_bytes `{Getrandom} (n : nat) : action gr_state KeyError (list byte) := fun s =>
  match gr_fill n s with
  | (s', inl bytes) => (s', Ok bytes)
  | (s', inr e) =>
      (s', Err (Key.GenerationFailed (Txt "system randomness unavailable: " :: e)))
  end.

Record OperatorKey := { ok_bytes : list byte }.

(** [OperatorKey::generate], [from_bytes], [expose_bytes] and [eq] *)
Definition OperatorKey_generate `{Getrandom} : action gr_state KeyError OperatorKey :=
  bytes ← random_bytes KEY_MATERIAL_LEN; mret {| ok_bytes := bytes |}.

Definition OperatorKey_from_bytes (bytes : list byte) : OperatorKey := {| ok_bytes := bytes |}.
Definition expose_bytes (k : OperatorKey) : list byte := ok_bytes k.
Definition OperatorKey_eq (a b : OperatorKey) : bool := bool_decide (ok_bytes a = ok_bytes b).

Section identity.
Context `{Ed25519}.

Record IdentityKey := { signing : ed_signing_key }.
Record PublicIdentity := { verifying : ed_verifying_key }.

(** [IdentityKey::generate], [from_seed], [public], [sign], [expose_seed] *)
Definition IdentityKey_generate `{Getrandom} : action gr_state KeyError IdentityKey :=
  seed ← random_bytes 32; mret {| signing := ed_from_seed seed |}.

Definition from_seed (seed : list byte) : IdentityKey := {| signing := ed_from_seed seed |}.
Definition public (k : IdentityKey) : PublicIdentity :=
  {| verifying := ed_verifying (signing k) |}.
Definition sign (k : IdentityKey) (message : list byte) : list byte := ed_sign (signing k) message.
Definition expose_seed (k : IdentityKey) : list byte := ed_to_seed (signing k).

(** [PublicIdentity::from_bytes], [to_bytes] and [verify] *)
Definition PublicIdentity_from_bytes (bytes : list byte) : outcome KeyError PublicIdentity :=
  match ed_vk_from_bytes bytes with
  | Some verifying => Ok {| verifying := verifying |}
  | None => Err (Key.InvalidKey (Txt "not a valid Ed25519 public key: " :: ed_vk_error bytes))
  end.

Definition PublicIdentity_to_bytes (p : PublicIdentity) : list byte := ed_vk_to_bytes (verifying p).

Definition verify (p : PublicIdentity) (message signature : list byte) : bool :=
  ed_verify (verifying p) message signature.

(** [SecretKey] *)
Inductive SecretKey :=
| Identity (k : IdentityKey)
| Operator (k : OperatorKey).

End identity.

Section key_files.
Context `{Blake3} `{Ed25519}.

(** [encode_key_file] *)
Definition encode_key_file (kind : KeyKind) (material : list byte) : list byte :=
  let buf := KEY_MAGIC ++ [KEY_VERSION] ++ [kind_u8 kind] ++ zeros 2 ++ material in
  buf ++ b3_hash buf.

(** [decode_key_file] *)
Definition decode_key_file (bytes : list byte) : outcome KeyError (KeyKind * list byte) :=
  if decide (length bytes <> KEY_FILE_SIZE)
  then Err (Key.Truncated (Z.of_nat KEY_FILE_SIZE) (len bytes))
  else
    magic ← slice 0 4 bytes;
    if decide (magic <> KEY_MAGIC) then Err (Key.InvalidMagic KEY_MAGIC magic)
    else
      version ← index 4 bytes;
      if decide (version <> KEY_VERSION) then Err (Key.UnsupportedVersion version)
      else
        k ← index 5 bytes;
        kind ← KeyKind_from_u8 k;
        reserved ← slice 6 8 bytes;
        if decide (reserved <> zeros 2)
        then Err (Key.InvalidKey [Txt "reserved field must be zero"])
        else
          covered ← slice 0 CHECKSUM_OFFSET bytes;
          found ← slice CHECKSUM_OFFSET (length bytes) bytes;
          if decide (b3_hash covered <> found)
          then Err (Key.InvalidKey [Txt "key file checksum mismatch"])
          else
            material ← slice 8 CHECKSUM_OFFSET bytes;
            Ok (kind, material).

(** [write_owner_only], on Unix: create with mode 0600, write, then set the
    mode of a file that already existed. *)
Definition write_owner_only (path : string) (bytes : list byte) : action World KeyError unit :=
  _ ← map_err_io (fun e => Key.GenerationFailed (Txt "cannot create key file: " :: e))
        (open_create path 384);
  _ ← map_err_io (fun e => Key.GenerationFailed (Txt "cannot write key file: " :: e))
        (write_all path bytes);
  map_err_io (fun e => Key.GenerationFailed (Txt "cannot set key file permissions: " :: e))
    (set_permissions path 384).

(** [check_permissions], on Unix *)
Definition check_permissions (path : string) : action World KeyError unit :=
  m ← map_err_io (fun e => Key.InvalidKey (Txt "cannot stat key file: " :: e))
        (metadata_mode path);
  let mode := Z.land m 511 in
  if decide (Z.land mode FORBIDDEN_MODE_BITS <> 0)
  then lift (Err (Key.InsecurePermissions mode))
  else mret tt.

(** [save_identity] and [save_operator] *)
Definition save_identity (path : string) (key : IdentityKey) : action World KeyError unit :=
  write_owner_only path (encode_key_file KIdentity (expose_seed key)).

Definition save_operator (path : string) (key : OperatorKey) : action World KeyError unit :=
  write_owner_only path (encode_key_file KOperator (expose_bytes key)).

(** [load_secret] *)
Definition load_secret (path : string) : action World KeyError SecretKey :=
  _ ← check_permissions path;
  bytes ← map_err_io (fun e => Key.InvalidKey (Txt "cannot read key file: " :: e)) (read path);
  km ← lift (decode_key_file bytes);
  mret match km.1 with
       | KIdentity => Identity (from_seed km.2)
       | KOperator => Operator (OperatorKey_from_bytes km.2)
       end.

(** [load_identity] and [load_operator] *)
Definition load_identity (path : string) : action World KeyError IdentityKey :=
  secret ← load_secret path;
  match secret with
  | Identity k => mret k
  | Operator _ =>
      lift (Err (Key.InvalidKey [Txt "expected an identity key, found an operator key"]))
  end.

Definition load_operator (path : string) : action World KeyError OperatorKey :=
  secret ← load_secret path;
  match secret with
  | Operator k => mret k
  | Identity _ =>
      lift (Err (Key.InvalidKey [Txt "expected an operator key, found an identity key"]))
  end.

(** [save_public] and [load_public] *)
Definition save_public (path : string) (identity : PublicIdentity) : action World KeyError unit :=
  map_err_io (fun e => Key.GenerationFailed (Txt "cannot write public key file: " :: e))
    (write path (PublicIdentity_to_bytes identity)).

Definition load_public (path : string) : action World KeyError PublicIdentity :=
  bytes ← map_err_io (fun e => Key.InvalidKey (Txt "cannot read public key file: " :: e))
            (read path);
  if decide (length bytes = 32%nat)
  then lift (PublicIdentity_from_bytes bytes)
  else lift (Err (Key.Truncated 32 (len bytes))).

(** The kind and material a secret is stored with. *)
Definition stored_as (s : SecretKey) : KeyKind * list byte :=
  match s with
  | Identity k => (KIdentity, expose_seed k)
  | Operator k => (KOperator, expose_bytes k)
  end.

(** The bytes the checksum covers. *)
Definition key_body (k : KeyKind) (m : list byte) : list byte :=
  KEY_MAGIC ++ [KEY_VERSION] ++ [kind_u8 k] ++ zeros 2 ++ m.

(** A mode with no permission for anyone but the owner. *)
Definition private (m : Z) : Prop := Z.land m FORBIDDEN_MODE_BITS = 0.

End key_files.

(** Example worlds: no file, and a world-readable one. *)
Definition empty_world : World := {| files := ∅; umask := 18; events := []; past := [] |}.

Definition leaky_world : World :=
  {| files := {["k"%string := {| mode := 420; content := [] |}]}; umask := 18; events := [];
     past := [] |}.

(** ** Lemmas *)

Lemma kind_roundtrip k : KeyKind_from_u8 (kind_u8 k) = Ok k.
Proof. by destruct k. Qed.

Lemma kind_canonical b k : KeyKind_from_u8 b = Ok k -> b = kind_u8 k.
Proof. unfold KeyKind_from_u8. repeat case_decide; intros [= <-]; done. Qed.

Section laws.
Context `{Blake3Laws} `{Ed25519Laws}.

Lemma length_key_body k m : length m = 32%nat -> length (key_body k m) = CHECKSUM_OFFSET.
Proof. intros Hm. unfold key_body. by rewrite !length_app, Hm, length_zeros. Qed.

Lemma length_key_file k m : length m = 32%nat -> length (encode_key_file k m) = KEY_FILE_SIZE.
Proof.
  intros Hm. unfold encode_key_file. fold (key_body k m).
  by rewrite length_app, b3_hash_length, length_key_body.
Qed.

Lemma key_file_parse_print k m :
  length m = 32%nat -> decode_key_file (encode_key_file k m) = Ok (k, m).
Proof.
  intros Hm. pose proof (length_key_body k m Hm) as Hbuf.
  assert (Hmagic : length KEY_MAGIC = 4%nat) by done.
  unfold decode_key_file. rewrite length_key_file by done.
  rewrite decide_False by (intros Hne; by apply Hne). unfold encode_key_file.
  fold (key_body k m). rewrite (slice_here (key_body k m)) by done.
  remember (b3_hash (key_body k m)) as dg eqn:Hdg.
  assert (Hd : length dg = 32%nat) by (subst dg; apply b3_hash_length).
  assert (Hfound : @slice KeyError _ CHECKSUM_OFFSET KEY_FILE_SIZE (key_body k m ++ dg) = Ok dg).
  { rewrite (slice_skip CHECKSUM_OFFSET) by (done || cbv; lia). by apply slice_all. }
  rewrite Hfound. unfold key_body in *. rewrite <- !app_assoc. unfold CHECKSUM_OFFSET.
  read_fields. rewrite decide_False by auto. read_fields. rewrite decide_False by auto.
  read_fields. rewrite kind_roundtrip. read_fields. rewrite decide_False by auto.
  read_fields. rewrite decide_False by auto. by read_fields.
Qed.

Lemma key_file_inv bytes k m :
  decode_key_file bytes = Ok (k, m) -> length m = 32%nat /\ bytes = encode_key_file k m.
Proof.
  unfold decode_key_file. case_decide as Hl; [done|]. intros Hk.
  assert (Hlen : length bytes = 72%nat) by (unfold KEY_FILE_SIZE in Hl; lia).
  rewrite Hlen in Hk. clear Hl.
  apply bind_Ok in Hk as (magic & Hmagic & Hk). case_decide as Hm; [done|].
  apply bind_Ok in Hk as (version & Hversion & Hk). case_decide as Hv; [done|].
  apply bind_Ok in Hk as (kb & Hkb & Hk). apply bind_Ok in Hk as (kind & Hkind & Hk).
  apply bind_Ok in Hk as (reserved & Hres & Hk). case_decide as Hr; [done|].
  apply bind_Ok in Hk as (covered & Hcov & Hk). apply bind_Ok in Hk as (found & Hfound & Hk).
  case_decide as Hh; [done|]. apply bind_Ok in Hk as (material & Hmat & Hk).
  injection Hk as <- <-. apply kind_canonical in Hkind. unfold CHECKSUM_OFFSET in *. inv_reads.
  split; [subst; rewrite length_sub; lia|].
  assert (Hbody : key_body kind material = covered).
  { unfold key_body. rewrite <- Hm, <- Hv, <- Hkind, <- Hr, Hmagic, Hres, Hmat, Hcov.
    rewrite <- Hversion, <- Hkb.
    by glue_reads. }
  unfold encode_key_file. fold (key_body kind material). rewrite Hbody, Hh. subst.
  rewrite sub_join_at by reflexivity. symmetry. apply sub_all. lia.
Qed.

Lemma key_file_safe bytes : safe (decode_key_file bytes).
Proof.
  unfold decode_key_file, CHECKSUM_OFFSET, KEY_FILE_SIZE. case_decide as Hl; [done|].
  assert (Hk : forall b, safe (KeyKind_from_u8 b))
    by (intros b; unfold KeyKind_from_u8; by repeat case_decide).
  solve_safe; auto.
Qed.

(** *** Saving and loading *)

(** Creating, writing and protecting a file, when no call fails. *)
Lemma write_owner_only_run path bytes w :
  events w = [] ->
  let m0 := match files w !! path with Some f => mode f | None => Z.land 384 (Z.lnot (umask w)) end in
  let at_mode m := <[path := {| mode := m; content := bytes |}]> (files w) in
  exists w', write_owner_only path bytes w = (w', Ok tt)
    /\ files w' = at_mode 384 /\ events w' = [] /\ umask w' = umask w
    /\ past w' = past w ++ [<[path := {| mode := m0; content := [] |}]> (files w); at_mode m0;
                           at_mode 384].
Proof.
  intros He m0 at_mode. destruct w as [fs um ev pa]. cbn in He. subst ev.
  eexists. split.
  { unfold write_owner_only. erewrite bind_action by reflexivity.
    erewrite bind_action; [|unfold map_err_io, write_all, elapse; cbn;
      rewrite lookup_insert_eq; reflexivity].
    unfold map_err_io, set_permissions, next. cbn. rewrite !lookup_insert_eq. reflexivity. }
  cbn. rewrite !insert_insert_eq, <- !app_assoc. done.
Qed.


(** What a successful load has read. *)
Lemma load_secret_Ok path w w' s :
  load_secret path w = (w', Ok s) ->
  w' = elapse (elapse w)
  /\ exists f, files w !! path = Some f /\ private (mode f)
     /\ content f = encode_key_file (stored_as s).1 (stored_as s).2.
Proof.
  unfold load_secret, check_permissions. intros Hl.
  apply bind_action_Ok in Hl as (w1 & [] & Hc & Hl).
  apply bind_action_Ok in Hc as (w2 & m & Hm & Hc).
  apply map_err_io_Ok, metadata_mode_Ok in Hm as (-> & f & Hf & ->). cbn zeta in Hc.
  case_decide as Hbits; [by apply lift_Ok in Hc as [_ ?]|].
  apply mret_action_Ok in Hc as [-> _].
  apply bind_action_Ok in Hl as (w2 & bytes & Hr & Hl).
  apply map_err_io_Ok, read_Ok in Hr as (-> & f' & Hf' & ->). cbn in Hf'.
  rewrite Hf in Hf'. injection Hf' as <-.
  apply bind_action_Ok in Hl as (w2 & [k mat] & Hd & Hl). apply lift_Ok in Hd as [-> Hd].
  apply mret_action_Ok in Hl as [-> <-]. split; [done|]. exists f. split; [done|].
  apply key_file_inv in Hd as [Hlen Hcont]. split.
  - unfold private. rewrite <- Hbits, <- Z.land_assoc. done.
  - rewrite Hcont. destruct k; cbn; [|done]. unfold expose_seed, from_seed. cbn.
    by rewrite ed_seed_roundtrip.
Qed.

Lemma load_secret_files path w w' r : load_secret path w = (w', r) -> files w' = files w.
Proof.
  intros Hl. change w' with ((w', r).1). rewrite <- Hl. clear Hl.
  assert (Hp : preserves (fun v => files v = files w) (load_secret path)).
  { apply preserves_bind; [apply preserves_bind|].
    - intros v <-. rewrite map_err_io_run. apply metadata_mode_files.
    - intros m v Hv. cbn zeta. by case_decide.
    - intros _. apply preserves_bind.
      + intros v <-. rewrite map_err_io_run. apply read_files.
      + intros bytes. apply preserves_bind; [by intros v Hv|by intros km v Hv]. }
  by apply Hp.
Qed.

(** Loading what a file holds. *)
Lemma load_secret_run path w f s :
  events w = [] -> files w !! path = Some f -> private (mode f) ->
  content f = encode_key_file (stored_as s).1 (stored_as s).2 ->
  length (stored_as s).2 = 32%nat ->
  load_secret path w = (w, Ok s).
Proof.
  destruct w as [fs um ev pa]. cbn [events files]. intros -> Hf Hp Hc Hl.
  unfold load_secret, check_permissions. 
  assert (Hm : Z.land (Z.land (mode f) 511) FORBIDDEN_MODE_BITS = 0)
    by (by rewrite <- Z.land_assoc).
  set (w := {| files := fs; umask := um; events := []; past := pa |}).
  assert (Hs : forall E (g : message -> E), map_err_io g (metadata_mode path) w = (w, Ok (mode f)))
    by (intros; unfold map_err_io, metadata_mode; cbn; by rewrite Hf).
  assert (Hr : forall E (g : message -> E), map_err_io g (read path) w = (w, Ok (content f)))
    by (intros; unfold map_err_io, read; cbn; by rewrite Hf).
  erewrite bind_action. 2: { erewrite bind_action by apply Hs. cbn zeta.
    rewrite decide_False by (intros Hne; by apply Hne). reflexivity. }
  erewrite bind_action by apply Hr. rewrite Hc.
  erewrite bind_action by (unfold lift; by rewrite key_file_parse_print).
  cbn [fst snd]. destruct s as [[sk]|[]]; [|done]. cbn. unfold expose_seed, from_seed. cbn.
  by rewrite ed_signing_roundtrip.
Qed.

End laws.

(** ** Properties *)

(** [decode_key_file] never panics and accepts exactly the 72-byte files
    [encode_key_file] writes: a file with any other byte, longer or shorter,
    yields no key material. *)
Theorem key_file_accepted_iff `{Blake3Laws} bytes kind material :
  safe (decode_key_file bytes)
  /\ (decode_key_file bytes = Ok (kind, material)
      <-> length material = 32%nat /\ bytes = encode_key_file kind material).
Proof.
  split; [apply key_file_safe|]. split; [apply key_file_inv|].
  intros [Hm ->]. by apply key_file_parse_print.
Qed.

Lemma key_file_accepted_iff_witness :
  decode_key_file (encode_key_file KOperator (zeros 32)) = Ok (KOperator, zeros 32).
Proof.
  apply (key_file_accepted_iff (encode_key_file KOperator (zeros 32)) KOperator (zeros 32)).
  split; reflexivity.
Defined.

(** C24: saving a key and loading it gives the key back. When no call fails,
    whatever was at the path before, saving leaves a file of mode 0600 there
    and no other file changed; loading it as its own kind returns the saved
    key, and loading it as the other kind is refused. *)
Theorem key_save_load `{Blake3Laws} `{Ed25519Laws} path w idk opk :
  events w = [] -> length (ok_bytes opk) = 32%nat ->
  (exists w1 f, save_identity path idk w = (w1, Ok tt)
     /\ files w1 = <[path := f]> (files w) /\ mode f = 384
     /\ load_identity path w1 = (w1, Ok idk)
     /\ (exists e, load_operator path w1 = (w1, Err (Key.InvalidKey e))))
  /\ (exists w1 f, save_operator path opk w = (w1, Ok tt)
     /\ files w1 = <[path := f]> (files w) /\ mode f = 384
     /\ load_operator path w1 = (w1, Ok opk)
     /\ (exists e, load_identity path w1 = (w1, Err (Key.InvalidKey e)))).
Proof.
  intros He Hl.
  assert (Hsaved : forall s, length (stored_as s).2 = 32%nat ->
    exists w1, write_owner_only path (encode_key_file (stored_as s).1 (stored_as s).2) w
                = (w1, Ok tt)
      /\ files w1 = <[path := {| mode := 384;
           content := encode_key_file (stored_as s).1 (stored_as s).2 |}]> (files w)
      /\ load_secret path w1 = (w1, Ok s)).
  { intros s Hs. destruct (write_owner_only_run path
      (encode_key_file (stored_as s).1 (stored_as s).2) w He) as (w1 & Hw & Hf & He1 & _).
    exists w1. split_and!; [done|done|].
    eapply load_secret_run; [done|by rewrite Hf, lookup_insert_eq|done|done|done]. }
  split.
  - destruct (Hsaved (Identity idk) (ed_seed_length _)) as (w1 & Hw & Hf & Hload).
    exists w1. eexists. split_and!; [exact Hw|exact Hf|done|..];
      [|eexists]; unfold load_identity, load_operator; by erewrite bind_action by exact Hload.
  - destruct (Hsaved (Operator opk) Hl) as (w1 & Hw & Hf & Hload).
    exists w1. eexists. split_and!; [exact Hw|exact Hf|done|..];
      [|eexists]; unfold load_identity, load_operator; by erewrite bind_action by exact Hload.
Qed.

Lemma key_save_load_witness :
  exists w1, save_operator "op.key" {| ok_bytes := zeros 32 |} empty_world = (w1, Ok tt)
    /\ load_operator "op.key" w1 = (w1, Ok {| ok_bytes := zeros 32 |}).
Proof.
  destruct (key_save_load "op.key" empty_world (from_seed (zeros 32)) {| ok_bytes := zeros 32 |}
    eq_refl eq_refl) as [_ (w1 & f & Hs & _ & _ & Hl & _)].
  exists w1. split; [exact Hs|exact Hl].
Defined.

(** C23: a loaded key was protected. [load_secret] leaves every file as it is;
    when it returns a key, the file at the path grants nothing to group and
    others and holds exactly the encoding of that key; and a file that grants
    anything to them is refused for it, whatever it holds. *)
Theorem key_load_guarded `{Blake3Laws} `{Ed25519Laws} path w w' r :
  load_secret path w = (w', r) ->
  files w' = files w
  /\ (forall s, r = Ok s -> exists f, files w !! path = Some f /\ private (mode f)
        /\ content f = encode_key_file (stored_as s).1 (stored_as s).2)
  /\ (forall f, files w !! path = Some f -> next w = Succeeds -> ~ private (mode f) ->
        r = Err (Key.InsecurePermissions (Z.land (mode f) 511))).
Proof.
  intros Hl. split_and!.
  - by apply load_secret_files in Hl.
  - intros s ->. apply load_secret_Ok in Hl as [_ ?]. done.
  - intros f Hf Hn Hp. unfold load_secret, check_permissions in Hl.
    assert (Hm : (Z.land (Z.land (mode f) 511) FORBIDDEN_MODE_BITS <> 0))
      by (by rewrite <- Z.land_assoc).
    unfold mbind, action_bind, map_err_io, metadata_mode in Hl. rewrite Hn, Hf in Hl. cbn in Hl.
    rewrite decide_True in Hl by done. by injection Hl as _ <-.
Qed.

Lemma key_load_guarded_witness :
  exists w', load_secret "k" leaky_world = (w', Err (Key.InsecurePermissions 420)).
Proof.
  destruct (load_secret "k" leaky_world) as [w' r] eqn:Hl. exists w'.
  destruct (key_load_guarded "k" leaky_world w' r Hl) as (_ & _ & Hr).
  rewrite (Hr {| mode := 420; content := [] |}); [reflexivity|reflexivity|reflexivity|].
  vm_compute. discriminate.
Defined.


