(* ===== verification/Aead.v ===== *)
(** * Payload encryption (dhow-crypt/src/aead.rs)

    Nonces, the keys of one transfer, and XChaCha20-Poly1305 over a whole
    payload with the session identifier as associated data. *)

From S2P Require Import Prelude Primitives Instances CryptErrors Kdf Key.

(** ** Definitions *)

Definition NONCE_LEN : nat := 24.
Definition TAG_LEN : Z := 16.

(** A [Nonce] wraps its 24 bytes. *)
Record Nonce := { nonce_bytes : list byte }.

(** [Nonce::generate], [from_bytes] and [as_bytes] *)
Definition Nonce_generate `{Getrandom} : action gr_state AeadError Nonce := fun s =>
  match gr_fill NONCE_LEN s with
  | (s', inl bytes) => (s', Ok {| nonce_bytes := bytes |})
  | (s', inr e) =>
      (s', Err (AeadErr.InvalidNonce (Txt "system randomness unavailable: " :: e)))
  end.

Definition Nonce_from_bytes (bytes : list byte) : Nonce := {| nonce_bytes := bytes |}.
Definition Nonce_as_bytes (n : Nonce) : list byte := nonce_bytes n.

Record TransferKeys := {
  payload_key : list byte;
  session_key : list byte;
}.

(** [TransferKeys::derive] *)
Definition TransferKeys_derive `{Blake3} (operator : OperatorKey) (salt : Salt)
    : outcome AeadError TransferKeys :=
  let ikm := expose_bytes operator in
  pk ← derive_key salt ikm INFO_PAYLOAD_KEY;
  sk ← derive_key salt ikm INFO_SESSION_KEY;
  Ok {| payload_key := pk; session_key := sk |}.

Record TransferParameters := {
  salt : Salt;
  nonce : Nonce;
}.

(** [TransferParameters::generate] *)
Definition TransferParameters_generate `{Getrandom}
    : action gr_state AeadError TransferParameters :=
  s ← Salt_generate;
  n ← Nonce_generate;
  mret {| salt := s; nonce := n |}.

Section payload.
Context `{Aead}.

(** [encrypt_payload] *)
Definition encrypt_payload (keys : TransferKeys) (nonce : Nonce) (session_id plaintext : list byte)
    : outcome AeadError (list byte) :=
  if aead_key_ok (payload_key keys)
  then
    match aead_encrypt (payload_key keys) (Nonce_as_bytes nonce) session_id plaintext with
    | Some c => Ok c
    | None => Err (AeadErr.EncryptionFailed [Txt "AEAD encryption failed"])
    end
  else Err (AeadErr.EncryptionFailed
    [Txt "payload key is not a valid XChaCha20-Poly1305 key"]).

Definition too_short : AeadError :=
  AeadErr.DecryptionFailed
    [Txt "ciphertext is shorter than the "; Dec TAG_LEN; Txt "-byte tag"].

Definition bad_key : AeadError :=
  AeadErr.DecryptionFailed [Txt "payload key is not a valid XChaCha20-Poly1305 key"].

Definition not_authentic : AeadError :=
  AeadErr.DecryptionFailed [Txt "authentication failed"].

(** [decrypt_payload_in_place] *)
Definition decrypt_payload_in_place (keys : TransferKeys) (nonce : Nonce)
    (session_id buffer : list byte) : outcome AeadError (list byte) :=
  if decide (len buffer < TAG_LEN) then Err too_short
  else if aead_key_ok (payload_key keys)
  then
    match aead_decrypt_in_place (payload_key keys) (Nonce_as_bytes nonce) session_id buffer with
    | Some buffer => Ok buffer
    | None => Err not_authentic
    end
  else Err bad_key.

(** [decrypt_payload] *)
Definition decrypt_payload (keys : TransferKeys) (nonce : Nonce)
    (session_id ciphertext : list byte) : outcome AeadError (list byte) :=
  if decide (len ciphertext < TAG_LEN) then Err too_short
  else if aead_key_ok (payload_key keys)
  then
    match aead_decrypt (payload_key keys) (Nonce_as_bytes nonce) session_id ciphertext with
    | Some p => Ok p
    | None => Err not_authentic
    end
  else Err bad_key.

(** [ciphertext_len]; a [usize] has 64 bits. *)
Definition ciphertext_len (checks : bool) (plaintext_len : Z) : outcome AeadError Z :=
  add_w checks 64 plaintext_len TAG_LEN.

(** Keys and nonces of the sizes the types impose. *)
Definition wf_keys (k : TransferKeys) : Prop :=
  length (payload_key k) = 32%nat /\ length (session_key k) = 32%nat.

Definition wf_nonce (n : Nonce) : Prop := length (nonce_bytes n) = NONCE_LEN.

End payload.

(** Example keys. *)
Definition demo_keys : TransferKeys :=
  {| payload_key := zeros 32; session_key := zeros 32 |}.

Definition demo_rng : @gr_state toy_getrandom := 0.

Definition demo_nonce : Nonce := Nonce_from_bytes (zeros 24).

(** ** Lemmas *)

Section laws.
Context `{AeadLaws}.

Lemma encrypt_payload_Ok keys n sid p c :
  wf_keys keys ->
  encrypt_payload keys n sid p = Ok c
  <-> aead_encrypt (payload_key keys) (nonce_bytes n) sid p = Some c.
Proof.
  intros [Hk _]. unfold encrypt_payload. rewrite aead_key_32 by done.
  unfold Nonce_as_bytes. case_match; split; intros [= <-]; done.
Qed.

Lemma decrypt_payload_Ok keys n sid c p :
  wf_keys keys -> wf_nonce n ->
  decrypt_payload keys n sid c = Ok p
  <-> aead_decrypt (payload_key keys) (nonce_bytes n) sid c = Some p.
Proof.
  intros [Hk _] Hn. unfold decrypt_payload, Nonce_as_bytes. rewrite aead_key_32 by done. split.
  - case_decide; [done|]. case_match; [|done]. by intros [= <-].
  - intros Hd. rewrite Hd. rewrite decide_False; [done|].
    apply aead_authentic, aead_encrypt_length in Hd; [|done..].
    pose proof (len_nonneg p). unfold TAG_LEN. lia.
Qed.

Lemma in_place_is_borrowing keys n sid c :
  decrypt_payload_in_place keys n sid c = decrypt_payload keys n sid c.
Proof. unfold decrypt_payload_in_place, decrypt_payload. by rewrite aead_in_place. Qed.

End laws.

(** ** Properties *)

(** every error of decryption is [DecryptionFailed], and with a key of the
    right size it depends on the ciphertext's length alone: one error below
    the length of a tag, and one and the same error for every other rejected
    ciphertext, whatever key, nonce, session or byte is wrong. *)
Theorem aead_errors_uniform `{AeadLaws} keys n sid c :
  wf_keys keys ->
  (exists p, decrypt_payload keys n sid c = Ok p)
  \/ decrypt_payload keys n sid c
     = Err (if decide (len c < TAG_LEN) then too_short else not_authentic).
Proof.
  intros [Hk _]. unfold decrypt_payload. rewrite aead_key_32 by done.
  case_decide; [by right|]. case_match; [left; by eexists|by right].
Qed.

Lemma aead_errors_uniform_witness :
  (exists p, decrypt_payload demo_keys demo_nonce (zeros 16) [] = Ok p)
  \/ decrypt_payload demo_keys demo_nonce (zeros 16) []
     = Err (if decide (len (@nil byte) < TAG_LEN) then too_short else not_authentic).
Proof. apply (aead_errors_uniform demo_keys demo_nonce (zeros 16) []). split; reflexivity. Defined.

(** the keys of a transfer. Derivation never fails; both keys have 32
    bytes; each is the keyed hash, under the key extracted from the salt and
    the operator key, of its own domain string and a one, and the two inputs
    differ; and parameters drawn for a transfer have a 32-byte salt and a
    24-byte nonce, drawn one after the other. *)
Theorem aead_transfer_keys `{Blake3Laws} `{GetrandomLaws} operator salt_ s s' r :
  TransferParameters_generate s = (s', r) ->
  (exists keys, TransferKeys_derive operator salt_ = Ok keys /\ wf_keys keys
     /\ payload_key keys
        = b3_keyed_hash (extract salt_ (ok_bytes operator)) (INFO_PAYLOAD_KEY ++ [Byte.x01])
     /\ session_key keys
        = b3_keyed_hash (extract salt_ (ok_bytes operator)) (INFO_SESSION_KEY ++ [Byte.x01])
     /\ INFO_PAYLOAD_KEY ++ [Byte.x01] <> INFO_SESSION_KEY ++ [Byte.x01])
  /\ match r with
     | Ok ps => length (salt_bytes (salt ps)) = SALT_LEN /\ wf_nonce (nonce ps)
     | Err e => exists d, e = AeadErr.KeyDerivationFailed d \/ e = AeadErr.InvalidNonce d
     | Panic => False
     end.
Proof.
  intros Hg. split.
  - unfold TransferKeys_derive. rewrite !derive_key_first. cbn [mbind outcome_bind].
    eexists. split; [done|]. cbn [payload_key session_key].
    split; [split; apply b3_keyed_hash_length|]. split; [done|]. split; [done|].
    intros [Heq _]%app_inj_2; [|done]. discriminate Heq.
  - unfold TransferParameters_generate, mbind, action_bind, Salt_generate, Nonce_generate in Hg.
    destruct (gr_fill SALT_LEN s) as [s1 [b1|e1]] eqn:Hs1; [|injection Hg as <- <-; eauto].
    destruct (gr_fill NONCE_LEN s1) as [s2 [b2|e2]] eqn:Hs2; injection Hg as <- <-; [|eauto].
    cbn. split; [by eapply gr_length|]. by eapply gr_length.
Qed.

Lemma aead_transfer_keys_witness :
  exists keys, TransferKeys_derive {| ok_bytes := zeros 32 |} {| salt_bytes := zeros 32 |} = Ok keys
    /\ wf_keys keys.
Proof.
  destruct (TransferParameters_generate demo_rng) as [s' r] eqn:Hg.
  destruct (aead_transfer_keys {| ok_bytes := zeros 32 |} {| salt_bytes := zeros 32 |} demo_rng s' r
    Hg)
    as [(keys & Hk & Hw & _) _].
  exists keys. split; [exact Hk|exact Hw].
Defined.
