(* ===== verification/SignedManifest.v ===== *)
(** * Signed manifests (dhow-crypt/src/manifest.rs)

    Signing a manifest, verifying its signature against a pinned identity, and
    the receiver's policy on what it has authenticated. *)

From S2P Require Import Prelude Errors Crc32c Primitives Instances CryptErrors Display.
From S2P Require Import Utf8 Session Manifest Key.

(** ** Definitions *)

Record Policy := {
  max_total_size : Z;
  max_file_size : Z;
  max_file_count : Z;
}.

(** [Policy::default] *)
Definition Policy_default : Policy :=
  {| max_total_size := 64 * 1024 * 1024 * 1024; max_file_size := 16 * 1024 * 1024 * 1024;
     max_file_count := MAX_FILE_COUNT |}.

(** [convert_codec_error] *)
Definition convert_codec_error (err : ManifestError) : SMani.ManifestError :=
  match err with
  | Mani.InvalidMagic got => SMani.InvalidMagic got
  | Mani.UnsupportedVersion version => SMani.UnsupportedVersion version
  | Mani.SignatureVerificationFailed => SMani.SignatureVerificationFailed
  | Mani.CrcMismatch => SMani.CrcMismatch
  | Mani.Truncated expected actual => SMani.Truncated expected actual
  | Mani.PathTraversal name => SMani.PathTraversal name
  | Mani.FileNameTooLong length => SMani.FileNameTooLong length
  | Mani.FileSizeTooLarge size max => SMani.FileSizeTooLarge size max
  | Mani.InvalidFileCount count => SMani.InvalidBlockCount count
  | Mani.SessionMismatch => SMani.SessionMismatch
  | Mani.Malformed details => SMani.Malformed details
  end.

Definition U64_MAX : Z := 2 ^ 64 - 1.

(** The loop of [check_policy] over the entries, from the sum so far. *)
Fixpoint check_entries (policy : Policy) (es : list FileEntry) (summed : Z)
    : outcome SMani.ManifestError Z :=
  match es with
  | [] => Ok summed
  | e :: es' =>
      _ ← map_err convert_codec_error (validate_name (name e));
      if decide (max_file_size policy < size e)
      then Err (SMani.FileSizeTooLarge (size e) (max_file_size policy))
      else if decide (2 ^ 64 <= summed + size e)
      then Err (SMani.FileSizeTooLarge U64_MAX (max_total_size policy))
      else check_entries policy es' (summed + size e)
  end.

(** [check_policy] *)
Definition check_policy (m : Manifest) (policy : Policy) : outcome SMani.ManifestError unit :=
  let header := header m in
  _ ← map_err (fun e => SMani.Malformed (SessionError_display e)) (validate (mh_params header));
  if decide (max_file_count policy < mh_file_count header)
  then Err (SMani.InvalidBlockCount (mh_file_count header))
  else if decide (len (entries m) <> mh_file_count header)
  then Err (SMani.InvalidBlockCount (mh_file_count header))
  else if decide (max_total_size policy < mh_total_size header)
  then Err (SMani.FileSizeTooLarge (mh_total_size header) (max_total_size policy))
  else
    summed ← check_entries policy (entries m) 0;
    if decide (summed <> mh_total_size header)
    then Err (SMani.FileSizeTooLarge summed (mh_total_size header))
    else Ok tt.

(** [parse] *)
Definition parse (bytes : list byte) : outcome SMani.ManifestError Manifest :=
  map_err convert_codec_error (Manifest_from_bytes bytes).

(** [bytes[start..start + signature.len()].copy_from_slice(signature)] *)
Definition write_signature {E} (bytes signature : list byte) : outcome E (list byte) :=
  if decide (SIGNATURE_OFFSET + SIGNATURE_LEN <= length bytes
             /\ length signature = SIGNATURE_LEN)%nat
  then Ok (take SIGNATURE_OFFSET bytes ++ signature
           ++ drop (SIGNATURE_OFFSET + SIGNATURE_LEN) bytes)
  else Panic.

Section signatures.
Context `{Ed25519}.

Record VerifiedManifest := {
  vm_manifest : Manifest;
  vm_signer : PublicIdentity;
}.

(** [sign_manifest] *)
Definition sign_manifest {E} (identity : IdentityKey) (m : Manifest) : outcome E (list byte) :=
  covered ← signing_bytes m;
  write_signature (Manifest_to_vec m) (sign identity covered).

(** [verify_signature] *)
Definition verify_signature (expected_signer : PublicIdentity) (bytes : list byte)
    : outcome SMani.ManifestError Manifest :=
  m ← parse bytes;
  covered ← map_err convert_codec_error (signing_bytes_of bytes);
  if verify expected_signer covered (mh_signature (header m))
  then Ok m
  else Err SMani.SignatureVerificationFailed.

(** [verify_manifest_with] and [verify_manifest] *)
Definition verify_manifest_with (expected_signer : PublicIdentity) (bytes : list byte)
    (session_id : option (list byte)) (policy : Policy)
    : outcome SMani.ManifestError VerifiedManifest :=
  m ← verify_signature expected_signer bytes;
  if (match session_id with
      | Some expected => bool_decide (mh_session_id (header m) <> expected)
      | None => false
      end)
  then Err SMani.SessionMismatch
  else
    _ ← check_policy m policy;
    Ok {| vm_manifest := m; vm_signer := expected_signer |}.

Definition verify_manifest (expected_signer : PublicIdentity) (bytes session_id : list byte)
    (policy : Policy) : outcome SMani.ManifestError VerifiedManifest :=
  verify_manifest_with expected_signer bytes (Some session_id) policy.

(** *** Specification *)

(** The manifest with its signature field filled in. *)
Definition signed (m : Manifest) (sg : list byte) : Manifest :=
  Manifest_build (header m) (entries m) sg.

(** What a signature is over: the wire bytes with a zero signature. *)
Definition signed_over (m : Manifest) : list byte := Manifest_to_vec (signed m (zeros 64)).

(** What the policy asks of a manifest. *)
Record admissible (policy : Policy) (m : Manifest) : Prop := {
  ad_params : validate (mh_params (header m)) = Ok tt;
  ad_count : mh_file_count (header m) = len (entries m);
  ad_max_count : len (entries m) <= max_file_count policy;
  ad_total : mh_total_size (header m) = zsum (size <$> entries m);
  ad_max_total : mh_total_size (header m) <= max_total_size policy;
  ad_names : Forall (fun e => safe_name (name e)) (entries m);
  ad_max_size : Forall (fun e => size e <= max_file_size policy) (entries m);
  ad_fits : zsum (size <$> entries m) < 2 ^ 64;
}.

End signatures.

(** ** Lemmas *)

(** *** Policy *)

Lemma check_entries_Ok policy es s s' :
  Forall wf_entry es -> urange 64 s ->
  check_entries policy es s = Ok s'
  <-> Forall (fun e => safe_name (name e)) es /\ Forall (fun e => size e <= max_file_size policy) es
      /\ s' = s + zsum (size <$> es) /\ s + zsum (size <$> es) < 2 ^ 64.
Proof.
  intros Hes. revert s. induction Hes as [|e es He Hes IH]; intros s Hs; cbn [check_entries].
  { cbn. rewrite Z.add_0_r. unfold urange in Hs. split; [intros [= <-]|intros (_ & _ & -> & _)]; auto.
    split_and!; try done. by destruct Hs. }
  pose proof (we_size _ He) as Hsz. unfold urange in Hs, Hsz.
  pose proof (zsum_nonneg (size <$> es)
    ltac:(apply Forall_fmap; eapply Forall_impl; [exact Hes|]; intros x Hx; cbn; by apply we_size in Hx as [])).
  rewrite fmap_cons. cbn [zsum foldr]. fold (zsum (size <$> es)). rewrite !Forall_cons.
  destruct (validate_name (name e)) as [[]|er|] eqn:Hv; cbn [map_err mbind outcome_bind].
  - apply validate_name_Ok in Hv. case_decide; [split; [done|intros ((_ & _) & (? & _) & _); lia]|].
    case_decide; [split; [done|intros (_ & _ & _ & ?); lia]|].
    rewrite IH by (unfold urange; lia).
    split; intros (? & ? & -> & ?); [|destruct_and!]; split_and!; try done; try lia; tauto.
  - split; [done|]. intros ((Hn & _) & _). apply validate_name_Ok in Hn. congruence.
  - split; [done|]. intros ((Hn & _) & _). apply validate_name_Ok in Hn. congruence.
Qed.

Lemma check_entries_safe policy es s : safe (check_entries policy es s).
Proof.
  revert s. induction es as [|e es IH]; intros s; cbn [check_entries]; [done|].
  apply safe_bind; [auto with dhow|]. intros [] _. case_decide; [done|]. case_decide; [done|].
  apply IH.
Qed.

Lemma check_policy_Ok policy m :
  wf_manifest m -> check_policy m policy = Ok tt <-> admissible policy m.
Proof.
  intros Hm. unfold check_policy.
  destruct (validate (mh_params (header m))) as [[]|e|] eqn:Hv; cbn [map_err mbind outcome_bind];
    [|split; [done|intros []; congruence]..].
  case_decide; [split; [done|intros []; lia]|]. case_decide; [split; [done|intros []; lia]|].
  case_decide; [split; [done|intros []; lia]|].
  rewrite bind_Ok. setoid_rewrite check_entries_Ok; [|apply Hm|by unfold urange]. split.
  - intros (s & (Hn & Hf & -> & Hb) & Hd). case_decide; [done|]. split; try done; lia.
  - intros []. exists (zsum (size <$> entries m)). split_and!; try done; try lia.
    by rewrite decide_False by lia.
Qed.

Lemma check_policy_safe policy m : safe (check_policy m policy).
Proof.
  unfold check_policy. apply safe_bind.
  { apply safe_map_err. unfold validate. by repeat case_decide. }
  intros [] _. do 3 (case_decide; [done|]). apply safe_bind; [apply check_entries_safe|].
  intros s _. by case_decide.
Qed.

(** *** Signatures *)

Lemma parse_Ok bytes m :
  parse bytes = Ok m <-> wf_manifest m /\ bytes = Manifest_to_vec m.
Proof.
  unfold parse. rewrite map_err_Ok. split; [apply manifest_inv|].
  intros [? ->]. by apply manifest_parse_print.
Qed.

Lemma signed_wf m sg : wf_manifest m -> length sg = 64%nat -> wf_manifest (signed m sg).
Proof. intros ? ?. apply wf_manifest_build; [by destruct m|done]. Qed.

(** Writing the signature into the bytes is filling in the field. *)
Lemma write_signature_to_vec {E} m sg :
  wf_manifest m -> length sg = 64%nat ->
  write_signature (E:=E) (Manifest_to_vec m) sg = Ok (Manifest_to_vec (signed m sg)).
Proof.
  intros [Hh _ _ _] Hsg. pose proof (length_covered _ Hh) as Hc.
  pose proof (wm_signature _ Hh) as Hs. unfold CRC_OFFSET in Hc.
  unfold write_signature, SIGNATURE_OFFSET, SIGNATURE_LEN, Manifest_to_vec, ManifestHeader_to_vec.
  rewrite decide_True by (rewrite !length_app, Hc, Hs, length_to_le; lia). f_equal.
  unfold signed, Manifest_build. cbn [header entries mh_signature mh_crc32c set_signature].
  change (covered_bytes (set_signature (header m) sg)) with (covered_bytes (header m)).
  rewrite <- !app_assoc.
  rewrite (app_assoc (covered_bytes (header m)) (to_le 4 (mh_crc32c (header m)))).
  assert (Hl : length (covered_bytes (header m) ++ to_le 4 (mh_crc32c (header m))) = 164%nat)
    by (rewrite length_app, Hc, length_to_le; done).
  rewrite take_app_length' by done.
  rewrite (app_assoc _ (mh_signature (header m))), drop_app_length'
    by (rewrite length_app, Hl, Hs; done).
  by rewrite <- !app_assoc.
Qed.

Section verified.
Context `{Ed25519Laws}.

Lemma sign_manifest_eq {E} idk m :
  wf_manifest m ->
  sign_manifest (E:=E) idk m = Ok (Manifest_to_vec (signed m (sign idk (signed_over m)))).
Proof.
  intros Hm. unfold sign_manifest. rewrite signing_bytes_zero by done. cbn [mbind outcome_bind].
  apply write_signature_to_vec; [done|]. apply ed_sign_length.
Qed.

Lemma verify_signature_Ok signer bytes m :
  verify_signature signer bytes = Ok m
  <-> wf_manifest m /\ bytes = Manifest_to_vec m
      /\ verify signer (signed_over m) (mh_signature (header m)) = true.
Proof.
  unfold verify_signature. rewrite bind_Ok. setoid_rewrite parse_Ok. split.
  - intros (m' & [Hm ->] & Hv). rewrite signing_bytes_of_spec, signing_bytes_zero in Hv by done.
    cbn [map_err mbind outcome_bind] in Hv. unfold signed_over.
    destruct (verify _ _ _) eqn:He in Hv; [|done]. injection Hv as <-. done.
  - intros (Hm & -> & Hv). exists m. split; [done|].
    rewrite signing_bytes_of_spec, signing_bytes_zero by done. cbn [map_err mbind outcome_bind].
    unfold signed_over, signed in Hv. by rewrite Hv.
Qed.

Lemma write_signature_Ok {E} bytes sg out :
  write_signature (E:=E) bytes sg = Ok out ->
  (228 <= length bytes)%nat /\ length sg = 64%nat
  /\ out = take 164 bytes ++ sg ++ drop 228 bytes.
Proof. unfold write_signature. case_decide; [|done]. intros [= <-]. tauto. Qed.

(** Signing covers everything but the signature, so the signed bytes verify
    whenever they parse, whatever was signed. *)
Lemma sign_manifest_verifies {E} idk u bytes m :
  sign_manifest (E:=E) idk u = Ok bytes -> Manifest_from_bytes bytes = Ok m ->
  verify_signature (public idk) bytes = Ok m.
Proof.
  unfold sign_manifest. intros Hs Hp. apply bind_Ok in Hs as (covered & Hc & Hs).
  apply write_signature_Ok in Hs as (Hlen & Hsg & ->).
  apply manifest_inv in Hp as Hw. destruct Hw as [Hm Hb]. set (b := Manifest_to_vec u) in *.
  assert (Hpre : length (take 164 b) = 164%nat) by (rewrite length_take; lia).
  assert (Hcov : signing_bytes_of (take 164 b ++ sign idk covered ++ drop 228 b) = Ok covered).
  { unfold signing_bytes_of, signing_bytes, fill_zero, SIGNATURE_OFFSET, MANIFEST_HEADER_SIZE in *.
    fold b in Hc. rewrite decide_True in Hc by lia. injection Hc as <-.
    rewrite decide_False by (rewrite !length_app, Hpre, Hsg; lia).
    rewrite decide_True by (rewrite !length_app, Hpre, Hsg; lia).
    rewrite take_app_length' by done.
    rewrite (app_assoc (take 164 b) (sign _ _)), (drop_app_length' (_ ++ _)); [done|].
    rewrite length_app, Hpre, Hsg. done. }
  assert (Hsig : mh_signature (header m) = sign idk covered).
  { destruct Hm as [Hh _ _ _]. pose proof (length_covered _ Hh) as Hl. unfold CRC_OFFSET in Hl.
    unfold Manifest_to_vec, ManifestHeader_to_vec in Hb. rewrite (app_assoc (covered_bytes _)) in Hb.
    rewrite <- !app_assoc, (app_assoc (covered_bytes _)) in Hb.
    apply app_inj_1 in Hb as [_ Hb]; [|rewrite length_app, Hpre, Hl, length_to_le; done].
    apply app_inj_1 in Hb as [-> _]; [done|]. by rewrite Hsg, (wm_signature _ Hh). }
  unfold verify_signature, parse. rewrite Hp. cbn [map_err mbind outcome_bind].
  rewrite Hcov. cbn [map_err mbind outcome_bind]. rewrite Hsig.
  assert (Hv : verify (public idk) covered (sign idk covered) = true) by apply ed_sign_verify.
  by rewrite Hv.
Qed.

Lemma verify_signature_safe signer bytes : safe (verify_signature signer bytes).
Proof.
  unfold verify_signature. apply safe_bind; [apply safe_map_err, manifest_safe|]. intros m _.
  apply safe_bind; [apply safe_map_err, signing_bytes_of_safe|]. intros c _. by case_match.
Qed.

Lemma verify_manifest_with_Ok signer bytes sid policy v :
  verify_manifest_with signer bytes sid policy = Ok v
  <-> vm_signer v = signer /\ verify_signature signer bytes = Ok (vm_manifest v)
      /\ (forall expected, sid = Some expected ->
           mh_session_id (header (vm_manifest v)) = expected)
      /\ admissible policy (vm_manifest v).
Proof.
  unfold verify_manifest_with. rewrite bind_Ok. split.
  - intros (m & Hs & Hv). apply verify_signature_Ok in Hs as Hs'. destruct Hs' as [Hm _].
    destruct (match sid with Some _ => _ | None => _ end) eqn:Hsid; [done|].
    apply bind_Ok in Hv as ([] & Hp & Hv). injection Hv as <-. cbn.
    split_and!; [done|done| |by apply check_policy_Ok].
    intros e ->. apply bool_decide_eq_false in Hsid. by apply dec_stable.
  - destruct v as [m sg]. cbn. intros (-> & Hs & Hsid & Hp). exists m. split; [done|].
    apply verify_signature_Ok in Hs as [Hm _].
    replace (match sid with Some _ => _ | None => _ end) with false.
    2: { destruct sid as [e|]; [|done]. symmetry. apply bool_decide_eq_false.
         intros Hne. by apply Hne, Hsid. }
    apply check_policy_Ok in Hp as ->; done.
Qed.

End verified.

(** ** Properties *)

(** C15: signing and verifying. For every well-formed manifest, whatever its
    signature field held, [sign_manifest] does not panic and its bytes verify
    under the signer's public half, giving the manifest with the signature in
    place; verification end to end accepts them for the manifest's own session
    exactly when the manifest is admissible under the policy. *)
Theorem manifest_sign_verify `{Ed25519Laws} {E} idk m policy :
  wf_manifest m ->
  exists bytes m', sign_manifest (E:=E) idk m = Ok bytes
    /\ header m' = set_signature (header m) (sign idk (signed_over m))
    /\ entries m' = entries m
    /\ verify_signature (public idk) bytes = Ok m'
    /\ (verify_manifest (public idk) bytes (mh_session_id (header m)) policy
          = Ok {| vm_manifest := m'; vm_signer := public idk |}
        <-> admissible policy m).
Proof.
  intros Hm. pose proof (sign_manifest_eq (E:=E) idk m Hm) as Hs.
  set (m' := signed m (sign idk (signed_over m))).
  assert (Hw : wf_manifest m') by (apply signed_wf; [done|apply ed_sign_length]).
  assert (Hv : verify_signature (public idk) (Manifest_to_vec m') = Ok m').
  { apply verify_signature_Ok. split_and!; [done|done|]. apply ed_sign_verify. }
  exists (Manifest_to_vec m'), m'. split_and!; [done..|].
  unfold verify_manifest. rewrite verify_manifest_with_Ok. cbn. split.
  - intros (_ & _ & _ & [Hp Hc Hmc Ht Hmt Hn Hms Hf]). by split.
  - intros [Hp Hc Hmc Ht Hmt Hn Hms Hf]. split_and!; [done|done|by intros ? [= <-]|by split].
Qed.

Lemma manifest_sign_verify_witness :
  exists bytes m', sign_manifest (E:=unit) (from_seed (zeros 32)) demo_manifest = Ok bytes
    /\ verify_signature (public (from_seed (zeros 32))) bytes = Ok m'.
Proof.
  destruct (manifest_sign_verify (E:=unit) (from_seed (zeros 32)) demo_manifest Policy_default
    demo_manifest_wf) as (bytes & m' & Hs & _ & _ & Hv & _).
  exists bytes, m'. split; [exact Hs|exact Hv].
Defined.

(** C13: [verify_manifest_with] never panics, and the manifests it accepts are
    exactly those that were serialized as the given bytes, carry a signature
    of the expected signer over everything else, belong to the session the
    caller named, if it named one, and are admissible: parameters valid, names
    safe, sizes and counts within the limits and the declared total equal to
    the sum of the entries, which does not overflow. *)
Theorem manifest_verified_iff `{Ed25519Laws} signer bytes sid policy v :
  safe (verify_manifest_with signer bytes sid policy)
  /\ (verify_manifest_with signer bytes sid policy = Ok v <->
      vm_signer v = signer /\ wf_manifest (vm_manifest v)
      /\ bytes = Manifest_to_vec (vm_manifest v)
      /\ verify signer (signed_over (vm_manifest v))
           (mh_signature (header (vm_manifest v))) = true
      /\ (forall expected, sid = Some expected ->
          mh_session_id (header (vm_manifest v)) = expected)
      /\ admissible policy (vm_manifest v)).
Proof.
  split.
  - unfold verify_manifest_with. apply safe_bind; [apply verify_signature_safe|]. intros m _.
    destruct (match sid with Some _ => _ | None => _ end); [done|].
    apply safe_bind; [apply check_policy_safe|done].
  - rewrite verify_manifest_with_Ok, verify_signature_Ok. tauto.
Qed.

Lemma manifest_verified_iff_witness :
  safe (verify_manifest_with (public (from_seed (zeros 32))) [] None Policy_default).
Proof.
  apply (manifest_verified_iff (public (from_seed (zeros 32))) [] None Policy_default
    {| vm_manifest := demo_manifest; vm_signer := public (from_seed (zeros 32)) |}).
Defined.

(** policy is applied to authenticated bytes only. When the signature does
    not verify, the outcome is an error that depends on the bytes and the
    signer alone: neither the limits nor the expected session has any
    influence on what is reported. *)
Theorem manifest_policy_after_signature `{Ed25519Laws} signer bytes :
  (forall m, verify_signature signer bytes <> Ok m) ->
  exists e, forall sid policy, verify_manifest_with signer bytes sid policy = Err e.
Proof.
  intros Hno. pose proof (verify_signature_safe signer bytes) as Hs.
  unfold verify_manifest_with. destruct (verify_signature signer bytes) as [m|e|].
  - by destruct (Hno m).
  - by exists e.
  - done.
Qed.

Lemma manifest_policy_after_signature_witness :
  exists e, forall sid policy,
    verify_manifest_with (public (from_seed (zeros 32))) [] sid policy = Err e.
Proof.
  apply manifest_policy_after_signature. intros m Hm. vm_compute in Hm. discriminate Hm.
Defined.
