(* ===== verification/Fuzz.v ===== *)
(** * Fuzz targets (fuzz/fuzz_targets/*.rs)

    The five harnesses state, as assertions, what the parsers promise about any
    input at all. Each is modelled as the function it is: it returns [()] or
    panics at the assertion that failed. The parsers' laws are handed to the
    harnesses through one interface, [Parser]. *)

From S2P Require Import Prelude Harness Errors Crc32c Primitives Instances CryptErrors Utf8 Frame.
From S2P Require Import Session Digest Bitmap Manifest Resume Key SignedManifest.
From Stdlib Require Strings.String.

(** ** Definitions *)

(** *** What a parser promises

    A parser of values of type [A], the printer it is the inverse of, and the
    values it may return. [prefix] parsers read from the start of the input
    and leave a rest, the others account for every byte. *)
Class Parser (E A : Type) := {
  parses : list byte -> outcome E A;
  prints : A -> list byte;
  promised : A -> Prop;
}.

Class PrefixParser (E A : Type) `{Parser E A} : Prop := {
  prefix_safe bytes : safe (parses (E:=E) (A:=A) bytes);
  prefix_sound bytes (a : A) :
    parses (E:=E) bytes = Ok a ->
    promised a /\ bytes = prints a ++ drop (length (prints a)) bytes;
}.

Class ExactParser (E A : Type) `{Parser E A} (small : list byte -> Prop) : Prop := {
  exact_safe bytes : small bytes -> safe (parses (E:=E) (A:=A) bytes);
  exact_sound bytes (a : A) : parses (E:=E) bytes = Ok a -> promised a /\ bytes = prints a;
}.

(** *** frame_decode.rs *)

Section frame_decode.
Context `{Blake3}.

Definition SESSION_KEY : list byte := replicate 32 (byte.of_Z 90).

Definition check_frame (frame : Frame) : target :=
  _ ← assert (len (fr_payload frame) = fh_payload_length (fr_header frame));
  assert (length (Frame_to_vec frame) = FRAME_HEADER_SIZE + length (fr_payload frame))%nat.

(** The header on its own. *)
Definition check_header (data : list byte) (header : FrameHeader) : target :=
  let round_tripped := FrameHeader_to_vec header in
  _ ← assert (length round_tripped = FRAME_HEADER_SIZE);
  head ← slice 0 FRAME_HEADER_SIZE data;
  _ ← assert (round_tripped = head);
  again ← expect (FrameHeader_from_bytes data);
  assert (FrameHeader_to_vec again = round_tripped).

(** The whole frame, with the MAC and CRC recomputed. *)
Definition repaired_frame (header : FrameHeader) (body : list byte) : target :=
  let body := take (Nat.min (length body) (Z.to_nat MAX_PAYLOAD_LEN)) body in
  repaired ← FrameHeader_new (fh_frame_type header) (fh_session_id header)
    (fh_block_index header) (fh_symbol_index header) body;
  let repaired := set_mac repaired (compute_mac repaired SESSION_KEY) in
  let whole := FrameHeader_to_vec repaired ++ body in
  frame ← expect (Frame_from_bytes whole SESSION_KEY);
  _ ← check_frame frame;
  assert (fr_payload frame = body).

Definition frame_decode (data : list byte) : target :=
  _ ← if_ok (FrameHeader_from_bytes data) (check_header data);
  _ ← if_ok (Frame_from_bytes data SESSION_KEY) check_frame;
  if decide (FRAME_HEADER_SIZE <= length data)%nat
  then
    let head := take FRAME_HEADER_SIZE data in
    let body := drop FRAME_HEADER_SIZE data in
    if_ok (FrameHeader_from_bytes head) (fun header => repaired_frame header body)
  else Ok tt.

End frame_decode.

(** *** session_header.rs *)

Definition session_header (data : list byte) : target :=
  if_ok (SessionHeader_from_bytes data) (fun header =>
    let round_tripped := SessionHeader_to_vec header in
    _ ← assert (length round_tripped = SESSION_HEADER_SIZE);
    head ← slice 0 SESSION_HEADER_SIZE data;
    _ ← assert (round_tripped = head);
    let params := sh_params header in
    if is_ok (validate params)
    then
      _ ← assert (0 < block_count params);
      _ ← assert (0 < symbol_size params);
      assert (source_symbols_per_block params <= total_symbols_per_block params)
    else Ok tt).

(** *** manifest_entry.rs *)

Definition manifest_entry (data : list byte) : target :=
  if_ok (FileEntry_from_bytes data) (fun '(entry, consumed) =>
    _ ← assert (consumed <= length data)%nat;
    _ ← assert (consumed = 43 + length (name entry))%nat;
    _ ← assert (name entry <> []);
    _ ← assert (len (name entry) <= MAX_NAME_LEN);
    _ ← assert (head (name entry) <> Some slash);
    _ ← assert (~ backslash ∈ name entry);
    _ ← assert (~ nul ∈ name entry);
    _ ← assert (chars_nth (name entry) 1 <> Some colon);
    _ ← assert (~ dotdot ∈ split slash (name entry));
    let round_tripped := FileEntry_to_vec entry in
    head ← slice 0 consumed data;
    _ ← assert (round_tripped = head);
    assert (Z.land (flags entry) (255 - 1) = 0)).

(** *** manifest_verify.rs *)

Section manifest_verify.
Context `{Ed25519}.

Definition SIGNER : IdentityKey := from_seed (replicate 32 (byte.of_Z 66)).

(** Parsing, on its own. *)
Definition check_parsed (data : list byte) (m : Manifest) : target :=
  _ ← assert (len (entries m) = mh_file_count (header m));
  let serialized := Manifest_to_vec m in
  _ ← assert (MANIFEST_HEADER_SIZE <= length serialized)%nat;
  _ ← assert (length serialized = length data);
  _ ← assert (serialized = data);
  signing ← signing_bytes m;
  assert (length signing = length serialized).

(** What was verified, checked from the outside. [checks] says whether the
    [sum] over the sizes panics when it overflows or wraps. *)
Definition check_verified (checks : bool) (data : list byte) (verified : VerifiedManifest)
    : target :=
  signing_bytes ← expect (signing_bytes_of data);
  let signature := mh_signature (header (vm_manifest verified)) in
  _ ← assert (verify (public SIGNER) signing_bytes signature = true);
  let header := header (vm_manifest verified) in
  summed ← sum_w checks 64 (Manifest.size <$> entries (vm_manifest verified));
  _ ← assert (summed = mh_total_size header);
  assert (is_ok (validate (mh_params header)) = true).

Definition manifest_verify (checks : bool) (data : list byte) : target :=
  let policy := Policy_default in
  _ ← if_ok (Manifest_from_bytes data) (check_parsed data);
  if_ok (verify_manifest_with (public SIGNER) data None policy) (check_verified checks data).

End manifest_verify.

(** *** resume_load.rs *)

Section resume_load.
Context `{Blake3}.

(** The [for (index, entry) in ..] loop. *)
Fixpoint check_blocks (index : Z) (es : list BlockEntry) : target :=
  match es with
  | [] => Ok tt
  | e :: es' =>
    _ ← assert (block_index e = index);
    let required := div_ceil (symbol_count e) 8 in
    _ ← assert (len (symbol_bitmap e) = required);
    check_blocks (index + 1) es'
  end.

Definition resume_load (checks : bool) (data : list byte) : target :=
  if_ok (ResumeFile_from_bytes checks data) (fun file =>
    _ ← assert (len (rf_entries file) = rh_block_count (rf_header file));
    _ ← check_blocks 0 (rf_entries file);
    let serialized := ResumeFile_to_vec file in
    _ ← assert (RESUME_HEADER_SIZE <= length serialized)%nat;
    _ ← assert (length serialized = length data);
    assert (serialized = data)).

End resume_load.

(** *** The parsers as instances *)

#[export] Instance header_parser : Parser FrameError FrameHeader :=
  {| parses := FrameHeader_from_bytes; prints := FrameHeader_to_vec; promised := wf_header |}.

#[export] Instance session_parser : Parser SessionError SessionHeader :=
  {| parses := SessionHeader_from_bytes; prints := SessionHeader_to_vec;
     promised h := length (SessionHeader_to_vec h) = SESSION_HEADER_SIZE /\ wf_params (sh_params h) |}.

#[export] Instance entry_parser : Parser ManifestError (FileEntry * nat) :=
  {| parses := FileEntry_from_bytes; prints e := FileEntry_to_vec e.1;
     promised e := wf_entry e.1 /\ e.2 = length (FileEntry_to_vec e.1) |}.

#[export] Instance manifest_parser : Parser ManifestError Manifest :=
  {| parses := Manifest_from_bytes; prints := Manifest_to_vec; promised := wf_manifest |}.

Definition frame_parser `{Blake3} (key : list byte) : Parser FrameError Frame :=
  {| parses bytes := Frame_from_bytes bytes key; prints := Frame_to_vec;
     promised f := wf_frame f /\ authentic f key |}.

#[export] Instance verified_parser `{Ed25519} : Parser SMani.ManifestError VerifiedManifest :=
  {| parses bytes := verify_manifest_with (public SIGNER) bytes None Policy_default;
     prints v := Manifest_to_vec (vm_manifest v);
     promised v := wf_manifest (vm_manifest v) /\ admissible Policy_default (vm_manifest v)
       /\ verify (public SIGNER) (signed_over (vm_manifest v))
            (mh_signature (header (vm_manifest v))) = true |}.

Definition resume_parser `{Blake3} (checks : bool) : Parser ResumeError ResumeFile :=
  {| parses := ResumeFile_from_bytes checks; prints := ResumeFile_to_vec; promised := wf_resume |}.

(** Parameters a session header carries and [validate] refuses. *)
Definition refused_params : SessionParams :=
  {| payload_size := 0; block_count := 0; symbol_size := 0; source_symbols_per_block := 0;
     total_symbols_per_block := 0; raptorq := {| z := 0; n := 0; psi := 0 |};
     payload_digest := zeros 32 |}.

(** ** Lemmas *)

(** *** The laws of each parser *)

#[export] Instance header_laws : PrefixParser FrameError FrameHeader.
Proof.
  split; [apply header_safe|]. intros bytes h [Hh Hb]%header_inv. split; [done|].
  cbn [prints header_parser]. by rewrite length_header.
Qed.

#[export] Instance session_laws : PrefixParser SessionError SessionHeader.
Proof.
  split; [apply session_safe|]. intros bytes h (Hh & Hs & Hp & Hb)%session_inv.
  assert (Hl : length (SessionHeader_to_vec h) = SESSION_HEADER_SIZE)
    by (rewrite Hh; by apply length_session_to_vec).
  cbn [promised prints session_parser]. by rewrite Hl.
Qed.

#[export] Instance entry_laws : PrefixParser ManifestError (FileEntry * nat).
Proof. split; [apply entry_safe|]. by intros bytes [e n] (? & -> & ?)%entry_inv. Qed.

#[export] Instance manifest_laws : ExactParser ManifestError Manifest (fun _ => True).
Proof. split; [intros; apply manifest_safe|apply manifest_inv]. Qed.

#[export] Instance verified_laws `{Ed25519Laws} :
  ExactParser SMani.ManifestError VerifiedManifest (fun _ => True).
Proof.
  split.
  - intros bytes _. cbn. unfold verify_manifest_with.
    apply safe_bind; [apply verify_signature_safe|]. intros m _.
    apply safe_bind; [apply check_policy_safe|done].
  - intros bytes v (_ & Hs & _ & Ha)%verify_manifest_with_Ok.
    by apply verify_signature_Ok in Hs as (? & ? & ?).
Qed.

Lemma frame_laws `{Blake3Laws} key : @PrefixParser FrameError Frame (frame_parser key).
Proof.
  split; [intros; apply frame_safe|]. intros bytes f (? & ? & rest & ->)%frame_inv.
  split; [done|]. by rewrite drop_app_length.
Qed.

Lemma resume_laws `{Blake3Laws} checks :
  @ExactParser ResumeError ResumeFile (resume_parser checks)
    (fun bytes => checks = false \/ len bytes < 2 ^ 29).
Proof. split; [apply resume_safe|apply resume_inv]. Qed.

(** *** Running a harness *)

(** A harness passes when it does on everything the parser may return. *)
Lemma if_ok_prefix `{PrefixParser E A} bytes (k : A -> target) :
  (forall a rest, promised a -> bytes = prints a ++ rest -> parses (E:=E) bytes = Ok a ->
     k a = Ok tt) ->
  if_ok (parses (E:=E) bytes) k = Ok tt.
Proof.
  intros Hk. pose proof (prefix_safe (E:=E) (A:=A) bytes) as Hs.
  destruct (parses bytes) as [a|e|] eqn:Hp; [|done..]. cbn.
  apply prefix_sound in Hp as Ha. destruct Ha. by eapply Hk.
Qed.

Lemma if_ok_exact {small : list byte -> Prop} `{ExactParser E A small} bytes (k : A -> target) :
  small bytes -> (forall a, promised a -> bytes = prints a -> k a = Ok tt) ->
  if_ok (parses (E:=E) bytes) k = Ok tt.
Proof.
  intros Hb Hk. pose proof (exact_safe (E:=E) (A:=A) bytes Hb) as Hs.
  destruct (parses bytes) as [a|e|] eqn:Hp; [|done..]. cbn.
  apply exact_sound in Hp as Ha. destruct Ha. by eapply Hk.
Qed.

(** *** Each target *)

Section targets.
Context `{Blake3Laws} `{Ed25519Laws}.

Lemma check_frame_pass f : wf_frame f -> check_frame f = Ok tt.
Proof.
  intros []. unfold check_frame. pass; [|done]. apply assert_pass.
  unfold Frame_to_vec. by rewrite length_app, length_header.
Qed.

Lemma check_header_pass data h rest :
  wf_header h -> data = FrameHeader_to_vec h ++ rest -> check_header data h = Ok tt.
Proof.
  intros Hh ->. unfold check_header. pass; [|by apply length_header].
  rewrite slice_here by (by apply length_header). cbn [mbind outcome_bind]. pass; [|done].
  rewrite header_parse_print by done. cbn [expect mbind outcome_bind]. by apply assert_pass.
Qed.

Lemma repaired_frame_pass h body : wf_header h -> repaired_frame h body = Ok tt.
Proof.
  intros [? ? ? Hsid ? Hbi Hsi ? ?]. unfold repaired_frame.
  set (b := take (Nat.min (length body) (Z.to_nat MAX_PAYLOAD_LEN)) body).
  assert (Hb : len b <= MAX_PAYLOAD_LEN)
    by (unfold b, len; rewrite length_take; unfold MAX_PAYLOAD_LEN; lia).
  destruct (FrameHeader_new (E:=Empty_set) (fh_frame_type h) (fh_session_id h)
    (fh_block_index h) (fh_symbol_index h) b) as [r|e|] eqn:Hr.
  2, 3: unfold FrameHeader_new in Hr; by rewrite decide_True in Hr.
  apply header_new_Ok in Hr as (Hwf & Hl & Hc & _); [|done..]. cbn [mbind outcome_bind].
  pose proof (frame_build_wf r b SESSION_KEY Hwf Hl Hc) as [Hfr Hau].
  pose proof (frame_parse_print _ SESSION_KEY [] Hfr Hau) as Hp.
  rewrite app_nil_r in Hp. unfold Frame_to_vec, Frame_build_owned in Hp.
  cbn [fr_header fr_payload] in Hp. rewrite Hp. cbn [expect mbind outcome_bind].
  pose proof (check_frame_pass _ Hfr) as Hcf. unfold Frame_build_owned in Hcf. rewrite Hcf.
  cbn [mbind outcome_bind]. by apply assert_pass.
Qed.

Lemma frame_decode_pass data : frame_decode data = Ok tt.
Proof.
  unfold frame_decode. apply seq_pass; [|apply seq_pass].
  - apply (@if_ok_prefix _ _ header_parser header_laws). intros h rest ? ? _. by eapply check_header_pass.
  - apply (@if_ok_prefix _ _ (frame_parser SESSION_KEY) (frame_laws SESSION_KEY)).
    intros f rest [] _ _. by apply check_frame_pass.
  - case_decide; [|done].
    apply (@if_ok_prefix _ _ header_parser header_laws). intros h rest ? _ _. by apply repaired_frame_pass.
Qed.

Lemma session_header_pass data : session_header data = Ok tt.
Proof.
  unfold session_header. apply (@if_ok_prefix _ _ session_parser session_laws). intros h rest [Hl Hp] -> _.
  pass; [|done]. rewrite slice_here by done. cbn [mbind outcome_bind]. pass; [|done].
  destruct Hp. unfold urange in *. unfold validate.
  do 3 (case_decide; [done|]). cbn [is_ok].
  do 2 (pass; [|lia]). apply assert_pass. lia.
Qed.

Lemma manifest_entry_pass data : manifest_entry data = Ok tt.
Proof.
  unfold manifest_entry. apply (@if_ok_prefix _ _ entry_parser entry_laws).
  intros [e n] rest [[_ (?&?&?&?&?&?&?) _ Hd] Hn] -> _. cbn [fst snd prints entry_parser] in *.
  pose proof (length_entry e Hd) as Hl. unfold ENTRY_FIXED_LEN in Hl. subst n.
  pass; [|rewrite length_app; lia]. pass; [|lia]. do 7 (pass; [|done]).
  rewrite slice_here by done. cbn [mbind outcome_bind]. pass; [|done].
  apply assert_pass. unfold flags. by destruct (executable e).
Qed.

Lemma check_parsed_pass m : wf_manifest m -> check_parsed (Manifest_to_vec m) m = Ok tt.
Proof.
  intros Hm. pose proof Hm as [Hh _ Hc _]. unfold check_parsed. pass; [|done].
  pass; [|unfold Manifest_to_vec; rewrite length_app, length_mheader by done; lia].
  do 2 (pass; [|done]). rewrite signing_bytes_zero by done. cbn [mbind outcome_bind].
  apply assert_pass. unfold Manifest_to_vec, Manifest_build. cbn [header entries].
  rewrite !length_app, !length_mheader by (done || by apply wf_set_signature). done.
Qed.

Lemma check_verified_pass checks v :
  promised v -> check_verified checks (Manifest_to_vec (vm_manifest v)) v = Ok tt.
Proof.
  intros (Hm & Ha & Hv). unfold check_verified.
  rewrite signing_bytes_of_spec, signing_bytes_zero by done. cbn [expect mbind outcome_bind].
  pass; [|done]. destruct Ha as [Hp _ _ Ht _ _ _ Hf].
  rewrite sum_w_Ok; [|apply Forall_fmap; apply (Forall_impl wf_entry); [apply Hm|]|done].
  2: { intros e [_ _ Hs _]. unfold urange in Hs. cbn. lia. }
  cbn [mbind outcome_bind]. pass; [|done]. rewrite Hp. by apply assert_pass.
Qed.

Lemma manifest_verify_pass checks data : manifest_verify checks data = Ok tt.
Proof.
  unfold manifest_verify. apply seq_pass.
  - apply (@if_ok_exact _ _ _ manifest_parser manifest_laws); [done|].
    intros m ? ->. by apply check_parsed_pass.
  - apply (@if_ok_exact _ _ _ verified_parser verified_laws); [done|].
    intros v ? ->. by apply check_verified_pass.
Qed.

Lemma check_blocks_pass es k :
  Forall wf_block es -> block_index <$> es = Z.of_nat <$> seq k (length es) ->
  check_blocks (Z.of_nat k) es = Ok tt.
Proof.
  intros Hes. revert k. induction Hes as [|e es He Hes IH]; intros k Hord; [done|].
  cbn [fmap list_fmap length seq] in Hord. injection Hord as Hi Hord.
  cbn [check_blocks]. pass; [|done]. pass; [|apply He].
  replace (Z.of_nat k + 1) with (Z.of_nat (S k)) by lia. by apply IH.
Qed.

Lemma resume_load_pass checks data :
  checks = false \/ len data < 2 ^ 29 -> resume_load checks data = Ok tt.
Proof.
  intros Hsmall. unfold resume_load.
  apply (@if_ok_exact _ _ _ (resume_parser checks) (resume_laws checks)); [done|].
  intros f Hf ->. pose proof (wf_resume_header f Hf) as [Hh Hn]. pass; [|done].
  rewrite (check_blocks_pass _ 0) by apply Hf. cbn [mbind outcome_bind].
  pass; [|cbn; unfold ResumeFile_to_vec; rewrite length_app, length_rheader by done; lia].
  pass; [|done]. by apply assert_pass.
Qed.

End targets.

(** The harness of the session header asserts less than its comment says: the
    parser accepts parameters [validate] refuses. *)
Example session_header_refused :
  let h := SessionHeader_new (zeros 16) refused_params in
  SessionHeader_from_bytes (SessionHeader_to_vec h) = Ok h
  /\ is_ok (validate refused_params) = false
  /\ session_header (SessionHeader_to_vec h) = Ok tt.
Proof. vm_compute. split; [|split]; reflexivity. Qed.

(** The frame harness reaches its last assertion. *)
Example frame_decode_reaches :
  frame_decode (Frame_to_vec demo_frame) = Ok tt
  /\ is_ok (FrameHeader_from_bytes (take FRAME_HEADER_SIZE (Frame_to_vec demo_frame))) = true.
Proof. vm_compute. split; reflexivity. Qed.

(** ** Properties *)

(** C7: no input makes a fuzz target fail. For every byte string, each of the
    five harnesses runs to its end with every assertion true: headers and
    frames re-serialize to the bytes they came from, a frame rebuilt with its
    MAC and CRC repaired authenticates and carries back its payload, a parsed
    entry obeys the traversal rules restated without [validate_name], whatever
    [verify_manifest_with] accepts has a signature and a total that check out
    from outside, and a resume file accounts for every byte. Only the resume
    target needs a build without overflow checks or an input below 512 MiB. *)
Theorem fuzz_targets_pass `{Blake3Laws} `{Ed25519Laws} checks data :
  frame_decode data = Ok tt
  /\ session_header data = Ok tt
  /\ manifest_entry data = Ok tt
  /\ manifest_verify checks data = Ok tt
  /\ (checks = false \/ len data < 2 ^ 29 -> resume_load checks data = Ok tt).
Proof.
  split; [apply frame_decode_pass|]. split; [apply session_header_pass|].
  split; [apply manifest_entry_pass|]. split; [apply manifest_verify_pass|].
  apply resume_load_pass.
Qed.

Lemma fuzz_targets_pass_witness :
  let data := ResumeFile_to_vec demo_resume in
  frame_decode data = Ok tt /\ session_header data = Ok tt /\ manifest_entry data = Ok tt
  /\ manifest_verify true data = Ok tt /\ resume_load true data = Ok tt.
Proof.
  cbv zeta.
  destruct (fuzz_targets_pass true (ResumeFile_to_vec demo_resume)) as (Hf & Hs & He & Hm & Hr).
  split; [exact Hf|]. split; [exact Hs|]. split; [exact He|]. split; [exact Hm|].
  apply Hr. right. vm_compute. reflexivity.
Defined.
