(* ===== verification/Abi.v ===== *)
(** * The C ABI: state, errors and buffers (dhow-ffi/src/error.rs, guard.rs, lib.rs, handle.rs)

    What every entry point shares: the library's state (the thread's last
    error, the live handles) with the caller's memory and the system around
    it, the status codes, the panic guards, and the conventions for reading
    and writing the caller's buffers. One thread calls the library. *)

From S2P Require Import Prelude Errors CryptErrors Display Primitives Instances.
From S2P Require Import Digest Session Utf8 Manifest Pipeline Fs Key.
From Stdlib Require Strings.String.
From stdpp Require Import gmap.

#[local] Open Scope Z_scope.

(** ** Definitions *)

(** *** Status codes *)

Inductive DhowStatus :=
| SOk
| SNullArgument
| SInvalidArgument
| SBufferTooSmall
| SInvalidParameters
| SFrameRejected
| SIncomplete
| SVerificationFailed
| SCryptoFailed
| SKeyFailed
| SInternal
| SPanic
| SResumeRejected.

#[export] Instance DhowStatus_dec : EqDecision DhowStatus.
Proof. solve_decision. Defined.

(** [status as c_int] *)
Definition status_code (s : DhowStatus) : Z :=
  match s with
  | SOk => 0
  | SNullArgument => -1
  | SInvalidArgument => -2
  | SBufferTooSmall => -3
  | SInvalidParameters => -4
  | SFrameRejected => -5
  | SIncomplete => -6
  | SVerificationFailed => -7
  | SCryptoFailed => -8
  | SKeyFailed => -9
  | SInternal => -10
  | SPanic => -11
  | SResumeRejected => -12
  end.

(** [dhow_status_string], without the terminator *)
Definition dhow_status_string (status : Z) : string :=
  match status with
  | 0 => "ok"
  | -1 => "null argument"
  | -2 => "invalid argument"
  | -3 => "buffer too small"
  | -4 => "invalid session parameters"
  | -5 => "frame rejected"
  | -6 => "incomplete"
  | -7 => "verification failed"
  | -8 => "crypto operation failed"
  | -9 => "key operation failed"
  | -10 => "internal error"
  | -11 => "panic caught at ABI boundary"
  | -12 => "resume state rejected"
  | _ => "unknown status"
  end.

Definition DHOW_ABI_VERSION : Z := 4.

(** [dhow_abi_version] *)
Definition dhow_abi_version : Z := DHOW_ABI_VERSION.

(** [z as c_int], a signed 32-bit integer *)
Definition as_c_int (z : Z) : Z :=
  let m := z mod 2 ^ 32 in if decide (m < 2 ^ 31) then m else m - 2 ^ 32.

(** *** Session parameters as they cross the ABI *)

Record DhowSessionParams := {
  dp_payload_size : Z;
  dp_block_count : Z;
  dp_symbol_size : Z;
  dp_source_symbols_per_block : Z;
  dp_total_symbols_per_block : Z;
  dp_payload_digest : list byte;
}.

(** [DhowSessionParams::to_session_params] *)
Definition to_session_params (p : DhowSessionParams) : SessionParams :=
  {| payload_size := dp_payload_size p; block_count := dp_block_count p;
     symbol_size := dp_symbol_size p;
     source_symbols_per_block := dp_source_symbols_per_block p;
     total_symbols_per_block := dp_total_symbols_per_block p;
     raptorq := {| z := 1; n := 1; psi := 1 |};
     payload_digest := dp_payload_digest p |}.

(** The fields of session parameters that cross the ABI. *)
Definition of_session_params (p : SessionParams) : DhowSessionParams :=
  {| dp_payload_size := payload_size p; dp_block_count := block_count p;
     dp_symbol_size := symbol_size p;
     dp_source_symbols_per_block := source_symbols_per_block p;
     dp_total_symbols_per_block := total_symbols_per_block p;
     dp_payload_digest := payload_digest p |}.

(** *** Memory

    A pointer is null or the address of an object; the caller's objects are
    byte buffers, integers, parameter structs and arrays of file entries, and
    a pointer to the library's objects is a handle. *)

Abbreviation ptr := (option positive).

(** [DhowFileEntry] *)
Record DhowFileEntry := {
  fe_name : ptr;
  fe_size : Z;
  fe_digest : list byte;
  fe_executable : byte;
  fe_reserved : list byte;
}.

Inductive cell :=
| CBytes (bs : list byte)
| CInt (z : Z)
| CParams (p : DhowSessionParams)
| CEntries (es : list DhowFileEntry).

Section abi.
Context `{Blake3} `{RaptorQ} `{Ed25519} `{Getrandom}.

(** What a handle points to: [DhowKey], [DhowEncoder], [DhowDecoder],
    [DhowHasher], [DhowIdentity], [DhowPublicIdentity] and [DhowManifest]. *)
Inductive Object :=
| OKey (inner : OperatorKey)
| OEncoder (frames : list (list byte)) (params : DhowSessionParams)
| ODecoder (inner : PipelineDecoder)
| OHasher (inner : Blake3Hasher)
| OIdentity (inner : IdentityKey)
| OPublic (inner : PublicIdentity)
| OManifest (manifest : Manifest) (bytes : list byte).

Record Lib := {
  last_error : message;
  heap : gmap positive Object;
  mem : gmap positive cell;
  fs : World;
  rng : gr_state;
}.

(** *** Computations at the boundary

    A body either breaks its contract, which is undefined behaviour, or
    unwinds with a panic, or returns. *)
Inductive result (A : Type) :=
| Undefined
| Unwinding (s : Lib)
| Returns (s : Lib) (a : A).

Definition abi (A : Type) : Type := Lib -> result A.

End abi.

Arguments Undefined {_ _ _ _ A}.
Arguments Unwinding {_ _ _ _ A} s.
Arguments Returns {_ _ _ _ A} s a.

Section boundary.
Context `{Blake3} `{RaptorQ} `{Ed25519} `{Getrandom}.

#[export] Instance abi_ret : MRet abi := fun A a s => Returns s a.

#[export] Instance abi_bind : MBind abi := fun A B k m s =>
  match m s with
  | Undefined => Undefined
  | Unwinding s' => Unwinding s'
  | Returns s' a => k a s'
  end.

Definition undefined {A} : abi A := fun _ => Undefined.

(** A computation of the crates below: its panics unwind. *)
Definition run {E A} (m : outcome E A) : abi (E + A) := fun s =>
  match m with
  | Ok a => Returns s (inr a)
  | Err e => Returns s (inl e)
  | Panic => Unwinding s
  end.

(** One that returns no error. *)
Definition run_total {A} (m : outcome Empty_set A) : abi A := fun s =>
  match m with
  | Ok a => Returns s a
  | Err e => match e with end
  | Panic => Unwinding s
  end.

(** [set_last_error], [clear_last_error] and [fail] *)
Definition set_last_error (m : message) : abi unit := fun s =>
  Returns {| last_error := m; heap := heap s; mem := mem s; fs := fs s; rng := rng s |} tt.

Definition clear_last_error : abi unit := set_last_error [].

Definition fail (status : DhowStatus) (m : message) : abi DhowStatus :=
  _ ← set_last_error m; mret status.

(** A constructor that fails: the text, and a null pointer. *)
Definition fail_null (m : message) : abi ptr := _ ← set_last_error m; mret None.

(** *** The library's own objects *)

Definition set_heap (h : gmap positive Object) (s : Lib) : Lib :=
  {| last_error := last_error s; heap := h; mem := mem s; fs := fs s; rng := rng s |}.

(** [Box::into_raw(Box::new(o))] *)
Definition into_raw (o : Object) : abi ptr := fun s =>
  let l := fresh (dom (heap s)) in
  Returns (set_heap (<[l := o]> (heap s)) s) (Some l).

(** A handle of the wrong type, or one that is not live, is undefined
    behaviour to use. *)
Definition deref (l : positive) : abi Object := fun s =>
  match heap s !! l with
  | Some o => Returns s o
  | None => Undefined
  end.

Definition assign (l : positive) (o : Object) : abi unit := fun s =>
  Returns (set_heap (<[l := o]> (heap s)) s) tt.

(** [drop(Box::from_raw(l))] *)
Definition from_raw (l : positive) : abi unit := fun s =>
  Returns (set_heap (delete l (heap s)) s) tt.

(** *** Randomness and files *)

Definition draw {E A} (m : action gr_state E A) : abi (E + A) := fun s =>
  let s' r := {| last_error := last_error s; heap := heap s; mem := mem s; fs := fs s; rng := r |} in
  match m (rng s) with
  | (r, Ok a) => Returns (s' r) (inr a)
  | (r, Err e) => Returns (s' r) (inl e)
  | (r, Panic) => Unwinding (s' r)
  end.

Definition with_files {E A} (m : action World E A) : abi (E + A) := fun s =>
  let s' w := {| last_error := last_error s; heap := heap s; mem := mem s; fs := w; rng := rng s |} in
  match m (fs s) with
  | (w, Ok a) => Returns (s' w) (inr a)
  | (w, Err e) => Returns (s' w) (inl e)
  | (w, Panic) => Unwinding (s' w)
  end.

(** *** The caller's buffers *)

Definition set_mem (m : gmap positive cell) (s : Lib) : Lib :=
  {| last_error := last_error s; heap := heap s; mem := m; fs := fs s; rng := rng s |}.

(** [slice_from]: [None] for a null pointer; reading past the end of the
    caller's buffer is undefined. *)
Definition slice_from (p : ptr) (n : Z) : abi (option (list byte)) := fun s =>
  match p with
  | None => Returns s None
  | Some l =>
      if decide (n = 0) then Returns s (Some [])
      else
        match mem s !! l with
        | Some (CBytes bs) =>
            if decide (n <= len bs) then Returns s (Some (take (Z.to_nat n) bs)) else Undefined
        | _ => Undefined
        end
  end.

(** [std::ptr::copy_nonoverlapping(data, buf, data.len())] *)
Definition copy_to (l : positive) (data : list byte) : abi unit := fun s =>
  if decide (data = []) then Returns s tt
  else
    match mem s !! l with
    | Some (CBytes bs) =>
        if decide (len data <= len bs)
        then Returns (set_mem (<[l := CBytes (data ++ drop (length data) bs)]> (mem s)) s) tt
        else Undefined
    | _ => Undefined
    end.

(** [*out = z] and [*out = params] *)
Definition store_int (l : positive) (z : Z) : abi unit := fun s =>
  match mem s !! l with
  | Some (CInt _) => Returns (set_mem (<[l := CInt z]> (mem s)) s) tt
  | _ => Undefined
  end.

Definition store_params (l : positive) (p : DhowSessionParams) : abi unit := fun s =>
  match mem s !! l with
  | Some (CParams _) => Returns (set_mem (<[l := CParams p]> (mem s)) s) tt
  | _ => Undefined
  end.

(** [if !out.is_null() { *out = z }] *)
Definition store_int_opt (p : ptr) (z : Z) : abi unit :=
  match p with None => mret tt | Some l => store_int l z end.

(** [write_out], the two-call size convention *)
Definition write_out (data : list byte) (buf : ptr) (n : Z) (written : ptr) : abi DhowStatus :=
  _ ← store_int_opt written (len data);
  match buf with
  | None => mret SOk
  | Some l =>
      if decide (n < len data)
      then fail SBufferTooSmall
        [Txt "buffer of "; Dec n; Txt " bytes is too small; "; Dec (len data); Txt " required"]
      else _ ← copy_to l data; mret SOk
  end.

(** The bytes of a C string up to its terminator; none when there is none. *)
Fixpoint until_nul (bs : list byte) : option (list byte) :=
  match bs with
  | [] => None
  | b :: bs' => if decide (b = Byte.x00) then Some [] else s ← until_nul bs'; Some (b :: s)
  end.

(** [CStr::from_ptr(p)] for a pointer that is not null *)
Definition c_str (l : positive) : abi (list byte) := fun s =>
  match mem s !! l with
  | Some (CBytes bs) =>
      match until_nul bs with Some str => Returns s str | None => Undefined end
  | _ => Undefined
  end.

(** [path_from] *)
Definition path_from (p : ptr) : abi (option string) :=
  match p with
  | None => mret None
  | Some l => str ← c_str l; mret (String.string_of_list_byte <$> from_utf8 str)
  end.

(** *** The panic guards *)

Definition panic_text : message :=
  [Txt "internal error: a panic was caught at the ABI boundary; this is a bug in dhow"].

(** [catch_unwind]: a body that unwinds leaves its state behind, and the
    boundary reports [on_panic]. *)
Definition catch {A} (on_panic : A) (body : abi A) : abi A := fun s =>
  match body s with
  | Unwinding s' => (_ ← set_last_error panic_text; mret on_panic) s'
  | r => r
  end.

(** [guard] (whose name the library uses for something else), [guard_ptr], [guard_unit] and [guard_int] *)
Definition guard_status (body : abi DhowStatus) : abi DhowStatus := catch SPanic body.
Definition guard_ptr (body : abi ptr) : abi ptr := catch None body.
Definition guard_unit (body : abi unit) : abi unit := catch tt body.
Definition guard_int (body : abi Z) : abi Z := catch (status_code SPanic) body.

(** [dhow_last_error_message]; [len] is a [usize]. *)
Definition dhow_last_error_message (buf : ptr) (n : Z) : abi Z :=
  guard_int (fun s =>
    let bytes := render (last_error s) in
    let needed := len bytes + 1 in
    match buf with
    | None => Returns s (as_c_int needed)
    | Some l =>
        if decide (n < needed) then Returns s (status_code SBufferTooSmall)
        else (_ ← copy_to l (bytes ++ [Byte.x00]); mret (as_c_int needed)) s
    end).

(** *** Contracts

    What the safety comments ask of the caller. *)

Definition readable (s : Lib) (p : ptr) (n : Z) : Prop :=
  match p with
  | None => True
  | Some l => n = 0 \/ exists bs, mem s !! l = Some (CBytes bs) /\ n <= len bs
  end.

Definition int_cell (s : Lib) (p : ptr) : Prop :=
  match p with None => True | Some l => exists z, mem s !! l = Some (CInt z) end.

Definition params_cell (s : Lib) (p : ptr) : Prop :=
  match p with None => True | Some l => exists q, mem s !! l = Some (CParams q) end.

Definition c_string (s : Lib) (p : ptr) : Prop :=
  match p with
  | None => True
  | Some l => exists bs, mem s !! l = Some (CBytes bs) /\ is_Some (until_nul bs)
  end.

(** A live handle of the type [P] describes, or null. *)
Definition live (P : Object -> Prop) (s : Lib) (p : ptr) : Prop :=
  match p with None => True | Some l => exists o, heap s !! l = Some o /\ P o end.

End boundary.
