(* ===== verification/AbiKeys.v ===== *)
(** * The C ABI: keys and identities (dhow-ffi/src/handle.rs)

    Operator keys, identity keypairs and public identities behind handles. *)

From S2P Require Import Prelude Errors CryptErrors Display Primitives Instances.
From S2P Require Import Text Fs Key Abi.
From stdpp Require Import gmap.

#[local] Open Scope Z_scope.

(** ** Definitions *)

Section keys.
Context `{Blake3} `{RaptorQ} `{Ed25519} `{Getrandom}.

(** [&*key] and friends, for a pointer that is not null *)
Definition deref_key (l : positive) : abi OperatorKey :=
  o ← deref l; match o with OKey k => mret k | _ => undefined end.

Definition deref_identity (l : positive) : abi IdentityKey :=
  o ← deref l; match o with OIdentity k => mret k | _ => undefined end.

Definition deref_public (l : positive) : abi PublicIdentity :=
  o ← deref l; match o with OPublic p => mret p | _ => undefined end.

(** The common shape of the constructors: box the value or report the error. *)
Definition boxed {E A} (make : A -> Object) (display : E -> message) (r : E + A) : abi ptr :=
  match r with
  | inr a => into_raw (make a)
  | inl e => fail_null (display e)
  end.

(** *** Operator keys *)

(** [dhow_key_generate] *)
Definition dhow_key_generate : abi ptr :=
  guard_ptr (
    _ ← clear_last_error;
    r ← draw OperatorKey_generate;
    boxed OKey KeyError_display r).

(** [dhow_key_load] *)
Definition dhow_key_load (path : ptr) : abi ptr :=
  guard_ptr (
    _ ← clear_last_error;
    p ← path_from path;
    match p with
    | None => fail_null [Txt "key path was null or not valid UTF-8"]
    | Some path => r ← with_files (load_operator path); boxed OKey KeyError_display r
    end).

(** [dhow_key_save] *)
Definition dhow_key_save (key path : ptr) : abi DhowStatus :=
  guard_status (
    _ ← clear_last_error;
    match key with
    | None => fail SNullArgument [Txt "key handle was null"]
    | Some l =>
      p ← path_from path;
      match p with
      | None => fail SNullArgument [Txt "key path was null or not UTF-8"]
      | Some path =>
        key ← deref_key l;
        r ← with_files (save_operator path key);
        match r with
        | inr _ => mret SOk
        | inl e => fail SKeyFailed (KeyError_display e)
        end
      end
    end).

(** The [_free] functions: null is a no-op, and the object must be of the
    handle's type. *)
Definition free (is_type : Object -> bool) (p : ptr) : abi unit :=
  guard_unit (
    match p with
    | None => mret tt
    | Some l => o ← deref l; if is_type o then from_raw l else undefined
    end).

Definition is_key (o : Object) : bool := match o with OKey _ => true | _ => false end.
Definition is_identity (o : Object) : bool := match o with OIdentity _ => true | _ => false end.
Definition is_public (o : Object) : bool := match o with OPublic _ => true | _ => false end.

(** [dhow_key_free] *)
Definition dhow_key_free : ptr -> abi unit := free is_key.

(** *** Identities *)

(** [dhow_identity_generate] *)
Definition dhow_identity_generate : abi ptr :=
  guard_ptr (
    _ ← clear_last_error;
    r ← draw IdentityKey_generate;
    boxed OIdentity KeyError_display r).

(** [dhow_identity_load] *)
Definition dhow_identity_load (path : ptr) : abi ptr :=
  guard_ptr (
    _ ← clear_last_error;
    p ← path_from path;
    match p with
    | None => fail_null [Txt "identity path was null or not valid UTF-8"]
    | Some path => r ← with_files (load_identity path); boxed OIdentity KeyError_display r
    end).

(** [dhow_identity_save] *)
Definition dhow_identity_save (identity path : ptr) : abi DhowStatus :=
  guard_status (
    _ ← clear_last_error;
    match identity with
    | None => fail SNullArgument [Txt "identity handle was null"]
    | Some l =>
      p ← path_from path;
      match p with
      | None => fail SNullArgument [Txt "identity path was null or not UTF-8"]
      | Some path =>
        identity ← deref_identity l;
        r ← with_files (save_identity path identity);
        match r with
        | inr _ => mret SOk
        | inl e => fail SKeyFailed (KeyError_display e)
        end
      end
    end).

(** [dhow_identity_public] *)
Definition dhow_identity_public (identity : ptr) : abi ptr :=
  guard_ptr (
    _ ← clear_last_error;
    match identity with
    | None => fail_null [Txt "identity handle was null"]
    | Some l => identity ← deref_identity l; into_raw (OPublic (public identity))
    end).

(** [dhow_identity_free] *)
Definition dhow_identity_free : ptr -> abi unit := free is_identity.

(** *** Public identities *)

(** [dhow_public_load] *)
Definition dhow_public_load (path : ptr) : abi ptr :=
  guard_ptr (
    _ ← clear_last_error;
    p ← path_from path;
    match p with
    | None => fail_null [Txt "public identity path was null or not valid UTF-8"]
    | Some path => r ← with_files (load_public path); boxed OPublic KeyError_display r
    end).

(** [dhow_public_save] *)
Definition dhow_public_save (public path : ptr) : abi DhowStatus :=
  guard_status (
    _ ← clear_last_error;
    match public with
    | None => fail SNullArgument [Txt "public identity handle was null"]
    | Some l =>
      p ← path_from path;
      match p with
      | None => fail SNullArgument [Txt "public identity path was null or not UTF-8"]
      | Some path =>
        public ← deref_public l;
        r ← with_files (save_public path public);
        match r with
        | inr _ => mret SOk
        | inl e => fail SKeyFailed (KeyError_display e)
        end
      end
    end).

(** [dhow_public_bytes] *)
Definition dhow_public_bytes (public out : ptr) : abi DhowStatus :=
  guard_status (
    _ ← clear_last_error;
    match public with
    | None => fail SNullArgument [Txt "public identity handle was null"]
    | Some l =>
      match out with
      | None => fail SNullArgument [Txt "output pointer was null"]
      | Some o =>
        public ← deref_public l;
        _ ← copy_to o (PublicIdentity_to_bytes public);
        mret SOk
      end
    end).

(** [PublicIdentity::fingerprint]: the first eight bytes of the digest in
    hexadecimal, separated by colons. *)
Fixpoint colon_separated (l : list (list byte)) : list byte :=
  match l with
  | [] => []
  | [x] => x
  | x :: l' => x ++ text ":" ++ colon_separated l'
  end.

Definition fingerprint (p : PublicIdentity) : list byte :=
  colon_separated (hex2 <$> take 8 (b3_hash (PublicIdentity_to_bytes p))).

(** [dhow_public_fingerprint] *)
Definition dhow_public_fingerprint (public buf : ptr) (len : Z) (written : ptr)
    : abi DhowStatus :=
  guard_status (
    _ ← clear_last_error;
    match public with
    | None => fail SNullArgument [Txt "public identity handle was null"]
    | Some l => public ← deref_public l; write_out (fingerprint public) buf len written
    end).

(** [dhow_public_free] *)
Definition dhow_public_free : ptr -> abi unit := free is_public.

End keys.
