(* ===== verification/AbiCodec.v ===== *)
(** * The C ABI: encoder, decoder, resume state, digests and QR codes
    (dhow-ffi/src/handle.rs) *)

From S2P Require Import Prelude Errors CryptErrors Display Primitives Instances.
From S2P Require Import Digest Session Resume Pipeline Kdf Key Aead Abi AbiKeys.
From S2P Require Qr.
From stdpp Require Import gmap.

#[local] Open Scope Z_scope.

(** ** Definitions *)

Section codec.
Context `{Blake3} `{RaptorQ} `{Ed25519} `{Getrandom}.

Definition deref_encoder (l : positive) : abi (list (list byte) * DhowSessionParams) :=
  o ← deref l; match o with OEncoder frames params => mret (frames, params) | _ => undefined end.

Definition deref_decoder (l : positive) : abi PipelineDecoder :=
  o ← deref l; match o with ODecoder d => mret d | _ => undefined end.

Definition deref_hasher (l : positive) : abi Blake3Hasher :=
  o ← deref l; match o with OHasher h => mret h | _ => undefined end.

Definition is_encoder (o : Object) : bool := match o with OEncoder _ _ => true | _ => false end.
Definition is_decoder (o : Object) : bool := match o with ODecoder _ => true | _ => false end.
Definition is_hasher (o : Object) : bool := match o with OHasher _ => true | _ => false end.

(** [i32::from(b)] *)
Definition bool_int (b : bool) : Z := if b then 1 else 0.

Section transfer.
Context `{Aead}.
Variable checks : bool.

(** *** Encoder *)

(** [dhow_encoder_new] *)
Definition dhow_encoder_new (key session_id salt nonce : ptr) (params_in : DhowSessionParams)
    (payload : ptr) (payload_len : Z) : abi ptr :=
  guard_ptr (
    _ ← clear_last_error;
    match key with
    | None => fail_null [Txt "key handle was null"]
    | Some kl =>
      sid ← slice_from session_id 16;
      salt ← slice_from salt 32;
      nonce ← slice_from nonce 24;
      payload ← slice_from payload payload_len;
      match sid, salt, nonce, payload with
      | Some sid, Some salt, Some nonce, Some payload =>
        key ← deref_key kl;
        r ← run (TransferKeys_derive key (Salt_from_bytes salt));
        match r with
        | inl e => fail_null (AeadError_display e)
        | inr keys =>
          r ← run (encrypt_payload keys (Nonce_from_bytes nonce) sid payload);
          match r with
          | inl e => fail_null (AeadError_display e)
          | inr ciphertext =>
            let params := to_session_params params_in in
            let params :=
              {| payload_size := len ciphertext; block_count := block_count params;
                 symbol_size := symbol_size params;
                 source_symbols_per_block := source_symbols_per_block params;
                 total_symbols_per_block := total_symbols_per_block params;
                 raptorq := raptorq params;
                 payload_digest := blake3_digest ciphertext |} in
            r ← run (Pipeline_new checks sid params (session_key keys));
            match r with
            | inl e => fail_null (CodecError_display e)
            | inr pipeline =>
              let resolved :=
                {| dp_payload_size := payload_size params;
                   dp_block_count := dp_block_count params_in;
                   dp_symbol_size := dp_symbol_size params_in;
                   dp_source_symbols_per_block := dp_source_symbols_per_block params_in;
                   dp_total_symbols_per_block := dp_total_symbols_per_block params_in;
                   dp_payload_digest := payload_digest params |} in
              r ← run (encode_to_bytes checks pipeline ciphertext);
              match r with
              | inr frames => into_raw (OEncoder frames resolved)
              | inl e => fail_null (CodecError_display e)
              end
            end
          end
        end
      | _, _, _, _ => fail_null [Txt "a required pointer argument was null"]
      end
    end).

(** [dhow_encoder_params] *)
Definition dhow_encoder_params (encoder out : ptr) : abi DhowStatus :=
  guard_status (
    _ ← clear_last_error;
    match encoder, out with
    | Some l, Some o =>
      e ← deref_encoder l;
      _ ← store_params o e.2;
      mret SOk
    | _, _ => fail SNullArgument [Txt "a required pointer was null"]
    end).

(** [dhow_encoder_frame_count] *)
Definition dhow_encoder_frame_count (encoder : ptr) : abi Z :=
  guard_int (
    match encoder with
    | None => mret (status_code SNullArgument)
    | Some l => e ← deref_encoder l; mret (as_c_int (len e.1))
    end).

(** [dhow_encoder_frame] *)
Definition dhow_encoder_frame (encoder : ptr) (index : Z) (buf : ptr) (length : Z)
    (written : ptr) : abi DhowStatus :=
  guard_status (
    _ ← clear_last_error;
    match encoder with
    | None => fail SNullArgument [Txt "encoder handle was null"]
    | Some l =>
      e ← deref_encoder l;
      match e.1 !! Z.to_nat index with
      | None => fail SInvalidArgument
          [Txt "frame index "; Dec index; Txt " out of range; encoder holds "; Dec (len e.1)]
      | Some frame => write_out frame buf length written
      end
    end).

(** [dhow_encoder_free] *)
Definition dhow_encoder_free : ptr -> abi unit := free is_encoder.

(** *** Decoder *)

(** [dhow_decoder_new] *)
Definition dhow_decoder_new (key session_id salt : ptr) (params : DhowSessionParams) : abi ptr :=
  guard_ptr (
    _ ← clear_last_error;
    match key with
    | None => fail_null [Txt "key handle was null"]
    | Some kl =>
      sid ← slice_from session_id 16;
      salt ← slice_from salt 32;
      match sid, salt with
      | Some sid, Some salt =>
        key ← deref_key kl;
        r ← run (TransferKeys_derive key (Salt_from_bytes salt));
        match r with
        | inl e => fail_null (AeadError_display e)
        | inr keys =>
          r ← run (PipelineDecoder_new checks sid (to_session_params params) (session_key keys));
          boxed ODecoder CodecError_display r
        end
      | _, _ => fail_null [Txt "a required pointer argument was null"]
      end
    end).

(** [decoder.inner.accept(frame)]: the decoder keeps what the call did to it,
    a panic included. *)
Definition run_accept (l : positive) (frame : list byte)
    : abi (CodecError + FrameOutcome) :=
  d ← deref_decoder l;
  let '(d', r) := accept checks frame d in
  _ ← assign l (ODecoder d');
  run r.

(** [dhow_decoder_accept] *)
Definition dhow_decoder_accept (decoder frame : ptr) (length : Z) : abi DhowStatus :=
  guard_status (
    _ ← clear_last_error;
    match decoder with
    | None => fail SNullArgument [Txt "decoder handle was null"]
    | Some l =>
      frame ← slice_from frame length;
      match frame with
      | None => fail SNullArgument [Txt "frame pointer was null"]
      | Some frame =>
        r ← run_accept l frame;
        match r with
        | inr _ => mret SOk
        | inl e => fail SFrameRejected (CodecError_display e)
        end
      end
    end).

(** [dhow_decoder_is_complete] and [dhow_decoder_blocks_complete] *)
Definition dhow_decoder_is_complete (decoder : ptr) : abi Z :=
  guard_int (
    match decoder with
    | None => mret (status_code SNullArgument)
    | Some l => d ← deref_decoder l; mret (bool_int (is_complete d))
    end).

Definition dhow_decoder_blocks_complete (decoder : ptr) : abi Z :=
  guard_int (
    match decoder with
    | None => mret (status_code SNullArgument)
    | Some l => d ← deref_decoder l; mret (as_c_int (blocks_complete d))
    end).

(** [dhow_decoder_finish] *)
Definition dhow_decoder_finish (decoder key session_id salt nonce buf : ptr) (length : Z)
    (written : ptr) : abi DhowStatus :=
  guard_status (
    _ ← clear_last_error;
    match decoder, key with
    | Some dl, Some kl =>
      sid ← slice_from session_id 16;
      salt ← slice_from salt 32;
      nonce ← slice_from nonce 24;
      match sid, salt, nonce with
      | Some sid, Some salt, Some nonce =>
        d ← deref_decoder dl;
        key ← deref_key kl;
        if is_complete d
        then
          r ← run (finish d);
          match r with
          | inl e => fail SVerificationFailed (CodecError_display e)
          | inr ciphertext =>
            r ← run (TransferKeys_derive key (Salt_from_bytes salt));
            match r with
            | inl e => fail SKeyFailed (AeadError_display e)
            | inr keys =>
              r ← run (decrypt_payload_in_place keys (Nonce_from_bytes nonce) sid ciphertext);
              match r with
              | inl e => fail SCryptoFailed (AeadError_display e)
              | inr plaintext => write_out plaintext buf length written
              end
            end
          end
        else fail SIncomplete [Txt "transfer is not complete; more frames are needed"]
      | _, _, _ => fail SNullArgument [Txt "a required pointer was null"]
      end
    | _, _ => fail SNullArgument [Txt "a required handle was null"]
    end).

(** *** Resume state *)

(** [dhow_decoder_resume_state] *)
Definition dhow_decoder_resume_state (decoder : ptr) (journal_bytes : Z) (buf : ptr)
    (length : Z) (written : ptr) : abi DhowStatus :=
  guard_status (
    _ ← clear_last_error;
    match decoder with
    | None => fail SNullArgument [Txt "decoder handle was null"]
    | Some l =>
      d ← deref_decoder l;
      file ← run_total (resume_state journal_bytes d);
      write_out (ResumeFile_to_vec file) buf length written
    end).

(** [dhow_resume_state_read] *)
Definition dhow_resume_state_read (state : ptr) (state_len : Z)
    (session_id_out journal_bytes_out block_count_out : ptr) : abi DhowStatus :=
  guard_status (
    _ ← clear_last_error;
    state ← slice_from state state_len;
    match state with
    | None => fail SNullArgument [Txt "resume state pointer was null"]
    | Some state =>
      r ← run (ResumeFile_from_bytes checks state);
      match r with
      | inl e => fail SResumeRejected (ResumeError_display e)
      | inr file =>
        _ ← match session_id_out with
            | None => mret tt
            | Some o => copy_to o (rh_session_id (rf_header file))
            end;
        _ ← store_int_opt journal_bytes_out (rh_journal_bytes (rf_header file));
        _ ← store_int_opt block_count_out (rh_block_count (rf_header file));
        mret SOk
      end
    end).

(** [dhow_decoder_resume_verify] *)
Definition dhow_decoder_resume_verify (decoder state : ptr) (state_len : Z) : abi DhowStatus :=
  guard_status (
    _ ← clear_last_error;
    match decoder with
    | None => fail SNullArgument [Txt "decoder handle was null"]
    | Some l =>
      state ← slice_from state state_len;
      match state with
      | None => fail SNullArgument [Txt "resume state pointer was null"]
      | Some state =>
        d ← deref_decoder l;
        r ← run (ResumeFile_from_bytes checks state);
        match r with
        | inl e => fail SResumeRejected (ResumeError_display e)
        | inr file =>
          r ← run (verify_resume d file);
          match r with
          | inr _ => mret SOk
          | inl e => fail SResumeRejected (CodecError_display e)
          end
        end
      end
    end).

(** [dhow_decoder_free] *)
Definition dhow_decoder_free : ptr -> abi unit := free is_decoder.

End transfer.

(** *** Digests *)

(** [dhow_blake3] *)
Definition dhow_blake3 (data : ptr) (length : Z) (out : ptr) : abi DhowStatus :=
  guard_status (
    _ ← clear_last_error;
    match out with
    | None => fail SNullArgument [Txt "output pointer was null"]
    | Some o =>
      data ← slice_from data length;
      match data with
      | None => fail SNullArgument [Txt "data pointer was null"]
      | Some data => _ ← copy_to o (blake3_digest data); mret SOk
      end
    end).

(** [dhow_hasher_new] *)
Definition dhow_hasher_new : abi ptr :=
  guard_ptr (_ ← clear_last_error; into_raw (OHasher Blake3Hasher_new)).

(** [dhow_hasher_update] *)
Definition dhow_hasher_update (hasher data : ptr) (length : Z) : abi DhowStatus :=
  guard_status (
    _ ← clear_last_error;
    match hasher with
    | None => fail SNullArgument [Txt "hasher handle was null"]
    | Some l =>
      data ← slice_from data length;
      match data with
      | None => fail SNullArgument [Txt "data pointer was null"]
      | Some data =>
        h ← deref_hasher l;
        _ ← assign l (OHasher (update h data));
        mret SOk
      end
    end).

(** [dhow_hasher_finish] *)
Definition dhow_hasher_finish (hasher out : ptr) : abi DhowStatus :=
  guard_status (
    _ ← clear_last_error;
    match hasher with
    | None => fail SNullArgument [Txt "hasher handle was null"]
    | Some l =>
      match out with
      | None => fail SNullArgument [Txt "output pointer was null"]
      | Some o =>
        h ← deref_hasher l;
        _ ← copy_to o (finalize h);
        mret SOk
      end
    end).

(** [dhow_hasher_free] *)
Definition dhow_hasher_free : ptr -> abi unit := free is_hasher.

(** *** QR codes *)

Section qr.
Context `{Qrcodegen}.

(** [dhow_qr_capacity]; the letter is a [c_char]. *)
Definition dhow_qr_capacity (version ecc : Z) : abi Z :=
  guard_int (
    match Qr.from_letter (as_u 8 ecc) with
    | None => mret (status_code SInvalidArgument)
    | Some level =>
      r ← run (Qr.capacity version level);
      match r with
      | inr n => mret (as_c_int n)
      | inl _ => mret (status_code SInvalidArgument)
      end
    end).

(** [dhow_qr_max_symbol_size] *)
Definition dhow_qr_max_symbol_size (version ecc : Z) : abi Z :=
  guard_int (
    match Qr.from_letter (as_u 8 ecc) with
    | None => mret (status_code SInvalidArgument)
    | Some level =>
      r ← run (Qr.max_symbol_size version level);
      match r with
      | inr (Some n) => mret (as_c_int n)
      | inr None => mret 0
      | inl _ => mret (status_code SInvalidArgument)
      end
    end).

(** [dhow_qr_encode_frame] *)
Definition dhow_qr_encode_frame (frame : ptr) (frame_len version ecc : Z) (buf : ptr)
    (length : Z) (size written : ptr) : abi DhowStatus :=
  guard_status (
    _ ← clear_last_error;
    match Qr.from_letter (as_u 8 ecc) with
    | None => fail SInvalidArgument [Txt "error-correction level must be L, M, Q, or H"]
    | Some level =>
      frame ← slice_from frame frame_len;
      match frame with
      | None => fail SNullArgument [Txt "frame pointer was null"]
      | Some frame =>
        r ← run (if decide (version = 0) then Qr.encode_with frame level
                 else Qr.encode_at frame version level);
        match r with
        | inl e => fail SInvalidArgument (QrError_display e)
        | inr qr =>
          _ ← store_int_opt size (as_u 32 (Qr.size qr));
          write_out (Qr.to_modules qr) buf length written
        end
      end
    end).

End qr.

End codec.
