(* ===== verification/AbiManifest.v ===== *)
(** * The C ABI: manifests (dhow-ffi/src/handle.rs)

    Building and signing a manifest from a caller's inventory, verifying one,
    and reading its fields and entries. *)

From S2P Require Import Prelude Errors CryptErrors Display Primitives Instances.
From S2P Require Import Utf8 Session Manifest Key SignedManifest Abi AbiKeys AbiCodec.
From stdpp Require Import gmap.

#[local] Open Scope Z_scope.

(** ** Definitions *)

Section manifests.
Context `{Blake3} `{RaptorQ} `{Ed25519} `{Getrandom}.

Definition deref_manifest (l : positive) : abi (Manifest * list byte) :=
  o ← deref l; match o with OManifest m bytes => mret (m, bytes) | _ => undefined end.

Definition is_manifest (o : Object) : bool := match o with OManifest _ _ => true | _ => false end.

(** The loop of [entries_from], from entry [i] on. *)
Fixpoint entries_loop (i : Z) (raw : list DhowFileEntry) : abi (message + list FileEntry) :=
  match raw with
  | [] => mret (inr [])
  | entry :: raw' =>
    match fe_name entry with
    | None => mret (inl [Txt "file entry "; Dec i; Txt " had a null name"])
    | Some nl =>
      if decide (fe_reserved entry <> zeros 7)
      then mret (inl [Txt "file entry "; Dec i; Txt " set a reserved byte"])
      else
        bytes ← c_str nl;
        match from_utf8 bytes with
        | None =>
          mret (inl [Txt "file entry "; Dec i; Txt " had a name that is not valid UTF-8"])
        | Some name =>
          r ← run (validate_name name);
          match r with
          | inl e => mret (inl (Txt "file entry " :: Dec i :: Txt ": " :: ManifestError_display e))
          | inr _ =>
            rest ← entries_loop (i + 1) raw';
            match rest with
            | inl e => mret (inl e)
            | inr out =>
              mret (inr (with_mode name (fe_size entry) (fe_digest entry)
                          (bool_decide (fe_executable entry <> Byte.x00)) :: out))
            end
          end
        end
    end
  end.

(** [slice::from_raw_parts(entries, count)] *)
Definition read_raw (l : positive) (count : Z) : abi (list DhowFileEntry) := fun s =>
  match mem s !! l with
  | Some (CEntries es) =>
      if decide (count <= len es) then Returns s (take (Z.to_nat count) es) else Undefined
  | _ => Undefined
  end.

(** [entries_from] *)
Definition entries_from (entries : ptr) (count : Z) : abi (message + list FileEntry) :=
  if decide (count = 0) then mret (inr [])
  else
    match entries with
    | None => mret (inl [Txt "file entry array was null"])
    | Some l => raw ← read_raw l count; entries_loop 0 raw
    end.

(** [dhow_manifest_build] *)
Definition dhow_manifest_build (checks : bool) (identity session_id salt nonce : ptr)
    (params : DhowSessionParams) (entries : ptr) (count : Z) : abi ptr :=
  guard_ptr (
    _ ← clear_last_error;
    match identity with
    | None => fail_null [Txt "identity handle was null"]
    | Some il =>
      sid ← slice_from session_id 16;
      salt ← slice_from salt 32;
      nonce ← slice_from nonce 24;
      match sid, salt, nonce with
      | Some sid, Some salt, Some nonce =>
        es ← entries_from entries count;
        match es with
        | inl e => fail_null e
        | inr es =>
          total ← run_total (sum_w checks 64 (Manifest.size <$> es));
          let header := ManifestHeader_new sid es total salt nonce (to_session_params params) in
          let unsigned := Manifest_build header es (zeros 64) in
          identity ← deref_identity il;
          bytes ← run_total (sign_manifest identity unsigned);
          r ← run (Manifest_from_bytes bytes);
          match r with
          | inr m => into_raw (OManifest m bytes)
          | inl e => fail_null
              (Txt "signed manifest did not parse back: " :: ManifestError_display e)
          end
        end
      | _, _, _ => fail_null [Txt "session id, salt, or nonce pointer was null"]
      end
    end).

(** [dhow_manifest_verify] *)
Definition dhow_manifest_verify (public bytes : ptr) (length : Z) (session_id : ptr) : abi ptr :=
  guard_ptr (
    _ ← clear_last_error;
    match public with
    | None => fail_null [Txt "public identity handle was null"]
    | Some pl =>
      bytes ← slice_from bytes length;
      match bytes with
      | None => fail_null [Txt "manifest pointer was null"]
      | Some bytes =>
        expected ← slice_from session_id 16;
        public ← deref_public pl;
        r ← run (verify_manifest_with public bytes expected Policy_default);
        match r with
        | inr verified => into_raw (OManifest (vm_manifest verified) bytes)
        | inl e => fail_null (SManifestError_display e)
        end
      end
    end).

(** [dhow_manifest_bytes] *)
Definition dhow_manifest_bytes (manifest buf : ptr) (length : Z) (written : ptr)
    : abi DhowStatus :=
  guard_status (
    _ ← clear_last_error;
    match manifest with
    | None => fail SNullArgument [Txt "manifest handle was null"]
    | Some l => m ← deref_manifest l; write_out m.2 buf length written
    end).

(** [manifest_field], and the three getters made of it *)
Definition manifest_field (manifest out : ptr) (extract : Manifest -> list byte)
    : abi DhowStatus :=
  guard_status (
    _ ← clear_last_error;
    match manifest with
    | None => fail SNullArgument [Txt "manifest handle was null"]
    | Some l =>
      match out with
      | None => fail SNullArgument [Txt "output pointer was null"]
      | Some o =>
        m ← deref_manifest l;
        _ ← copy_to o (extract m.1);
        mret SOk
      end
    end).

Definition dhow_manifest_session_id (manifest out : ptr) : abi DhowStatus :=
  manifest_field manifest out (fun m => mh_session_id (header m)).

Definition dhow_manifest_salt (manifest out : ptr) : abi DhowStatus :=
  manifest_field manifest out (fun m => mh_salt (header m)).

Definition dhow_manifest_nonce (manifest out : ptr) : abi DhowStatus :=
  manifest_field manifest out (fun m => mh_nonce (header m)).

(** [dhow_manifest_params] *)
Definition dhow_manifest_params (manifest out : ptr) : abi DhowStatus :=
  guard_status (
    _ ← clear_last_error;
    match manifest with
    | None => fail SNullArgument [Txt "manifest handle was null"]
    | Some l =>
      match out with
      | None => fail SNullArgument [Txt "output pointer was null"]
      | Some o =>
        m ← deref_manifest l;
        _ ← store_params o (of_session_params (mh_params (header m.1)));
        mret SOk
      end
    end).

(** A guarded body that leaves an integer in a variable of the function: the
    status when it is not [Ok], the integer otherwise. *)
Definition guard_out (body : abi (DhowStatus * Z)) : abi Z :=
  r ← catch (SPanic, 0) body;
  mret (if decide (r.1 = SOk) then r.2 else status_code r.1).

(** [dhow_manifest_file_count] *)
Definition dhow_manifest_file_count (manifest : ptr) : abi Z :=
  guard_out (
    _ ← clear_last_error;
    match manifest with
    | None => st ← fail SNullArgument [Txt "manifest handle was null"]; mret (st, 0)
    | Some l => m ← deref_manifest l; mret (SOk, as_c_int (len (entries m.1)))
    end).

(** [entry_at]: the status it records is not the one its callers return. *)
Definition entry_at (manifest : ptr) (index : Z) : abi (option FileEntry) :=
  match manifest with
  | None => _ ← fail SNullArgument [Txt "manifest handle was null"]; mret None
  | Some l =>
    m ← deref_manifest l;
    match entries m.1 !! Z.to_nat index with
    | Some e => mret (Some e)
    | None =>
      _ ← fail SInvalidArgument
        [Txt "file index "; Dec index; Txt " is out of range; the manifest has ";
         Dec (len (entries m.1)); Txt " entries"];
      mret None
    end
  end.

(** [dhow_manifest_file_name] *)
Definition dhow_manifest_file_name (manifest : ptr) (index : Z) (buf : ptr) (length : Z)
    (written : ptr) : abi DhowStatus :=
  guard_status (
    _ ← clear_last_error;
    e ← entry_at manifest index;
    match e with
    | None => mret SInvalidArgument
    | Some e => write_out (name e) buf length written
    end).

(** [dhow_manifest_file_size] *)
Definition dhow_manifest_file_size (manifest : ptr) (index : Z) (out : ptr) : abi DhowStatus :=
  guard_status (
    _ ← clear_last_error;
    match out with
    | None => fail SNullArgument [Txt "output pointer was null"]
    | Some o =>
      e ← entry_at manifest index;
      match e with
      | None => mret SInvalidArgument
      | Some e => _ ← store_int o (Manifest.size e); mret SOk
      end
    end).

(** [dhow_manifest_file_digest] *)
Definition dhow_manifest_file_digest (manifest : ptr) (index : Z) (out : ptr)
    : abi DhowStatus :=
  guard_status (
    _ ← clear_last_error;
    match out with
    | None => fail SNullArgument [Txt "output pointer was null"]
    | Some o =>
      e ← entry_at manifest index;
      match e with
      | None => mret SInvalidArgument
      | Some e => _ ← copy_to o (digest e); mret SOk
      end
    end).

(** [dhow_manifest_file_executable] *)
Definition dhow_manifest_file_executable (manifest : ptr) (index : Z) : abi Z :=
  guard_out (
    _ ← clear_last_error;
    e ← entry_at manifest index;
    match e with
    | None => mret (SInvalidArgument, 0)
    | Some e => mret (SOk, bool_int (executable e))
    end).

(** [dhow_manifest_free] *)
Definition dhow_manifest_free : ptr -> abi unit := free is_manifest.

End manifests.
