(* ===== verification/AbiLogic.v ===== *)
(** * A program logic for the boundary

    Weakest preconditions of boundary computations, and a rule for each of the
    primitives of [Abi]. *)

From S2P Require Import Prelude Errors CryptErrors Display Primitives Instances.
From S2P Require Import Digest Session Utf8 Manifest Pipeline Fs Key SignedManifest.
From S2P Require Import Abi AbiKeys AbiCodec AbiManifest.
From stdpp Require Import gmap.

#[local] Open Scope Z_scope.

(** ** Definitions *)

(** Two caller memories with the same objects: same types, same sizes. *)
Definition same_cell (c c' : cell) : Prop :=
  match c, c' with
  | CBytes bs, CBytes bs' => len bs = len bs'
  | CInt _, CInt _ => True
  | CParams _, CParams _ => True
  | CEntries es, CEntries es' => es = es'
  | _, _ => False
  end.

Definition same_shape (m m' : gmap positive cell) : Prop :=
  forall l, match m !! l, m' !! l with
            | Some c, Some c' => same_cell c c'
            | None, None => True
            | _, _ => False
            end.

Section logic.
Context `{Blake3} `{RaptorQ} `{Ed25519} `{Getrandom}.

(** From [s] the computation does not break its contract; if it returns, [Q]
    holds of the state and the result, and if it unwinds, [U] of the state. *)
Definition wp {A} (m : abi A) (Q : Lib -> A -> Prop) (U : Lib -> Prop) (s : Lib) : Prop :=
  match m s with
  | Undefined => False
  | Unwinding s' => U s'
  | Returns s' a => Q s' a
  end.

Definition with_error (m : message) (s : Lib) : Lib :=
  {| last_error := m; heap := heap s; mem := mem s; fs := fs s; rng := rng s |}.

Definition with_fs (w : World) (s : Lib) : Lib :=
  {| last_error := last_error s; heap := heap s; mem := mem s; fs := w; rng := rng s |}.

Definition with_rng (r : gr_state) (s : Lib) : Lib :=
  {| last_error := last_error s; heap := heap s; mem := mem s; fs := fs s; rng := r |}.

End logic.

(** ** Lemmas *)

#[export] Instance same_shape_refl : Reflexive same_shape.
Proof. intros m l. destruct (m !! l) as [[]|]; done. Qed.

#[export] Instance same_shape_trans : Transitive same_shape.
Proof.
  intros m1 m2 m3 H12 H23 l. specialize (H12 l). specialize (H23 l).
  destruct (m1 !! l) as [c1|], (m2 !! l) as [c2|], (m3 !! l) as [c3|]; try done.
  destruct c1, c2, c3; cbn in *; try done; congruence.
Qed.

Lemma same_shape_insert m l c c' : m !! l = Some c -> same_cell c c' -> same_shape m (<[l := c']> m).
Proof.
  intros Hl Hc l'. destruct (decide (l = l')) as [<-|Hne].
  - by rewrite lookup_insert_eq, Hl.
  - rewrite lookup_insert_ne by done. apply same_shape_refl.
Qed.

Section rules.
Context `{Blake3} `{RaptorQ} `{Ed25519} `{Getrandom}.

Lemma readable_shape (s s' : Lib) p n :
  same_shape (mem s) (mem s') -> readable s p n -> readable s' p n.
Proof.
  intros Hm. destruct p as [l|]; [|done]. intros [?|(bs & Hl & Hn)]; [by left|]. right.
  specialize (Hm l). rewrite Hl in Hm. destruct (mem s' !! l) as [[bs'|?|?|?]|]; try done.
  exists bs'. cbn in Hm. by rewrite <- Hm.
Qed.

Lemma int_cell_shape (s s' : Lib) p : same_shape (mem s) (mem s') -> int_cell s p -> int_cell s' p.
Proof.
  intros Hm. destruct p as [l|]; [|done]. intros [z Hl]. specialize (Hm l). rewrite Hl in Hm.
  cbn. destruct (mem s' !! l) as [[]|]; try done. eauto.
Qed.

Context {A B : Type} (Q : Lib -> B -> Prop) (U : Lib -> Prop) (s : Lib).

Lemma wp_bind (m : abi A) (k : A -> abi B) :
  wp m (fun s' a => wp (k a) Q U s') U s -> wp (m ≫= k) Q U s.
Proof. unfold wp, mbind, abi_bind. by destruct (m s). Qed.

Lemma wp_mret b : Q s b -> wp (mret b) Q U s.
Proof. done. Qed.

Lemma wp_catch b (m : abi B) :
  wp m Q (fun s' => Q (with_error panic_text s') b) s -> wp (catch b m) Q U s.
Proof. unfold wp, catch. by destruct (m s). Qed.

Lemma wp_mono (m : abi B) (Q' : Lib -> B -> Prop) (U' : Lib -> Prop) :
  (forall s' b, Q' s' b -> Q s' b) -> (forall s', U' s' -> U s') -> wp m Q' U' s -> wp m Q U s.
Proof. unfold wp. destruct (m s); auto. Qed.

End rules.

Section primitives.
Context `{Blake3} `{RaptorQ} `{Ed25519} `{Getrandom}.
Context (U : Lib -> Prop) (s : Lib).

Lemma wp_set_error Q m : Q (with_error m s) tt -> wp (set_last_error m) Q U s.
Proof. done. Qed.

Lemma wp_fail Q st m : Q (with_error m s) st -> wp (fail st m) Q U s.
Proof. done. Qed.

Lemma wp_fail_null Q m : Q (with_error m s) None -> wp (fail_null m) Q U s.
Proof. done. Qed.

Lemma wp_slice_from Q p n :
  0 <= n -> readable s p n -> (p = None -> Q s None) ->
  (forall l bs, p = Some l -> len bs = n -> Q s (Some bs)) -> wp (slice_from p n) Q U s.
Proof.
  intros Hn Hr Hnull Hsome. unfold wp, slice_from. destruct p as [l|]; [|by apply Hnull].
  case_decide as Hz; [by apply (Hsome l)|].
  destruct Hr as [?|(bs & -> & Hlen)]; [lia|]. rewrite decide_True by done.
  apply (Hsome l); [done|]. unfold len in *. rewrite length_take. lia.
Qed.

Lemma wp_copy_to Q l data :
  readable s (Some l) (len data) ->
  (forall m', same_shape (mem s) m' -> Q (set_mem m' s) tt) -> wp (copy_to l data) Q U s.
Proof.
  intros Hr HQ. unfold wp, copy_to. case_decide as Hd.
  { specialize (HQ (mem s)). unfold set_mem in HQ. destruct s. by apply HQ. }
  destruct Hr as [Hz|(bs & Hl & Hlen)]; [by destruct data|].
  rewrite Hl, decide_True by done. apply HQ.
  eapply same_shape_insert; [done|]. cbn. rewrite len_app. unfold len in *.
  rewrite length_drop. lia.
Qed.

Lemma wp_store_int_opt Q p z :
  int_cell s p -> (forall m', same_shape (mem s) m' -> Q (set_mem m' s) tt) ->
  wp (store_int_opt p z) Q U s.
Proof.
  intros Hi HQ. unfold wp, store_int_opt. destruct p as [l|].
  - destruct Hi as [z' Hl]. unfold store_int. rewrite Hl. apply HQ. by eapply same_shape_insert.
  - cbn. specialize (HQ (mem s)). unfold set_mem in HQ. destruct s. by apply HQ.
Qed.

Lemma wp_store_params Q l p :
  params_cell s (Some l) -> (forall m', same_shape (mem s) m' -> Q (set_mem m' s) tt) ->
  wp (store_params l p) Q U s.
Proof.
  intros [q Hl] HQ. unfold wp, store_params. rewrite Hl. apply HQ. by eapply same_shape_insert.
Qed.

Lemma wp_into_raw Q o :
  (forall l, heap s !! l = None -> Q (set_heap (<[l := o]> (heap s)) s) (Some l)) ->
  wp (into_raw o) Q U s.
Proof. intros HQ. apply HQ. apply not_elem_of_dom, is_fresh. Qed.

Lemma wp_deref Q l o : heap s !! l = Some o -> Q s o -> wp (deref l) Q U s.
Proof. intros Hl HQ. unfold wp, deref. by rewrite Hl. Qed.

Lemma wp_assign Q l o : Q (set_heap (<[l := o]> (heap s)) s) tt -> wp (assign l o) Q U s.
Proof. done. Qed.

Lemma wp_from_raw Q l : Q (set_heap (delete l (heap s)) s) tt -> wp (from_raw l) Q U s.
Proof. done. Qed.

Lemma wp_run {E A} (m : outcome E A) Q :
  (forall e, m = Err e -> Q s (inl e)) -> (forall a, m = Ok a -> Q s (inr a)) ->
  (m = Panic -> U s) -> wp (run m) Q U s.
Proof. intros HE HO HP. unfold wp, run. destruct m; auto. Qed.

Lemma wp_run_total {A} (m : outcome Empty_set A) Q :
  (forall a, m = Ok a -> Q s a) -> (m = Panic -> U s) -> wp (run_total m) Q U s.
Proof. intros HO HP. unfold wp, run_total. destruct m as [a|[]|]; auto. Qed.

Lemma wp_draw {E A} (m : action gr_state E A) Q :
  (forall r e, m (rng s) = (r, Err e) -> Q (with_rng r s) (inl e)) ->
  (forall r a, m (rng s) = (r, Ok a) -> Q (with_rng r s) (inr a)) ->
  (forall r, m (rng s) = (r, Panic) -> U (with_rng r s)) -> wp (draw m) Q U s.
Proof. intros HE HO HP. unfold wp, draw. destruct (m (rng s)) as [r [a|e|]] eqn:Hm; [by apply HO|by apply HE|by apply HP]. Qed.

Lemma wp_with_files {E A} (m : action World E A) Q :
  (forall w e, m (fs s) = (w, Err e) -> Q (with_fs w s) (inl e)) ->
  (forall w a, m (fs s) = (w, Ok a) -> Q (with_fs w s) (inr a)) ->
  (forall w, m (fs s) = (w, Panic) -> U (with_fs w s)) -> wp (with_files m) Q U s.
Proof. intros HE HO HP. unfold wp, with_files. destruct (m (fs s)) as [r [a|e|]] eqn:Hm; [by apply HO|by apply HE|by apply HP]. Qed.

Lemma wp_c_str Q l :
  c_string s (Some l) -> (forall str, Q s str) -> wp (c_str l) Q U s.
Proof. intros (bs & Hl & [str Hs]) HQ. unfold wp, c_str. by rewrite Hl, Hs. Qed.

End primitives.

Section composite.
Context `{Blake3} `{RaptorQ} `{Ed25519} `{Getrandom}.
Context (U : Lib -> Prop) (s : Lib).

Lemma wp_path_from Q p :
  c_string s p -> (forall path, Q s path) -> wp (path_from p) Q U s.
Proof.
  intros Hc HQ. unfold path_from. destruct p as [l|]; [|by apply wp_mret].
  apply wp_bind, wp_c_str; [done|]. intros str. apply wp_mret, HQ.
Qed.

Lemma wp_write_out Q data buf n written :
  readable s buf n -> int_cell s written ->
  (forall m', same_shape (mem s) m' -> Q (set_mem m' s) SOk) ->
  (forall m' e, same_shape (mem s) m' -> e <> [] ->
     Q (with_error e (set_mem m' s)) SBufferTooSmall) ->
  wp (write_out data buf n written) Q U s.
Proof.
  intros Hb Hw HO HE. unfold write_out. apply wp_bind, wp_store_int_opt; [done|].
  intros m1 Hm1. destruct buf as [l|]; [|by apply wp_mret, HO]. case_decide as Hn.
  { by apply wp_fail, HE. }
  apply wp_bind, wp_copy_to.
  { eapply (readable_shape s); [done|]. destruct Hb as [Hz|(bs & Hl & Hle)].
    - left. pose proof (len_nonneg data). lia.
    - right. exists bs. split; [done|lia]. }
  intros m2 Hm2. apply wp_mret, (HO m2). by transitivity m1.
Qed.

(** Using a handle of the right type. *)
Lemma wp_deref_key Q l :
  live (fun o => is_key o = true) s (Some l) ->
  (forall k, heap s !! l = Some (OKey k) -> Q s k) -> wp (deref_key l) Q U s.
Proof.
  intros (o & Hl & Ho) HQ. destruct o; try done. eapply wp_bind, wp_deref; [done|].
  by apply wp_mret, HQ.
Qed.

Lemma wp_deref_identity Q l :
  live (fun o => is_identity o = true) s (Some l) ->
  (forall k, heap s !! l = Some (OIdentity k) -> Q s k) -> wp (deref_identity l) Q U s.
Proof.
  intros (o & Hl & Ho) HQ. destruct o; try done. eapply wp_bind, wp_deref; [done|].
  by apply wp_mret, HQ.
Qed.

Lemma wp_deref_public Q l :
  live (fun o => is_public o = true) s (Some l) ->
  (forall k, heap s !! l = Some (OPublic k) -> Q s k) -> wp (deref_public l) Q U s.
Proof.
  intros (o & Hl & Ho) HQ. destruct o; try done. eapply wp_bind, wp_deref; [done|].
  by apply wp_mret, HQ.
Qed.

Lemma wp_deref_encoder Q l :
  live (fun o => is_encoder o = true) s (Some l) ->
  (forall f p, heap s !! l = Some (OEncoder f p) -> Q s (f, p)) -> wp (deref_encoder l) Q U s.
Proof.
  intros (o & Hl & Ho) HQ. destruct o; try done. eapply wp_bind, wp_deref; [done|].
  by apply wp_mret, HQ.
Qed.

Lemma wp_deref_decoder Q l :
  live (fun o => is_decoder o = true) s (Some l) ->
  (forall d, heap s !! l = Some (ODecoder d) -> Q s d) -> wp (deref_decoder l) Q U s.
Proof.
  intros (o & Hl & Ho) HQ. destruct o; try done. eapply wp_bind, wp_deref; [done|].
  by apply wp_mret, HQ.
Qed.

Lemma wp_deref_hasher Q l :
  live (fun o => is_hasher o = true) s (Some l) ->
  (forall h, heap s !! l = Some (OHasher h) -> Q s h) -> wp (deref_hasher l) Q U s.
Proof.
  intros (o & Hl & Ho) HQ. destruct o; try done. eapply wp_bind, wp_deref; [done|].
  by apply wp_mret, HQ.
Qed.

Lemma wp_deref_manifest Q l :
  live (fun o => is_manifest o = true) s (Some l) ->
  (forall m b, heap s !! l = Some (OManifest m b) -> Q s (m, b)) -> wp (deref_manifest l) Q U s.
Proof.
  intros (o & Hl & Ho) HQ. destruct o; try done. eapply wp_bind, wp_deref; [done|].
  by apply wp_mret, HQ.
Qed.

End composite.
