(* ===== verification/AbiSystem.v ===== *)
(** * The C ABI as a system of calls

    Every entry point of the library as a call, what its safety comment asks
    of the caller, what it may do to the live handles, and the invariant of
    the objects behind them. A use of the library is a sequence of calls that
    each keep their contract, with anything the caller does in between. *)

From S2P Require Import Prelude Errors CryptErrors Display Primitives Instances.
From S2P Require Import Digest Chunker Session Utf8 Manifest Resume Pipeline Fs Kdf Key Aead.
From S2P Require Import SignedManifest Abi AbiKeys AbiCodec AbiManifest AbiLogic.
From S2P Require Qr.
From stdpp Require Import gmap.

#[local] Open Scope Z_scope.

(** ** Definitions *)

(** The entry points with their arguments. *)
Inductive Call :=
| KeyGenerate
| KeyLoad (path : ptr)
| KeySave (key path : ptr)
| KeyFree (key : ptr)
| IdentityGenerate
| IdentityLoad (path : ptr)
| IdentitySave (identity path : ptr)
| IdentityPublic (identity : ptr)
| IdentityFree (identity : ptr)
| PublicLoad (path : ptr)
| PublicSave (public path : ptr)
| PublicBytes (public out : ptr)
| PublicFingerprint (public buf : ptr) (n : Z) (written : ptr)
| PublicFree (public : ptr)
| EncoderNew (key session_id salt nonce : ptr) (params : DhowSessionParams) (payload : ptr)
    (payload_len : Z)
| EncoderParams (encoder out : ptr)
| EncoderFrameCount (encoder : ptr)
| EncoderFrame (encoder : ptr) (index : Z) (buf : ptr) (n : Z) (written : ptr)
| EncoderFree (encoder : ptr)
| DecoderNew (key session_id salt : ptr) (params : DhowSessionParams)
| DecoderAccept (decoder frame : ptr) (n : Z)
| DecoderIsComplete (decoder : ptr)
| DecoderBlocksComplete (decoder : ptr)
| DecoderFinish (decoder key session_id salt nonce buf : ptr) (n : Z) (written : ptr)
| DecoderResumeState (decoder : ptr) (journal_bytes : Z) (buf : ptr) (n : Z) (written : ptr)
| ResumeStateRead (state : ptr) (n : Z) (session_id_out journal_bytes_out block_count_out : ptr)
| DecoderResumeVerify (decoder state : ptr) (n : Z)
| DecoderFree (decoder : ptr)
| HashOnce (data : ptr) (n : Z) (out : ptr)
| HasherNew
| HasherUpdate (hasher data : ptr) (n : Z)
| HasherFinish (hasher out : ptr)
| HasherFree (hasher : ptr)
| QrCapacity (version ecc : Z)
| QrMaxSymbolSize (version ecc : Z)
| QrEncodeFrame (frame : ptr) (frame_len version ecc : Z) (buf : ptr) (n : Z)
    (size written : ptr)
| ManifestBuild (identity session_id salt nonce : ptr) (params : DhowSessionParams)
    (entries : ptr) (count : Z)
| ManifestVerify (public bytes : ptr) (n : Z) (session_id : ptr)
| ManifestBytes (manifest buf : ptr) (n : Z) (written : ptr)
| ManifestSessionId (manifest out : ptr)
| ManifestSalt (manifest out : ptr)
| ManifestNonce (manifest out : ptr)
| ManifestParams (manifest out : ptr)
| ManifestFileCount (manifest : ptr)
| ManifestFileName (manifest : ptr) (index : Z) (buf : ptr) (n : Z) (written : ptr)
| ManifestFileSize (manifest : ptr) (index : Z) (out : ptr)
| ManifestFileDigest (manifest : ptr) (index : Z) (out : ptr)
| ManifestFileExecutable (manifest : ptr) (index : Z)
| ManifestFree (manifest : ptr)
| LastErrorMessage (buf : ptr) (n : Z).

Inductive Ret :=
| RStatus (st : DhowStatus)
| RPtr (p : ptr)
| RInt (z : Z)
| RUnit.

(** The handle a call changes, and the one it releases. *)
Definition touched (c : Call) : ptr :=
  match c with
  | DecoderAccept d _ _ => d
  | HasherUpdate h _ _ => h
  | _ => None
  end.

Definition freed (c : Call) : ptr :=
  match c with
  | KeyFree p | IdentityFree p | PublicFree p | EncoderFree p | DecoderFree p | HasherFree p
  | ManifestFree p => p
  | _ => None
  end.

Section system.
Context `{Blake3} `{RaptorQ} `{Ed25519} `{Getrandom} `{Aead} `{Qrcodegen}.

Definition status (m : abi DhowStatus) : abi Ret := st ← m; mret (RStatus st).
Definition handle (m : abi ptr) : abi Ret := p ← m; mret (RPtr p).
Definition int (m : abi Z) : abi Ret := z ← m; mret (RInt z).
Definition nothing (m : abi unit) : abi Ret := _ ← m; mret RUnit.

(** A call, in a build with or without overflow checks. *)
Definition exec (checks : bool) (c : Call) : abi Ret :=
  match c with
  | KeyGenerate => handle dhow_key_generate
  | KeyLoad path => handle (dhow_key_load path)
  | KeySave key path => status (dhow_key_save key path)
  | KeyFree key => nothing (dhow_key_free key)
  | IdentityGenerate => handle dhow_identity_generate
  | IdentityLoad path => handle (dhow_identity_load path)
  | IdentitySave i path => status (dhow_identity_save i path)
  | IdentityPublic i => handle (dhow_identity_public i)
  | IdentityFree i => nothing (dhow_identity_free i)
  | PublicLoad path => handle (dhow_public_load path)
  | PublicSave p path => status (dhow_public_save p path)
  | PublicBytes p out => status (dhow_public_bytes p out)
  | PublicFingerprint p buf n w => status (dhow_public_fingerprint p buf n w)
  | PublicFree p => nothing (dhow_public_free p)
  | EncoderNew key sid salt nonce params payload n =>
      handle (dhow_encoder_new checks key sid salt nonce params payload n)
  | EncoderParams e out => status (dhow_encoder_params e out)
  | EncoderFrameCount e => int (dhow_encoder_frame_count e)
  | EncoderFrame e i buf n w => status (dhow_encoder_frame e i buf n w)
  | EncoderFree e => nothing (dhow_encoder_free e)
  | DecoderNew key sid salt params => handle (dhow_decoder_new checks key sid salt params)
  | DecoderAccept d f n => status (dhow_decoder_accept checks d f n)
  | DecoderIsComplete d => int (dhow_decoder_is_complete d)
  | DecoderBlocksComplete d => int (dhow_decoder_blocks_complete d)
  | DecoderFinish d key sid salt nonce buf n w =>
      status (dhow_decoder_finish d key sid salt nonce buf n w)
  | DecoderResumeState d j buf n w => status (dhow_decoder_resume_state d j buf n w)
  | ResumeStateRead st n s j b => status (dhow_resume_state_read checks st n s j b)
  | DecoderResumeVerify d st n => status (dhow_decoder_resume_verify checks d st n)
  | DecoderFree d => nothing (dhow_decoder_free d)
  | HashOnce data n out => status (dhow_blake3 data n out)
  | HasherNew => handle dhow_hasher_new
  | HasherUpdate h data n => status (dhow_hasher_update h data n)
  | HasherFinish h out => status (dhow_hasher_finish h out)
  | HasherFree h => nothing (dhow_hasher_free h)
  | QrCapacity v e => int (dhow_qr_capacity v e)
  | QrMaxSymbolSize v e => int (dhow_qr_max_symbol_size v e)
  | QrEncodeFrame f fl v e buf n size w =>
      status (dhow_qr_encode_frame f fl v e buf n size w)
  | ManifestBuild i sid salt nonce params es count =>
      handle (dhow_manifest_build checks i sid salt nonce params es count)
  | ManifestVerify p bytes n sid => handle (dhow_manifest_verify p bytes n sid)
  | ManifestBytes m buf n w => status (dhow_manifest_bytes m buf n w)
  | ManifestSessionId m out => status (dhow_manifest_session_id m out)
  | ManifestSalt m out => status (dhow_manifest_salt m out)
  | ManifestNonce m out => status (dhow_manifest_nonce m out)
  | ManifestParams m out => status (dhow_manifest_params m out)
  | ManifestFileCount m => int (dhow_manifest_file_count m)
  | ManifestFileName m i buf n w => status (dhow_manifest_file_name m i buf n w)
  | ManifestFileSize m i out => status (dhow_manifest_file_size m i out)
  | ManifestFileDigest m i out => status (dhow_manifest_file_digest m i out)
  | ManifestFileExecutable m i => int (dhow_manifest_file_executable m i)
  | ManifestFree m => nothing (dhow_manifest_free m)
  | LastErrorMessage buf n => int (dhow_last_error_message buf n)
  end.

(** *** Contracts *)

(** Values of the C types. *)
Definition wf_dparams (p : DhowSessionParams) : Prop := wf_params (to_session_params p).

(** An array of [count] entries with terminated names, 32-byte digests and
    seven reserved bytes. *)
Definition entry_array (s : Lib) (p : ptr) (count : Z) : Prop :=
  match p with
  | None => True
  | Some l => count = 0 \/ exists es, mem s !! l = Some (CEntries es) /\ count <= len es
      /\ Forall (fun e => c_string s (fe_name e)) es
  end.

Definition a_key (s : Lib) : ptr -> Prop := live (fun o => is_key o = true) s.
Definition an_identity (s : Lib) : ptr -> Prop := live (fun o => is_identity o = true) s.
Definition a_public (s : Lib) : ptr -> Prop := live (fun o => is_public o = true) s.
Definition an_encoder (s : Lib) : ptr -> Prop := live (fun o => is_encoder o = true) s.
Definition a_decoder (s : Lib) : ptr -> Prop := live (fun o => is_decoder o = true) s.
Definition a_hasher (s : Lib) : ptr -> Prop := live (fun o => is_hasher o = true) s.
Definition a_manifest (s : Lib) : ptr -> Prop := live (fun o => is_manifest o = true) s.

(** The safety comment of each entry point. *)
Definition contract (c : Call) (s : Lib) : Prop :=
  match c with
  | KeyGenerate | IdentityGenerate | HasherNew | QrCapacity _ _ | QrMaxSymbolSize _ _ => True
  | KeyLoad path | IdentityLoad path | PublicLoad path => c_string s path
  | KeySave key path => a_key s key /\ c_string s path
  | KeyFree key => a_key s key
  | IdentitySave i path => an_identity s i /\ c_string s path
  | IdentityPublic i | IdentityFree i => an_identity s i
  | PublicSave p path => a_public s p /\ c_string s path
  | PublicBytes p out => a_public s p /\ readable s out 32
  | PublicFingerprint p buf n w =>
      a_public s p /\ 0 <= n /\ readable s buf n /\ int_cell s w
  | PublicFree p => a_public s p
  | EncoderNew key sid salt nonce params payload n =>
      a_key s key /\ readable s sid 16 /\ readable s salt 32 /\ readable s nonce 24
      /\ 0 <= n /\ readable s payload n
  | EncoderParams e out => an_encoder s e /\ params_cell s out
  | EncoderFrameCount e | EncoderFree e => an_encoder s e
  | EncoderFrame e i buf n w =>
      an_encoder s e /\ 0 <= n /\ readable s buf n /\ int_cell s w
  | DecoderNew key sid salt params =>
      a_key s key /\ readable s sid 16 /\ readable s salt 32 /\ wf_dparams params
  | DecoderAccept d f n => a_decoder s d /\ 0 <= n /\ readable s f n
  | DecoderIsComplete d | DecoderBlocksComplete d | DecoderFree d => a_decoder s d
  | DecoderFinish d key sid salt nonce buf n w =>
      a_decoder s d /\ a_key s key /\ readable s sid 16 /\ readable s salt 32
      /\ readable s nonce 24 /\ 0 <= n /\ readable s buf n /\ int_cell s w
  | DecoderResumeState d j buf n w =>
      a_decoder s d /\ urange 64 j /\ 0 <= n /\ readable s buf n /\ int_cell s w
  | ResumeStateRead st n sid j b =>
      0 <= n /\ readable s st n /\ readable s sid 16 /\ int_cell s j /\ int_cell s b
  | DecoderResumeVerify d st n => a_decoder s d /\ 0 <= n /\ readable s st n
  | HashOnce data n out => 0 <= n /\ readable s data n /\ readable s out 32
  | HasherUpdate h data n => a_hasher s h /\ 0 <= n /\ readable s data n
  | HasherFinish h out => a_hasher s h /\ readable s out 32
  | HasherFree h => a_hasher s h
  | QrEncodeFrame f fl v e buf n size w =>
      0 <= fl /\ readable s f fl /\ 0 <= n /\ readable s buf n /\ int_cell s size
      /\ int_cell s w
  | ManifestBuild i sid salt nonce params es count =>
      an_identity s i /\ readable s sid 16 /\ readable s salt 32 /\ readable s nonce 24
      /\ 0 <= count /\ entry_array s es count
  | ManifestVerify p bytes n sid => a_public s p /\ 0 <= n /\ readable s bytes n /\ readable s sid 16
  | ManifestBytes m buf n w => a_manifest s m /\ 0 <= n /\ readable s buf n /\ int_cell s w
  | ManifestSessionId m out => a_manifest s m /\ readable s out 16
  | ManifestSalt m out => a_manifest s m /\ readable s out 32
  | ManifestNonce m out => a_manifest s m /\ readable s out 24
  | ManifestParams m out => a_manifest s m /\ params_cell s out
  | ManifestFileCount m | ManifestFree m => a_manifest s m
  | ManifestFileName m i buf n w => a_manifest s m /\ 0 <= n /\ readable s buf n /\ int_cell s w
  | ManifestFileSize m i out => a_manifest s m /\ int_cell s out
  | ManifestFileDigest m i out => a_manifest s m /\ readable s out 32
  | ManifestFileExecutable m i => a_manifest s m
  | LastErrorMessage buf n => readable s buf n
  end.

(** *** The invariant *)

(** An object behind a live handle. A decoder has accepted some frames and
    keeps the books on them; a hasher has absorbed some bytes; a manifest is
    well formed, is the parse of the bytes kept with it, and carries a
    signature that some identity verifies. *)
Definition object_ok (o : Object) : Prop :=
  match o with
  | OKey k => length (ok_bytes k) = KEY_MATERIAL_LEN
  | ODecoder d => exists acc, decoder_ok d acc
  | OHasher h => exists chunks, h = foldl update Blake3Hasher_new chunks
  | OManifest m bytes =>
      wf_manifest m /\ bytes = Manifest_to_vec m
      /\ exists signer, verify signer (signed_over m) (mh_signature (header m)) = true
  | OEncoder _ _ | OIdentity _ | OPublic _ => True
  end.

Definition lib_ok (s : Lib) : Prop := forall l o, heap s !! l = Some o -> object_ok o.

(** The type of an object. *)
Definition same_type (o o' : Object) : Prop :=
  match o, o' with
  | OKey _, OKey _ | OEncoder _ _, OEncoder _ _ | ODecoder _, ODecoder _ | OHasher _, OHasher _
  | OIdentity _, OIdentity _ | OPublic _, OPublic _ | OManifest _ _, OManifest _ _ => True
  | _, _ => False
  end.

(** What constructors return. *)
Definition makes (c : Call) (o : Object) : Prop :=
  match c with
  | KeyGenerate | KeyLoad _ => is_key o = true
  | IdentityGenerate | IdentityLoad _ => is_identity o = true
  | IdentityPublic _ | PublicLoad _ => is_public o = true
  | EncoderNew _ _ _ _ _ _ _ => is_encoder o = true
  | DecoderNew _ _ _ _ => is_decoder o = true
  | HasherNew => is_hasher o = true
  | ManifestBuild _ _ _ _ _ _ _ | ManifestVerify _ _ _ _ => is_manifest o = true
  | _ => False
  end.

(** What a call does to the live handles: nothing; or it makes one, at an
    address that was free; or it changes the one it is about, keeping its
    type; or it releases the one it is given. *)
Inductive heap_step (c : Call) (h : gmap positive Object) : gmap positive Object -> Ret -> Prop :=
| HSame r : freed c = None -> (forall l, r <> RPtr (Some l)) -> heap_step c h h r
| HNew l o : h !! l = None -> makes c o -> heap_step c h (<[l := o]> h) (RPtr (Some l))
| HSet l o o' st : touched c = Some l -> h !! l = Some o -> same_type o o' ->
    heap_step c h (<[l := o']> h) (RStatus st)
| HFreed l o : freed c = Some l -> h !! l = Some o -> heap_step c h (delete l h) RUnit.

(** What a call reports: a status or a pointer says failure exactly when a
    text is recorded. *)
Definition reports (r : Ret) (s' : Lib) : Prop :=
  match r with
  | RStatus st => st = SOk <-> last_error s' = []
  | RPtr p => p = None <-> last_error s' <> []
  | RInt _ | RUnit => True
  end.

(** The calls that can answer [DHOW_PANIC]: feeding a frame, when the RaptorQ
    library panics on its packet, and reading half a gigabyte of resume state
    in a build with overflow checks. (A panic while a handle is being made is
    answered with a null pointer and its text.) *)
Definition may_panic (checks : bool) (c : Call) : Prop :=
  match c with
  | DecoderAccept _ _ _ => True
  | ResumeStateRead _ n _ _ _ | DecoderResumeVerify _ _ n => checks = true /\ 2 ^ 29 <= n
  | _ => False
  end.

(** What the calls that return an integer answer: the count, the flag, the
    capacity or the length they are asked for, as a C [int], or the status of
    their failure; no body of theirs panics, so the guard never answers
    [DHOW_PANIC] for it. The manifest's calls record a text when they fail. *)
Definition int_answer (c : Call) (s s' : Lib) (z : Z) : Prop :=
  match c with
  | EncoderFrameCount None | DecoderIsComplete None | DecoderBlocksComplete None =>
      z = status_code SNullArgument
  | EncoderFrameCount (Some l) => exists frames params,
      heap s !! l = Some (OEncoder frames params) /\ z = as_c_int (len frames)
  | DecoderIsComplete (Some l) => exists d,
      heap s !! l = Some (ODecoder d) /\ z = bool_int (is_complete d)
  | DecoderBlocksComplete (Some l) => exists d,
      heap s !! l = Some (ODecoder d) /\ z = as_c_int (blocks_complete d)
  | QrCapacity v e =>
      (exists level n, Qr.from_letter (as_u 8 e) = Some level /\ Qr.capacity v level = Ok n
         /\ z = as_c_int n)
      \/ (z = status_code SInvalidArgument
          /\ forall level n, Qr.from_letter (as_u 8 e) = Some level -> Qr.capacity v level <> Ok n)
  | QrMaxSymbolSize v e =>
      (exists level n, Qr.from_letter (as_u 8 e) = Some level /\ Qr.max_symbol_size v level = Ok n
         /\ z = as_c_int (default 0 n))
      \/ (z = status_code SInvalidArgument
          /\ forall level n, Qr.from_letter (as_u 8 e) = Some level ->
             Qr.max_symbol_size v level <> Ok n)
  | ManifestFileCount None => z = status_code SNullArgument /\ last_error s' <> []
  | ManifestFileCount (Some l) => exists m bytes,
      heap s !! l = Some (OManifest m bytes) /\ z = as_c_int (len (entries m)) /\ last_error s' = []
  | ManifestFileExecutable p i =>
      (exists l m bytes e, p = Some l /\ heap s !! l = Some (OManifest m bytes)
         /\ entries m !! Z.to_nat i = Some e /\ z = bool_int (executable e) /\ last_error s' = [])
      \/ (z = status_code SInvalidArgument /\ last_error s' <> []
          /\ forall l m bytes, p = Some l -> heap s !! l = Some (OManifest m bytes) ->
             entries m !! Z.to_nat i = None)
  | LastErrorMessage buf n =>
      let needed := len (render (last_error s)) + 1 in
      z = if bool_decide (buf <> None /\ n < needed) then status_code SBufferTooSmall
          else as_c_int needed
  | _ => False
  end.

(** What holds after a call. *)
Record after (checks : bool) (c : Call) (s s' : Lib) (r : Ret) : Prop := {
  af_ok : lib_ok s';
  af_mem : same_shape (mem s) (mem s');
  af_heap : heap_step c (heap s) (heap s') r;
  af_reports : reports r s';
  af_panic : r = RStatus SPanic -> may_panic checks c;
  af_int : forall z, r = RInt z -> int_answer c s s' z;
}.

(** Between calls the caller writes its memory, and the files and the random
    source move on; the library's own state stays as it is. *)
Definition environment (s s' : Lib) : Prop := heap s' = heap s /\ last_error s' = last_error s.

(** A use of the library: calls that keep their contracts, in order, and
    whatever happens between them. *)
Inductive trace (checks : bool) : list Call -> Lib -> Lib -> Prop :=
| Trace_nil s : trace checks [] s s
| Trace_call c cs s s' s'' r : contract c s -> exec checks c s = Returns s' r ->
    trace checks cs s' s'' -> trace checks (c :: cs) s s''
| Trace_env cs s s' s'' : environment s s' -> trace checks cs s' s'' -> trace checks cs s s''.

End system.

(** An example: a library with one key, and a caller with three buffers and an
    integer. *)
Definition demo_lib : Lib :=
  {| last_error := []; heap := {[1%positive := OKey {| ok_bytes := zeros 32 |}]};
     mem := list_to_map [(1%positive, CBytes (zeros 32)); (2%positive, CBytes demo_payload);
       (3%positive, CBytes (zeros 400)); (4%positive, CInt 0)];
     fs := empty_world; rng := 0 |}.

(** Sealing the example payload: its ciphertext has 18 bytes. *)
Definition demo_dparams : DhowSessionParams :=
  {| dp_payload_size := 18; dp_block_count := 1; dp_symbol_size := 64;
     dp_source_symbols_per_block := 1; dp_total_symbols_per_block := 2;
     dp_payload_digest := zeros 32 |}.

Definition demo_seal : Call :=
  EncoderNew (Some 1%positive) (Some 1%positive) (Some 1%positive) (Some 1%positive) demo_dparams
    (Some 2%positive) 2.

(** ** Lemmas *)

Section rules.
Context `{Blake3} `{RaptorQ} `{Ed25519} `{Getrandom} `{Aead} `{Qrcodegen}.

Lemma wp_status (m : abi DhowStatus) Q U s :
  wp m (fun s' st => Q s' (RStatus st)) U s -> wp (status m) Q U s.
Proof. intros Hm. by apply wp_bind. Qed.

Lemma wp_handle (m : abi ptr) Q U s :
  wp m (fun s' p => Q s' (RPtr p)) U s -> wp (handle m) Q U s.
Proof. intros Hm. by apply wp_bind. Qed.

Lemma wp_int (m : abi Z) Q U s : wp m (fun s' z => Q s' (RInt z)) U s -> wp (int m) Q U s.
Proof. intros Hm. by apply wp_bind. Qed.

Lemma wp_nothing (m : abi unit) Q U s :
  wp m (fun s' _ => Q s' RUnit) U s -> wp (nothing m) Q U s.
Proof. intros Hm. by apply wp_bind. Qed.

End rules.

(** Texts of errors are not empty. *)
Section texts.

Lemma KeyError_text e : KeyError_display e <> [].
Proof. by destruct e. Qed.

Lemma AeadError_text e : AeadError_display e <> [].
Proof. by destruct e. Qed.

Lemma CodecError_text e : CodecError_display e <> [].
Proof. by destruct e. Qed.

Lemma ResumeError_text e : ResumeError_display e <> [].
Proof. by destruct e. Qed.

Lemma QrError_text e : QrError_display e <> [].
Proof. by destruct e. Qed.

Lemma SManifestError_text e : SManifestError_display e <> [].
Proof. by destruct e. Qed.

End texts.

#[export] Hint Resolve KeyError_text AeadError_text CodecError_text ResumeError_text QrError_text
  SManifestError_text : dhow.

Section sound.
Context `{Blake3Laws} `{RaptorQ} `{Ed25519Laws} `{GetrandomLaws} `{Aead} `{QrcodegenLaws}.
Context (checks : bool) (c : Call) (s : Lib) (Hok : lib_ok s).

(** The calls that leave the handles alone. *)
Lemma after_same s' r :
  freed c = None -> heap s' = heap s -> same_shape (mem s) (mem s') ->
  (forall l, r <> RPtr (Some l)) -> reports r s' -> (r = RStatus SPanic -> may_panic checks c) ->
  (forall z, r = RInt z -> int_answer c s s' z) -> after checks c s s' r.
Proof.
  intros Hf Hh Hm Hr Hrep Hp Hz. split; try done.
  - intros l o. rewrite Hh. apply Hok.
  - rewrite Hh. by apply HSame.
Qed.

Lemma after_status s' st :
  freed c = None -> heap s' = heap s -> same_shape (mem s) (mem s') ->
  (st = SOk <-> last_error s' = []) -> (st = SPanic -> may_panic checks c) ->
  after checks c s s' (RStatus st).
Proof. intros. apply after_same; try done. intros [= ->]. auto. Qed.

Lemma after_success s' :
  freed c = None -> heap s' = heap s -> same_shape (mem s) (mem s') -> last_error s' = [] ->
  after checks c s s' (RStatus SOk).
Proof. intros. by apply after_status. Qed.

Lemma after_failure s' st :
  freed c = None -> st <> SOk -> st <> SPanic -> heap s' = heap s ->
  same_shape (mem s) (mem s') -> last_error s' <> [] -> after checks c s s' (RStatus st).
Proof. intros. by apply after_status. Qed.

Lemma after_null s' :
  freed c = None -> heap s' = heap s -> same_shape (mem s) (mem s') -> last_error s' <> [] ->
  after checks c s s' (RPtr None).
Proof. intros. by apply after_same. Qed.

Lemma after_int s' z :
  freed c = None -> heap s' = heap s -> same_shape (mem s) (mem s') -> int_answer c s s' z ->
  after checks c s s' (RInt z).
Proof. intros. apply after_same; try done. by intros z' [= <-]. Qed.

Lemma after_new l o s' :
  heap s !! l = None -> makes c o -> object_ok o -> heap s' = <[l := o]> (heap s) ->
  same_shape (mem s) (mem s') -> last_error s' = [] -> after checks c s s' (RPtr (Some l)).
Proof.
  intros Hl Hmk Ho Hh Hm He. split; try done.
  - intros l' o'. rewrite Hh. destruct (decide (l = l')) as [<-|Hne].
    + rewrite lookup_insert_eq. by intros [= <-].
    + rewrite lookup_insert_ne by done. apply Hok.
  - rewrite Hh. by apply HNew.
Qed.

Lemma after_set l o o' s' st :
  touched c = Some l -> heap s !! l = Some o -> same_type o o' -> object_ok o' ->
  heap s' = <[l := o']> (heap s) -> same_shape (mem s) (mem s') ->
  (st = SOk <-> last_error s' = []) -> (st = SPanic -> may_panic checks c) ->
  after checks c s s' (RStatus st).
Proof.
  intros Ht Hl Hty Ho Hh Hm He Hp. split; try done.
  - intros l' o''. rewrite Hh. destruct (decide (l = l')) as [<-|Hne].
    + rewrite lookup_insert_eq. by intros [= <-].
    + rewrite lookup_insert_ne by done. apply Hok.
  - rewrite Hh. by eapply HSet.
  - intros [= ->]. auto.
Qed.

Lemma after_freed l o s' :
  freed c = Some l -> heap s !! l = Some o -> heap s' = delete l (heap s) ->
  same_shape (mem s) (mem s') -> after checks c s s' RUnit.
Proof.
  intros Hf Hl Hh Hm. split; try done.
  - intros l' o'. rewrite Hh. intros [_ Ho]%lookup_delete_Some. by apply (Hok l').
  - rewrite Hh. by eapply HFreed.
Qed.

End sound.

(** The example library keeps the invariant, and the example call its contract. *)
Lemma demo_lib_ok : lib_ok demo_lib.
Proof.
  intros l o Hl. cbn [heap demo_lib] in Hl. apply lookup_singleton_Some in Hl as [_ <-]. reflexivity.
Qed.

Lemma demo_seal_contract : contract demo_seal demo_lib.
Proof.
  split_and!; try lia.
  - eexists. split; reflexivity.
  - right. eexists. split; [reflexivity|vm_compute; discriminate].
  - right. eexists. split; [reflexivity|vm_compute; discriminate].
  - right. eexists. split; [reflexivity|vm_compute; discriminate].
  - right. eexists. split; [reflexivity|vm_compute; discriminate].
Qed.
