(* ===== verification/AbiSound.v ===== *)
(** * Every entry point is sound

    Kept to its contract, each entry point returns, whatever it is given,
    keeps the library's invariant and the caller's memory in shape, and
    reports as it should. *)

From S2P Require Import Prelude Errors CryptErrors Display Primitives Instances.
From S2P Require Import Digest Chunker Frame Session Utf8 Manifest Resume Pipeline Transfer Fs Kdf.
From S2P Require Import Key Aead SignedManifest Abi AbiKeys AbiCodec AbiManifest AbiLogic AbiSystem.
From S2P Require Qr.
From stdpp Require Import gmap.

#[local] Open Scope Z_scope.

(** A fixed-size output. *)
Lemma wp_copy_exact `{Blake3} `{RaptorQ} `{Ed25519} `{Getrandom} (Q : Lib -> unit -> Prop) U l
    (data : list byte) n s :
  readable s (Some l) n -> len data = n ->
  (forall m', same_shape (mem s) m' -> Q (set_mem m' s) tt) -> wp (copy_to l data) Q U s.
Proof. intros Hr <-. by apply wp_copy_to. Qed.

(** Memories in shape after a chain of stores. *)
Ltac abi_shape := first [reflexivity | eassumption | etransitivity; [|eassumption]; abi_shape].

Ltac abi_readable := first [eassumption | eapply readable_shape; [|eassumption]; abi_shape].

Ltac abi_int_cell := first [assumption | eapply int_cell_shape; [|eassumption]; abi_shape].

(** One step of a boundary computation, by its rule. *)
Ltac abi_step :=
  lazymatch goal with
  | |- wp (status _) _ _ _ => apply wp_status
  | |- wp (handle _) _ _ _ => apply wp_handle
  | |- wp (int _) _ _ _ => apply wp_int
  | |- wp (nothing _) _ _ _ => apply wp_nothing
  | |- wp (guard_status _) _ _ _ => apply wp_catch
  | |- wp (guard_ptr _) _ _ _ => apply wp_catch
  | |- wp (guard_int _) _ _ _ => apply wp_catch
  | |- wp (guard_unit _) _ _ _ => apply wp_catch
  | |- wp (catch _ _) _ _ _ => apply wp_catch
  | |- wp (mbind _ _) _ _ _ => apply wp_bind
  | |- wp clear_last_error _ _ _ => apply wp_set_error
  | |- wp (mret _) _ _ _ => apply wp_mret
  | |- wp (fail _ _) _ _ _ => apply wp_fail
  | |- wp (fail_null _) _ _ _ => apply wp_fail_null
  | |- wp (slice_from _ _) _ _ _ =>
      apply wp_slice_from; [first [assumption | lia] | assumption
        | let Hn := fresh "Hnull" in intros Hn
        | let l := fresh "bl" in let bs := fresh "bytes" in let Hl := fresh "Hbl" in
          let Hlen := fresh "Hlen" in intros l bs Hl Hlen]
  | |- wp (path_from _) _ _ _ => apply wp_path_from; [assumption | intros [?path|]]
  | |- wp (deref_key _) _ _ _ => apply wp_deref_key; [assumption | intros ?k ?Hk]
  | |- wp (deref_identity _) _ _ _ => apply wp_deref_identity; [assumption | intros ?k ?Hk]
  | |- wp (deref_public _) _ _ _ => apply wp_deref_public; [assumption | intros ?k ?Hk]
  | |- wp (deref_encoder _) _ _ _ => apply wp_deref_encoder; [assumption | intros ?frames ?ps ?He]
  | |- wp (deref_decoder _) _ _ _ => apply wp_deref_decoder; [assumption | intros ?d ?Hd]
  | |- wp (deref_hasher _) _ _ _ => apply wp_deref_hasher; [assumption | intros ?h ?Hh]
  | |- wp (deref_manifest _) _ _ _ => apply wp_deref_manifest; [assumption | intros ?m ?b ?Hm]
  | |- wp (run _) _ _ _ => apply wp_run; [intros ?e ?Hrun | intros ?a ?Hrun | intros ?Hrun]
  | |- wp (run_total _) _ _ _ => apply wp_run_total; [intros ?a ?Hrun | intros ?Hrun]
  | |- wp (draw _) _ _ _ => apply wp_draw; [intros ?r ?e ?Hrun | intros ?r ?a ?Hrun | intros ?r ?Hrun]
  | |- wp (with_files _) _ _ _ =>
      apply wp_with_files; [intros ?w ?e ?Hrun | intros ?w ?a ?Hrun | intros ?w ?Hrun]
  | |- wp (into_raw _) _ _ _ => apply wp_into_raw; intros ?l ?Hfresh
  | |- wp (store_int_opt _ _) _ _ _ => apply wp_store_int_opt; [abi_int_cell | intros ?m' ?Hshape]
  | |- wp (store_int ?l ?z) _ _ _ => change (store_int l z) with (store_int_opt (Some l) z)
  | |- wp (store_params _ _) _ _ _ => apply wp_store_params; [assumption | intros ?m' ?Hshape]
  | |- wp (copy_to _ _) _ _ _ => eapply wp_copy_exact; [eassumption | | intros ?m' ?Hshape]
  | |- wp (write_out _ _ _ _) _ _ _ =>
      apply wp_write_out; [abi_readable | abi_int_cell | intros ?m' ?Hshape
        | intros ?m' ?e ?Hshape ?Hne]
  | |- wp (boxed _ _ _) _ _ _ => unfold boxed
  | |- wp (match ?p with _ => _ end) _ _ _ => destruct p
  end; cbn beta iota.

(** What is left when a call returns. *)
Ltac abi_done :=
  lazymatch goal with
  | |- after _ _ _ _ (RStatus SPanic) =>
      apply after_status; [assumption | reflexivity | reflexivity | abi_shape
        | split; discriminate | intros _]
  | |- after _ _ _ _ (RStatus SOk) =>
      apply after_success; [assumption | reflexivity | reflexivity
        | abi_shape | reflexivity]
  | |- after _ _ _ _ (RStatus _) =>
      apply after_failure; [assumption | reflexivity | discriminate | discriminate | reflexivity
        | abi_shape | cbn; first [assumption | discriminate | auto with dhow]]
  | |- after _ _ _ _ (RPtr None) =>
      apply after_null; [assumption | reflexivity | reflexivity | abi_shape
        | cbn; first [discriminate | auto with dhow]]
  | |- after _ _ _ _ (RInt _) =>
      apply after_int; [assumption | reflexivity | reflexivity | abi_shape | cbn; try done]
  | Hfresh : heap _ !! ?l = None |- after _ _ _ _ (RPtr (Some ?l)) =>
      eapply after_new with (l := l); [assumption | exact Hfresh | | | reflexivity
        | abi_shape | reflexivity]; [reflexivity | try exact I]
  | _ => idtac
  end.

Ltac abi_run := repeat abi_step; abi_done.

Section calls.
Context `{Blake3Laws} `{RaptorQ} `{Ed25519Laws} `{GetrandomLaws} `{Aead} `{QrcodegenLaws}.
Context (checks : bool) (s : Lib) (Hok : lib_ok s).

Abbreviation sound c :=
  (contract c s -> wp (exec checks c) (after checks c s) (fun _ => False) s).

(** The frees. *)
Lemma sound_free c (p : ptr) is_type :
  freed c = p -> touched c = None -> (p = None -> freed c = None) ->
  live (fun o => is_type o = true) s p ->
  wp (nothing (free is_type p)) (after checks c s) (fun _ => False) s.
Proof.
  intros Hf Ht _ Hl. unfold free. abi_step. abi_step. destruct p as [l|].
  - destruct Hl as (o & Hl & Ho). apply wp_bind. eapply wp_deref; [exact Hl|]. rewrite Ho.
    apply wp_from_raw. by eapply after_freed.
  - abi_step. apply after_same; try done.
Qed.

Ltac free_call := intros Hl; cbn [exec]; by apply sound_free.

Lemma sound_key_free p : sound (KeyFree p).
Proof. free_call. Qed.

Lemma sound_identity_free p : sound (IdentityFree p).
Proof. free_call. Qed.

Lemma sound_public_free p : sound (PublicFree p).
Proof. free_call. Qed.

Lemma sound_encoder_free p : sound (EncoderFree p).
Proof. free_call. Qed.

Lemma sound_decoder_free p : sound (DecoderFree p).
Proof. free_call. Qed.

Lemma sound_hasher_free p : sound (HasherFree p).
Proof. free_call. Qed.

Lemma sound_manifest_free p : sound (ManifestFree p).
Proof. free_call. Qed.

Lemma sound_encoder_params e out : sound (EncoderParams e out).
Proof. intros [He Ho]. cbn [exec]. unfold dhow_encoder_params. abi_run. Qed.

Lemma sound_encoder_frame_count e : sound (EncoderFrameCount e).
Proof. intros He. cbn [exec]. unfold dhow_encoder_frame_count. abi_run. by exists frames, ps. Qed.

Lemma sound_encoder_frame e i buf n w : sound (EncoderFrame e i buf n w).
Proof. intros (He & Hn & Hb & Hw). cbn [exec]. unfold dhow_encoder_frame. abi_run. Qed.

Lemma sound_decoder_is_complete d : sound (DecoderIsComplete d).
Proof. intros Hd. cbn [exec]. unfold dhow_decoder_is_complete. abi_run. by exists d. Qed.

Lemma sound_decoder_blocks_complete d : sound (DecoderBlocksComplete d).
Proof. intros Hd. cbn [exec]. unfold dhow_decoder_blocks_complete. abi_run. by exists d. Qed.

Lemma sound_qr_capacity v e : sound (QrCapacity v e).
Proof.
  intros _. cbn [exec]. unfold dhow_qr_capacity. do 2 abi_step.
  destruct (Qr.from_letter (as_u 8 e)) as [level|] eqn:Hlv.
  - repeat abi_step; abi_done.
    + right. split; [done|]. intros level' n Hl. rewrite Hlv in Hl. congruence.
    + left. by exists level, a.
    + by destruct (Qr.capacity_safe v level Hrun).
  - repeat abi_step. apply after_int; try done. right. split; [done|]. intros level n Hl.
    by rewrite Hlv in Hl.
Qed.

Lemma sound_qr_max_symbol_size v e : sound (QrMaxSymbolSize v e).
Proof.
  intros _. cbn [exec]. unfold dhow_qr_max_symbol_size. do 2 abi_step.
  destruct (Qr.from_letter (as_u 8 e)) as [level|] eqn:Hlv.
  - repeat abi_step; abi_done.
    + right. split; [done|]. intros level' n Hl. rewrite Hlv in Hl. congruence.
    + left. eexists level, (Some _). split_and!; [done|exact Hrun|done].
    + left. by exists level, None.
    + by destruct (Qr.max_symbol_size_safe v level Hrun).
  - repeat abi_step. apply after_int; try done. right. split; [done|]. intros level n Hl.
    by rewrite Hlv in Hl.
Qed.

(** *** Keys *)

Lemma generated_key r r' k : OperatorKey_generate r = (r', Ok k) -> object_ok (OKey k).
Proof.
  unfold OperatorKey_generate. intros Hg. apply bind_action_Ok in Hg as (r1 & bytes & Hr & Hg).
  apply mret_action_Ok in Hg as [_ <-]. unfold random_bytes in Hr.
  destruct (gr_fill _ _) as [r2 [bs|e]] eqn:Hfill; [|done]. injection Hr as <- <-.
  by apply gr_length in Hfill.
Qed.

Lemma loaded_key path w w' k : load_operator path w = (w', Ok k) -> object_ok (OKey k).
Proof.
  unfold load_operator. intros Hl. apply bind_action_Ok in Hl as (w1 & [ik|ok] & Hs & Hl).
  { by apply lift_Ok in Hl as [_ ?]. }
  apply mret_action_Ok in Hl as [_ <-]. unfold load_secret in Hs.
  apply bind_action_Ok in Hs as (w2 & [] & _ & Hs). apply bind_action_Ok in Hs as (w3 & bs & _ & Hs).
  apply bind_action_Ok in Hs as (w4 & [kind m] & Hd & Hs). apply lift_Ok in Hd as [_ Hd].
  apply key_file_inv in Hd as [Hm _]. apply mret_action_Ok in Hs as [_ Hs].
  destruct kind; [done|]. injection Hs as <-. done.
Qed.

(** Saving never panics. *)
Lemma write_owner_only_no_panic path bytes w w' : write_owner_only path bytes w <> (w', Panic).
Proof.
  unfold write_owner_only, mbind, action_bind, map_err_io, open_create, write_all, set_permissions.
  intros Hp. repeat (case_match; simplify_eq; try done).
Qed.

Lemma write_no_panic path bytes w w' : write path bytes w <> (w', Panic).
Proof.
  unfold write, mbind, action_bind, open_create, write_all.
  intros Hp. repeat (case_match; simplify_eq; try done).
Qed.

Lemma sound_key_generate : sound KeyGenerate.
Proof.
  intros _. cbn [exec]. unfold dhow_key_generate. abi_run. by eapply generated_key.
Qed.

Lemma sound_key_load path : sound (KeyLoad path).
Proof.
  intros Hp. cbn [exec]. unfold dhow_key_load. abi_run. by eapply loaded_key.
Qed.

Lemma sound_key_save key path : sound (KeySave key path).
Proof.
  intros [Hk Hp]. cbn [exec]. unfold dhow_key_save. abi_run.
  by apply write_owner_only_no_panic in Hrun.
Qed.

Lemma sound_identity_generate : sound IdentityGenerate.
Proof. intros _. cbn [exec]. unfold dhow_identity_generate. abi_run. Qed.

Lemma sound_identity_load path : sound (IdentityLoad path).
Proof. intros Hp. cbn [exec]. unfold dhow_identity_load. abi_run. Qed.

Lemma sound_identity_save i path : sound (IdentitySave i path).
Proof.
  intros [Hk Hp]. cbn [exec]. unfold dhow_identity_save. abi_run.
  by apply write_owner_only_no_panic in Hrun.
Qed.

Lemma sound_identity_public i : sound (IdentityPublic i).
Proof. intros Hi. cbn [exec]. unfold dhow_identity_public. abi_run. Qed.

Lemma sound_public_load path : sound (PublicLoad path).
Proof. intros Hp. cbn [exec]. unfold dhow_public_load. abi_run. Qed.

Lemma sound_public_save p path : sound (PublicSave p path).
Proof.
  intros [Hk Hp]. cbn [exec]. unfold dhow_public_save. abi_run.
  unfold save_public in Hrun. rewrite map_err_io_run in Hrun. injection Hrun as Hw Hr.
  destruct (write _ _ _) as [w1 [a|e|]] eqn:Hwr in Hr; try done.
  by apply write_no_panic in Hwr.
Qed.

Lemma sound_public_bytes p out : sound (PublicBytes p out).
Proof.
  intros [Hp Ho]. cbn [exec]. unfold dhow_public_bytes. abi_run.
  unfold len, PublicIdentity_to_bytes. by rewrite ed_vk_length.
Qed.

Lemma sound_public_fingerprint p buf n w : sound (PublicFingerprint p buf n w).
Proof.
  intros (Hp & Hn & Hb & Hw). cbn [exec]. unfold dhow_public_fingerprint. abi_run.
Qed.

(** *** Encoder and decoder *)

Lemma sound_encoder_new key sid salt nonce params payload n :
  sound (EncoderNew key sid salt nonce params payload n).
Proof.
  intros (Hk & Hsid & Hsalt & Hnonce & Hn & Hpay). cbn [exec]. unfold dhow_encoder_new. abi_run.
Qed.

Lemma sound_decoder_new key sid salt params : sound (DecoderNew key sid salt params).
Proof.
  intros (Hk & Hsid & Hsalt & Hp). cbn [exec]. unfold dhow_decoder_new. abi_run.
  apply decoder_new_ok in Hrun0 as [Hd _]; [by exists []|unfold len in Hlen; lia|exact Hp].
Qed.

Lemma derive_no_panic operator sl : TransferKeys_derive operator sl <> Panic.
Proof. unfold TransferKeys_derive. by rewrite !derive_key_first. Qed.

Lemma decrypt_no_panic keys nonce sid c : decrypt_payload_in_place keys nonce sid c <> Panic.
Proof. unfold decrypt_payload_in_place. by repeat case_match. Qed.

(** A decoder that took a frame, or panicked on it, keeps good books. *)
Lemma accept_object dec b dec' r :
  object_ok (ODecoder dec) -> accept checks b dec = (dec', r) -> object_ok (ODecoder dec').
Proof.
  intros [acc Hacc] Ha. pose proof (accept_cases checks dec acc b Hacc) as Hc.
  destruct (admission dec b) as [f|e|]; [|exists acc; congruence|done].
  destruct Hc as (d1 & st & (_ & _ & _ & _ & Hb) & Hok1 & _ & Heq). rewrite Ha in Heq.
  exists (acc ++ [b]). unfold deliver in Heq.
  repeat (case_match; simplify_eq; try done);
    apply decoder_ok_set_blocks; try done; by rewrite length_insert, Hb.
Qed.

Lemma sound_decoder_accept d f n : sound (DecoderAccept d f n).
Proof.
  intros (Hd & Hn & Hf). cbn [exec]. unfold dhow_decoder_accept. abi_run. unfold run_accept.
  abi_step. apply wp_deref_decoder; [assumption|]. intros dec Hdec.
  destruct (accept checks bytes dec) as [dec' r] eqn:Hacc.
  apply wp_bind, wp_assign.
  destruct (Hok _ _ Hdec) as [acc Hacc_ok].
  assert (Hdec' : object_ok (ODecoder dec')) by (eapply accept_object; [exists acc; done|exact Hacc]).
  apply wp_run; [intros e _|intros a _|intros _]; cbn beta; repeat abi_step;
    (eapply after_set with (o := ODecoder dec) (o' := ODecoder dec');
      [assumption|reflexivity|exact Hdec|exact I|exact Hdec'|reflexivity|reflexivity
      |cbn; split; try done; intros Ht; by apply CodecError_text in Ht|intros; exact I]).
Qed.

Lemma sound_decoder_finish d key sid salt nonce buf n w :
  sound (DecoderFinish d key sid salt nonce buf n w).
Proof.
  intros (Hd & Hkey & Hsid & Hsalt & Hnonce & Hn & Hbuf & Hw). cbn [exec].
  unfold dhow_decoder_finish. abi_run.
  - by apply decrypt_no_panic in Hrun1.
  - by apply derive_no_panic in Hrun0.
  - destruct (Hok _ _ Hd0) as [acc Hacc]. by apply finish_safe in Hacc.
Qed.


(** *** Resume state, digests and QR codes *)

Lemma sound_decoder_resume_state d j buf n w : sound (DecoderResumeState d j buf n w).
Proof.
  intros (Hd & Hj & Hn & Hbuf & Hw). cbn [exec]. unfold dhow_decoder_resume_state. abi_run.
  destruct (Hok _ _ Hd0) as [acc Hacc]. destruct (block_count_bound _ _ Hacc) as [Hb _].
  destruct (resume_state_eq (E := Empty_set) j d acc Hacc Hj ltac:(lia)) as (es & Heq & _).
  congruence.
Qed.

Lemma resume_panic bytes :
  ResumeFile_from_bytes checks bytes = Panic -> checks = true /\ 2 ^ 29 <= len bytes.
Proof.
  intros Hp. pose proof (resume_safe checks bytes) as Hs. rewrite Hp in Hs. cbn in Hs.
  destruct checks; [|by destruct (Hs (or_introl eq_refl))]. split; [done|].
  apply Z.nlt_ge. intros Hlt. by apply (Hs (or_intror Hlt)).
Qed.

Lemma sound_resume_state_read st n sid j b : sound (ResumeStateRead st n sid j b).
Proof.
  intros (Hn & Hst & Hsid & Hj & Hb). cbn [exec]. unfold dhow_resume_state_read. abi_run.
  - apply resume_inv in Hrun as [Hwf _]. unfold len. by rewrite (wr_session_id _ Hwf).
  - apply resume_panic in Hrun. by rewrite Hlen in Hrun.
Qed.

Lemma sound_decoder_resume_verify d st n : sound (DecoderResumeVerify d st n).
Proof.
  intros (Hd & Hn & Hst). cbn [exec]. unfold dhow_decoder_resume_verify. abi_run.
  - apply resume_inv in Hrun as [Hwf _]. destruct (Hok _ _ Hd0) as [acc Hacc].
    by pose proof (verify_resume_safe d acc a Hacc Hwf).
  - apply resume_panic in Hrun. by rewrite Hlen in Hrun.
Qed.

Lemma sound_hash_once data n out : sound (HashOnce data n out).
Proof.
  intros (Hn & Hd & Ho). cbn [exec]. unfold dhow_blake3. abi_run.
  unfold len. by rewrite length_blake3_digest.
Qed.

Lemma sound_hasher_new : sound HasherNew.
Proof. intros _. cbn [exec]. unfold dhow_hasher_new. abi_run. by exists []. Qed.

Lemma sound_hasher_update h data n : sound (HasherUpdate h data n).
Proof.
  intros (Hh & Hn & Hd). cbn [exec]. unfold dhow_hasher_update. abi_run.
  destruct (Hok _ _ Hh0) as [chunks Hchunks]. apply wp_assign. abi_step.
  eapply after_set with (o := OHasher h) (o' := OHasher (Digest.update h bytes));
    [assumption|reflexivity|exact Hh0|exact I| |reflexivity|reflexivity|done|done].
  exists (chunks ++ [bytes]). by rewrite foldl_app, Hchunks.
Qed.

Lemma sound_hasher_finish h out : sound (HasherFinish h out).
Proof.
  intros (Hh & Ho). cbn [exec]. unfold dhow_hasher_finish. abi_run.
  destruct (Hok _ _ Hh0) as [chunks ->]. rewrite hasher_streams. unfold len.
  by rewrite length_blake3_digest.
Qed.

Lemma sound_qr_encode_frame f fl v e buf n size w :
  sound (QrEncodeFrame f fl v e buf n size w).
Proof.
  intros (Hfl & Hf & Hn & Hbuf & Hsize & Hw). cbn [exec]. unfold dhow_qr_encode_frame. abi_run.
  case_decide; [by apply Qr.encode_with_safe in Hrun|by apply Qr.encode_at_safe in Hrun].
Qed.

(** *** Manifests *)

Lemma built_manifest idk u bytes m :
  sign_manifest idk u = Ok (E := Empty_set) bytes -> Manifest_from_bytes bytes = Ok m ->
  object_ok (OManifest m bytes).
Proof.
  intros Hs Hm. eapply sign_manifest_verifies in Hs as Hv; [|exact Hm].
  apply verify_signature_Ok in Hv as (Hwf & Hb & Hv). split_and!; [done|done|eauto].
Qed.

Lemma wp_entries_loop s1 Q U raw : forall i,
  Forall (fun e => c_string s1 (fe_name e)) raw ->
  (forall e, e <> [] -> Q s1 (inl e)) -> (forall es, Q s1 (inr es)) ->
  wp (entries_loop i raw) Q U s1.
Proof.
  revert Q. induction raw as [|e raw IH]; intros Q i Hraw HE HO; cbn [entries_loop].
  { apply wp_mret, HO. }
  apply Forall_cons in Hraw as [He Hraw]. destruct (fe_name e) as [nl|]; [|by apply wp_mret, HE].
  case_decide; [by apply wp_mret, HE|]. apply wp_bind, wp_c_str; [done|]. intros str.
  destruct (from_utf8 str) as [nm|]; [|by apply wp_mret, HE]. apply wp_bind, wp_run.
  - intros er _. by apply wp_mret, HE.
  - intros [] _. apply wp_bind, IH; [done|intros; by apply wp_mret, HE|].
    intros es. apply wp_mret, HO.
  - intros Hp. by apply validate_name_safe in Hp.
Qed.

Lemma wp_entries_from s1 Q U p count :
  0 <= count -> entry_array s1 p count -> (forall e, e <> [] -> Q s1 (inl e)) ->
  (forall es, Q s1 (inr es)) -> wp (entries_from p count) Q U s1.
Proof.
  intros Hc Hp HE HO. unfold entries_from. case_decide as Hz; [apply wp_mret, HO|].
  destruct p as [l|]; [|by apply wp_mret, HE].
  destruct Hp as [?|(es & Hl & Hn & Hes)]; [done|]. apply wp_bind. unfold wp at 1, read_raw.
  rewrite Hl, decide_True by done. apply wp_entries_loop; [by apply Forall_take|done|done].
Qed.

Lemma sound_manifest_build i sid salt nonce params es count :
  sound (ManifestBuild i sid salt nonce params es count).
Proof.
  intros (Hi & Hsid & Hsalt & Hnonce & Hc & Hes). cbn [exec]. unfold dhow_manifest_build. abi_run.
  apply wp_entries_from; [done|exact Hes|intros e He; abi_run|intros entries; abi_run].
  by eapply built_manifest.
Qed.

Lemma sound_manifest_verify p bytes n sid : sound (ManifestVerify p bytes n sid).
Proof.
  intros (Hp & Hn & Hb & Hsid). cbn [exec]. unfold dhow_manifest_verify. abi_run.
  all: apply verify_manifest_with_Ok in Hrun as (_ & Hv & _).
  all: apply verify_signature_Ok in Hv as (Hwf & Hbs & Hv); split_and!; eauto.
Qed.

Lemma sound_manifest_bytes m buf n w : sound (ManifestBytes m buf n w).
Proof. intros (Hm & Hn & Hb & Hw). cbn [exec]. unfold dhow_manifest_bytes. abi_run. Qed.

(** The manifest behind a live handle is well formed. *)
Lemma live_manifest l m b : heap s !! l = Some (OManifest m b) -> wf_manifest m.
Proof. intros Hl. by destruct (Hok _ _ Hl). Qed.

Lemma sound_manifest_session_id m out : sound (ManifestSessionId m out).
Proof.
  intros (Hm & Ho). cbn [exec]. unfold dhow_manifest_session_id, manifest_field. abi_run.
  apply live_manifest in Hm0 as [Hh _ _ _]. unfold len. cbn [fst]. by rewrite (wm_session_id _ Hh).
Qed.

Lemma sound_manifest_salt m out : sound (ManifestSalt m out).
Proof.
  intros (Hm & Ho). cbn [exec]. unfold dhow_manifest_salt, manifest_field. abi_run.
  apply live_manifest in Hm0 as [Hh _ _ _]. unfold len. cbn [fst]. by rewrite (wm_salt _ Hh).
Qed.

Lemma sound_manifest_nonce m out : sound (ManifestNonce m out).
Proof.
  intros (Hm & Ho). cbn [exec]. unfold dhow_manifest_nonce, manifest_field. abi_run.
  apply live_manifest in Hm0 as [Hh _ _ _]. unfold len. cbn [fst]. by rewrite (wm_nonce _ Hh).
Qed.

Lemma sound_manifest_params m out : sound (ManifestParams m out).
Proof. intros (Hm & Ho). cbn [exec]. unfold dhow_manifest_params. abi_run. Qed.

Lemma sound_manifest_file_count m : sound (ManifestFileCount m).
Proof.
  intros Hm. cbn [exec]. unfold dhow_manifest_file_count, guard_out. repeat abi_step.
  - cbn. apply after_int; try done. eexists _, _. split; [exact Hm0|done].
  - by apply after_int.
Qed.

(** [entry_at] leaves a text exactly when it finds no entry. *)
Lemma wp_entry_at s1 Q U m i :
  a_manifest s1 m ->
  (forall e, e <> [] ->
     (forall l mf b, m = Some l -> heap s1 !! l = Some (OManifest mf b) ->
        entries mf !! Z.to_nat i = None) -> Q (with_error e s1) None) ->
  (forall l mf b e, m = Some l -> heap s1 !! l = Some (OManifest mf b) -> e ∈ entries mf ->
     entries mf !! Z.to_nat i = Some e -> Q s1 (Some e)) ->
  wp (entry_at m i) Q U s1.
Proof.
  intros Hm HE HO. unfold entry_at. destruct m as [l|]; [|by apply wp_bind, wp_fail, HE].
  apply wp_bind, wp_deref_manifest; [done|]. intros mf b Hl. cbn [fst].
  destruct (entries mf !! Z.to_nat i) as [e|] eqn:He.
  2: { apply wp_bind, wp_fail, HE; [done|]. intros l' mf' b' [= <-] Hl'. congruence. }
  eapply wp_mret, HO; [done|exact Hl|by apply list_elem_of_lookup_2 in He|done].
Qed.

Ltac entry_run :=
  abi_run; apply wp_entry_at; [assumption | intros ?e ?Hne ?Hno; abi_run
    | intros ?l ?mf ?b ?e ?Hml ?Hl ?He ?Hat; abi_run].

Lemma sound_manifest_file_name m i buf n w : sound (ManifestFileName m i buf n w).
Proof.
  intros (Hm & Hn & Hb & Hw). cbn [exec]. unfold dhow_manifest_file_name. entry_run.
Qed.

Lemma sound_manifest_file_size m i out : sound (ManifestFileSize m i out).
Proof.
  intros (Hm & Ho). cbn [exec]. unfold dhow_manifest_file_size. entry_run.
Qed.

Lemma sound_manifest_file_digest m i out : sound (ManifestFileDigest m i out).
Proof.
  intros (Hm & Ho). cbn [exec]. unfold dhow_manifest_file_digest. entry_run.
  apply live_manifest in Hl as [_ Hes _ _]. rewrite Forall_forall in Hes.
  unfold len. by rewrite (we_digest _ (Hes _ He)).
Qed.

Lemma sound_manifest_file_executable m i : sound (ManifestFileExecutable m i).
Proof.
  intros Hm. cbn [exec]. unfold dhow_manifest_file_executable, guard_out. entry_run.
  - right. split; [done|]. split; [exact Hne|exact Hno].
  - left. exists l, mf, b, e. split_and!; done.
Qed.

Lemma sound_last_error_message buf n : sound (LastErrorMessage buf n).
Proof.
  intros Hb. cbn [exec]. unfold dhow_last_error_message. abi_step. apply wp_catch.
  unfold wp. cbn beta zeta. destruct buf as [l|]; [|by apply after_int].
  case_decide as Hn; [apply after_int; try done; cbn; by rewrite bool_decide_eq_true_2|].
  rewrite Z.nlt_ge in Hn.
  set (text := render (last_error s) ++ [Byte.x00]).
  assert (Hl : len text = len (render (last_error s)) + 1) by (unfold text; by rewrite len_app).
  apply (wp_bind _ _ s (copy_to l text)), (wp_copy_to _ _ _ l text).
  - rewrite Hl. destruct Hb as [Hz|(bs & Hbs & Hle)]; [|right; exists bs; split; [done|lia]].
    left. pose proof (len_nonneg (render (last_error s))). lia.
  - intros m' Hshape. abi_run. by rewrite bool_decide_eq_false_2 by lia.
Qed.

(** All of them. *)
Lemma sound_call c : sound c.
Proof.
  destruct c; auto using sound_key_generate, sound_key_load, sound_key_save, sound_key_free,
    sound_identity_generate, sound_identity_load, sound_identity_save, sound_identity_public,
    sound_identity_free, sound_public_load, sound_public_save, sound_public_bytes,
    sound_public_fingerprint, sound_public_free, sound_encoder_new, sound_encoder_params,
    sound_encoder_frame_count, sound_encoder_frame, sound_encoder_free, sound_decoder_new,
    sound_decoder_accept, sound_decoder_is_complete, sound_decoder_blocks_complete,
    sound_decoder_finish, sound_decoder_resume_state, sound_resume_state_read,
    sound_decoder_resume_verify, sound_decoder_free, sound_hash_once, sound_hasher_new,
    sound_hasher_update, sound_hasher_finish, sound_hasher_free, sound_qr_capacity,
    sound_qr_max_symbol_size, sound_qr_encode_frame, sound_manifest_build,
    sound_manifest_verify, sound_manifest_bytes, sound_manifest_session_id,
    sound_manifest_salt, sound_manifest_nonce, sound_manifest_params,
    sound_manifest_file_count, sound_manifest_file_name, sound_manifest_file_size,
    sound_manifest_file_digest, sound_manifest_file_executable, sound_manifest_free,
    sound_last_error_message.
Qed.

End calls.

Section traces.
Context `{Blake3Laws} `{RaptorQ} `{Ed25519Laws} `{GetrandomLaws} `{Aead} `{QrcodegenLaws}.

Lemma call_returns checks c s :
  lib_ok s -> contract c s -> exists s' r, exec checks c s = Returns s' r /\ after checks c s s' r.
Proof.
  intros Hok Hc. pose proof (sound_call checks s Hok c Hc) as Hw. unfold wp in Hw.
  destruct (exec checks c s) as [|s'|s' r]; [done..|]. eauto.
Qed.

Lemma call_after checks c s s' r :
  lib_ok s -> contract c s -> exec checks c s = Returns s' r -> after checks c s s' r.
Proof.
  intros Hok Hc He. destruct (call_returns checks c s Hok Hc) as (s1 & r1 & He' & Ha).
  rewrite He in He'. by injection He' as <- <-.
Qed.

Lemma same_type_refl o : same_type o o.
Proof. by destruct o. Qed.

Lemma same_type_trans o1 o2 o3 : same_type o1 o2 -> same_type o2 o3 -> same_type o1 o3.
Proof. by destruct o1, o2, o3. Qed.

(** A handle that is not released stays, with its type; one the call is not
    about keeps its object. *)
Lemma heap_step_keeps c h h' r l o :
  heap_step c h h' r -> h !! l = Some o -> freed c <> Some l ->
  exists o', h' !! l = Some o' /\ same_type o o' /\ (touched c <> Some l -> o' = o).
Proof.
  intros Hs Hl Hf. destruct Hs as [r _ _|l' o' Hl' _|l' o1 o2 st Ht Hl' Hty|l' o' Hf' Hl'].
  - exists o. split_and!; [done|apply same_type_refl|done].
  - exists o. rewrite lookup_insert_ne by congruence.
    split_and!; [done|apply same_type_refl|done].
  - destruct (decide (l' = l)) as [->|Hne].
    + rewrite Hl in Hl'. injection Hl' as <-. exists o2. by rewrite lookup_insert_eq.
    + exists o. rewrite lookup_insert_ne by done. split_and!; [done|apply same_type_refl|done].
  - exists o. rewrite lookup_delete_ne by congruence.
    split_and!; [done|apply same_type_refl|done].
Qed.

Lemma environment_ok s s' : environment s s' -> lib_ok s -> lib_ok s'.
Proof. intros [Hh _] Hok l o. rewrite Hh. apply Hok. Qed.

Lemma trace_ok checks cs s s' : trace checks cs s s' -> lib_ok s -> lib_ok s'.
Proof.
  induction 1 as [s|c cs s s1 s2 r Hc He _ IH|cs s s1 s2 Henv _ IH]; intros Hok; [done|..].
  - apply IH. by apply (af_ok _ _ _ _ _ (call_after _ _ _ _ _ Hok Hc He)).
  - by eapply IH, environment_ok.
Qed.

Lemma lib_ok_empty s : heap s = ∅ -> lib_ok s.
Proof. intros Hh l o. by rewrite Hh, lookup_empty. Qed.

End traces.

(** ** Properties *)

(** C5: no call breaks. Whatever the state of the library and of the system,
    an entry point whose contract the caller keeps returns: no undefined
    behaviour, no panic past the boundary. Afterwards every live handle holds
    a well-formed object, the caller's memory has the objects it had, with
    their types and sizes; at most the handle the call is about has changed or
    gone, and a new one is at a free address, of the constructor's type; a
    status or a null pointer says failure exactly when a text is recorded;
    the panic status answers no call but feeding a frame and reading half
    a gigabyte of resume state with overflow checks on; and a call that returns
    an integer answers exactly the count, flag, capacity or length it is asked
    for, as a C [int], or the status of a null handle, an argument it refuses or
    a buffer too small. *)
Theorem abi_sound `{Blake3Laws} `{RaptorQ} `{Ed25519Laws} `{GetrandomLaws} `{Aead}
    `{QrcodegenLaws} checks c s :
  lib_ok s -> contract c s ->
  exists s' r, exec checks c s = Returns s' r /\ after checks c s s' r.
Proof. apply call_returns. Qed.

Lemma abi_sound_witness :
  exists s' r, exec true demo_seal demo_lib = Returns s' r /\ after true demo_seal demo_lib s' r.
Proof. apply (abi_sound true demo_seal demo_lib demo_lib_ok demo_seal_contract). Defined.

(** C11: handles in use. Along any trace of calls that keep their contracts,
    from a state that satisfies the invariant, the invariant is kept: every
    operator key has its 32 bytes, every decoder has the bookkeeping of the
    frames it accepted, every hasher is the digest of the bytes it absorbed, and
    every manifest is well formed, is the parse of its bytes and carries a valid
    signature. A handle no call releases stays live with its type, and one that
    no call feeds holds the very same object. *)
Theorem abi_trace_invariant `{Blake3Laws} `{RaptorQ} `{Ed25519Laws} `{GetrandomLaws} `{Aead}
    `{QrcodegenLaws} checks cs s s' :
  lib_ok s -> trace checks cs s s' ->
  lib_ok s'
  /\ (forall l o, heap s !! l = Some o -> Forall (fun c => freed c <> Some l) cs ->
     exists o', heap s' !! l = Some o' /\ same_type o o'
       /\ (Forall (fun c => touched c <> Some l) cs -> o' = o))
  /\ (forall l k, heap s' !! l = Some (OKey k) -> length (ok_bytes k) = KEY_MATERIAL_LEN)
  /\ (forall l d, heap s' !! l = Some (ODecoder d) -> exists acc, decoder_ok d acc)
  /\ (forall l h, heap s' !! l = Some (OHasher h) ->
     exists data, finalize h = blake3_digest data)
  /\ forall l m bytes, heap s' !! l = Some (OManifest m bytes) ->
     Manifest_from_bytes bytes = Ok m
     /\ exists signer, verify_signature signer bytes = Ok m.
Proof.
  intros Hok Ht. pose proof (trace_ok _ _ _ _ Ht Hok) as Hok'. split; [exact Hok'|].
  split; [|split; [|split; [|split]]].
  2: { intros l k Hl. exact (Hok' l _ Hl). }
  2: { intros l d Hl. exact (Hok' l _ Hl). }
  2: { intros l h Hl. destruct (Hok' l _ Hl) as [chunks ->]. exists (concat chunks).
       apply hasher_streams. }
  - clear Hok'. induction Ht as [s|c cs s s1 s2 r Hc He _ IH|cs s s1 s2 Henv _ IH]; intros l o Hl Hfree.
    + exists o. split_and!; [done|apply same_type_refl|done].
    + apply Forall_cons in Hfree as [Hf Hfree].
      pose proof (call_after _ _ _ _ _ Hok Hc He) as Ha.
      destruct (heap_step_keeps _ _ _ _ l o (af_heap _ _ _ _ _ Ha) Hl Hf) as (o1 & Hl1 & Hty & Heq).
      destruct (IH (af_ok _ _ _ _ _ Ha) l o1 Hl1 Hfree) as (o2 & Hl2 & Hty2 & Heq2).
      exists o2. split_and!; [done|by eapply same_type_trans|].
      intros Hall. apply Forall_cons in Hall as [Ht Hall]. rewrite Heq2, Heq; done.
    + destruct Henv as [Hh _]. apply IH; [|by rewrite Hh|done]. intros l' o'. rewrite Hh. apply Hok.
  - intros l m bytes Hl. destruct (Hok' l _ Hl) as (Hwf & -> & signer & Hv).
    split; [by apply manifest_parse_print|]. exists signer. by apply verify_signature_Ok.
Qed.

Lemma abi_trace_invariant_witness :
  exists s' r, exec true demo_seal demo_lib = Returns s' r /\ lib_ok s'
    /\ heap s' !! 1%positive = Some (OKey {| ok_bytes := zeros 32 |}).
Proof.
  destruct (call_returns true demo_seal demo_lib demo_lib_ok demo_seal_contract)
    as (s' & r & He & _).
  destruct (abi_trace_invariant true [demo_seal] demo_lib s' demo_lib_ok
    (Trace_call true demo_seal [] demo_lib s' s' r demo_seal_contract He (Trace_nil true s')))
    as (Hok & Hkeep & _).
  destruct (Hkeep 1%positive (OKey {| ok_bytes := zeros 32 |}) eq_refl) as (o' & Hl & _ & Ho).
  { repeat constructor. discriminate. }
  exists s', r. split; [exact He|]. split; [exact Hok|]. rewrite Hl, Ho; [reflexivity|]. repeat constructor. discriminate.
Defined.
