(* ===== verification/AbiOutput.v ===== *)
(** * Buffers and error texts, as a caller uses them

    Entry points with an output of variable length are called twice, first to
    learn the length and then to fetch the data; a text is fetched in the same
    way after a failure. *)

From S2P Require Import Prelude Errors CryptErrors Display Primitives Instances.
From S2P Require Import Digest Session Manifest Resume Pipeline Fs Kdf Key Aead SignedManifest.
From S2P Require Import Abi AbiKeys AbiCodec AbiManifest AbiLogic AbiSystem AbiSound.
From S2P Require Qr.
From stdpp Require Import gmap.

#[local] Open Scope Z_scope.

(** ** Definitions *)

Section outputs.
Context `{Blake3} `{RaptorQ} `{Ed25519} `{Getrandom} `{Aead} `{Qrcodegen}.

(** The caller's buffer at [p] starts with the [n] bytes [bs]. *)
Definition reads (s : Lib) (p : ptr) (n : Z) (bs : list byte) : Prop :=
  forall e, slice_from p n (with_error e s) = Returns (with_error e s) (Some bs).

(** The caller's frame encodes: as one code of version [v], the smallest that
    holds it for version zero, at the level with letter [e]. *)
Definition makes_qr (s : Lib) (f : ptr) (fl v e : Z) (bytes : list byte) (qr : Qr.QrCodeEncoder)
    : Prop :=
  reads s f fl bytes /\ exists level, Qr.from_letter (as_u 8 e) = Some level
    /\ (if decide (v = 0) then Qr.encode_with bytes level else Qr.encode_at bytes v level) = Ok qr.

(** The calls with an output of variable length, as functions of the buffer,
    its length and the place for the output's length, and what they put out. *)
Inductive outputs (s : Lib) : (ptr -> Z -> ptr -> Call) -> list byte -> Prop :=
| Out_fingerprint l p :
    heap s !! l = Some (OPublic p) -> outputs s (PublicFingerprint (Some l)) (fingerprint p)
| Out_frame l frames ps i f :
    heap s !! l = Some (OEncoder frames ps) -> frames !! Z.to_nat i = Some f ->
    outputs s (EncoderFrame (Some l) i) f
| Out_finish l k d key sid salt nonce sid_b salt_b nonce_b c keys p :
    heap s !! l = Some (ODecoder d) -> heap s !! k = Some (OKey key) ->
    reads s sid 16 sid_b -> reads s salt 32 salt_b -> reads s nonce 24 nonce_b ->
    is_complete d = true -> finish d = Ok c ->
    TransferKeys_derive key (Salt_from_bytes salt_b) = Ok keys ->
    decrypt_payload_in_place keys (Nonce_from_bytes nonce_b) sid_b c = Ok p ->
    outputs s (DecoderFinish (Some l) (Some k) sid salt nonce) p
| Out_resume l d j rf :
    heap s !! l = Some (ODecoder d) -> resume_state j d = Ok (E := Empty_set) rf ->
    outputs s (DecoderResumeState (Some l) j) (ResumeFile_to_vec rf)
| Out_manifest l m bytes :
    heap s !! l = Some (OManifest m bytes) -> outputs s (ManifestBytes (Some l)) bytes
| Out_name l m bytes i e :
    heap s !! l = Some (OManifest m bytes) -> entries m !! Z.to_nat i = Some e ->
    outputs s (ManifestFileName (Some l) i) (name e)
| Out_qr f fl v e bytes qr :
    makes_qr s f fl v e bytes qr ->
    outputs s (fun buf n => QrEncodeFrame f fl v e buf n None) (Qr.to_modules qr).

(** The call made with a buffer that holds [data]: it succeeds, and leaves
    [data] at the start of the buffer and its length in its place. *)
Definition fetches (checks : bool) (s : Lib) (c : ptr -> Z -> ptr -> Call) (data : list byte)
    : Prop :=
  forall p old n w z, mem s !! p = Some (CBytes old) -> mem s !! w = Some (CInt z) ->
    len data <= n <= len old ->
    exists s', exec checks (c (Some p) n (Some w)) s = Returns s' (RStatus SOk)
      /\ heap s' = heap s
      /\ mem s' = <[p := CBytes (data ++ drop (length data) old)]> (<[w := CInt (len data)]> (mem s)).

(** The same calls with what they store besides: [dhow_qr_encode_frame], given
    a place for it, puts the side of the code there. *)
Inductive delivers_to (s : Lib) :
    (ptr -> Z -> ptr -> Call) -> list byte -> option (positive * Z) -> Prop :=
| To_caller c data : outputs s c data -> delivers_to s c data None
| To_caller_sized f fl v e bytes qr g y :
    makes_qr s f fl v e bytes qr -> mem s !! g = Some (CInt y) ->
    delivers_to s (fun buf n => QrEncodeFrame f fl v e buf n (Some g)) (Qr.to_modules qr)
      (Some (g, as_u 32 (Qr.size qr))).

Definition store_side (side : option (positive * Z)) (m : gmap positive cell)
    : gmap positive cell :=
  match side with Some (g, x) => <[g := CInt x]> m | None => m end.

End outputs.

(** What the example call leaves behind: a 114-byte frame behind handle 2, and
    the caller's memory as it was. *)
Definition demo_sealed_ok : bool :=
  match exec true demo_seal demo_lib with
  | Returns s (RPtr (Some 2%positive)) =>
      match heap s !! 2%positive, mem s !! 3%positive, mem s !! 4%positive with
      | Some (OEncoder (f :: _) _), Some (CBytes bs), Some (CInt z) =>
          bool_decide (len f = 114) && bool_decide (bs = zeros 400) && bool_decide (z = 0)
      | _, _, _ => false
      end
  | _ => false
  end.

(** ** Lemmas *)

Section calls.
Context `{Blake3} `{RaptorQ} `{Ed25519} `{Getrandom} `{Aead} `{Qrcodegen}.

Lemma bind_Returns {A B} (m : abi A) (k : A -> abi B) s s' a :
  m s = Returns s' a -> (m ≫= k) s = k a s'.
Proof. intros Hm. unfold mbind, abi_bind. by rewrite Hm. Qed.

(** A guarded body that returns, from the cleared text. *)
Lemma status_Returns (body : abi DhowStatus) s s' st :
  body (with_error [] s) = Returns s' st ->
  status (guard_status (_ ← clear_last_error; body)) s = Returns s' (RStatus st).
Proof.
  intros Hb. unfold status. erewrite bind_Returns; [reflexivity|].
  unfold guard_status, catch. by erewrite bind_Returns; [rewrite Hb|].
Qed.

Ltac deref_known :=
  erewrite bind_Returns;
    [|unfold deref_public, deref_encoder, deref_decoder, deref_key, deref_manifest, deref, mbind,
        abi_bind; cbn [heap with_error]; match goal with Hl : heap _ !! _ = Some _ |- _ =>
        rewrite Hl; reflexivity end];
  cbn beta iota.

Lemma run_Returns {E A} (m : outcome E A) a s : m = Ok a -> run m s = Returns s (inr a).
Proof. by intros ->. Qed.

(** Such a call clears the text and writes its output. *)
Lemma exec_outputs checks s c data buf n w s' st :
  outputs s c data -> write_out data buf n w (with_error [] s) = Returns s' st ->
  exec checks (c buf n w) s = Returns s' (RStatus st).
Proof.
  intros Ho Hw. destruct Ho; cbn [exec]; apply status_Returns.
  - by deref_known.
  - deref_known. cbn [fst]. by case_match; simplify_eq.
  - do 3 (erewrite bind_Returns by done; cbn beta iota). do 2 deref_known.
    case_match; [|congruence].
    do 3 (erewrite bind_Returns by (apply run_Returns; eassumption); cbn beta iota). done.
  - deref_known. erewrite bind_Returns; [exact Hw|]. unfold run_total. by case_match; simplify_eq.
  - by deref_known.
  - erewrite (bind_Returns _ _ _ _ (Some e)); [exact Hw|]. unfold entry_at. deref_known. cbn [fst].
    by case_match; simplify_eq.
  - match goal with Hq : makes_qr _ _ _ _ _ _ _ |- _ => destruct Hq as (Hr & level & Hlv & Hqr) end.
    rewrite Hlv. erewrite bind_Returns by apply Hr. cbn beta iota.
    erewrite bind_Returns by (apply run_Returns; exact Hqr). exact Hw.
Qed.

(** [write_out] into a buffer [l], the length going to [w]. *)
Lemma write_out_query (data : list byte) n w z s :
  mem s !! w = Some (CInt z) ->
  write_out data None n (Some w) s = Returns (set_mem (<[w := CInt (len data)]> (mem s)) s) SOk.
Proof.
  intros Hw. unfold write_out. cbn [store_int_opt].
  erewrite bind_Returns; [reflexivity|]. unfold store_int. by rewrite Hw.
Qed.

Lemma write_out_fetch (data bs : list byte) l n w z s :
  mem s !! w = Some (CInt z) -> mem s !! l = Some (CBytes bs) -> n <= len bs ->
  let s1 := set_mem (<[w := CInt (len data)]> (mem s)) s in
  (len data <= n ->
     write_out data (Some l) n (Some w) s
     = Returns (set_mem (<[l := CBytes (data ++ drop (length data) bs)]> (mem s1)) s1) SOk)
  /\ (n < len data -> exists e, e <> [] /\
     write_out data (Some l) n (Some w) s = Returns (with_error e s1) SBufferTooSmall).
Proof.
  intros Hw Hl Hn s1. unfold write_out. cbn [store_int_opt].
  erewrite bind_Returns by (unfold store_int; rewrite Hw; reflexivity). fold s1.
  assert (Hne : w <> l) by congruence.
  assert (Hl1 : mem s1 !! l = Some (CBytes bs)) by (cbn; by rewrite lookup_insert_ne).
  split; intros Hd.
  - rewrite decide_False by lia. erewrite bind_Returns; [reflexivity|]. unfold copy_to. case_decide as Hz.
    + subst data. cbn [app length drop]. rewrite drop_0, insert_id by done. reflexivity.
    + rewrite Hl1, decide_True by lia. done.
  - rewrite decide_True by done. eexists. split; [|reflexivity]. done.
Qed.

Lemma outputs_fetches checks s c data : outputs s c data -> fetches checks s c data.
Proof.
  intros Ho p old n w z Hp Hw Hn.
  destruct (write_out_fetch data old p n w z (with_error [] s) Hw Hp ltac:(lia)) as [Hfit _].
  eexists. split; [eapply exec_outputs; [exact Ho|apply Hfit; lia]|]. done.
Qed.

(** Storing an integer leaves what the caller can read, and the outputs. *)
Lemma reads_stored s p n bs w z x :
  mem s !! w = Some (CInt z) -> reads s p n bs ->
  reads (set_mem (<[w := CInt x]> (mem s)) (with_error [] s)) p n bs.
Proof.
  intros Hw Hr e. specialize (Hr e). destruct p as [l|]; unfold slice_from in *; [|done].
  case_decide; [by injection Hr as <-|]. cbn [mem with_error set_mem] in *.
  destruct (decide (w = l)) as [<-|Hne]; [by rewrite Hw in Hr|].
  rewrite lookup_insert_ne by done. destruct (mem s !! l) as [[bs'| | |]|]; try done.
  case_decide; [|done]. by injection Hr as <-.
Qed.

Lemma makes_qr_stored s f fl v e bytes qr w z x :
  mem s !! w = Some (CInt z) -> makes_qr s f fl v e bytes qr ->
  makes_qr (set_mem (<[w := CInt x]> (mem s)) (with_error [] s)) f fl v e bytes qr.
Proof. intros Hw [Hr He]. split; [by eapply reads_stored|done]. Qed.

Lemma outputs_stored s c data w z x :
  mem s !! w = Some (CInt z) -> outputs s c data ->
  outputs (set_mem (<[w := CInt x]> (mem s)) (with_error [] s)) c data.
Proof.
  intros Hw Ho. destruct Ho; econstructor; eauto using reads_stored, makes_qr_stored.
Qed.

(** Such a call stores what it stores besides, then writes its output. *)
Lemma exec_delivers checks s c data side buf n w s' st :
  delivers_to s c data side ->
  write_out data buf n w (set_mem (store_side side (mem s)) (with_error [] s)) = Returns s' st ->
  exec checks (c buf n w) s = Returns s' (RStatus st).
Proof.
  intros Hd Hw. destruct Hd as [c data Ho|f fl v e bytes qr g y (Hr & level & Hlv & Hq) Hg].
  - eapply exec_outputs; [exact Ho|]. destruct s. exact Hw.
  - cbn [exec]. apply status_Returns. rewrite Hlv. erewrite bind_Returns by apply Hr. cbn beta iota.
    erewrite bind_Returns by (apply run_Returns; exact Hq). cbn beta iota.
    erewrite bind_Returns; [exact Hw|]. cbn [store_int_opt]. unfold store_int.
    cbn [mem with_error]. by rewrite Hg.
Qed.

(** The state a query leaves: the output is still to be had, and what a call
    stores is there already. *)
Lemma delivers_queried s c data side w z x :
  delivers_to s c data side -> mem s !! w = Some (CInt z) ->
  let s1 := set_mem (<[w := CInt x]> (store_side side (mem s))) (with_error [] s) in
  delivers_to s1 c data side /\ <[w := CInt x]> (store_side side (mem s1)) = mem s1
  /\ exists z', store_side side (mem s1) !! w = Some (CInt z').
Proof.
  intros Hd Hw s1. destruct Hd as [c data Ho|f fl v e bytes qr g y Hq Hg]; cbn [store_side] in *.
  - split; [constructor; by eapply outputs_stored|]. split; [by apply insert_id, lookup_insert_eq|].
    exists x. apply lookup_insert_eq.
  - set (sz := as_u 32 (Qr.size qr)) in *.
    pose proof (makes_qr_stored s f fl v e bytes qr g y sz Hg Hq) as Hq1.
    set (sg := set_mem (<[g := CInt sz]> (mem s)) (with_error [] s)) in *.
    assert (Hwg : exists z', mem sg !! w = Some (CInt z')).
    { cbn. destruct (decide (g = w)) as [->|Hne]; [rewrite lookup_insert_eq; eauto|].
      rewrite lookup_insert_ne by done. eauto. }
    destruct Hwg as [z' Hwg]. pose proof (makes_qr_stored sg f fl v e bytes qr w z' x Hwg Hq1) as Hq2.
    assert (Hg1 : exists y', mem s1 !! g = Some (CInt y')).
    { cbn. destruct (decide (w = g)) as [->|Hne]; [rewrite lookup_insert_eq; eauto|].
      rewrite lookup_insert_ne, lookup_insert_eq by done. eauto. }
    destruct Hg1 as [y' Hg1]. split; [exact (To_caller_sized s1 f fl v e bytes qr g y' Hq2 Hg1)|].
    cbn [s1 mem set_mem]. destruct (decide (g = w)) as [->|Hne].
    + rewrite !insert_insert_eq. split; [done|]. exists sz. apply lookup_insert_eq.
    + rewrite (insert_insert_ne _ g w) by done. rewrite (insert_insert_eq (mem s) g). 
      rewrite insert_insert_eq. split; [done|]. exists x. apply lookup_insert_eq.
Qed.

End calls.

Lemma until_nul_app (t rest : list byte) :
  Byte.x00 ∉ t -> until_nul (t ++ [Byte.x00] ++ rest) = Some t.
Proof.
  induction t as [|b t IH]; intros Hn; cbn [until_nul app]; [by rewrite decide_True|].
  apply not_elem_of_cons in Hn as [Hb Hn]. rewrite decide_False by done.
  cbn [app] in IH. by rewrite IH.
Qed.

Lemma demo_sealed :
  exists s frames ps f, exec true demo_seal demo_lib = Returns s (RPtr (Some 2%positive))
    /\ mem s !! 3%positive = Some (CBytes (zeros 400)) /\ mem s !! 4%positive = Some (CInt 0)
    /\ heap s !! 2%positive = Some (OEncoder frames ps) /\ frames !! 0%nat = Some f
    /\ len f = 114.
Proof.
  assert (Hd : demo_sealed_ok = true) by (vm_compute; reflexivity). unfold demo_sealed_ok in Hd.
  destruct (exec true demo_seal demo_lib) as [|s|s r]; [done..|].
  repeat (case_match; try done). apply andb_true_iff in Hd as [Hd Hz].
  apply andb_true_iff in Hd as [Hl Hb]. apply bool_decide_eq_true in Hl, Hb, Hz. subst.
  eexists s, _, _, _. split_and!; try done.
Qed.

(** ** Properties *)

(** C28: the two-call convention. Every entry point that takes a buffer, its
    length and a place for the output's length (public fingerprint, frame,
    recovered payload, resume state, manifest, file name and QR code), when it
    has an output to give, gives the same output each time: a
    first call with a null buffer succeeds, changes nothing but the place for
    the length and, for a QR code, that for its side, and leaves the output's
    exact length there; a second call with
    any of the caller's buffers then succeeds exactly when the buffer it
    announces is long enough, and leaves the output at its start and the rest
    of the buffer untouched; otherwise it answers [BufferTooSmall] with a
    text, and the buffer is untouched. (The text of the last error has a
    convention of its own, see below.) *)
Theorem abi_two_calls `{Blake3} `{RaptorQ} `{Ed25519} `{Getrandom} `{Aead} `{Qrcodegen}
    checks s c data side w z n0 :
  delivers_to s c data side -> mem s !! w = Some (CInt z) ->
  exists s1, exec checks (c None n0 (Some w)) s = Returns s1 (RStatus SOk)
    /\ heap s1 = heap s /\ last_error s1 = []
    /\ mem s1 = <[w := CInt (len data)]> (store_side side (mem s))
    /\ forall l bs n, mem s1 !! l = Some (CBytes bs) -> n <= len bs ->
       exists s2 st, exec checks (c (Some l) n (Some w)) s1 = Returns s2 (RStatus st)
         /\ heap s2 = heap s
         /\ if decide (len data <= n)
            then st = SOk /\ last_error s2 = []
                 /\ mem s2 = <[l := CBytes (data ++ drop (length data) bs)]> (mem s1)
            else st = SBufferTooSmall /\ last_error s2 <> [] /\ mem s2 = mem s1.
Proof.
  intros Hd Hw.
  set (s1 := set_mem (<[w := CInt (len data)]> (store_side side (mem s))) (with_error [] s)).
  destruct (delivers_queried s c data side w z (len data) Hd Hw) as (Hd1 & Hsame & z' & Hw').
  assert (Hws : exists z0, store_side side (mem s) !! w = Some (CInt z0)).
  { destruct side as [[g x]|]; cbn; [|by exists z]. destruct (decide (g = w)) as [->|Hne].
    - rewrite lookup_insert_eq. by exists x.
    - rewrite lookup_insert_ne by done. by exists z. }
  destruct Hws as [z0 Hws]. exists s1. split.
  { eapply exec_delivers; [exact Hd|]. by erewrite write_out_query. }
  split_and!; [done..|]. intros l bs n Hl Hn. fold s1 in Hd1, Hsame, Hw'.
  set (s1' := set_mem (store_side side (mem s1)) (with_error [] s1)).
  assert (Hl' : mem s1' !! l = Some (CBytes bs)).
  { cbn [s1' mem set_mem]. destruct (decide (w = l)) as [->|Hne].
    - cbn in Hl. by rewrite lookup_insert_eq in Hl.
    - rewrite <- Hsame, lookup_insert_ne in Hl by done. exact Hl. }
  destruct (write_out_fetch data bs l n w z' s1' Hw' Hl' Hn) as [Hfit Hsmall].
  cbn [s1' mem with_error set_mem] in Hfit, Hsmall. rewrite Hsame in Hfit, Hsmall. case_decide as Hle.
  - do 2 eexists. split; [eapply exec_delivers; [exact Hd1|by apply Hfit]|]. done.
  - destruct Hsmall as (e & He & Hs); [lia|]. do 2 eexists.
    split; [eapply exec_delivers; [exact Hd1|exact Hs]|]. done.
Qed.

Lemma abi_two_calls_witness :
  exists s s1 s2, exec true demo_seal demo_lib = Returns s (RPtr (Some 2%positive))
    /\ exec true (EncoderFrame (Some 2%positive) 0 None 0 (Some 4%positive)) s
       = Returns s1 (RStatus SOk)
    /\ exec true (EncoderFrame (Some 2%positive) 0 (Some 3%positive) 100 (Some 4%positive)) s1
       = Returns s2 (RStatus SBufferTooSmall).
Proof.
  destruct demo_sealed as (s & frames & ps & f & He & Hb & Hi & Hl & Hf & Hlen).
  destruct (abi_two_calls true s (EncoderFrame (Some 2%positive) 0) f None 4%positive 0 0
    (To_caller s _ _ (Out_frame s 2%positive frames ps 0 f Hl Hf)) Hi) as (s1 & H1 & Hh & _ & Hm & H2).
  destruct (H2 3%positive (zeros 400) 100) as (s2 & st & Hs & _ & Hcase).
  { rewrite Hm, lookup_insert_ne by discriminate. exact Hb. }
  { vm_compute. discriminate. }
  rewrite Hlen in Hcase. destruct Hcase as [Hst _]. subst st.
  exists s, s1, s2. split; [exact He|]. split; [exact H1|exact Hs].
Defined.

(** C29: texts. [dhow_last_error_message] never changes the text it reports. A
    query with a null buffer answers the length of the text and its
    terminator; a buffer that is announced too short is left untouched and
    answered with the code of [BufferTooSmall]; a long enough one receives the
    text and a terminator, the rest of it being untouched, and a text without
    zero bytes reads back as a C string. *)
Theorem abi_last_error `{Blake3} `{RaptorQ} `{Ed25519} `{Getrandom} `{Aead} `{Qrcodegen}
    checks s n0 :
  let t := render (last_error s) in
  len t < 2 ^ 31 - 1 ->
  exec checks (LastErrorMessage None n0) s = Returns s (RInt (len t + 1))
  /\ forall l bs n, mem s !! l = Some (CBytes bs) -> n <= len bs ->
     (n < len t + 1 -> exec checks (LastErrorMessage (Some l) n) s = Returns s (RInt (-3)))
     /\ (len t + 1 <= n ->
         let out := t ++ [Byte.x00] ++ drop (length t + 1) bs in
         exec checks (LastErrorMessage (Some l) n) s
         = Returns (set_mem (<[l := CBytes out]> (mem s)) s) (RInt (len t + 1))
         /\ (Byte.x00 ∉ t -> until_nul out = Some t)).
Proof.
  intros t Ht. pose proof (len_nonneg t) as Hnn.
  assert (Hint : as_c_int (len t + 1) = len t + 1).
  { unfold as_c_int. rewrite Z.mod_small by lia. by rewrite decide_True by lia. }
  split.
  { cbn [exec]. unfold int, dhow_last_error_message, guard_int, catch, mbind, abi_bind.
    fold t. by rewrite Hint. }
  intros l bs n Hl Hn. split; intros Hd.
  - cbn [exec]. unfold int, dhow_last_error_message, guard_int, catch, mbind, abi_bind. fold t.
    by rewrite decide_True.
  - split.
    + cbn [exec]. unfold int, dhow_last_error_message, guard_int, catch, mbind, abi_bind. fold t.
      rewrite decide_False by lia. unfold copy_to. rewrite decide_False by (by destruct t).
      rewrite Hl, decide_True by (rewrite len_app; unfold len at 2; cbn; lia).
      cbn. rewrite Hint. by rewrite length_app, <- app_assoc.
    + apply until_nul_app.
Qed.

Lemma abi_last_error_witness :
  exec true (LastErrorMessage None 0) (with_error panic_text demo_lib)
  = Returns (with_error panic_text demo_lib) (RInt 78).
Proof.
  destruct (abi_last_error true (with_error panic_text demo_lib) 0) as [Hq _];
    [vm_compute; reflexivity|]. exact Hq.
Defined.
