(* ===== verification/AbiTransfer.v ===== *)
(** * Transfers and manifests through the C ABI

    Two processes, each with its library: what one seals or signs with calls,
    the other opens or verifies with calls. *)

From S2P Require Import Prelude Errors CryptErrors Display Primitives Instances.
From S2P Require Import Digest Chunker Frame Session Utf8 Manifest Resume Pipeline Transfer Fs Kdf.
From S2P Require Import Key Aead SignedManifest Abi AbiKeys AbiCodec AbiManifest AbiLogic AbiSystem.
From S2P Require Import AbiSound AbiOutput.
From stdpp Require Import gmap.

#[local] Open Scope Z_scope.

(** ** Definitions *)

Section endpoints.
Context `{Blake3} `{RaptorQ} `{Ed25519} `{Getrandom} `{Aead} `{Qrcodegen}.

(** A side of a transfer: a key handle, and places for the session identifier,
    the salt and the nonce. *)
Record Side := {
  sd_key : positive;
  sd_session_id : ptr;
  sd_salt : ptr;
  sd_nonce : ptr;
}.

(** What the two sides agree on. *)
Record Agreement := {
  ag_key : OperatorKey;
  ag_session_id : list byte;
  ag_salt : list byte;
  ag_nonce : list byte;
}.

Record holds (s : Lib) (sd : Side) (ag : Agreement) : Prop := {
  hl_key : heap s !! sd_key sd = Some (OKey (ag_key ag));
  hl_session_id : reads s (sd_session_id sd) 16 (ag_session_id ag);
  hl_salt : reads s (sd_salt sd) 32 (ag_salt ag);
  hl_nonce : reads s (sd_nonce sd) 24 (ag_nonce ag);
}.

(** Byte strings fed to decoder [l], one call each, with the statuses the
    calls answered; in between the environment moves on. *)
Inductive fed (checks : bool) (l : positive)
    : list (list byte) -> list DhowStatus -> Lib -> Lib -> Prop :=
| Fed_nil s : fed checks l [] [] s s
| Fed_frame b bs st sts p n s s1 s2 : reads s p n b ->
    exec checks (DecoderAccept (Some l) p n) s = Returns s1 (RStatus st) ->
    fed checks l bs sts s1 s2 -> fed checks l (b :: bs) (st :: sts) s s2
| Fed_env bs sts s s1 s2 : environment s s1 -> fed checks l bs sts s1 s2 ->
    fed checks l bs sts s s2.

(** The byte strings whose call answered [Ok]. *)
Definition accepted (bs : list (list byte)) (sts : list DhowStatus) : list (list byte) :=
  fst <$> filter (fun x => x.2 = SOk) (zip bs sts).

(** The parameters of a transfer whose ciphertext is [c]. *)
Definition resolved (params : DhowSessionParams) (c : list byte) : DhowSessionParams :=
  {| dp_payload_size := len c; dp_block_count := dp_block_count params;
     dp_symbol_size := dp_symbol_size params;
     dp_source_symbols_per_block := dp_source_symbols_per_block params;
     dp_total_symbols_per_block := dp_total_symbols_per_block params;
     dp_payload_digest := blake3_digest c |}.

(** What sealing a payload computes. *)
Record sealed (checks : bool) (ag : Agreement) (params : DhowSessionParams)
    (payload : list byte) (frames : list (list byte)) (keys : TransferKeys)
    (c : list byte) (pl : Pipeline) : Prop := {
  se_keys : TransferKeys_derive (ag_key ag) (Salt_from_bytes (ag_salt ag)) = Ok keys;
  se_seal : encrypt_payload keys (Nonce_from_bytes (ag_nonce ag)) (ag_session_id ag) payload = Ok c;
  se_pipeline : Pipeline_new checks (ag_session_id ag) (to_session_params (resolved params c))
    (session_key keys) = Ok pl;
  se_frames : encode_to_bytes checks pl c = Ok frames;
}.

(** What decoder [d], fresh from opening as [d0], is good for: whatever frames
    of the sender it is fed among byte strings it turns down, it accepts exactly
    those; and with all of them it finishes with the payload. *)
Definition delivers (checks : bool) (ag : Agreement) (sd : Side) (frames : list (list byte))
    (payload : list byte) (d : positive) (d0 : PipelineDecoder) (s1 : Lib) : Prop :=
  heap s1 !! d = Some (ODecoder d0)
  /\ forall bs sts s2, Forall (fun b => b ∈ frames \/ refused checks d0 b) bs ->
     fed checks d bs sts s1 s2 ->
     (SPanic ∉ sts) /\ accepted bs sts = sent frames bs
     /\ (frames ⊆ bs -> holds s2 sd ag ->
         exec checks (DecoderIsComplete (Some d)) s2 = Returns s2 (RInt 1)
         /\ forall l w old z, mem s2 !! l = Some (CBytes old) -> mem s2 !! w = Some (CInt z) ->
            len payload <= len old ->
            exists s3, exec checks (DecoderFinish (Some d) (Some (sd_key sd)) (sd_session_id sd)
                (sd_salt sd) (sd_nonce sd) (Some l) (len old) (Some w)) s2
                = Returns s3 (RStatus SOk)
              /\ mem s3 !! w = Some (CInt (len payload))
              /\ mem s3 !! l = Some (CBytes (payload ++ drop (length payload) old))).

(** The manifest entry a caller's struct describes. *)
Definition describes (s : Lib) (raw : DhowFileEntry) (e : FileEntry) : Prop :=
  fe_reserved raw = zeros 7
  /\ (exists l bs, fe_name raw = Some l /\ mem s !! l = Some (CBytes bs)
        /\ until_nul bs = Some (name e))
  /\ e = with_mode (name e) (fe_size raw) (fe_digest raw)
            (bool_decide (fe_executable raw <> Byte.x00)).

End endpoints.

(** The example library as a side, and what it agrees to. *)
Definition demo_side : Side :=
  {| sd_key := 1%positive; sd_session_id := Some 1%positive; sd_salt := Some 1%positive;
     sd_nonce := Some 1%positive |}.

Definition demo_agreement : Agreement :=
  {| ag_key := {| ok_bytes := zeros 32 |}; ag_session_id := zeros 16; ag_salt := zeros 32;
     ag_nonce := zeros 24 |}.

(** A library with an identity, and a caller with one file to list. *)
Definition demo_raw : DhowFileEntry :=
  {| fe_name := Some 6%positive; fe_size := 5; fe_digest := zeros 32; fe_executable := Byte.x01;
     fe_reserved := zeros 7 |}.

Definition demo_signing_lib : Lib :=
  {| last_error := []; heap := {[1%positive := OIdentity (from_seed (zeros 32))]};
     mem := list_to_map [(1%positive, CBytes (zeros 32)); (5%positive, CEntries [demo_raw]);
       (6%positive, CBytes (name demo_entry ++ [Byte.x00]))];
     fs := empty_world; rng := 0 |}.

(** ** Lemmas *)

Section rules.
Context `{Blake3} `{RaptorQ} `{Ed25519} `{Getrandom} `{Aead} `{Qrcodegen}.

Lemma wp_reads Q U s e p n bs :
  reads s p n bs -> Q (with_error e s) (Some bs) -> wp (slice_from p n) Q U (with_error e s).
Proof. intros Hr HQ. unfold wp. by rewrite Hr. Qed.

Lemma reads_length s p n bs : 0 <= n -> reads s p n bs -> len bs = n.
Proof.
  intros Hn Hr. specialize (Hr []). unfold slice_from in Hr. destruct p as [l|]; [|done].
  case_decide as Hz; [by injection Hr as <-|].
  destruct (mem _ !! l) as [[bs'| | |]|]; try done. case_decide; [|done]. injection Hr as <-.
  unfold len in *. rewrite length_take. lia.
Qed.

Lemma wp_deref_key_known Q U s l k :
  heap s !! l = Some (OKey k) -> Q s k -> wp (deref_key l) Q U s.
Proof. intros Hl HQ. apply wp_bind. by eapply wp_deref. Qed.

(** What a sealing call that returns a handle has computed. *)
Lemma wp_seal checks s sd ag params pp n payload :
  holds s sd ag -> reads s pp n payload ->
  wp (exec checks (EncoderNew (Some (sd_key sd)) (sd_session_id sd) (sd_salt sd) (sd_nonce sd)
        params pp n))
    (fun s' r => forall l, r = RPtr (Some l) -> exists frames keys c pl,
       sealed checks ag params payload frames keys c pl
       /\ heap s' = <[l := OEncoder frames (resolved params c)]> (heap s))
    (fun _ => True) s.
Proof.
  intros [Hk Hsid Hsalt Hnonce] Hpay. cbn [exec]. unfold dhow_encoder_new.
  do 4 abi_step.
  do 4 (apply wp_bind; eapply wp_reads; [eassumption|]; cbn beta iota).
  apply wp_bind. eapply wp_deref_key_known; [exact Hk|]. cbn beta.
  repeat abi_step; try discriminate. intros l' [= <-]. exists a2, a, a0, a1. split; [|reflexivity].
  split; try done.
Qed.

Lemma exec_sealed checks s sd ag params pp n payload s' l :
  holds s sd ag -> reads s pp n payload ->
  exec checks (EncoderNew (Some (sd_key sd)) (sd_session_id sd) (sd_salt sd) (sd_nonce sd)
    params pp n) s = Returns s' (RPtr (Some l)) ->
  exists frames keys c pl, sealed checks ag params payload frames keys c pl
    /\ heap s' !! l = Some (OEncoder frames (resolved params c)).
Proof.
  intros Hs Hp He. pose proof (wp_seal checks s sd ag params pp n payload Hs Hp) as Hw.
  unfold wp in Hw. rewrite He in Hw. destruct (Hw l eq_refl) as (frames & keys & c & pl & Hse & Hh).
  exists frames, keys, c, pl. by rewrite Hh, lookup_insert_eq.
Qed.

Lemma wp_Returns {A} (m : abi A) Q s :
  wp m Q (fun _ => False) s -> exists s' a, m s = Returns s' a /\ Q s' a.
Proof. unfold wp. destruct (m s) as [|s'|s' a]; [done..|eauto]. Qed.

(** Opening succeeds whenever the parameters do. *)
Lemma exec_open checks s sd ag params keys d :
  holds s sd ag -> TransferKeys_derive (ag_key ag) (Salt_from_bytes (ag_salt ag)) = Ok keys ->
  PipelineDecoder_new checks (ag_session_id ag) (to_session_params params) (session_key keys)
  = Ok d ->
  exists l s', exec checks (DecoderNew (Some (sd_key sd)) (sd_session_id sd) (sd_salt sd) params) s
      = Returns s' (RPtr (Some l))
    /\ heap s !! l = None /\ heap s' = <[l := ODecoder d]> (heap s) /\ mem s' = mem s.
Proof.
  intros [Hk Hsid Hsalt _] Hkeys Hd.
  destruct (wp_Returns (exec checks (DecoderNew (Some (sd_key sd)) (sd_session_id sd) (sd_salt sd)
      params))
    (fun s' r => exists l, r = RPtr (Some l) /\ heap s !! l = None
       /\ heap s' = <[l := ODecoder d]> (heap s) /\ mem s' = mem s) s) as (s' & r & He & l & -> & Hl).
  2: by exists l, s'.
  cbn [exec]. unfold dhow_decoder_new. do 4 abi_step.
  do 2 (apply wp_bind; eapply wp_reads; [eassumption|]; cbn beta iota).
  apply wp_bind. eapply wp_deref_key_known; [exact Hk|]. cbn beta.
  repeat abi_step; try congruence. exists l. replace a0 with d by congruence. done.
Qed.

(** Feeding is the decoder's [accept]. *)
Lemma exec_accept checks s l p n b d d' r :
  heap s !! l = Some (ODecoder d) -> reads s p n b -> accept checks b d = (d', r) ->
  exists s', exec checks (DecoderAccept (Some l) p n) s
      = Returns s' (RStatus (match r with
                             | Ok _ => SOk | Err _ => SFrameRejected | Panic => SPanic end))
    /\ heap s' = <[l := ODecoder d']> (heap s) /\ mem s' = mem s.
Proof.
  intros Hl Hb Ha.
  destruct (wp_Returns (exec checks (DecoderAccept (Some l) p n))
    (fun s' r' => r' = RStatus (match r with
                               | Ok _ => SOk | Err _ => SFrameRejected | Panic => SPanic end)
       /\ heap s' = <[l := ODecoder d']> (heap s) /\ mem s' = mem s) s) as (s' & r' & He & -> & Hs).
  2: by exists s'.
  cbn [exec]. unfold dhow_decoder_accept. do 4 abi_step. apply wp_bind. eapply wp_reads; [exact Hb|].
  cbn beta iota. apply wp_bind. unfold run_accept. apply wp_bind. unfold deref_decoder.
  apply wp_bind. eapply wp_deref; [exact Hl|]. apply wp_mret. rewrite Ha.
  apply wp_bind, wp_assign, wp_run; intros; subst r; cbn beta; by repeat abi_step.
Qed.

(** A fed decoder is one that received the same byte strings. *)
Lemma fed_receive checks l bs sts s s' d :
  fed checks l bs sts s s' -> heap s !! l = Some (ODecoder d) ->
  length sts = length bs
  /\ match receive checks bs d with
     | Some (d', acc) =>
         heap s' = <[l := ODecoder d']> (heap s) /\ acc = accepted bs sts /\ SPanic ∉ sts
     | None => SPanic ∈ sts
     end.
Proof.
  intros Hf. revert d. induction Hf as [s|b bs st sts p n s s1 s2 Hr He Hf IH|bs sts s s1 s2 [Hh _] Hf IH];
    intros d Hl.
  - cbn. split; [done|]. rewrite insert_id by done. split_and!; [done|done|apply not_elem_of_nil].
  - destruct (accept checks b d) as [d1 r] eqn:Ha.
    destruct (exec_accept checks s l p n b d d1 r Hl Hr Ha) as (s1' & He' & Hh & _).
    rewrite He in He'. injection He' as <- ->.
    destruct (IH d1) as [Hlen IHr]; [by rewrite Hh, lookup_insert_eq|]. clear IH.
    split; [by cbn; f_equal|]. cbn [receive]. rewrite Ha. unfold accepted in *.
    rewrite Hh in IHr. cbn [zip zip_with]. rewrite filter_cons. cbn [snd].
    destruct r as [o|e|].
    + rewrite decide_True by done. destruct (receive checks bs d1) as [[d' acc]|]; cbn.
      * destruct IHr as (-> & -> & Hn). rewrite insert_insert_eq. split_and!; [done|done|].
        apply not_elem_of_cons. by split.
      * by right.
    + rewrite decide_False by done. destruct (receive checks bs d1) as [[d' acc]|]; [|by right].
      destruct IHr as (-> & -> & Hn). rewrite insert_insert_eq. split_and!; [done|done|].
      apply not_elem_of_cons. by split.
    + by left.
  - destruct (IH d) as [Hlen IHr]; [by rewrite Hh|]. by rewrite Hh in IHr.
Qed.

Lemma exec_is_complete checks s l d :
  heap s !! l = Some (ODecoder d) ->
  exec checks (DecoderIsComplete (Some l)) s = Returns s (RInt (bool_int (is_complete d))).
Proof.
  intros Hl. cbn [exec]. unfold int, dhow_decoder_is_complete, guard_int, catch, deref_decoder,
    deref, mbind, abi_bind. by rewrite Hl.
Qed.

Lemma accepted_all bs sts :
  length sts = length bs -> accepted bs sts = bs -> Forall (fun st => st = SOk) sts.
Proof.
  revert bs. induction sts as [|st sts IH]; intros [|b bs] Hlen Ha; try done.
  injection Hlen as Hlen. unfold accepted in *. cbn [zip zip_with] in Ha.
  rewrite filter_cons in Ha. cbn [snd] in Ha. case_decide as Hst.
  - injection Ha as Ha. constructor; [done|]. by apply (IH bs).
  - exfalso. apply (f_equal length) in Ha. rewrite length_fmap in Ha.
    pose proof (length_filter (fun x : list byte * DhowStatus => x.2 = SOk) (zip bs sts)) as Hf.
    rewrite length_zip_with in Hf. cbn [length] in Ha. lia.
Qed.

End rules.

Section delivery.
Context `{Blake3Laws} `{RaptorQLaws} `{Ed25519} `{Getrandom} `{AeadLaws} `{Qrcodegen}.

Lemma wf_resolved params c :
  wf_dparams params -> len c < 2 ^ 64 -> wf_params (to_session_params (resolved params c)).
Proof.
  intros [] Hc. pose proof (len_nonneg c). split; cbn in *; try done; try apply length_blake3_digest.
Qed.

Lemma derived_keys operator sl keys : TransferKeys_derive operator sl = Ok keys -> wf_keys keys.
Proof.
  unfold TransferKeys_derive. rewrite !derive_key_first. cbn [mbind outcome_bind].
  intros [= <-]. split; apply b3_keyed_hash_length.
Qed.

(** The sealed payload, its length, and opening it. *)
Lemma sealed_opens checks ag params payload frames keys c pl :
  length (ag_nonce ag) = 24%nat -> sealed checks ag params payload frames keys c pl ->
  len c = len payload + 16
  /\ decrypt_payload_in_place keys (Nonce_from_bytes (ag_nonce ag)) (ag_session_id ag) c
     = Ok payload.
Proof.
  intros Hn [Hk He _ _]. pose proof (derived_keys _ _ _ Hk) as Hw.
  apply encrypt_payload_Ok in He; [|done]. split.
  - by rewrite (aead_encrypt_length _ _ _ _ _ He).
  - rewrite in_place_is_borrowing. apply decrypt_payload_Ok; [done|done|].
    destruct Hw. by apply aead_roundtrip.
Qed.

Lemma holds_lengths s sd ag :
  holds s sd ag -> length (ag_session_id ag) = 16%nat /\ length (ag_nonce ag) = 24%nat.
Proof.
  intros [_ Hsid _ Hnonce]. pose proof (reads_length _ _ 16 _ ltac:(lia) Hsid).
  pose proof (reads_length _ _ 24 _ ltac:(lia) Hnonce). unfold len in *. lia.
Qed.

(** A decoder opens on a sealed payload. *)
Lemma sealed_receiver checks ag params payload frames keys c pl :
  length (ag_session_id ag) = 16%nat -> length (ag_nonce ag) = 24%nat -> wf_dparams params ->
  len payload < 2 ^ 63 -> sealed checks ag params payload frames keys c pl ->
  exists d0, PipelineDecoder_new checks (ag_session_id ag) (to_session_params (resolved params c))
    (session_key keys) = Ok d0.
Proof.
  intros Hs16 Hn24 Hp Hlen Hs. destruct (sealed_opens _ _ _ _ _ _ _ _ Hn24 Hs) as [Hc _].
  pose proof (wf_resolved params c Hp ltac:(lia)) as Hwf. destruct Hs as [_ _ Hpl Hfr].
  exact (receiver_new checks _ _ _ pl c frames Hs16 Hwf Hpl Hfr).
Qed.

(** A decoder opened on a sealed payload delivers it. *)
Lemma sealed_delivers checks ag sd params payload frames keys c pl d0 s s1 d :
  length (ag_session_id ag) = 16%nat -> length (ag_nonce ag) = 24%nat -> wf_dparams params ->
  len payload < 2 ^ 63 -> sealed checks ag params payload frames keys c pl ->
  PipelineDecoder_new checks (ag_session_id ag) (to_session_params (resolved params c))
    (session_key keys) = Ok d0 ->
  heap s1 = <[d := ODecoder d0]> (heap s) -> delivers checks ag sd frames payload d d0 s1.
Proof.
  intros Hs16 Hn24 Hp Hlen Hs Hd0 HhB. split; [by rewrite HhB, lookup_insert_eq|].
  destruct (sealed_opens _ _ _ _ _ _ _ _ Hn24 Hs) as [Hc Hopen]. destruct Hs as [Hk _ Hpl Hfr].
  pose proof (wf_resolved params c Hp ltac:(lia)) as Hwf. intros bs sts s2 Hbs Hfed.
  destruct (receive_among checks _ _ _ pl c frames d0 bs Hs16 Hwf Hpl Hfr Hd0 Hbs)
    as (d' & Hr & Hok & Hrec & Ep & Ek & Hcl & Hss & Henc).
  destruct (fed_receive _ _ _ _ _ _ d0 Hfed) as [Hls Hcase]; [by rewrite HhB, lookup_insert_eq|].
  rewrite Hr in Hcase. destruct Hcase as (Hh2 & Hacc & Hnp). split; [done|]. split; [done|].
  intros Hall HB2.
  assert (Hl2 : heap s2 !! d = Some (ODecoder d')) by (by rewrite Hh2, lookup_insert_eq).
  destruct (covered_finish d' (sent frames bs) c Hok) as [Hcomplete Hfinish];
    [by rewrite Ep|by rewrite Ep|done|by rewrite Ep|by rewrite Ep| |].
  { rewrite Ep, Ek. intros i q Hi Hd Hq.
    destruct (frames_cover checks _ _ _ pl c frames i q Hs16 Hwf Hpl Hfr Hi Hd Hq)
      as (b & Hb & Hcar). exists b. split; [|done]. apply list_elem_of_filter.
    split; [done|by apply Hall]. }
  split; [by rewrite (exec_is_complete _ _ _ _ Hl2), Hcomplete|]. intros l w old z Hl Hw Hfit.
  destruct (write_out_fetch payload old l (len old) w z (with_error [] s2) Hw Hl ltac:(lia))
    as [Hout _]. eexists. split.
  { eapply exec_outputs; [|by apply Hout]. destruct HB2. by eapply Out_finish. }
  split; cbn; [rewrite lookup_insert_ne by congruence|]; by rewrite lookup_insert_eq.
Qed.

End delivery.

Section manifests.
Context `{Blake3} `{RaptorQ} `{Ed25519Laws} `{Getrandom} `{Aead} `{Qrcodegen}.

Lemma wp_entries_described Q U s raw es : forall i,
  Forall2 (describes s) raw es -> Forall wf_entry es -> Q s (inr es) ->
  wp (entries_loop i raw) Q U s.
Proof.
  intros i Hd. revert i Q. induction Hd as [|r e raw es Hr Hd IH]; intros i Q Hwf HQ;
    cbn [entries_loop]; [by apply wp_mret|].
  apply Forall_cons in Hwf as [He Hwf]. destruct Hr as (Hres & (l & bs & Hl & Hm & Hnul) & Heq).
  rewrite Hl, decide_False by auto. apply wp_bind. unfold wp at 1, c_str. rewrite Hm, Hnul.
  assert (Hutf : from_utf8 (name e) = Some (name e)) by (apply from_utf8_Some; by destruct He).
  assert (Hval : validate_name (name e) = Ok tt) by (apply validate_name_Ok; by destruct He).
  rewrite Hutf. apply wp_bind. unfold wp at 1, run. rewrite Hval.
  apply wp_bind, IH; [done|]. apply wp_mret. by rewrite <- Heq.
Qed.

Lemma wf_built sid es total salt nonce params sg :
  length sid = 16%nat -> length salt = 32%nat -> length nonce = 24%nat -> wf_dparams params ->
  urange 64 total -> Forall wf_entry es -> len es <= MAX_FILE_COUNT -> length sg = 64%nat ->
  wf_manifest (Manifest_build (ManifestHeader_new sid es total salt nonce
    (to_session_params params)) es sg).
Proof.
  intros ? ? ? Hp ? ? Hc ?. unfold MAX_FILE_COUNT in Hc.
  destruct (wf_header_new sid es total salt nonce (to_session_params params)) as [Hh Hn];
    try done; [lia|]. apply wf_manifest_build; [|done]. by split.
Qed.

(** Building succeeds on entries that are in order. *)
Lemma exec_build checks s i idk sidp saltp noncep sid salt nonce params ep raw es :
  heap s !! i = Some (OIdentity idk) -> reads s sidp 16 sid -> reads s saltp 32 salt ->
  reads s noncep 24 nonce -> wf_dparams params -> mem s !! ep = Some (CEntries raw) ->
  Forall2 (describes s) raw es -> Forall wf_entry es -> len es <= MAX_FILE_COUNT ->
  zsum (Manifest.size <$> es) < 2 ^ 64 ->
  let u := Manifest_build (ManifestHeader_new sid es (zsum (Manifest.size <$> es)) salt nonce
             (to_session_params params)) es (zeros 64) in
  let m := signed u (sign idk (signed_over u)) in
  exists l s', exec checks (ManifestBuild (Some i) sidp saltp noncep params (Some ep) (len raw)) s
      = Returns s' (RPtr (Some l))
    /\ heap s' = <[l := OManifest m (Manifest_to_vec m)]> (heap s) /\ wf_manifest m
    /\ verify_signature (public idk) (Manifest_to_vec m) = Ok m.
Proof.
  intros Hi Hsid Hsalt Hnonce Hp Hm Hes Hwf Hc Hsum u m.
  pose proof (reads_length _ _ 16 _ ltac:(lia) Hsid) as L1.
  pose proof (reads_length _ _ 32 _ ltac:(lia) Hsalt) as L2.
  pose proof (reads_length _ _ 24 _ ltac:(lia) Hnonce) as L3. unfold len in L1, L2, L3.
  assert (Hsizes : Forall (fun z => 0 <= z) (Manifest.size <$> es)).
  { apply Forall_fmap. eapply Forall_impl; [exact Hwf|]. intros e [_ _ [] _]. done. }
  assert (Hu : wf_manifest u).
  { apply wf_built; try done; try lia. split; [by apply zsum_nonneg|done]. }
  pose proof (sign_manifest_eq (E := Empty_set) idk u Hu) as Hs. fold m in Hs.
  assert (Hmw : wf_manifest m) by (apply signed_wf; [done|apply ed_sign_length]).
  pose proof (manifest_parse_print m Hmw) as Hparse.
  destruct (wp_Returns (exec checks (ManifestBuild (Some i) sidp saltp noncep params (Some ep)
      (len raw))) (fun s' r => exists l, r = RPtr (Some l)
        /\ heap s' = <[l := OManifest m (Manifest_to_vec m)]> (heap s)) s)
    as (s' & r & He & l & -> & Hh).
  { cbn [exec]. unfold dhow_manifest_build. do 4 abi_step.
    do 3 (apply wp_bind; eapply wp_reads; [eassumption|]; cbn beta iota).
    apply wp_bind. unfold entries_from. assert (Hfold : forall Q U, Q (with_error [] s) (inr es) ->
      wp (if decide (len raw = 0) then mret (inr [])
          else raw ← read_raw ep (len raw); entries_loop 0 raw) Q U (with_error [] s)).
    { intros Q U HQ. case_decide as Hz.
      - destruct raw as [|r0 raw]; [|done]. apply Forall2_nil_inv_l in Hes as ->. by apply wp_mret.
      - apply wp_bind. unfold wp at 1, read_raw. cbn [mem with_error].
        rewrite Hm, decide_True by done. unfold len. rewrite Nat2Z.id, firstn_all.
        by apply (wp_entries_described _ _ _ raw es). }
    apply Hfold. clear Hfold. cbn beta iota. apply wp_bind. rewrite sum_w_Ok by done.
    apply wp_run_total; [intros a [= <-]|done]. apply wp_bind. fold u.
    apply wp_bind. eapply wp_deref; [exact Hi|]. apply wp_mret. rewrite Hs.
    apply wp_bind, wp_run_total; [intros a [= <-]|done]. rewrite Hparse.
    apply wp_bind, wp_run; [done|intros a [= <-]|done]. cbn beta iota. apply wp_into_raw.
    intros l Hl. by exists l. }
  exists l, s'. split_and!; [done|done|done|].
  by apply (sign_manifest_verifies (E := Empty_set) idk u).
Qed.

(** Verifying is [verify_manifest_with]. *)
Lemma exec_verify checks s p signer b n bytes sidp expected :
  heap s !! p = Some (OPublic signer) -> reads s b n bytes ->
  match expected with Some sid => reads s sidp 16 sid | None => sidp = None end ->
  exists q s', exec checks (ManifestVerify (Some p) b n sidp) s = Returns s' (RPtr q)
    /\ match verify_manifest_with signer bytes expected Policy_default with
       | Ok v => exists h, q = Some h /\ heap s' = <[h := OManifest (vm_manifest v) bytes]> (heap s)
           /\ heap s !! h = None /\ mem s' = mem s
       | _ => q = None
       end.
Proof.
  intros Hp Hb Hsid.
  destruct (wp_Returns (exec checks (ManifestVerify (Some p) b n sidp)) (fun s' r => exists q,
      r = RPtr q /\ match verify_manifest_with signer bytes expected Policy_default with
       | Ok v => exists h, q = Some h /\ heap s' = <[h := OManifest (vm_manifest v) bytes]> (heap s)
           /\ heap s !! h = None /\ mem s' = mem s
       | _ => q = None
       end) s) as (s' & r & He & q & -> & Hq); [|by exists q, s'].
  cbn [exec]. unfold dhow_manifest_verify. do 4 abi_step.
  apply wp_bind. eapply wp_reads; [exact Hb|]. cbn beta iota.
  assert (Hslice : slice_from sidp 16 (with_error [] s) = Returns (with_error [] s) expected).
  { destruct expected as [sid|]; [apply Hsid|by subst sidp]. }
  apply wp_bind. unfold wp at 1. rewrite Hslice. apply wp_bind, wp_bind. eapply wp_deref; [exact Hp|].
  apply wp_mret, wp_bind.
  destruct (verify_manifest_with signer bytes expected Policy_default) as [v|e|].
  - apply wp_run; [done|intros a [= <-]|done]. cbn beta iota. apply wp_into_raw. intros l Hl.
    exists (Some l). split; [done|]. by exists l.
  - apply wp_run; [intros a [= <-]|done|done]. cbn beta iota. apply wp_fail_null. by exists None.
  - apply wp_run; [done|done|]. intros _. by exists None.
Qed.

End manifests.

Lemma demo_holds : holds demo_lib demo_side demo_agreement.
Proof. split; [reflexivity|intros e; reflexivity..]. Qed.

Lemma demo_dparams_wf : wf_dparams demo_dparams.
Proof. split; (reflexivity || (split; [vm_compute; discriminate|reflexivity])). Qed.

Lemma demo_reject (d : PipelineDecoder) : exists e, accept true demo_payload d = (d, Err e).
Proof. eexists. reflexivity. Qed.

(** A decoder for the example, and one rejected byte string. *)
Lemma demo_opened :
  exists l s d s', exec true (DecoderNew (Some 1%positive) (Some 1%positive) (Some 1%positive)
        (of_session_params demo_session)) demo_lib = Returns s (RPtr (Some l))
    /\ heap s !! l = Some (ODecoder d) /\ reads s (Some 2%positive) 2 demo_payload
    /\ exec true (DecoderAccept (Some l) (Some 2%positive) 2) s = Returns s' (RStatus SFrameRejected).
Proof.
  assert (Hk : exists keys, TransferKeys_derive (ag_key demo_agreement)
    (Salt_from_bytes (ag_salt demo_agreement)) = Ok keys) by (eexists; vm_compute; reflexivity).
  destruct Hk as [keys Hk].
  assert (Hd : exists d, PipelineDecoder_new true (ag_session_id demo_agreement)
    (to_session_params (of_session_params demo_session)) (session_key keys) = Ok d)
    by (eexists; reflexivity).
  destruct Hd as [d Hd].
  destruct (exec_open true demo_lib demo_side demo_agreement _ keys d demo_holds Hk Hd)
    as (l & s & He & _ & Hh & Hm).
  assert (Hl : heap s !! l = Some (ODecoder d)) by (by rewrite Hh, lookup_insert_eq).
  assert (Hb : reads s (Some 2%positive) 2 demo_payload).
  { intros e. unfold slice_from. cbn [mem with_error]. rewrite Hm. reflexivity. }
  destruct (demo_reject d) as [e Ha].
  destruct (exec_accept true s l (Some 2%positive) 2 demo_payload d d _ Hl Hb Ha) as (s' & Hs & Hh' & _).
  exists l, s, d, s'. split; [exact He|]. split; [exact Hl|]. split; [exact Hb|exact Hs].
Qed.

(** ** Properties *)

(** C2: a transfer through the library. One process seals a payload with
    [dhow_encoder_new]; another, that holds the same operator key and the same
    session identifier, salt and nonce, opens a decoder on the parameters the
    encoder resolved: it always gets a handle. Whatever frames of the encoder
    it then feeds, in any order and any number of times, among any byte strings
    that the fresh decoder turns down, the calls that answer [Ok] are exactly
    those that pass a frame of the encoder, and none answers [DHOW_PANIC];
    once every frame has been fed, [dhow_decoder_is_complete] answers 1
    and [dhow_decoder_finish] writes the plaintext, and nothing else, into any
    buffer that holds it. *)
Theorem abi_delivery `{Blake3Laws} `{RaptorQLaws} `{Ed25519} `{Getrandom} `{AeadLaws}
    `{Qrcodegen} checks ag sA sideA params pp n payload sA' e sB sideB :
  holds sA sideA ag -> reads sA pp n payload -> wf_dparams params -> len payload < 2 ^ 63 ->
  exec checks (EncoderNew (Some (sd_key sideA)) (sd_session_id sideA) (sd_salt sideA)
    (sd_nonce sideA) params pp n) sA = Returns sA' (RPtr (Some e)) ->
  holds sB sideB ag ->
  exists frames ps, heap sA' !! e = Some (OEncoder frames ps)
    /\ exists d d0 sB1, exec checks (DecoderNew (Some (sd_key sideB)) (sd_session_id sideB)
         (sd_salt sideB) ps) sB = Returns sB1 (RPtr (Some d))
    /\ delivers checks ag sideB frames payload d d0 sB1.
Proof.
  intros HA Hpay Hp Hlen He HB.
  destruct (exec_sealed _ _ _ _ _ _ _ _ _ _ HA Hpay He) as (frames & keys & c & pl & Hs & Hh).
  exists frames, (resolved params c). split; [done|]. destruct (holds_lengths _ _ _ HB) as [Hs16 Hn24].
  destruct (sealed_receiver _ _ _ _ _ _ _ _ Hs16 Hn24 Hp Hlen Hs) as [d0 Hd0].
  destruct (exec_open checks sB sideB ag _ keys d0 HB (se_keys _ _ _ _ _ _ _ _ Hs) Hd0)
    as (d & sB1 & Hopened & _ & HhB & _).
  exists d, d0, sB1. split; [done|]. by eapply sealed_delivers.
Qed.

Lemma abi_delivery_witness :
  exists s frames ps d sB1,
    exec true demo_seal demo_lib = Returns s (RPtr (Some 2%positive))
    /\ heap s !! 2%positive = Some (OEncoder frames ps)
    /\ exec true (DecoderNew (Some 1%positive) (Some 1%positive) (Some 1%positive) ps) demo_lib
       = Returns sB1 (RPtr (Some d)).
Proof.
  destruct demo_sealed as (s & _ & _ & _ & He & _).
  destruct (abi_delivery true demo_agreement demo_lib demo_side demo_dparams (Some 2%positive) 2
    demo_payload s 2%positive demo_lib demo_side demo_holds (fun _ => eq_refl) demo_dparams_wf
    eq_refl He demo_holds) as (frames & ps & Hl & d & _ & sB1 & Hd & _).
  exists s, frames, ps, d, sB1. split; [exact He|]. split; [exact Hl|exact Hd].
Defined.

(** C10: feeding a decoder handle is the receiver of the pipeline. However the
    caller's memory and the system change in between, after a sequence of
    [dhow_decoder_accept] calls none of which answered [DHOW_PANIC], the handle
    holds exactly the decoder that receives the same byte strings, every other
    handle is as it was, and the accepted byte strings are those whose call
    answered [Ok]; [dhow_decoder_is_complete], [dhow_decoder_blocks_complete]
    and [dhow_decoder_resume_state] answer for that decoder. *)
Theorem abi_feed_refines `{Blake3} `{RaptorQ} `{Ed25519} `{Getrandom} `{Aead} `{Qrcodegen}
    checks l bs sts s s' d :
  heap s !! l = Some (ODecoder d) -> fed checks l bs sts s s' -> SPanic ∉ sts ->
  exists d', receive checks bs d = Some (d', accepted bs sts)
    /\ heap s' = <[l := ODecoder d']> (heap s)
    /\ exec checks (DecoderIsComplete (Some l)) s' = Returns s' (RInt (bool_int (is_complete d')))
    /\ exec checks (DecoderBlocksComplete (Some l)) s'
       = Returns s' (RInt (as_c_int (blocks_complete d')))
    /\ forall j rf, resume_state j d' = Ok (E := Empty_set) rf ->
       outputs s' (DecoderResumeState (Some l) j) (ResumeFile_to_vec rf)
       /\ fetches checks s' (DecoderResumeState (Some l) j) (ResumeFile_to_vec rf).
Proof.
  intros Hl Hf Hn. destruct (fed_receive _ _ _ _ _ _ d Hf Hl) as [_ Hr].
  destruct (receive checks bs d) as [[d' acc]|]; [|done]. destruct Hr as (Hh & -> & _).
  assert (Hl' : heap s' !! l = Some (ODecoder d')) by (by rewrite Hh, lookup_insert_eq).
  exists d'. split_and!; [done|done|..].
  - by apply exec_is_complete.
  - cbn [exec]. unfold int, dhow_decoder_blocks_complete, guard_int, catch, deref_decoder, deref,
      mbind, abi_bind. by rewrite Hl'.
  - intros j rf Hrf. assert (Ho : outputs s' (DecoderResumeState (Some l) j) (ResumeFile_to_vec rf))
      by (by eapply Out_resume). split; [done|by apply outputs_fetches].
Qed.

Lemma abi_feed_refines_witness :
  exists l s d s' d', exec true (DecoderNew (Some 1%positive) (Some 1%positive) (Some 1%positive)
        (of_session_params demo_session)) demo_lib = Returns s (RPtr (Some l))
    /\ exec true (DecoderAccept (Some l) (Some 2%positive) 2) s
       = Returns s' (RStatus SFrameRejected)
    /\ heap s !! l = Some (ODecoder d) /\ receive true [demo_payload] d = Some (d', []).
Proof.
  destruct demo_opened as (l & s & d & s' & Ho & Hl & Hb & Ha).
  destruct (abi_feed_refines true l [demo_payload] [SFrameRejected] s s' d Hl)
    as (d' & Hr & _).
  { eapply Fed_frame; [exact Hb|exact Ha|constructor]. }
  { intros Hin. apply list_elem_of_singleton in Hin. discriminate Hin. }
  exists l, s, d, s', d'. split; [exact Ho|]. split; [exact Ha|]. split; [exact Hl|exact Hr].
Defined.

(** C14: a manifest through the library. Building one from an inventory whose
    names are safe and unreserved, whose entries number at most a million and
    whose sizes add up within 64 bits, returns a handle; its manifest has the
    caller's session identifier, salt, nonce and parameters, exactly the
    caller's entries in order, their number and their total size. The bytes
    behind the handle, in the hands of a receiver, verify against any public
    identity and expected session exactly when the signature is that
    identity's, the session is the expected one, if there is one, and the
    manifest is admissible under the default policy; the receiver's handle
    then holds the same manifest and the same bytes. The signer's own public
    identity does verify the signature. *)
Theorem abi_manifest_exchange `{Blake3} `{RaptorQ} `{Ed25519Laws} `{Getrandom} `{Aead}
    `{Qrcodegen} checks sA i idk sidp saltp noncep sid salt nonce params ep raw es :
  heap sA !! i = Some (OIdentity idk) -> reads sA sidp 16 sid -> reads sA saltp 32 salt ->
  reads sA noncep 24 nonce -> wf_dparams params -> mem sA !! ep = Some (CEntries raw) ->
  Forall2 (describes sA) raw es -> Forall wf_entry es -> len es <= MAX_FILE_COUNT ->
  zsum (Manifest.size <$> es) < 2 ^ 64 ->
  exists l sA' m bytes,
    exec checks (ManifestBuild (Some i) sidp saltp noncep params (Some ep) (len raw)) sA
      = Returns sA' (RPtr (Some l))
    /\ heap sA' !! l = Some (OManifest m bytes)
    /\ mh_session_id (header m) = sid /\ mh_salt (header m) = salt
    /\ mh_nonce (header m) = nonce /\ of_session_params (mh_params (header m)) = params
    /\ entries m = es /\ mh_file_count (header m) = len es
    /\ mh_total_size (header m) = zsum (Manifest.size <$> es)
    /\ verify (public idk) (signed_over m) (mh_signature (header m)) = true
    /\ forall sB p signer b sidq expected,
       heap sB !! p = Some (OPublic signer) -> reads sB b (len bytes) bytes ->
       match expected with Some e => reads sB sidq 16 e | None => sidq = None end ->
       exists q sB', exec checks (ManifestVerify (Some p) b (len bytes) sidq) sB
           = Returns sB' (RPtr q)
         /\ (is_Some q <->
               verify signer (signed_over m) (mh_signature (header m)) = true
               /\ (forall e, expected = Some e -> e = sid) /\ admissible Policy_default m)
         /\ forall h, q = Some h -> heap sB' !! h = Some (OManifest m bytes).
Proof.
  intros Hi Hsid Hsalt Hnonce Hp Hm Hes Hwf Hc Hsum.
  destruct (exec_build checks sA i idk sidp saltp noncep sid salt nonce params ep raw es
    Hi Hsid Hsalt Hnonce Hp Hm Hes Hwf Hc Hsum) as (l & sA' & He & Hh & Hmw & Hv).
  set (m := signed _ _) in *. exists l, sA', m, (Manifest_to_vec m).
  split; [done|]. split; [by rewrite Hh, lookup_insert_eq|].
  split_and!; [done|done|done|by destruct params|done| |done|..].
  { by rewrite (wfm_count _ Hmw). }
  { by apply verify_signature_Ok in Hv as (_ & _ & Hv). }
  intros sB p signer b sidq expected Hpub Hb Hexp.
  destruct (exec_verify checks sB p signer b _ _ sidq expected Hpub Hb Hexp) as (q & sB' & Hver & Hq).
  exists q, sB'. split; [done|].
  assert (Hiff : forall v, verify_manifest_with signer (Manifest_to_vec m) expected Policy_default
      = Ok v <-> v = {| vm_manifest := m; vm_signer := signer |}
        /\ verify signer (signed_over m) (mh_signature (header m)) = true
        /\ (forall e, expected = Some e -> e = sid) /\ admissible Policy_default m).
  { intros v. rewrite verify_manifest_with_Ok, verify_signature_Ok. split.
    - intros (Hsg & (Hvw & Hbytes & Hvv) & Hse & Had).
      assert (Hvm : vm_manifest v = m).
      { pose proof (manifest_parse_print _ Hvw) as P1. rewrite <- Hbytes in P1.
        rewrite manifest_parse_print in P1 by done. by injection P1. }
      rewrite Hvm in *. split_and!; [destruct v; cbn in *; congruence|done| |done].
      intros e Hexpe. symmetry. by apply Hse.
    - intros (-> & Hvv & Hse & Had). split; [reflexivity|].
      split; [split; [exact Hmw|split; [reflexivity|exact Hvv]]|]. split; [|exact Had].
      intros e Hexpe. symmetry. by apply Hse. }
  destruct (verify_manifest_with signer (Manifest_to_vec m) expected Policy_default) as [v|er|].
  - destruct Hq as (h & -> & Hhb & _). destruct (proj1 (Hiff v) eq_refl) as (-> & Hrest).
    split; [split; [done|by eexists]|]. intros h' [= <-]. by rewrite Hhb, lookup_insert_eq.
  - subst q. split; [|done]. split; [by intros [? ?]|]. intros Hrest.
    discriminate (proj2 (Hiff {| vm_manifest := m; vm_signer := signer |}) (conj eq_refl Hrest)).
  - subst q. split; [|done]. split; [by intros [? ?]|]. intros Hrest.
    discriminate (proj2 (Hiff {| vm_manifest := m; vm_signer := signer |}) (conj eq_refl Hrest)).
Qed.

Lemma abi_manifest_exchange_witness :
  exists l s m bytes, exec true (ManifestBuild (Some 1%positive) (Some 1%positive) (Some 1%positive)
        (Some 1%positive) demo_dparams (Some 5%positive) 1) demo_signing_lib
      = Returns s (RPtr (Some l))
    /\ heap s !! l = Some (OManifest m bytes) /\ entries m = [demo_entry].
Proof.
  destruct (abi_manifest_exchange true demo_signing_lib 1%positive (from_seed (zeros 32))
    (Some 1%positive) (Some 1%positive) (Some 1%positive) (zeros 16) (zeros 32) (zeros 24)
    demo_dparams 5%positive [demo_raw] [demo_entry] eq_refl (fun _ => eq_refl) (fun _ => eq_refl)
    (fun _ => eq_refl) demo_dparams_wf eq_refl)
    as (l & s & m & bytes & He & Hl & _ & _ & _ & _ & Hes & _).
  { repeat constructor. exists 6%positive, (name demo_entry ++ [Byte.x00]). split_and!; reflexivity. }
  { constructor; [apply demo_entry_wf|constructor]. }
  { vm_compute. discriminate. }
  { vm_compute. reflexivity. }
  exists l, s, m, bytes. split; [exact He|]. split; [exact Hl|exact Hes].
Defined.
