(* ===== verification/AbiResume.v ===== *)
(** * Resuming a transfer through the C ABI

    A receiver saves its journal and its resume state; another process opens a
    decoder on the same session, replays the journal and checks the state. *)

From S2P Require Import Prelude Errors CryptErrors Display Primitives Instances.
From S2P Require Import Digest Chunker Frame Session Manifest Resume Pipeline Transfer Fs Kdf.
From S2P Require Import Key Aead Abi AbiKeys AbiCodec AbiManifest AbiLogic AbiSystem AbiSound.
From S2P Require Import AbiOutput AbiTransfer.
From stdpp Require Import gmap.

#[local] Open Scope Z_scope.

(** ** Definitions *)

Section resume.
Context `{Blake3} `{RaptorQ} `{Ed25519} `{Getrandom} `{Aead} `{Qrcodegen}.

(** The answer of [dhow_decoder_resume_verify] for what the decoder found. *)
Definition verdict {E A} (r : outcome E A) : DhowStatus :=
  match r with Ok _ => SOk | Err _ => SResumeRejected | Panic => SPanic end.

End resume.

(** ** Lemmas *)

Section calls.
Context `{Blake3} `{RaptorQ} `{Ed25519} `{Getrandom} `{Aead} `{Qrcodegen}.

(** What an opening call that returns a handle has computed. *)
Lemma wp_open checks s sd ag params :
  holds s sd ag ->
  wp (exec checks (DecoderNew (Some (sd_key sd)) (sd_session_id sd) (sd_salt sd) params))
    (fun s' r => forall l, r = RPtr (Some l) -> exists keys d,
       TransferKeys_derive (ag_key ag) (Salt_from_bytes (ag_salt ag)) = Ok keys
       /\ PipelineDecoder_new checks (ag_session_id ag) (to_session_params params)
            (session_key keys) = Ok d
       /\ heap s' = <[l := ODecoder d]> (heap s))
    (fun _ => True) s.
Proof.
  intros [Hk Hsid Hsalt _]. cbn [exec]. unfold dhow_decoder_new. do 4 abi_step.
  do 2 (apply wp_bind; eapply wp_reads; [eassumption|]; cbn beta iota).
  apply wp_bind. eapply wp_deref_key_known; [exact Hk|]. cbn beta.
  repeat abi_step; try discriminate. intros l' [= <-]. by exists a, a0.
Qed.

(** Checking a state is the decoder's [verify_resume]. *)
Lemma exec_resume_verify checks s l p n b d rf :
  heap s !! l = Some (ODecoder d) -> reads s p n b -> ResumeFile_from_bytes checks b = Ok rf ->
  exists s', exec checks (DecoderResumeVerify (Some l) p n) s
      = Returns s' (RStatus (verdict (verify_resume d rf)))
    /\ heap s' = heap s /\ mem s' = mem s.
Proof.
  intros Hl Hb Hrf.
  destruct (wp_Returns (exec checks (DecoderResumeVerify (Some l) p n))
    (fun s' r => r = RStatus (verdict (verify_resume d rf)) /\ heap s' = heap s /\ mem s' = mem s) s)
    as (s' & r & He & -> & Hs); [|by exists s'].
  cbn [exec]. unfold dhow_decoder_resume_verify. do 4 abi_step. apply wp_bind.
  eapply wp_reads; [exact Hb|]. cbn beta iota. apply wp_bind. unfold deref_decoder.
  apply wp_bind. eapply wp_deref; [exact Hl|]. apply wp_mret. rewrite Hrf.
  apply wp_bind, wp_run; [done|intros a Ha; apply Ok_inj in Ha as <-|done]. cbn beta iota.
  apply wp_bind, wp_run; intros; cbn beta iota; repeat abi_step;
    match goal with E : verify_resume d rf = _ |- _ => rewrite E end; done.
Qed.

(** Reading a state reports its header. *)
Lemma exec_resume_read checks s p n b rf o old j zj c zc :
  reads s p n b -> ResumeFile_from_bytes checks b = Ok rf ->
  length (rh_session_id (rf_header rf)) = 16%nat ->
  mem s !! o = Some (CBytes old) -> 16 <= len old ->
  mem s !! j = Some (CInt zj) -> mem s !! c = Some (CInt zc) -> j <> c ->
  exists s', exec checks (ResumeStateRead p n (Some o) (Some j) (Some c)) s
      = Returns s' (RStatus SOk)
    /\ heap s' = heap s
    /\ mem s' = <[c := CInt (rh_block_count (rf_header rf))]>
        (<[j := CInt (rh_journal_bytes (rf_header rf))]>
          (<[o := CBytes (rh_session_id (rf_header rf) ++ drop 16 old)]> (mem s))).
Proof.
  intros Hb Hrf Hsid Ho Hlen Hj Hc Hne. set (sid := rh_session_id (rf_header rf)) in *.
  assert (Hoj : o <> j) by congruence. assert (Hoc : o <> c) by congruence.
  eexists. cbn [exec]. split.
  - apply status_Returns. erewrite bind_Returns by apply Hb. cbn beta iota.
    erewrite bind_Returns by (by apply run_Returns). cbn beta iota. fold sid.
    erewrite bind_Returns.
    2: { unfold copy_to. rewrite decide_False by (intros Hn; by rewrite Hn in Hsid).
         cbn [mem with_error]. rewrite Ho, decide_True by (unfold len in *; lia). reflexivity. }
    erewrite bind_Returns.
    2: { cbn [store_int_opt]. unfold store_int. cbn [mem with_error set_mem].
         rewrite lookup_insert_ne, Hj by done. reflexivity. }
    erewrite bind_Returns.
    2: { cbn [store_int_opt]. unfold store_int. cbn [mem with_error set_mem].
         rewrite !lookup_insert_ne, Hc by done. reflexivity. }
    reflexivity.
  - cbn [heap mem with_error set_mem]. by rewrite Hsid.
Qed.

End calls.

Section resuming.
Context `{Blake3Laws} `{RaptorQ} `{Ed25519} `{Getrandom} `{Aead} `{Qrcodegen}.

(** A handle that was opened and fed holds a decoder that received what it
    accepted. *)
Lemma opened_and_fed checks s0 s l d0 bs sts s' :
  heap s = <[l := ODecoder d0]> (heap s0) -> fed checks l bs sts s s' -> SPanic ∉ sts ->
  exists d, receive checks bs d0 = Some (d, accepted bs sts) /\ heap s' !! l = Some (ODecoder d).
Proof.
  intros Hh Hf Hn. destruct (fed_receive _ _ _ _ _ _ d0 Hf) as [_ Hr];
    [by rewrite Hh, lookup_insert_eq|].
  destruct (receive checks bs d0) as [[d acc]|]; [|done]. destruct Hr as (Hh' & -> & _).
  exists d. by rewrite Hh', lookup_insert_eq.
Qed.

(** A journal replays in full into the same decoder. *)
Lemma replayed checks s0 s l d0 acc d sts s' :
  decoder_ok d0 [] -> receive checks acc d0 = Some (d, acc) ->
  heap s = <[l := ODecoder d0]> (heap s0) -> fed checks l acc sts s s' ->
  Forall (fun st => st = SOk) sts /\ heap s' !! l = Some (ODecoder d).
Proof.
  intros Hok Hr Hh Hf. destruct (fed_receive _ _ _ _ _ _ d0 Hf) as [Hl Hc];
    [by rewrite Hh, lookup_insert_eq|].
  rewrite Hr in Hc. destruct Hc as (Hh' & Hacc & _).
  split; [by apply (accepted_all acc)|]. by rewrite Hh', lookup_insert_eq.
Qed.

End resuming.

(** ** Properties *)

(** C6: resuming through the library. A process opens a decoder, is fed byte
    strings of any kind and saves the accepted ones as its journal, and its
    resume state, which [dhow_decoder_resume_state] writes to any buffer that
    holds it. Another process with the same operator key, session
    identifier, salt and parameters always opens a decoder; feeding it the
    journal answers [Ok] every time and leaves the very decoder of the first
    process behind the handle. Whatever it was fed, [dhow_decoder_resume_verify]
    on the saved state answers [Ok] exactly when the digest of what it accepted
    is that of the journal and it holds the same symbols of every block, which
    it does after a replay, and [ResumeRejected] otherwise; and
    [dhow_resume_state_read] reports the session identifier, the journal's
    length as it was given, and the number of blocks. *)
Theorem abi_resume `{Blake3Laws} `{RaptorQ} `{Ed25519} `{Getrandom} `{Aead} `{Qrcodegen}
    checks ag params jb sA sideA sA1 lA bs sts sA2 sB sideB :
  holds sA sideA ag -> holds sB sideB ag -> wf_dparams params -> urange 64 jb ->
  exec checks (DecoderNew (Some (sd_key sideA)) (sd_session_id sideA) (sd_salt sideA) params) sA
    = Returns sA1 (RPtr (Some lA)) ->
  fed checks lA bs sts sA1 sA2 -> SPanic ∉ sts ->
  exists state lB sB1 dA,
    heap sA2 !! lA = Some (ODecoder dA)
    /\ outputs sA2 (DecoderResumeState (Some lA) jb) state
    /\ fetches checks sA2 (DecoderResumeState (Some lA) jb) state
    /\ exec checks (DecoderNew (Some (sd_key sideB)) (sd_session_id sideB) (sd_salt sideB) params)
         sB = Returns sB1 (RPtr (Some lB))
    /\ forall bs' sts' sB2, fed checks lB bs' sts' sB1 sB2 ->
       (bs' = accepted bs sts ->
          Forall (fun st => st = SOk) sts' /\ heap sB2 !! lB = Some (ODecoder dA))
       /\ (SPanic ∉ sts' -> exists dB, heap sB2 !! lB = Some (ODecoder dB)
            /\ forall p, reads sB2 p (len state) state ->
              exists sB3 st, exec checks (DecoderResumeVerify (Some lB) p (len state)) sB2
                  = Returns sB3 (RStatus st)
                /\ heap sB3 = heap sB2 /\ mem sB3 = mem sB2
                /\ st = if decide (blake3_digest (concat (accepted bs sts))
                                     = blake3_digest (concat (accepted bs' sts'))
                                   /\ pd_held dB = pd_held dA)
                        then SOk else SResumeRejected)
       /\ forall p o old j zj c zc, reads sB2 p (len state) state ->
            mem sB2 !! o = Some (CBytes old) -> 16 <= len old ->
            mem sB2 !! j = Some (CInt zj) -> mem sB2 !! c = Some (CInt zc) -> j <> c ->
            exists sB3, exec checks (ResumeStateRead p (len state) (Some o) (Some j) (Some c)) sB2
                = Returns sB3 (RStatus SOk)
              /\ mem sB3 = <[c := CInt (len (pd_blocks dA))]> (<[j := CInt jb]>
                   (<[o := CBytes (ag_session_id ag ++ drop 16 old)]> (mem sB2))).
Proof.
  intros HA HB Hp Hjb Ho Hf Hn.
  pose proof (wp_open checks sA sideA ag params HA) as Hw. unfold wp in Hw. rewrite Ho in Hw.
  destruct (Hw lA eq_refl) as (keys & d0 & Hk & Hd0 & Hh). clear Hw.
  pose proof (reads_length _ _ 16 _ ltac:(lia) (hl_session_id _ _ _ HA)) as Hs.
  assert (Hs16 : length (ag_session_id ag) = 16%nat) by (unfold len in Hs; lia).
  destruct (opened_and_fed _ _ _ _ _ _ _ _ Hh Hf Hn) as (dA & Hr & HlA).
  destruct (received_ok _ _ _ _ _ _ _ _ Hs16 Hp Hd0 Hr) as (HokA & EsA & EpA & _ & _).
  destruct (decoder_new_ok _ _ _ _ _ Hs16 Hp Hd0) as (Hok0 & _).
  destruct (resume_round_trip (E := Empty_set) checks dA _ jb HokA Hjb)
    as (rf & Hrs & Hrf & Hparse & _ & Rs & Rj & Rc).
  destruct (exec_open checks sB sideB ag _ keys d0 HB Hk Hd0) as (lB & sB1 & HoB & _ & HhB & _).
  exists (ResumeFile_to_vec rf), lB, sB1, dA.
  assert (Hout : outputs sA2 (DecoderResumeState (Some lA) jb) (ResumeFile_to_vec rf))
    by (by eapply Out_resume).
  split; [done|]. split; [done|]. split; [by apply outputs_fetches|]. split; [done|].
  intros bs' sts' sB2 HfB. split; [|split].
  - intros ->. apply (replayed checks sB sB1 lB d0 (accepted bs sts) dA sts' sB2 Hok0); [|done|done].
    by eapply receive_accepted.
  - intros HnB. destruct (opened_and_fed _ _ _ _ _ _ _ _ HhB HfB HnB) as (dB & HrB & HlB).
    destruct (received_ok _ _ _ _ _ _ _ _ Hs16 Hp Hd0 HrB) as (HokB & EsB & EpB & _ & _).
    exists dB. split; [done|]. intros p Hreads.
    destruct (exec_resume_verify checks sB2 lB p _ _ dB rf HlB Hreads Hparse) as (sB3 & He & ? & ?).
    pose proof (resume_cross (E := Empty_set) dA _ dB _ jb rf HokA HokB ltac:(congruence)
      ltac:(congruence) Hjb Hrs) as Hiff.
    pose proof (verify_resume_safe dB _ rf HokB Hrf) as Hsafe.
    exists sB3, (verdict (verify_resume dB rf)). split_and!; [done..|].
    destruct (verify_resume dB rf) as [[]|e|]; [| |done]; case_decide as Hd; try done.
    + by destruct Hd; apply Hiff.
    + by apply Hiff in Hd.
  - intros p o old j zj c zc Hreads Hmo Hlen Hmj Hmc Hne.
    destruct (exec_resume_read checks sB2 p _ _ rf o old j zj c zc Hreads Hparse)
      as (sB3 & He & _ & Hm); try done; [by rewrite Rs, EsA|].
    exists sB3. split; [done|]. by rewrite Hm, Rs, EsA, Rj, Rc.
Qed.

Lemma abi_resume_witness :
  exists lA sA1 sA2 state lB sB1 dA,
    exec true (DecoderNew (Some 1%positive) (Some 1%positive) (Some 1%positive)
        (of_session_params demo_session)) demo_lib = Returns sA1 (RPtr (Some lA))
    /\ exec true (DecoderAccept (Some lA) (Some 2%positive) 2) sA1
       = Returns sA2 (RStatus SFrameRejected)
    /\ outputs sA2 (DecoderResumeState (Some lA) 512) state
    /\ exec true (DecoderNew (Some 1%positive) (Some 1%positive) (Some 1%positive)
        (of_session_params demo_session)) demo_lib = Returns sB1 (RPtr (Some lB))
    /\ heap sB1 !! lB = Some (ODecoder dA).
Proof.
  destruct demo_opened as (lA & sA1 & d & sA2 & Ho & _ & Hb & Ha).
  destruct (abi_resume true demo_agreement (of_session_params demo_session) 512 demo_lib demo_side
    sA1 lA [demo_payload] [SFrameRejected] sA2 demo_lib demo_side demo_holds demo_holds)
    as (state & lB & sB1 & dA & _ & Hout & _ & HoB & Hall).
  { apply demo_session_wf. }
  { split; [discriminate|reflexivity]. }
  { exact Ho. }
  { eapply Fed_frame; [exact Hb|exact Ha|constructor]. }
  { intros Hin. apply list_elem_of_singleton in Hin. discriminate Hin. }
  destruct (Hall [] [] sB1 (Fed_nil _ _ _)) as (Hrep & _).
  destruct (Hrep eq_refl) as [_ HlB].
  exists lA, sA1, sA2, state, lB, sB1, dA. auto.
Defined.
