(* ===== verification/AbiIntegrity.v ===== *)
(** * Integrity through the C ABI

    A receiver whose channel belongs to an adversary: whatever byte strings it
    is fed, what [dhow_decoder_finish] hands out. *)

From S2P Require Import Prelude Errors CryptErrors Display Primitives Instances.
From S2P Require Import Digest Chunker Frame Session Pipeline Transfer Fs Kdf.
From S2P Require Import Key Aead Abi AbiKeys AbiCodec AbiManifest AbiLogic AbiSystem AbiSound.
From S2P Require Import AbiOutput AbiTransfer AbiResume.
From stdpp Require Import gmap.

#[local] Open Scope Z_scope.

(** ** Definitions *)

Section integrity.
Context `{Blake3} `{RaptorQ} `{Ed25519} `{Getrandom} `{Aead} `{Qrcodegen}.

(** [c'] is another payload sealed under the keys of the agreement, and has the
    length and the digest of the ciphertext of [payload]: a collision of BLAKE3
    made with the operator key. *)
Definition collides (ag : Agreement) (payload c' : list byte) : Prop :=
  exists keys payload' c,
    TransferKeys_derive (ag_key ag) (Salt_from_bytes (ag_salt ag)) = Ok keys
    /\ encrypt_payload keys (Nonce_from_bytes (ag_nonce ag)) (ag_session_id ag) payload = Ok c
    /\ encrypt_payload keys (Nonce_from_bytes (ag_nonce ag)) (ag_session_id ag) payload' = Ok c'
    /\ c' <> c /\ len c' = len c /\ blake3_digest c' = blake3_digest c.

(** What finishing leaves in the caller's buffer [l], which held [old], and in
    the length cell [w], which held [z]. *)
Definition finish_outcome (payload old : list byte) (cap : Z) (l w : positive) (z : Z)
    (s : Lib) (st : DhowStatus) : Prop :=
  match st with
  | SOk => len payload <= cap
      /\ mem s !! l = Some (CBytes (payload ++ drop (length payload) old))
      /\ mem s !! w = Some (CInt (len payload))
  | SBufferTooSmall => cap < len payload
      /\ mem s !! l = Some (CBytes old) /\ mem s !! w = Some (CInt (len payload))
  | _ => mem s !! l = Some (CBytes old) /\ mem s !! w = Some (CInt z)
  end.

End integrity.

(** ** Lemmas *)

Section finishing.
Context `{Blake3Laws} `{RaptorQ} `{Ed25519} `{Getrandom} `{AeadLaws} `{Qrcodegen}.

(** Feeding, even a decoder that panics, keeps its books and its session. *)
Lemma fed_keeps checks l bs sts s s' d :
  fed checks l bs sts s s' -> heap s !! l = Some (ODecoder d) -> object_ok (ODecoder d) ->
  exists d', heap s' !! l = Some (ODecoder d') /\ object_ok (ODecoder d')
    /\ pd_params d' = pd_params d.
Proof.
  intros Hf. revert d. induction Hf as [s|b bs st sts p n s s1 s2 Hr He Hf IH|bs sts s s1 s2 [Hh _] Hf IH];
    intros d Hl Hd; [by exists d| |by apply IH; rewrite ?Hh].
  destruct (accept checks b d) as [d1 r] eqn:Ha.
  destruct (exec_accept checks s l p n b d d1 r Hl Hr Ha) as (s1' & He' & Hh & _).
  rewrite He in He'. injection He' as <- _.
  destruct (IH d1) as (d' & Hl' & Hd' & Hp); [by rewrite Hh, lookup_insert_eq|by eapply accept_object|].
  exists d'. split; [done|]. split; [done|]. destruct Hd as [acc Hd].
  rewrite Hp. by apply (accept_step checks d acc b d1 r).
Qed.

(** The plaintext, if there is one, is what was sealed or collides with it. *)
Lemma opened_payload checks ag params payload frames keys c pl out p :
  length (ag_nonce ag) = 24%nat -> sealed checks ag params payload frames keys c pl ->
  len out = len c -> blake3_digest out = blake3_digest c ->
  decrypt_payload_in_place keys (Nonce_from_bytes (ag_nonce ag)) (ag_session_id ag) out = Ok p ->
  p = payload \/ collides ag payload out.
Proof.
  intros Hn Hs Hlen Hdig Hp. destruct (sealed_opens _ _ _ _ _ _ _ _ Hn Hs) as [_ Hopen].
  destruct Hs as [Hk He _ _]. pose proof (derived_keys _ _ _ Hk) as Hw.
  destruct (decide (out = c)) as [->|Hne].
  { left. rewrite Hopen in Hp. by injection Hp. }
  right. exists keys, p, c. split; [done|]. split; [done|]. split; [|done].
  rewrite in_place_is_borrowing in Hp. apply decrypt_payload_Ok in Hp; [|done|done].
  apply encrypt_payload_Ok; [done|]. destruct Hw. by apply aead_authentic.
Qed.

(** A call that finishes: it fails without touching the caller's memory, or
    writes out the plaintext of what the decoder collected. *)
Lemma exec_finish checks s l d sd ag keys buf cap w old z (P : list byte -> Prop) :
  heap s !! l = Some (ODecoder d) -> holds s sd ag ->
  TransferKeys_derive (ag_key ag) (Salt_from_bytes (ag_salt ag)) = Ok keys ->
  mem s !! buf = Some (CBytes old) -> mem s !! w = Some (CInt z) -> cap <= len old ->
  (forall out p, finish d = Ok out ->
     decrypt_payload_in_place keys (Nonce_from_bytes (ag_nonce ag)) (ag_session_id ag) out = Ok p ->
     P p) ->
  exists s' st, exec checks (DecoderFinish (Some l) (Some (sd_key sd)) (sd_session_id sd)
      (sd_salt sd) (sd_nonce sd) (Some buf) cap (Some w)) s = Returns s' (RStatus st)
    /\ heap s' = heap s
    /\ ((st <> SOk /\ st <> SBufferTooSmall /\ mem s' = mem s)
        \/ exists p, P p /\ is_complete d = true /\ finish_outcome p old cap buf w z s' st).
Proof.
  intros Hl [Hk Hsid Hsalt Hnonce] Hkeys Hbuf Hw Hcap HP.
  set (good s' st := heap s' = heap s
    /\ ((st <> SOk /\ st <> SBufferTooSmall /\ mem s' = mem s)
        \/ exists p, P p /\ is_complete d = true /\ finish_outcome p old cap buf w z s' st)).
  assert (Hfail : forall e st, st <> SOk -> st <> SBufferTooSmall -> good (with_error e s) st)
    by (intros e st ??; split; [done|by left]).
  destruct (wp_Returns (exec checks (DecoderFinish (Some l) (Some (sd_key sd)) (sd_session_id sd)
      (sd_salt sd) (sd_nonce sd) (Some buf) cap (Some w)))
    (fun s' r => exists st, r = RStatus st /\ good s' st) s) as (s' & r & He & st & -> & Hg);
    [|by exists s', st].
  cbn [exec]. unfold dhow_decoder_finish. do 4 abi_step.
  do 3 (apply wp_bind; eapply wp_reads; [eassumption|]; cbn beta iota).
  apply wp_bind. unfold deref_decoder. apply wp_bind. eapply wp_deref; [exact Hl|]. apply wp_mret.
  apply wp_bind. eapply wp_deref_key_known; [exact Hk|]. cbn beta.
  destruct (is_complete d) eqn:Hc; [|apply wp_fail; eexists; split; [done|by apply Hfail]].
  apply wp_bind, wp_run; [intros e _|intros out Hout|intros _]; cbn beta iota;
    [apply wp_fail| |]; [eexists; split; [done|by apply Hfail]| |eexists; split; [done|by apply Hfail]].
  rewrite Hkeys. apply wp_bind, wp_run; [done|intros a [= <-]|done]. cbn beta iota.
  apply wp_bind, wp_run; [intros e _|intros p Hp|intros _]; cbn beta iota;
    [apply wp_fail| |]; [eexists; split; [done|by apply Hfail]| |eexists; split; [done|by apply Hfail]].
  destruct (write_out_fetch p old buf cap w z (with_error [] s) Hw Hbuf Hcap) as [Hfit Hsmall].
  assert (Hne : buf <> w) by congruence. unfold wp.
  destruct (decide (len p <= cap)) as [Hle|Hgt].
  - rewrite Hfit by done. eexists. split; [done|]. split; [done|]. right. exists p.
    split; [by eapply HP|]. split; [done|]. cbn [finish_outcome mem set_mem with_error].
    split; [done|]. split; [by rewrite lookup_insert_eq|].
    by rewrite lookup_insert_ne, lookup_insert_eq.
  - destruct Hsmall as (e & _ & ->); [lia|]. eexists. split; [done|]. split; [done|]. right. exists p.
    split; [by eapply HP|]. split; [done|]. cbn [finish_outcome mem set_mem with_error].
    split; [lia|]. split; [by rewrite lookup_insert_ne|by rewrite lookup_insert_eq].
Qed.

End finishing.

(** A receiver always opens on what a sender resolved. *)
Lemma open_sealed `{Blake3Laws} `{RaptorQLaws} `{Ed25519} `{Getrandom} `{AeadLaws} `{Qrcodegen}
    checks ag sA sideA params pp n payload sA' e frames ps sB sideB :
  holds sA sideA ag -> reads sA pp n payload -> wf_dparams params -> len payload < 2 ^ 63 ->
  exec checks (EncoderNew (Some (sd_key sideA)) (sd_session_id sideA) (sd_salt sideA)
    (sd_nonce sideA) params pp n) sA = Returns sA' (RPtr (Some e)) ->
  heap sA' !! e = Some (OEncoder frames ps) -> holds sB sideB ag ->
  exists d l sB1, exec checks (DecoderNew (Some (sd_key sideB)) (sd_session_id sideB)
      (sd_salt sideB) ps) sB = Returns sB1 (RPtr (Some l))
    /\ heap sB !! l = None /\ heap sB1 = <[l := ODecoder d]> (heap sB) /\ mem sB1 = mem sB.
Proof.
  intros HA Hpay Hp Hlen He Hps HB.
  destruct (exec_sealed _ _ _ _ _ _ _ _ _ _ HA Hpay He)
    as (frames' & keys & c & pl & Hs & Hh).
  rewrite Hh in Hps. injection Hps as -> <-. destruct (holds_lengths _ _ _ HB) as [Hs16 Hn24].
  destruct (sealed_receiver _ _ _ _ _ _ _ _ Hs16 Hn24 Hp Hlen Hs) as [d Hd].
  exists d. eapply exec_open; [exact HB|exact (se_keys _ _ _ _ _ _ _ _ Hs)|exact Hd].
Qed.

(** ** Properties *)

(** C4: nothing but the sender's payload is ever handed out. A sender seals a
    payload; a receiver with the same operator key, session identifier, salt
    and nonce opens a decoder on the parameters the sender resolved, and is fed
    any byte strings at all, in any number, whatever each call answers. Then
    [dhow_decoder_finish] returns, the handles are as they were, and either it
    fails with the caller's buffer and length cell untouched, or every block is
    done and what it writes, or says does not fit, is exactly the sender's
    payload and its length; unless the bytes the decoder collected are a second
    ciphertext under the operator key with the length and the BLAKE3 digest of
    the sender's, a collision. *)
Theorem abi_integrity `{Blake3Laws} `{RaptorQ} `{Ed25519} `{Getrandom} `{AeadLaws} `{Qrcodegen}
    checks ag sA sideA params pp n payload sA' e frames ps sB sideB sB1 lB bs sts sB2
    l w old z cap :
  holds sA sideA ag -> reads sA pp n payload -> wf_dparams params -> len payload < 2 ^ 63 ->
  exec checks (EncoderNew (Some (sd_key sideA)) (sd_session_id sideA) (sd_salt sideA)
    (sd_nonce sideA) params pp n) sA = Returns sA' (RPtr (Some e)) ->
  heap sA' !! e = Some (OEncoder frames ps) ->
  holds sB sideB ag ->
  exec checks (DecoderNew (Some (sd_key sideB)) (sd_session_id sideB) (sd_salt sideB) ps) sB
    = Returns sB1 (RPtr (Some lB)) ->
  fed checks lB bs sts sB1 sB2 -> holds sB2 sideB ag ->
  mem sB2 !! l = Some (CBytes old) -> mem sB2 !! w = Some (CInt z) -> cap <= len old ->
  exists dB sB3 st, heap sB2 !! lB = Some (ODecoder dB)
    /\ exec checks (DecoderFinish (Some lB) (Some (sd_key sideB)) (sd_session_id sideB)
         (sd_salt sideB) (sd_nonce sideB) (Some l) cap (Some w)) sB2 = Returns sB3 (RStatus st)
    /\ heap sB3 = heap sB2
    /\ ((st <> SOk /\ st <> SBufferTooSmall /\ mem sB3 = mem sB2)
        \/ (is_complete dB = true /\ finish_outcome payload old cap l w z sB3 st)
        \/ exists c', finish dB = Ok c' /\ collides ag payload c').
Proof.
  intros HA Hpay Hp Hlen He Hps HB Ho Hf HB2 Hl Hw Hcap.
  destruct (exec_sealed _ _ _ _ _ _ _ _ _ _ HA Hpay He) as (frames' & keys & c & pl & Hs & Hh).
  rewrite Hh in Hps. injection Hps as -> <-.
  pose proof (reads_length _ _ 16 _ ltac:(lia) (hl_session_id _ _ _ HB)) as Hsid.
  pose proof (reads_length _ _ 24 _ ltac:(lia) (hl_nonce _ _ _ HB)) as Hnonce.
  unfold len in Hsid, Hnonce. assert (Hs16 : length (ag_session_id ag) = 16%nat) by lia.
  assert (Hn24 : length (ag_nonce ag) = 24%nat) by lia.
  destruct (sealed_opens _ _ _ _ _ _ _ _ Hn24 Hs) as [Hc _].
  pose proof (wf_resolved params c Hp ltac:(lia)) as Hwf.
  pose proof (wp_open checks sB sideB ag (resolved params c) HB) as Hopen.
  unfold wp in Hopen. rewrite Ho in Hopen.
  destruct (Hopen lB eq_refl) as (keys' & d0 & Hk & Hd0 & HhB). clear Hopen Ho.
  rewrite (se_keys _ _ _ _ _ _ _ _ Hs) in Hk. injection Hk as <-.
  destruct (decoder_new_ok _ _ _ _ _ Hs16 Hwf Hd0) as (Hok0 & _ & Hp0 & _).
  destruct (fed_keeps _ _ _ _ _ _ d0 Hf) as (dB & HlB & [acc HdB] & HpB);
    [by rewrite HhB, lookup_insert_eq|by exists []|].
  destruct (exec_finish checks sB2 lB dB sideB ag keys l cap w old z
    (fun p => p = payload \/ exists c', finish dB = Ok c' /\ collides ag payload c') HlB HB2
    (se_keys _ _ _ _ _ _ _ _ Hs) Hl Hw Hcap) as (sB3 & st & Hfin & Hheap & Hres).
  { intros out p Hout Hdec. destruct (finish_Ok dB acc out HdB Hout) as (Hdig & Hsize & _).
    rewrite HpB, Hp0 in Hdig, Hsize. 
    destruct (opened_payload checks ag params payload _ keys c pl out p Hn24 Hs Hsize Hdig Hdec);
      [by left|right; by exists out]. }
  exists dB, sB3, st. split; [done|]. split; [done|]. split; [done|].
  destruct Hres as [Hfail|(p & [->|Hcol] & Hc' & Hout)]; [by left|right; by left|by right; right].
Qed.

Lemma abi_integrity_witness :
  exists sA' frames ps lB sB1 sB2 sB3 dB st,
    exec true demo_seal demo_lib = Returns sA' (RPtr (Some 2%positive))
    /\ heap sA' !! 2%positive = Some (OEncoder frames ps)
    /\ exec true (DecoderNew (Some 1%positive) (Some 1%positive) (Some 1%positive) ps) demo_lib
       = Returns sB1 (RPtr (Some lB))
    /\ exec true (DecoderAccept (Some lB) (Some 2%positive) 2) sB1
       = Returns sB2 (RStatus SFrameRejected)
    /\ exec true (DecoderFinish (Some lB) (Some 1%positive) (Some 1%positive) (Some 1%positive)
         (Some 1%positive) (Some 3%positive) 400 (Some 4%positive)) sB2
       = Returns sB3 (RStatus st)
    /\ ((st <> SOk /\ st <> SBufferTooSmall /\ mem sB3 = mem sB2)
        \/ (is_complete dB = true
            /\ finish_outcome demo_payload (zeros 400) 400 3%positive 4%positive 0 sB3 st)
        \/ exists c', finish dB = Ok c' /\ collides demo_agreement demo_payload c').
Proof.
  destruct demo_sealed as (sA' & frames & ps & f & He & _ & _ & Hl & _).
  destruct (open_sealed true demo_agreement demo_lib demo_side demo_dparams (Some 2%positive) 2
    demo_payload sA' 2%positive frames ps demo_lib demo_side demo_holds (fun _ => eq_refl)
    demo_dparams_wf eq_refl He Hl demo_holds) as (d & lB & sB1 & Ho & Hfresh & HhB & HmB).
  destruct (demo_reject d) as [er Hrej].
  assert (Hb : reads sB1 (Some 2%positive) 2 demo_payload)
    by (intros e; unfold slice_from; cbn [mem with_error]; rewrite HmB; reflexivity).
  destruct (exec_accept true sB1 lB (Some 2%positive) 2 demo_payload d d (Err er))
    as (sB2 & Ha & Hh2 & Hm2); [by rewrite HhB, lookup_insert_eq|exact Hb|exact Hrej|].
  assert (Hm : mem sB2 = mem demo_lib) by (by rewrite Hm2, HmB).
  assert (H2 : holds sB2 demo_side demo_agreement).
  { assert (Hr : forall n, (n <= 32)%nat ->
      reads sB2 (Some 1%positive) (Z.of_nat n) (take n (zeros 32))).
    { intros n Hn e. unfold slice_from. cbn [mem with_error]. rewrite Hm.
      change (mem demo_lib !! 1%positive) with (Some (CBytes (zeros 32))). cbn iota.
      case_decide as Hz; [assert (n = 0%nat) as -> by lia; done|].
      rewrite decide_True by (change (len (zeros 32)) with 32; lia). by rewrite Nat2Z.id. }
    split; [|exact (Hr 16%nat ltac:(lia))|exact (Hr 32%nat ltac:(lia))|exact (Hr 24%nat ltac:(lia))].
    rewrite Hh2, HhB, insert_insert_eq, lookup_insert_ne; [reflexivity|].
    intros ->. discriminate Hfresh. }
  destruct (abi_integrity true demo_agreement demo_lib demo_side demo_dparams (Some 2%positive) 2
    demo_payload sA' 2%positive frames ps demo_lib demo_side sB1 lB [demo_payload]
    [SFrameRejected] sB2 3%positive 4%positive (zeros 400) 0 400 demo_holds (fun _ => eq_refl)
    demo_dparams_wf eq_refl He Hl demo_holds Ho) as (dB & sB3 & st & _ & Hfin & _ & Hres).
  { eapply Fed_frame; [exact Hb|exact Ha|constructor]. }
  { exact H2. }
  { by rewrite Hm. }
  { by rewrite Hm. }
  { vm_compute. discriminate. }
  exists sA', frames, ps, lB, sB1, sB2, sB3, dB, st. auto 10.
Defined.
