(* ===== verification/AbiSession.v ===== *)
(** * A whole session through the C ABI

    The sender seals a payload and signs a manifest with the parameters of the
    transfer. The receiver has the sender's public identity, the operator key
    and the bytes of the manifest: the calls it makes to open the decoder take
    everything else from there. *)

From S2P Require Import Prelude Errors CryptErrors Display Primitives Instances.
From S2P Require Import Digest Chunker Frame Session Utf8 Manifest Resume Pipeline Transfer Fs Kdf.
From S2P Require Import Key Aead SignedManifest Abi AbiKeys AbiCodec AbiManifest AbiLogic AbiSystem.
From S2P Require Import AbiSound AbiOutput AbiTransfer.
From stdpp Require Import gmap.

#[local] Open Scope Z_scope.

(** ** Definitions *)

Section session.
Context `{Blake3} `{RaptorQ} `{Ed25519} `{Getrandom} `{Aead} `{Qrcodegen}.

(** What a receiver brings: handles to its operator key and to the public
    identity it trusts, and places for what it reads from the manifest. *)
Record Inbox := {
  ib_key : positive;
  ib_signer : positive;
  ib_session_id : positive;
  ib_salt : positive;
  ib_nonce : positive;
  ib_params : positive;
}.

Definition inbox_side (ib : Inbox) : Side :=
  {| sd_key := ib_key ib; sd_session_id := Some (ib_session_id ib);
     sd_salt := Some (ib_salt ib); sd_nonce := Some (ib_nonce ib) |}.

(** A buffer of at least [n] bytes. *)
Definition buffer (s : Lib) (n : Z) (l : positive) : Prop :=
  exists old, mem s !! l = Some (CBytes old) /\ n <= len old.

Record places (s : Lib) (ib : Inbox) : Prop := {
  pc_session_id : buffer s 16 (ib_session_id ib);
  pc_salt : buffer s 32 (ib_salt ib);
  pc_nonce : buffer s 24 (ib_nonce ib);
  pc_params : exists p, mem s !! ib_params ib = Some (CParams p);
  pc_distinct : NoDup [ib_session_id ib; ib_salt ib; ib_nonce ib; ib_params ib];
}.

Record ready (s : Lib) (key : OperatorKey) (signer : PublicIdentity) (ib : Inbox) : Prop := {
  re_key : heap s !! ib_key ib = Some (OKey key);
  re_signer : heap s !! ib_signer ib = Some (OPublic signer);
  re_places : places s ib;
}.

(** The receiver's calls, in order: verify the manifest, copy the four fields
    out of it, open a decoder on them. *)
Definition opens (checks : bool) (ib : Inbox) (b : ptr) (n : Z) (s : Lib) (h d : positive)
    (s' : Lib) : Prop :=
  exists s1 s2 s3 s4 s5 ps,
    exec checks (ManifestVerify (Some (ib_signer ib)) b n None) s = Returns s1 (RPtr (Some h))
    /\ exec checks (ManifestSessionId (Some h) (Some (ib_session_id ib))) s1
       = Returns s2 (RStatus SOk)
    /\ exec checks (ManifestSalt (Some h) (Some (ib_salt ib))) s2 = Returns s3 (RStatus SOk)
    /\ exec checks (ManifestNonce (Some h) (Some (ib_nonce ib))) s3 = Returns s4 (RStatus SOk)
    /\ exec checks (ManifestParams (Some h) (Some (ib_params ib))) s4 = Returns s5 (RStatus SOk)
    /\ mem s5 !! ib_params ib = Some (CParams ps)
    /\ exec checks (DecoderNew (Some (ib_key ib)) (Some (ib_session_id ib)) (Some (ib_salt ib)) ps)
         s5 = Returns s' (RPtr (Some d)).

(** A cell overwritten by a call. *)
Definition put (l : positive) (c : cell) (s : Lib) : Lib :=
  set_mem (<[l := c]> (mem s)) (with_error [] s).

(** Files that the default policy lets through. *)
Record publishable (es : list FileEntry) : Prop := {
  pu_entries : Forall wf_entry es;
  pu_count : len es <= MAX_FILE_COUNT;
  pu_sizes : Forall (fun e => Manifest.size e <= max_file_size Policy_default) es;
  pu_total : zsum (Manifest.size <$> es) <= max_total_size Policy_default;
}.

End session.

(** A sender with the key of the example and an identity, about to list a file;
    and a receiver that has the bytes of a manifest. *)
Definition demo_publisher : Lib :=
  {| last_error := [];
     heap := list_to_map [(1%positive, OKey {| ok_bytes := zeros 32 |});
       (2%positive, OIdentity (from_seed (zeros 32)))];
     mem := list_to_map [(1%positive, CBytes (zeros 32)); (5%positive, CEntries [demo_raw]);
       (6%positive, CBytes (name demo_entry ++ [Byte.x00]))];
     fs := empty_world; rng := 0 |}.

Definition demo_inbox : Inbox :=
  {| ib_key := 1; ib_signer := 2; ib_session_id := 2; ib_salt := 3; ib_nonce := 4; ib_params := 5 |}.

Definition demo_receiver (bytes : list byte) : Lib :=
  {| last_error := [];
     heap := list_to_map [(1%positive, OKey {| ok_bytes := zeros 32 |});
       (2%positive, OPublic (public (from_seed (zeros 32))))];
     mem := list_to_map [(1%positive, CBytes bytes); (2%positive, CBytes (zeros 16));
       (3%positive, CBytes (zeros 32)); (4%positive, CBytes (zeros 24));
       (5%positive, CParams demo_dparams)];
     fs := empty_world; rng := 0 |}.

(** ** Lemmas *)

Section getters.
Context `{Blake3} `{RaptorQ} `{Ed25519} `{Getrandom} `{Aead} `{Qrcodegen}.

(** A getter copies its field to the start of the buffer. *)
Lemma exec_field (extract : Manifest -> list byte) s h m bs o n :
  heap s !! h = Some (OManifest m bs) -> buffer s n o -> len (extract m) = n -> 0 < n ->
  exists rest, status (manifest_field (Some h) (Some o) extract) s
    = Returns (put o (CBytes (extract m ++ rest)) s) (RStatus SOk).
Proof.
  intros Hh (old & Ho & Hle) Hn Hpos. exists (drop (length (extract m)) old).
  unfold manifest_field. apply status_Returns.
  erewrite bind_Returns.
  2: { unfold deref_manifest, deref, mbind, abi_bind. cbn [heap with_error]. rewrite Hh. reflexivity. }
  erewrite bind_Returns; [reflexivity|]. unfold copy_to. cbn [fst mem with_error].
  rewrite decide_False by (intros E; rewrite E in Hn; unfold len in Hn; cbn in Hn; lia).
  by rewrite Ho, decide_True by lia.
Qed.

Lemma exec_params checks s h m bs o p :
  heap s !! h = Some (OManifest m bs) -> mem s !! o = Some (CParams p) ->
  exec checks (ManifestParams (Some h) (Some o)) s
  = Returns (put o (CParams (of_session_params (mh_params (header m)))) s) (RStatus SOk).
Proof.
  intros Hh Ho. cbn [exec]. unfold dhow_manifest_params. apply status_Returns.
  erewrite bind_Returns.
  2: { unfold deref_manifest, deref, mbind, abi_bind. cbn [heap with_error]. rewrite Hh. reflexivity. }
  erewrite bind_Returns; [reflexivity|]. unfold store_params. cbn [fst mem with_error]. by rewrite Ho.
Qed.

Lemma buffer_put s n l o c : l <> o -> buffer s n l -> buffer (put o c s) n l.
Proof. intros Hne (old & Hl & Hn). exists old. cbn. by rewrite lookup_insert_ne by congruence. Qed.

(** A cell that starts with [data] reads as [data]. *)
Lemma reads_start s l data rest n :
  mem s !! l = Some (CBytes (data ++ rest)) -> len data = n -> 0 < n -> reads s (Some l) n data.
Proof.
  intros Hl Hn Hpos e. unfold slice_from. cbn [mem with_error].
  rewrite decide_False, Hl, decide_True by (rewrite ?len_app; pose proof (len_nonneg rest); lia).
  unfold len in Hn. rewrite <- Hn, Nat2Z.id. by rewrite take_app_length.
Qed.

End getters.

Section opening.
Context `{Blake3} `{RaptorQ} `{Ed25519Laws} `{Getrandom} `{Aead} `{Qrcodegen}.

(** Opening a handle leaves what a side holds. *)
Lemma holds_opened s s' sd ag l o :
  holds s sd ag -> heap s !! l = None -> heap s' = <[l := o]> (heap s) -> mem s' = mem s ->
  holds s' sd ag.
Proof.
  intros [Hk Hsid Hsalt Hnonce] Hl Hh Hm.
  assert (Hr : forall p n bs, reads s p n bs -> reads s' p n bs).
  { intros p n bs Hp e. specialize (Hp e). unfold slice_from in *. cbn [mem with_error] in *.
    rewrite Hm. repeat case_match; simplify_eq; done. }
  split; [|by apply Hr..]. rewrite Hh, lookup_insert_ne; [done|]. intros ->. congruence.
Qed.

(** The four getters, one after the other. *)
Lemma getters_run checks s1 ib h m bytes :
  places s1 ib -> heap s1 !! h = Some (OManifest m bytes) -> wf_mheader (header m) ->
  exists s2 s3 s4 s5,
    exec checks (ManifestSessionId (Some h) (Some (ib_session_id ib))) s1
       = Returns s2 (RStatus SOk)
    /\ exec checks (ManifestSalt (Some h) (Some (ib_salt ib))) s2 = Returns s3 (RStatus SOk)
    /\ exec checks (ManifestNonce (Some h) (Some (ib_nonce ib))) s3 = Returns s4 (RStatus SOk)
    /\ exec checks (ManifestParams (Some h) (Some (ib_params ib))) s4 = Returns s5 (RStatus SOk)
    /\ heap s5 = heap s1
    /\ mem s5 !! ib_params ib = Some (CParams (of_session_params (mh_params (header m))))
    /\ reads s5 (Some (ib_session_id ib)) 16 (mh_session_id (header m))
    /\ reads s5 (Some (ib_salt ib)) 32 (mh_salt (header m))
    /\ reads s5 (Some (ib_nonce ib)) 24 (mh_nonce (header m)).
Proof.
  destruct ib as [k sg o1 o2 o3 o4]. intros [Ho1 Ho2 Ho3 [p4 Ho4] Hnd] Hh [_ _ Lid _ _ Lsalt Lnonce _ _ _].
  cbn [ib_session_id ib_salt ib_nonce ib_params] in *.
  rewrite !NoDup_cons, !not_elem_of_cons in Hnd. destruct Hnd as ((N12 & N13 & N14 & _) & (N23 & N24 & _) & (N34 & _) & _).
  destruct (exec_field (fun m => mh_session_id (header m)) s1 h m bytes o1 16 Hh)
    as [r1 E1]; [done|unfold len; lia|lia|].
  set (s2 := put o1 _ s1) in *.
  destruct (exec_field (fun m => mh_salt (header m)) s2 h m bytes o2 32 Hh)
    as [r2 E2]; [by apply buffer_put|unfold len; lia|lia|].
  set (s3 := put o2 _ s2) in *.
  destruct (exec_field (fun m => mh_nonce (header m)) s3 h m bytes o3 24 Hh)
    as [r3 E3]; [by apply buffer_put, buffer_put|unfold len; lia|lia|].
  set (s4 := put o3 _ s3) in *.
  assert (Hc4 : mem s4 !! o4 = Some (CParams p4)) by (cbn; by rewrite !lookup_insert_ne by done).
  exists s2, s3, s4. eexists. split; [exact E1|]. split; [exact E2|]. split; [exact E3|].
  split; [by apply (exec_params checks s4 h m bytes o4 p4)|]. split; [done|].
  split; [by apply lookup_insert_eq|].
  split_and!; eapply reads_start; try (unfold len; lia);
    cbn; repeat (rewrite lookup_insert_ne by done); apply lookup_insert_eq.
Qed.

(** A manifest that verifies opens a decoder on its own parameters. *)
Lemma opens_verified checks key signer ib b n bytes s m keys d0 :
  ready s key signer ib -> reads s b n bytes -> wf_mheader (header m) ->
  verify_manifest_with signer bytes None Policy_default
    = Ok {| vm_manifest := m; vm_signer := signer |} ->
  TransferKeys_derive key (Salt_from_bytes (mh_salt (header m))) = Ok keys ->
  PipelineDecoder_new checks (mh_session_id (header m))
    (to_session_params (of_session_params (mh_params (header m)))) (session_key keys) = Ok d0 ->
  exists h d s0 s', opens checks ib b n s h d s'
    /\ heap s' = <[d := ODecoder d0]> (heap s0) /\ heap s' !! h = Some (OManifest m bytes)
    /\ holds s' (inbox_side ib) {| ag_key := key; ag_session_id := mh_session_id (header m);
         ag_salt := mh_salt (header m); ag_nonce := mh_nonce (header m) |}.
Proof.
  intros Hr Hb Hwf Hv Hkeys Hd0. destruct (re_places _ _ _ _ Hr) as [P1 P2 P3 P4 Pd].
  destruct (exec_verify checks s (ib_signer ib) signer b n bytes None None
    (re_signer _ _ _ _ Hr) Hb eq_refl) as (q & s1 & He1 & Hq).
  rewrite Hv in Hq. destruct Hq as (h & -> & Hh & Hfresh & Hm1). cbn [vm_manifest] in Hh.
  assert (Hh1 : heap s1 !! h = Some (OManifest m bytes)) by (by rewrite Hh, lookup_insert_eq).
  destruct (getters_run checks s1 ib h m bytes) as (s2 & s3 & s4 & s5 & E2 & E3 & E4 & E5 & Hh5 & Hp5 & R1 & R2 & R3);
    [split; unfold buffer in *; by rewrite ?Hm1|done|done|].
  set (ag := {| ag_key := key; ag_session_id := mh_session_id (header m);
    ag_salt := mh_salt (header m); ag_nonce := mh_nonce (header m) |}).
  assert (Hk5 : heap s5 !! ib_key ib = Some (OKey key)).
  { rewrite Hh5, Hh, lookup_insert_ne; [by apply Hr|]. intros ->.
    pose proof (re_key _ _ _ _ Hr). congruence. }
  assert (Hs5 : holds s5 (inbox_side ib) ag) by (by split).
  destruct (exec_open checks s5 (inbox_side ib) ag _ keys d0 Hs5 Hkeys Hd0) as (d & s6 & Ho & Hf & Hh6 & Hm6).
  exists h, d, s5, s6. split; [|split; [done|split]].
  - exists s1, s2, s3, s4, s5. eexists. split_and!; done.
  - rewrite Hh6, lookup_insert_ne; [by rewrite Hh5|]. intros ->. rewrite Hh5 in Hf. congruence.
  - apply (holds_opened s5 s6 _ _ _ _ Hs5 Hf Hh6 Hm6).
Qed.

End opening.

Section publishing.
Context `{Blake3Laws} `{RaptorQLaws} `{Ed25519Laws} `{Getrandom} `{AeadLaws} `{Qrcodegen}.

Lemma publishable_sum es :
  publishable es -> 0 <= zsum (Manifest.size <$> es) < 2 ^ 64.
Proof.
  intros [He _ _ Ht]. split; [|eapply Z.le_lt_trans; [exact Ht|reflexivity]].
  apply zsum_nonneg, Forall_fmap. eapply Forall_impl; [exact He|]. intros x [_ _ [] _]. done.
Qed.

(** What a sender publishes is admissible under the default policy. *)
Lemma published_admissible sid salt nonce params es sg :
  publishable es -> validate params = Ok tt ->
  admissible Policy_default (signed (Manifest_build (ManifestHeader_new sid es
    (zsum (Manifest.size <$> es)) salt nonce params) es (zeros 64)) sg).
Proof.
  intros Hes Hv. pose proof (publishable_sum es Hes) as Hsum. destruct Hes as [He Hc Hs Ht].
  pose proof (len_nonneg es). unfold MAX_FILE_COUNT in Hc. split; cbn; try done; try lia.
  - apply as_u_id. unfold urange. lia.
  - eapply Forall_impl; [exact He|]. by intros x [].
Qed.

(** Parameters that seal validate. *)
Lemma sealed_validates checks ag params payload frames keys c pl :
  sealed checks ag params payload frames keys c pl ->
  validate (to_session_params (resolved params c)) = Ok tt.
Proof.
  intros [_ _ Hn _]. unfold Pipeline_new, validate_params in Hn.
  apply bind_Ok in Hn as ([] & Hv & _). apply bind_Ok in Hv as ([] & Hv & _).
  by apply map_err_Ok in Hv.
Qed.

End publishing.

Lemma demo_publisher_holds : holds demo_publisher demo_side demo_agreement.
Proof. split; [reflexivity|intros e; reflexivity..]. Qed.

Lemma demo_publishes :
  Forall2 (describes demo_publisher) [demo_raw] [demo_entry] /\ publishable [demo_entry].
Proof.
  split.
  - repeat constructor. exists 6%positive, (name demo_entry ++ [Byte.x00]). split_and!; reflexivity.
  - split; [constructor; [apply demo_entry_wf|constructor]|vm_compute; discriminate
      |constructor; [vm_compute; discriminate|constructor]|vm_compute; discriminate].
Qed.

Lemma demo_receiver_ready bytes :
  ready (demo_receiver bytes) (ag_key demo_agreement) (public (from_seed (zeros 32))) demo_inbox
  /\ reads (demo_receiver bytes) (Some 1%positive) (len bytes) bytes.
Proof.
  split.
  - split; [reflexivity..|]. split; [| | |by eexists|by apply (bool_decide_eq_true_1 (NoDup _))];
      eexists; (split; [reflexivity|discriminate]).
  - intros e. unfold slice_from. cbn [mem with_error demo_receiver].
    change (list_to_map _ !! 1%positive) with (Some (CBytes bytes)). cbn iota.
    case_decide as Hz; [by destruct bytes|]. rewrite decide_True by lia.
    unfold len. by rewrite Nat2Z.id, firstn_all.
Qed.

(** ** Properties *)

(** C1: a whole session through the library. A sender seals a payload with
    [dhow_encoder_new] and builds a manifest of its files, the default policy
    permitting, with the parameters the encoder resolved: it always gets a
    handle. A receiver that has nothing but the operator key, the sender's
    public identity and the manifest's bytes makes its calls: it verifies the
    manifest, copies the session identifier, salt, nonce and parameters out of
    it, and opens a decoder on them. Every one of these calls succeeds; the
    manifest it then holds lists exactly the sender's files; and the decoder
    delivers: out of any byte strings it turns down it accepts exactly the
    sender's frames, and with all of them it finishes with the payload. *)
Theorem abi_session `{Blake3Laws} `{RaptorQLaws} `{Ed25519Laws} `{Getrandom} `{AeadLaws}
    `{Qrcodegen} checks ag sA sideA params pp n payload sA1 e frames ps sA2 i idk ep raw es :
  holds sA sideA ag -> reads sA pp n payload -> wf_dparams params -> len payload < 2 ^ 63 ->
  exec checks (EncoderNew (Some (sd_key sideA)) (sd_session_id sideA) (sd_salt sideA)
    (sd_nonce sideA) params pp n) sA = Returns sA1 (RPtr (Some e)) ->
  heap sA1 !! e = Some (OEncoder frames ps) ->
  holds sA2 sideA ag -> heap sA2 !! i = Some (OIdentity idk) ->
  mem sA2 !! ep = Some (CEntries raw) -> Forall2 (describes sA2) raw es -> publishable es ->
  exists l sA3 bytes,
    exec checks (ManifestBuild (Some i) (sd_session_id sideA) (sd_salt sideA) (sd_nonce sideA) ps
      (Some ep) (len raw)) sA2 = Returns sA3 (RPtr (Some l))
    /\ outputs sA3 (ManifestBytes (Some l)) bytes
    /\ fetches checks sA3 (ManifestBytes (Some l)) bytes
    /\ forall sB ib b, ready sB (ag_key ag) (public idk) ib -> reads sB b (len bytes) bytes ->
       exists h m d d0 sB1, opens checks ib b (len bytes) sB h d sB1
         /\ heap sB1 !! h = Some (OManifest m bytes) /\ entries m = es
         /\ holds sB1 (inbox_side ib) ag
         /\ delivers checks ag (inbox_side ib) frames payload d d0 sB1.
Proof.
  intros HA Hpay Hp Hlen He Hps HA2 Hi Hep Hes Hpub.
  destruct (exec_sealed _ _ _ _ _ _ _ _ _ _ HA Hpay He) as (frames' & keys & c & pl & Hs & Hh).
  rewrite Hps in Hh. injection Hh as <- ->. destruct (holds_lengths _ _ _ HA) as [Hs16 Hn24].
  destruct (sealed_opens _ _ _ _ _ _ _ _ Hn24 Hs) as [Hc _].
  pose proof (wf_resolved params c Hp ltac:(lia)) as Hwf.
  pose proof (publishable_sum es Hpub) as Hsum.
  destruct HA2 as [_ Hsid Hsalt Hnonce].
  destruct (exec_build checks sA2 i idk _ _ _ _ _ _ (resolved params c) ep raw es Hi Hsid Hsalt
    Hnonce Hwf Hep Hes (pu_entries _ Hpub) (pu_count _ Hpub) ltac:(lia))
    as (l & sA3 & Hb & Hh3 & Hmw & Hv).
  set (m := signed _ _) in *. exists l, sA3, (Manifest_to_vec m). split; [done|].
  assert (Hout : outputs sA3 (ManifestBytes (Some l)) (Manifest_to_vec m))
    by (eapply (Out_manifest _ l m); by rewrite Hh3, lookup_insert_eq).
  split; [exact Hout|]. split; [by apply outputs_fetches|].
  intros sB ib b Hr Hbytes.
  assert (Hver : verify_manifest_with (public idk) (Manifest_to_vec m) None Policy_default
      = Ok {| vm_manifest := m; vm_signer := public idk |}).
  { apply verify_manifest_with_Ok. split; [done|]. split; [done|]. split; [done|].
    by apply published_admissible; [|eapply sealed_validates]. }
  destruct (sealed_receiver _ _ _ _ _ _ _ _ Hs16 Hn24 Hp Hlen Hs) as [d0 Hd0].
  destruct (opens_verified checks (ag_key ag) (public idk) ib b _ _ sB m keys d0 Hr Hbytes
    (wfm_header _ Hmw) Hver (se_keys _ _ _ _ _ _ _ _ Hs) Hd0)
    as (h & d & s0 & sB1 & Ho & HhB & Hm & HsB).
  exists h, m, d, d0, sB1. split; [done|]. split; [done|]. split; [done|].
  split; [by destruct ag|]. by apply (sealed_delivers checks ag _ params payload _ keys c pl d0 s0).
Qed.

Lemma abi_session_witness :
  exists sA1 frames ps l sA3 bytes h d d0 sB1,
    exec true demo_seal demo_lib = Returns sA1 (RPtr (Some 2%positive))
    /\ exec true (ManifestBuild (Some 2%positive) (Some 1%positive) (Some 1%positive)
         (Some 1%positive) ps (Some 5%positive) 1) demo_publisher = Returns sA3 (RPtr (Some l))
    /\ opens true demo_inbox (Some 1%positive) (len bytes) (demo_receiver bytes) h d sB1
    /\ delivers true demo_agreement (inbox_side demo_inbox) frames demo_payload d d0 sB1.
Proof.
  destruct demo_sealed as (sA1 & frames & ps & f & He & _ & _ & Hl & _).
  destruct (abi_session true demo_agreement demo_lib demo_side demo_dparams (Some 2%positive) 2
    demo_payload sA1 2%positive frames ps demo_publisher 2%positive (from_seed (zeros 32))
    5%positive [demo_raw] [demo_entry] demo_holds (fun _ => eq_refl) demo_dparams_wf eq_refl He Hl
    demo_publisher_holds eq_refl eq_refl (proj1 demo_publishes) (proj2 demo_publishes))
    as (l & sA3 & bytes & Hb & _ & _ & Hall).
  destruct (demo_receiver_ready bytes) as [Hr Hbytes].
  destruct (Hall (demo_receiver bytes) demo_inbox (Some 1%positive) Hr Hbytes)
    as (h & m & d & d0 & sB1 & Ho & _ & _ & _ & Hd).
  exists sA1, frames, ps, l, sA3, bytes, h, d, d0, sB1. auto.
Defined.
