(* ===== verification/Reference.v ===== *)
(** * The reference transcoder (dhow-ffi/examples/reference.rs)

    A line-oriented program that seals and opens a transfer through the library
    instead of the C ABI, so that the two can be compared. *)

From S2P Require Import Prelude Errors CryptErrors Display Text Utf8 Primitives Instances.
From S2P Require Import Digest Chunker Frame Session Pipeline Transfer Fs Kdf Key Aead.
From S2P Require Import Manifest Abi AbiKeys AbiCodec AbiManifest AbiLogic AbiSystem AbiSound AbiOutput.
From S2P Require Import AbiTransfer.
From Stdlib Require Strings.String.
From stdpp Require Import gmap.

#[local] Open Scope Z_scope.

(** ** Definitions *)

(** *** Fields *)

(** [hex] and [hex_or_dash] *)
Definition hex (bytes : list byte) : list byte := concat (hex2 <$> bytes).

Definition dash : list byte := [byte.of_Z 45].

Definition hex_or_dash (bytes : list byte) : list byte :=
  if decide (bytes = []) then dash else hex bytes.

(** The pair of digits of [unhex] at offset [i]. *)
Definition unhex_at (s : list byte) (i : nat) : outcome message byte :=
  pair ← str_slice i (i + 2) s;
  byte.of_Z <$> from_str_radix 16 8 pair.

(** [unhex] *)
Definition unhex (s : list byte) : outcome message (list byte) :=
  if decide ((length s mod 2 <> 0)%nat) then Err [Txt "odd hex length"]
  else traverse (unhex_at s) ((fun k => (2 * k)%nat) <$> seq 0 (length s / 2)).

(** [fixed::<n>] *)
Definition fixed (n : nat) (field : list byte) (what : string) : outcome message (list byte) :=
  bytes ← map_err (fun e => Txt "bad " :: Txt what :: Txt ": " :: e) (unhex field);
  if decide (length bytes = n) then Ok bytes
  else Err [Txt what; Txt " must be "; Dec (Z.of_nat n); Txt " bytes"].

(** [field.parse::<u32>().map_err(|_| text)] *)
Definition number (field : list byte) (text : string) : outcome message Z :=
  map_err (fun _ => [Txt text]) (from_str_radix 10 32 field).

(** *** A job *)

(** The fields of a line, parsed. *)
Record Job := {
  jb_key_path : list byte;
  jb_session_id : list byte;
  jb_salt : list byte;
  jb_nonce : list byte;
  jb_symbol_size : Z;
  jb_block_count : Z;
  jb_source : Z;
  jb_total : Z;
  jb_payload : list byte;
}.

(** The first half of [run_job]. *)
Definition parse_job (line : list byte) : outcome message Job :=
  match split_whitespace line with
  | [key_path; session_id; salt; nonce; symbol_size; block_count; source; total; payload] =>
    session_id ← fixed 16 session_id "session id";
    salt ← fixed 32 salt "salt";
    nonce ← fixed 24 nonce "nonce";
    symbol_size ← number symbol_size "bad symbol size";
    block_count ← number block_count "bad block count";
    source ← number source "bad source symbol count";
    total ← number total "bad total symbol count";
    payload ←
      (if decide (payload = dash) then Ok []
       else map_err (fun e => Txt "bad payload: " :: e) (unhex payload));
    Ok {| jb_key_path := key_path; jb_session_id := session_id; jb_salt := salt;
          jb_nonce := nonce; jb_symbol_size := symbol_size; jb_block_count := block_count;
          jb_source := source; jb_total := total; jb_payload := payload |}
  | fields => Err [Txt "expected 9 fields, got "; Dec (len fields)]
  end.

Record JobResult := {
  jr_payload_size : Z;
  jr_payload_digest : list byte;
  jr_frames : list (list byte);
  jr_decoded : list byte;
}.

Section reference.
Context `{Blake3} `{RaptorQ} `{Ed25519} `{Getrandom} `{Aead}.
Variable checks : bool.

Definition job_params (j : Job) (ciphertext : list byte) : SessionParams :=
  {| payload_size := len ciphertext; block_count := jb_block_count j;
     symbol_size := jb_symbol_size j; source_symbols_per_block := jb_source j;
     total_symbols_per_block := jb_total j; raptorq := {| z := 1; n := 1; psi := 1 |};
     payload_digest := blake3_digest ciphertext |}.

(** [for frame in &frames { let _ = decoder.accept(frame); }] *)
Fixpoint accept_all (frames : list (list byte)) (decoder : PipelineDecoder)
    : outcome message PipelineDecoder :=
  match frames with
  | [] => Ok decoder
  | frame :: frames' =>
    match accept checks frame decoder with
    | (_, Panic) => Panic
    | (decoder', _) => accept_all frames' decoder'
    end
  end.

(** The second half of [run_job]: seal, then open again. *)
Definition transcode (j : Job) (key : OperatorKey) : outcome message JobResult :=
  let sid := jb_session_id j in
  let nonce := Nonce_from_bytes (jb_nonce j) in
  keys ← map_err AeadError_display (TransferKeys_derive key (Salt_from_bytes (jb_salt j)));
  ciphertext ← map_err AeadError_display (encrypt_payload keys nonce sid (jb_payload j));
  let params := job_params j ciphertext in
  pipeline ← map_err CodecError_display (Pipeline_new checks sid params (session_key keys));
  frames ← map_err CodecError_display (encode_to_bytes checks pipeline ciphertext);
  decoder ← map_err CodecError_display
    (PipelineDecoder_new checks sid params (session_key keys));
  decoder ← accept_all frames decoder;
  recovered ← map_err CodecError_display (finish decoder);
  decoded ← map_err AeadError_display (decrypt_payload keys nonce sid recovered);
  Ok {| jr_payload_size := payload_size params; jr_payload_digest := payload_digest params;
        jr_frames := frames; jr_decoded := decoded |}.

(** [run_job] *)
Definition run_job (line : list byte) : action World message JobResult :=
  j ← lift (parse_job line);
  key ← map_err_io (fun e => Txt "loading " :: Bytes (jb_key_path j) :: Txt ": "
                               :: KeyError_display e)
          (load_operator (String.string_of_list_byte (jb_key_path j)));
  lift (transcode j key).

(** *** The program *)

Record Process := {
  ps_world : World;
  ps_out : list byte;
}.

Definition writeln (m : message) : action Process Empty_set unit :=
  modify (fun p => {| ps_world := ps_world p; ps_out := ps_out p ++ render m ++ [newline] |}).

Definition on_world {E A} (m : action World E A) : action Process Empty_set (E + A) := fun p =>
  let '(w, r) := m (ps_world p) in
  ({| ps_world := w; ps_out := ps_out p |},
   match r with Ok a => Ok (inr a) | Err e => Ok (inl e) | Panic => Panic end).

(** [for frame in &result.frames] *)
Fixpoint write_frames (frames : list (list byte)) : action Process Empty_set unit :=
  match frames with
  | [] => mret tt
  | frame :: frames' => _ ← writeln [Txt "frame "; Bytes (hex frame)]; write_frames frames'
  end.

Definition write_result (r : message + JobResult) : action Process Empty_set unit :=
  match r with
  | inr result =>
    _ ← writeln [Txt "size "; Dec (jr_payload_size result)];
    _ ← writeln [Txt "digest "; Bytes (hex (jr_payload_digest result))];
    _ ← writeln [Txt "frames "; Dec (len (jr_frames result))];
    _ ← write_frames (jr_frames result);
    writeln [Txt "decoded "; Bytes (hex_or_dash (jr_decoded result))]
  | inl message => writeln (Txt "error " :: message)
  end.

(** The loop of [main] over the lines that are left, [index] of which were
    read. *)
Fixpoint main_loop (index : Z) (ls : list (list byte)) : action Process Empty_set unit :=
  match ls with
  | [] => mret tt
  | line :: ls' =>
    line ← lift (match from_utf8 line with Some line => Ok line | None => Panic end);
    let line := trim line in
    _ ← (if decide (line = []) then mret tt
         else
           _ ← writeln [Txt "job "; Dec index];
           r ← on_world (run_job line);
           _ ← write_result r;
           writeln [Txt "end"]);
    main_loop (index + 1) ls'
  end.

(** [main] *)
Definition main (stdin : list byte) (w : World) : Process * outcome Empty_set unit :=
  main_loop 0 (lines stdin) {| ps_world := w; ps_out := [] |}.

(** *** Specification *)

(** A job the protocol can carry. *)
Record wf_job (j : Job) : Prop := {
  wj_path : word (jb_key_path j);
  wj_session_id : length (jb_session_id j) = 16%nat;
  wj_salt : length (jb_salt j) = 32%nat;
  wj_nonce : length (jb_nonce j) = 24%nat;
  wj_symbol_size : urange 32 (jb_symbol_size j);
  wj_block_count : urange 32 (jb_block_count j);
  wj_source : urange 32 (jb_source j);
  wj_total : urange 32 (jb_total j);
}.

(** The line that carries it. *)
Definition job_line (j : Job) : list byte :=
  spaced [jb_key_path j; hex (jb_session_id j); hex (jb_salt j); hex (jb_nonce j);
          show 10 (jb_symbol_size j); show 10 (jb_block_count j); show 10 (jb_source j);
          show 10 (jb_total j); hex_or_dash (jb_payload j)].

(** What sealing alone computes, or the text of the first error. *)
Definition seal (ag : Agreement) (params : DhowSessionParams) (payload : list byte)
    : outcome message (list (list byte) * list byte) :=
  keys ← map_err AeadError_display
    (TransferKeys_derive (ag_key ag) (Salt_from_bytes (ag_salt ag)));
  c ← map_err AeadError_display
    (encrypt_payload keys (Nonce_from_bytes (ag_nonce ag)) (ag_session_id ag) payload);
  pl ← map_err CodecError_display (Pipeline_new checks (ag_session_id ag)
    (to_session_params (resolved params c)) (session_key keys));
  frames ← map_err CodecError_display (encode_to_bytes checks pl c);
  Ok (frames, c).

(** What a job and a key agree on. *)
Definition job_agreement (j : Job) (key : OperatorKey) : Agreement :=
  {| ag_key := key; ag_session_id := jb_session_id j; ag_salt := jb_salt j;
     ag_nonce := jb_nonce j |}.

(** The parameters struct of a caller of the ABI that runs the same job. *)
Record same_params (params : DhowSessionParams) (j : Job) : Prop := {
  sp_block_count : dp_block_count params = jb_block_count j;
  sp_symbol_size : dp_symbol_size params = jb_symbol_size j;
  sp_source : dp_source_symbols_per_block params = jb_source j;
  sp_total : dp_total_symbols_per_block params = jb_total j;
}.

(** What running a parsed job does. *)
Definition job_run (j : Job) : action World message JobResult :=
  key ← map_err_io (fun e => Txt "loading " :: Bytes (jb_key_path j) :: Txt ": "
                               :: KeyError_display e)
          (load_operator (String.string_of_list_byte (jb_key_path j)));
  lift (transcode j key).

(** The jobs in order, each reported under its number. *)
Fixpoint reports (index : Z) (js : list Job) : action Process Empty_set unit :=
  match js with
  | [] => mret tt
  | j :: js' =>
    _ ← writeln [Txt "job "; Dec index];
    r ← on_world (job_run j);
    _ ← write_result r;
    _ ← writeln [Txt "end"];
    reports (index + 1) js'
  end.

(** Sealing the same payload through the boundary and through the library gave
    the same answer. *)
Definition agree (j : Job) (s : Lib) (q : ptr) (r : outcome message JobResult) : Prop :=
  match r with
  | Ok r => exists l ps, q = Some l /\ heap s !! l = Some (OEncoder (jr_frames r) ps)
      /\ dp_payload_size ps = jr_payload_size r /\ dp_payload_digest ps = jr_payload_digest r
      /\ jr_decoded r = jb_payload j
  | Err e => q = None /\ last_error s = e
  | Panic => q = None /\ last_error s = panic_text
  end.

End reference.

(** A job, and a world with its key file. *)
Definition demo_job : Job :=
  {| jb_key_path := text "k"; jb_session_id := zeros 16; jb_salt := zeros 32;
     jb_nonce := zeros 24; jb_symbol_size := dp_symbol_size demo_dparams;
     jb_block_count := dp_block_count demo_dparams;
     jb_source := dp_source_symbols_per_block demo_dparams;
     jb_total := dp_total_symbols_per_block demo_dparams; jb_payload := demo_payload |}.

Definition demo_key_world : World :=
  {| files := {["k"%string := {| mode := 384; content := encode_key_file KOperator (zeros 32) |}]};
     umask := 18; events := []; past := [] |}.

(** ** Lemmas *)

(** *** Fields *)

Lemma hex_app a b : hex (a ++ b) = hex a ++ hex b.
Proof. unfold hex. by rewrite fmap_app, concat_app. Qed.

Lemma length_hex bs : length (hex bs) = (2 * length bs)%nat.
Proof.
  induction bs as [|b bs IH]; [done|]. change (hex (b :: bs)) with (hex2 b ++ hex bs).
  rewrite length_app, length_hex2, IH. cbn. lia.
Qed.

Lemma hex_printable bs : Forall (fun c => 48 <= byte.unsigned c < 128) (hex bs).
Proof.
  induction bs as [|b bs IH]; [done|]. change (hex (b :: bs)) with (hex2 b ++ hex bs).
  apply Forall_app. split; [apply hex2_printable|exact IH].
Qed.

Lemma printable_boundary s i :
  Forall (fun c => 48 <= byte.unsigned c < 128) s -> (i <= length s)%nat ->
  is_char_boundary i s = true.
Proof.
  intros Hs Hi. unfold is_char_boundary. destruct (s !! i) as [b|] eqn:Hb.
  - apply bool_decide_eq_true. rewrite Forall_lookup in Hs. specialize (Hs i b Hb). cbn in Hs. lia.
  - apply lookup_ge_None in Hb. apply bool_decide_eq_true. lia.
Qed.

(** Hexadecimal reads back. *)
Lemma unhex_hex bs : unhex (hex bs) = Ok bs.
Proof.
  pose proof (length_hex bs) as Hl. unfold unhex. rewrite Hl, (Nat.mul_comm 2).
  rewrite decide_False by (rewrite Nat.Div0.mod_mul; lia). rewrite Nat.div_mul by lia.
  apply traverse_Ok, Forall2_same_length_lookup. split; [by rewrite length_fmap, length_seq|].
  intros k i b Hk Hb. rewrite list_lookup_fmap, fmap_Some in Hk. destruct Hk as (k' & Hk & ->).
  apply lookup_seq in Hk as [-> Hlt]. cbn [Nat.add].
  assert (Hs : hex bs = hex (take k bs) ++ hex2 b ++ hex (drop (S k) bs)).
  { rewrite <- (take_drop_middle bs k b Hb) at 1. rewrite hex_app. done. }
  unfold unhex_at, str_slice. rewrite decide_True.
  2: { split; (apply printable_boundary; [apply hex_printable|lia]). }
  rewrite Hs, slice_at; [|rewrite length_hex, length_take; lia|by rewrite length_hex2].
  cbn [mbind outcome_bind]. rewrite from_str_radix_hex2. cbn. by rewrite byte.of_Z_unsigned.
Qed.

Lemma printable_word s : s <> [] -> Forall (fun c => 48 <= byte.unsigned c < 128) s -> word s.
Proof.
  intros Hne Hs. split; [done|]. exists (byte.unsigned <$> s). split.
  - apply utf8_ascii. eapply Forall_impl; [exact Hs|]. cbn. lia.
  - apply Forall_fmap. eapply Forall_impl; [exact Hs|]. cbn. intros c Hc.
    apply bool_decide_eq_false. lia.
Qed.

Lemma hex_word bs : bs <> [] -> word (hex bs).
Proof.
  intros Hne. apply printable_word; [|apply hex_printable]. intros Hh.
  apply (f_equal length) in Hh. rewrite length_hex in Hh. by destruct bs.
Qed.

Lemma show_word z : 0 <= z -> word (show 10 z).
Proof. intros. apply printable_word; [apply show_nonempty|by apply show_printable]. Qed.

Lemma fixed_hex n bs what : length bs = n -> fixed n (hex bs) what = Ok bs.
Proof. intros. unfold fixed. rewrite unhex_hex. cbn. by rewrite decide_True. Qed.

Lemma number_show z text : urange 32 z -> number (show 10 z) text = Ok z.
Proof. intros. unfold number. by rewrite from_str_radix_show. Qed.

Lemma hex_not_dash bs : bs <> [] -> hex bs <> dash.
Proof.
  intros Hne Hd. apply (f_equal length) in Hd. rewrite length_hex in Hd.
  destruct bs; cbn in Hd; [done|lia].
Qed.

Lemma hex_or_dash_word bs : word (hex_or_dash bs).
Proof.
  unfold hex_or_dash. case_decide; [|by apply hex_word]. split; [done|].
  exists [45]. split; [done|by repeat constructor].
Qed.

(** *** Lines *)

(** The fields of a job's line. *)
Lemma job_words j : wf_job j ->
  Forall word [jb_key_path j; hex (jb_session_id j); hex (jb_salt j); hex (jb_nonce j);
    show 10 (jb_symbol_size j); show 10 (jb_block_count j); show 10 (jb_source j);
    show 10 (jb_total j); hex_or_dash (jb_payload j)].
Proof.
  intros [Hp Hs Hsa Hn [? _] [? _] [? _] [? _]].
  assert (Hhex : forall n bs, length bs = S n -> word (hex bs))
    by (intros n [|b bs] Hl; [done|by apply hex_word]).
  repeat (apply Forall_cons; split); try by apply show_word.
  - done.
  - by apply (Hhex 15%nat).
  - by apply (Hhex 31%nat).
  - by apply (Hhex 23%nat).
  - apply hex_or_dash_word.
  - apply Forall_nil_2.
Qed.

(** A line written for a job is parsed as that job. *)
Lemma parse_job_line j : wf_job j -> parse_job (job_line j) = Ok j.
Proof.
  intros Hj. unfold parse_job, job_line. rewrite split_spaced by by apply job_words.
  destruct Hj. rewrite !fixed_hex by done. cbn [mbind outcome_bind].
  rewrite !number_show by done. cbn [mbind outcome_bind]. unfold hex_or_dash.
  destruct (decide (jb_payload j = [])) as [He|Hne].
  - rewrite decide_True by done. cbn. rewrite <- He. by destruct j.
  - rewrite decide_False, unhex_hex by by apply hex_not_dash. by destruct j.
Qed.

(** A byte of one character only. *)
Lemma encode_ascii c b : scalar c -> b ∈ utf8_encode c -> byte.unsigned b < 128 -> byte.unsigned b = c.
Proof.
  intros Hc Hb. unfold scalar in Hc. unfold utf8_encode in Hb. div64 c. div64 (c / 64).
  div64 (c / 64 / 64). rewrite (Z.div_div c 64 64) in * by lia. change (64 * 64) with 4096 in *.
  rewrite (Z.div_div c 4096 64) in * by lia. change (4096 * 64) with 262144 in *.
  repeat case_decide; rewrite ?elem_of_cons, elem_of_nil in Hb; intuition subst;
    rewrite unsigned_of_Z_small in * by lia; lia.
Qed.

Lemma word_printing w b : word w -> b ∈ w -> byte.unsigned b <> 10 /\ byte.unsigned b <> 13.
Proof.
  intros (_ & cs & Hd & Hcs) Hb. apply utf8_decode_iff in Hd as [Hs ->].
  apply elem_of_concat in Hb as (e & Hb & He). apply list_elem_of_fmap in He as (c & -> & Hc).
  rewrite Forall_forall in Hs, Hcs. specialize (Hs c Hc). specialize (Hcs c Hc). cbn in Hcs.
  apply bool_decide_eq_false in Hcs.
  split; intros Heq; assert (byte.unsigned b = c) by (apply encode_ascii; [done|done|lia]); lia.
Qed.

Lemma spaced_printing ws b :
  Forall word ws -> b ∈ spaced ws -> byte.unsigned b <> 10 /\ byte.unsigned b <> 13.
Proof.
  induction 1 as [|w ws Hw Hws IH]; [by intros ?%elem_of_nil|].
  destruct ws as [|w' ws]; [by apply word_printing|]. cbn [spaced]. intros Hb.
  apply elem_of_app in Hb as [Hb|Hb]; [by eapply word_printing|].
  apply elem_of_cons in Hb as [->|Hb]; [by rewrite unsigned_of_Z_small by lia|by apply IH].
Qed.

Lemma job_line_printing j :
  wf_job j -> (newline ∉ job_line j) /\ last (job_line j) <> Some carriage_return.
Proof.
  intros Hj. split.
  - intros Hb. by apply spaced_printing in Hb as [? _]; [|by apply job_words].
  - intros Hl. apply last_Some_elem_of in Hl.
    by apply spaced_printing in Hl as [_ ?]; [|by apply job_words].
Qed.

(** *** Sealing through the boundary and through the library *)

Section both.
Context `{Blake3} `{RaptorQ} `{Ed25519} `{Getrandom} `{Aead} `{Qrcodegen}.

(** [dhow_encoder_new] on live handles and readable buffers is [seal], with a
    handle for its result, the last error for its error, and the guard's text
    for its panic. *)
Lemma exec_seal checks s sd ag params pp n payload :
  holds s sd ag -> reads s pp n payload ->
  exists s' r, exec checks (EncoderNew (Some (sd_key sd)) (sd_session_id sd) (sd_salt sd)
      (sd_nonce sd) params pp n) s = Returns s' (RPtr r)
    /\ match seal checks ag params payload with
       | Ok (frames, c) => exists l, r = Some l
           /\ heap s' = <[l := OEncoder frames (resolved params c)]> (heap s)
       | Err e => r = None /\ s' = with_error e s
       | Panic => r = None /\ s' = with_error panic_text s
       end.
Proof.
  intros [Hk Hsid Hsalt Hnonce] Hpay.
  destruct (wp_Returns (exec checks (EncoderNew (Some (sd_key sd)) (sd_session_id sd)
      (sd_salt sd) (sd_nonce sd) params pp n)) (fun s' r => exists q, r = RPtr q
    /\ match seal checks ag params payload with
       | Ok (frames, c) => exists l, q = Some l
           /\ heap s' = <[l := OEncoder frames (resolved params c)]> (heap s)
       | Err e => q = None /\ s' = with_error e s
       | Panic => q = None /\ s' = with_error panic_text s
       end) s) as (s' & r & He & q & -> & Hq); [|by exists s', q].
  cbn [exec]. unfold dhow_encoder_new. do 4 abi_step.
  do 4 (apply wp_bind; eapply wp_reads; [eassumption|]; cbn beta iota).
  apply wp_bind. eapply wp_deref_key_known; [exact Hk|]. cbn beta. unfold seal.
  repeat abi_step; eexists; (split; [reflexivity|]);
    repeat match goal with
    | E : ?m' = _ |- context [map_err _ ?m] =>
        change m with m'; rewrite E; clear E; cbn [map_err mbind outcome_bind]
    end; eauto.
Qed.

End both.

Section delivery.
Context `{Blake3Laws} `{RaptorQLaws} `{Ed25519} `{Getrandom} `{AeadLaws}.

Lemma accept_all_receive checks frames d d' acc :
  receive checks frames d = Some (d', acc) -> accept_all checks frames d = Ok d'.
Proof.
  revert d d' acc. induction frames as [|f fs IH]; intros d d' acc; [by intros [= <- _]|].
  cbn [receive accept_all]. destruct (accept checks f d) as [d1 [o|e|]]; [| |done].
  - destruct (receive checks fs d1) as [[d2 acc2]|] eqn:Hr; [|done].
    cbn. intros [= <- _]. by eapply IH.
  - intros Hr. by eapply IH.
Qed.

Lemma job_params_resolved params j c :
  same_params params j -> to_session_params (resolved params c) = job_params j c.
Proof. intros [Hb Hs Hso Ht]. unfold job_params. by rewrite <- Hb, <- Hs, <- Hso, <- Ht. Qed.

Lemma wf_job_params j c : wf_job j -> len c < 2 ^ 64 -> wf_params (job_params j c).
Proof.
  intros [] Hc. pose proof (len_nonneg c).
  split; cbn; try done; try apply length_blake3_digest; unfold urange; lia.
Qed.

(** Opening what was sealed, all frames in order. *)
Lemma transcode_opens checks keys nonce sid p c params pl frames :
  wf_keys keys -> length nonce = 24%nat -> length sid = 16%nat -> wf_params params ->
  encrypt_payload keys (Nonce_from_bytes nonce) sid p = Ok c ->
  payload_digest params = blake3_digest c ->
  Pipeline_new checks sid params (session_key keys) = Ok pl ->
  encode_to_bytes checks pl c = Ok frames ->
  exists d0 d, PipelineDecoder_new checks sid params (session_key keys) = Ok d0
    /\ accept_all checks frames d0 = Ok d /\ finish d = Ok c
    /\ decrypt_payload keys (Nonce_from_bytes nonce) sid c = Ok p.
Proof.
  intros Hk Hn Hs Hp Hc Hdig Hpl Hfr. destruct (receiver_new _ _ _ _ _ _ _ Hs Hp Hpl Hfr) as [d0 Hd0].
  destruct (receive_sent checks sid params _ pl c frames d0 frames Hs Hp Hpl Hfr Hd0)
    as (d & Hr & Hok & Hrec & Ep & Ek & Hlen & Hss & Henc); [done|].
  exists d0, d. split; [done|]. split; [by eapply accept_all_receive|]. split.
  - apply (covered_finish d frames c Hok); rewrite ?Ep; try done.
    rewrite Ek. intros i q Hi Hd Hq. by apply (frames_cover checks sid params _ pl c).
  - apply encrypt_payload_Ok in Hc; [|done]. apply decrypt_payload_Ok; [done|done|].
    destruct Hk. by apply aead_roundtrip.
Qed.

(** A job is what sealing computes, and the payload again. *)
Lemma transcode_seal checks j key params :
  wf_job j -> same_params params j -> len (jb_payload j) < 2 ^ 63 ->
  transcode checks j key
  = ('(frames, c) ← seal checks (job_agreement j key) params (jb_payload j);
     Ok {| jr_payload_size := len c; jr_payload_digest := blake3_digest c;
           jr_frames := frames; jr_decoded := jb_payload j |}).
Proof.
  intros Hj Hp Hlen. unfold transcode, seal. cbn [ag_key ag_session_id ag_salt ag_nonce job_agreement].
  destruct (TransferKeys_derive _ _) as [keys|e|] eqn:Hk; cbn [map_err mbind outcome_bind]; [|done..].
  destruct (encrypt_payload _ _ _ _) as [c|e|] eqn:Hc; cbn [map_err mbind outcome_bind]; [|done..].
  rewrite (job_params_resolved params j c Hp).
  destruct (Pipeline_new _ _ _ _) as [pl|e|] eqn:Hpl; cbn [map_err mbind outcome_bind]; [|done..].
  destruct (encode_to_bytes _ _ _) as [frames|e|] eqn:Hfr; cbn [map_err mbind outcome_bind]; [|done..].
  pose proof (derived_keys _ _ _ Hk) as Hw. pose proof (wj_nonce j Hj) as Hn.
  assert (Hcl : len c = len (jb_payload j) + 16).
  { apply encrypt_payload_Ok in Hc; [|done]. by rewrite (aead_encrypt_length _ _ _ _ _ Hc). }
  destruct (transcode_opens checks keys (jb_nonce j) (jb_session_id j) (jb_payload j) c
    (job_params j c) pl frames Hw Hn (wj_session_id j Hj)) as (d0 & d & -> & Hd & Hf & Ho);
    [apply wf_job_params; [done|lia]|done|done|done|done|].
  cbn [map_err mbind outcome_bind]. rewrite Hd. cbn [map_err mbind outcome_bind].
  rewrite Hf. cbn [map_err mbind outcome_bind]. rewrite Ho. done.
Qed.

End delivery.

(** *** The program *)

Section program.
Context `{Blake3} `{RaptorQ} `{Ed25519} `{Getrandom} `{Aead}.

Lemma run_job_line checks j w : wf_job j -> run_job checks (job_line j) w = job_run checks j w.
Proof. intros Hj. unfold run_job. rewrite bind_lift, parse_job_line by done. done. Qed.

Lemma job_line_text j :
  wf_job j -> from_utf8 (job_line j) = Some (job_line j) /\ trim (job_line j) = job_line j
  /\ job_line j <> [].
Proof.
  intros Hj. pose proof (job_words j Hj) as Hw. split; [|split].
  - apply from_utf8_Some. split; [done|]. by destruct (spaced_chars _ Hw).
  - by apply trim_spaced.
  - intros He. apply (f_equal length) in He. unfold job_line in He. cbn [spaced] in He.
    rewrite length_app in He. cbn [length] in He. lia.
Qed.

Lemma main_loop_reports checks js : forall index p,
  Forall wf_job js -> main_loop checks index (job_line <$> js) p = reports checks index js p.
Proof.
  induction js as [|j js IH]; intros index p Hjs; [done|].
  apply Forall_cons in Hjs as [Hj Hjs]. cbn [fmap list_fmap main_loop reports].
  destruct (job_line_text j Hj) as (Hu & Ht & Hne). rewrite Hu, bind_lift. cbn beta iota zeta.
  rewrite Ht, decide_False by done. unfold on_world, mbind, action_bind. cbn [writeln modify ps_world].
  rewrite run_job_line by done. destruct (job_run checks j (ps_world p)) as [w' [r|e|]]; [| |done].
  - destruct (write_result _ _) as [p' [[]|[]|]]; [|done]. by apply IH.
  - destruct (write_result _ _) as [p' [[]|[]|]]; [|done]. by apply IH.
Qed.

End program.

(** Slicing two bytes at a time runs into characters that are longer: such a
    field ends the program instead of its job. A sign passes for a digit. *)
Example unhex_panics : unhex (text "a" ++ utf8_encode 233 ++ text "a") = Panic.
Proof. reflexivity. Qed.

Example unhex_signed : unhex (text "+f") = Ok [byte.of_Z 15].
Proof. reflexivity. Qed.

Lemma demo_job_wf : wf_job demo_job.
Proof.
  split; [|reflexivity..|vm_compute; split; [discriminate|reflexivity]
          |vm_compute; split; [discriminate|reflexivity]|vm_compute; split; [discriminate|reflexivity]
          |vm_compute; split; [discriminate|reflexivity]].
  apply printable_word; [discriminate|]. repeat constructor; vm_compute; congruence.
Qed.

(** ** Properties *)

(** C3: the reference and the ABI agree, which is what the differential test
    relies on. For a job whose key file loads, and a caller of the library that
    holds the same key and passes the same session identifier, salt, nonce,
    parameters and payload to [dhow_encoder_new]: the line of the job is parsed
    back; if the reference prints a result, the call returns a handle with
    exactly the frames, the ciphertext length and the digest printed, and the
    payload the reference decoded from them is the payload of the job; if the
    reference prints an error, the call returns null and leaves the same text
    behind; if the reference panics, the call returns null with the text of the
    guard. *)
Theorem reference_differential `{Blake3Laws} `{RaptorQLaws} `{Ed25519} `{Getrandom} `{AeadLaws}
    `{Qrcodegen} checks j w w' key s sd params pp n :
  wf_job j -> len (jb_payload j) < 2 ^ 63 ->
  load_operator (String.string_of_list_byte (jb_key_path j)) w = (w', Ok key) ->
  holds s sd (job_agreement j key) -> reads s pp n (jb_payload j) -> same_params params j ->
  exists r s' q, run_job checks (job_line j) w = (w', r)
    /\ exec checks (EncoderNew (Some (sd_key sd)) (sd_session_id sd) (sd_salt sd) (sd_nonce sd)
         params pp n) s = Returns s' (RPtr q)
    /\ agree j s' q r.
Proof.
  intros Hj Hlen Hload Hs Hp Hparams.
  destruct (exec_seal checks s sd _ params pp n _ Hs Hp) as (s' & q & He & Hq).
  exists (transcode checks j key), s', q. split; [|split; [done|]].
  - rewrite run_job_line by done. unfold job_run.
    erewrite bind_action by (rewrite map_err_io_run, Hload; reflexivity). done.
  - rewrite (transcode_seal checks j key params Hj Hparams Hlen).
    destruct (seal _ _ _ _) as [[frames c]|e|]; cbn [mbind outcome_bind agree].
    + destruct Hq as (l & -> & Hh). exists l, (resolved params c).
      by rewrite Hh, lookup_insert_eq.
    + by destruct Hq as [-> ->].
    + by destruct Hq as [-> ->].
Qed.

Lemma reference_differential_witness :
  exists r s' q, run_job true (job_line demo_job) demo_key_world = (demo_key_world, r)
    /\ exec true (EncoderNew (Some 1%positive) (Some 1%positive) (Some 1%positive)
         (Some 1%positive) demo_dparams (Some 2%positive) 2) demo_lib = Returns s' (RPtr q)
    /\ agree demo_job s' q r.
Proof.
  apply (reference_differential true demo_job demo_key_world demo_key_world {| ok_bytes := zeros 32 |}
    demo_lib demo_side demo_dparams (Some 2%positive) 2 demo_job_wf).
  - vm_compute. reflexivity.
  - vm_compute. reflexivity.
  - exact demo_holds.
  - intros e. reflexivity.
  - split; reflexivity.
Defined.

(** C27: the line protocol. Whatever jobs are written to the reference's input,
    one line each with the byte strings in hexadecimal and a dash for an empty
    payload, it reads exactly those jobs: it runs them in order and reports
    each under its line number, and a job that fails leaves its error in its
    report and does not stop the ones after it. *)
Theorem reference_protocol `{Blake3} `{RaptorQ} `{Ed25519} `{Getrandom} `{Aead} checks js w :
  Forall wf_job js ->
  main checks (concat ((fun j => job_line j ++ [newline]) <$> js)) w
  = reports checks 0 js {| ps_world := w; ps_out := [] |}.
Proof.
  intros Hjs. unfold main. rewrite <- main_loop_reports by done. f_equal.
  rewrite (list_fmap_compose job_line (fun l => l ++ [newline])). apply lines_written.
  apply Forall_fmap. eapply Forall_impl; [exact Hjs|]. apply job_line_printing.
Qed.

Lemma reference_protocol_witness :
  main true (concat ((fun j => job_line j ++ [newline]) <$> [demo_job; demo_job])) empty_world
  = reports true 0 [demo_job; demo_job] {| ps_world := empty_world; ps_out := [] |}.
Proof. apply reference_protocol. repeat (constructor; [exact demo_job_wf|]). constructor. Defined.
